(* ===== verification/_CoqProject ===== *)
-Q . S2P
Prelude.v
GoTime.v
GoSort.v
GoStrings.v
GoNet.v
MonitorModel.v
MonitorPolicy.v
MonitorPolicyFacts.v
MonitorAlert.v
MonitorSteady.v
MonitorScheduler.v
MonitorSchedulerFacts.v
MonitorSystem.v
MonitorInvariant.v
MonitorRun.v
GoPath.v
ConfigTypes.v
ConfigValidate.v
ConfigFacts.v
ResourceValidate.v
ResourceValidateFacts.v
Dns.v
DnsFacts.v
CoreSnapshot.v
GoJson.v
GoYaml.v
GoFs.v
Download.v
DownloadFacts.v
ResourceStore.v
ResourceTransaction.v
ResourceRegistry.v
ResourcePlan.v
ResourcePlanLife.v
FsLogic.v
ResourceStoreFacts.v
ResourceJournal.v
ResourceStates.v
ResourceRecovery.v
ResourcePromote.v
ResourceAtomicity.v
ResourceMetadata.v
ResourceCommit.v
ResourceStaging.v
ResourceClient.v
Filters.v
MihomoRender.v
MihomoRenderFacts.v
MihomoConfined.v
MihomoReports.v
MihomoExample.v
IpcFrame.v
IpcProtocol.v
IpcFacts.v
SubscriptionModel.v
SubscriptionFacts.v
ConfigWrite.v
SubscriptionStore.v
SubscriptionService.v
FsHoare.v
SubscriptionFiles.v
SubscriptionOpen.v
SubscriptionKept.v
SubscriptionSync.v
SubscriptionSelect.v
SubscriptionRecover.v
SubscriptionEntries.v
SubscriptionActivation.v
SubscriptionExample.v
SubscriptionContracts.v
SubscriptionScheduler.v
SubscriptionSchedulerFacts.v
SubscriptionSchedulerRun.v
