(* ===== verification/Prelude.v ===== *)
(** * ClashPulse: a verification development

    ClashPulse supervises a Mihomo proxy: it keeps subscriptions and rule
    resources on disk, renders a configuration from them, measures the latency of
    proxy nodes and switches groups between them, and serves a local interface
    over a socket.  This library models its core logic and proves it correct.
    Names follow the source; a Go method is a function of its receiver, and is
    prefixed by its type or package where two would collide.

    ** How the program is put together

    [app] owns everything.  It loads a configuration ([config]) and keeps the
    store of managed resources ([resources]) and of subscriptions
    ([subscriptions]) up to date through a bounded downloader ([download]); binds
    filters to rule files ([filters]) and DNS settings to a policy ([dns]); renders
    the source profile into the configuration Mihomo runs ([mihomo]); runs the
    latency scheduler
    ([monitor]) whose decisions it applies through Mihomo's controller, and the
    subscription scheduler that dispatches refreshes to workers; and publishes
    snapshots ([core]) to clients over length-prefixed JSON frames
    ([ipc]).

    ** Parts and files

    Shared.
    - [Prelude]: this file; results of fallible code with the notation [≫=] and
      [fail_if], loops that stop at an error, list lemmas, hint database, tactics.
    - [GoTime], [GoStrings], [GoSort], [GoNet], [GoPath], [GoJson], [GoYaml],
      [GoFs]: the parts of the Go library the sources compute with.  Integers keep their
      64-bit width ([wrap64]); strings are bytes; [sort.Slice] and the parsers of
      URLs and addresses are interfaces stating their documented behaviour;
      [GoFs] is a directory tree whose operations may fail or die half way, with
      methods ([Op]) whose receiver survives their errors; [GoYaml] has the values
      a document decodes to and the codec as an interface with its round trip.

    The monitor (src/monitor).
    - [MonitorModel], [MonitorPolicy], [MonitorAlert], [MonitorSteady]:
      model.go, policy.go and steady.go ([Decide], [DecideSteady],
      [UpdateLatencyAlert], [MeasureStability]).
    - [MonitorScheduler]: scheduler.go; [Shared] is what the mutex of [Scheduler]
      guards, [Loop] the variables of [Run].
    - [MonitorSystem]: the running scheduler as labelled steps; a step is what
      happens between two points where another goroutine may take the mutex.
    - [MonitorPolicyFacts], [MonitorSchedulerFacts], [MonitorInvariant],
      [MonitorRun]: the theorems; one inductive invariant carries those on runs.

    Configuration, DNS (src/config/types.go, load.go; src/dns/policy.go).
    - [ConfigTypes], [ConfigValidate], [ConfigFacts]; [Dns], [DnsFacts].

    Downloads (src/download/client.go).
    - [Download], [DownloadFacts]: [Fetch] over a transport that answers each
      request, recorded in the order sent.

    Resources (src/resources).
    - [ResourceValidate], [ResourceValidateFacts]: validate.go.
    - [ResourceStore], [ResourceRegistry]: registry.go and status.go; a [Registry]
      is its limit, its active manifest and its failures.
    - [ResourceTransaction]: transaction.go.
    - [ResourcePlan]: plan.go; a method runs on a [Session] (a registry and a
      plan of it) and changes it whether or not it fails.
    - [FsLogic]: triples [triple P m Q X] for the file operations: [Q] when [m]
      ends, [X] whatever fails or kills it.  [FsHoare] has a finer form, from one
      explicit tree to the next up to scratch files, and [ends] for methods.
    - [ResourceStoreFacts], [ResourceJournal], [ResourceStates],
      [ResourceRecovery], [ResourcePromote], [ResourceMetadata]: triples of the
      operations, between predicates that say where a transaction stands.
    - [ResourceAtomicity]: promotions; [ResourcePlanLife]: the state machine of a
      plan; [ResourceStaging]: what staging yields; [ResourceCommit]: commits with
      their undoing and acceptance; [ResourceClient]: the download client as the
      downloader that staging needs, and a refresh from request to files.

    Filters and the renderer (src/filters/registry.go, src/mihomo/render.go).
    - [Filters]: [Build] and what its registry holds ([registered]).
    - [MihomoRender]: [Render] cut into its parts, the readers of a generated file,
      the override report and the recognition of mode changes.
    - [MihomoRenderFacts]: what each part does and which keys it may touch
      ([Kept]); [MihomoConfined]: controller, inbounds, rules, TUN and DNS of the
      result; [MihomoReports]: what is read back and reported; [MihomoExample]: a
      rendering from beginning to end, and the witnesses.

    Subscriptions (src/subscriptions; src/config/write.go).
    - [SubscriptionModel], [SubscriptionFacts]: records, schedule, usage header.
    - [ConfigWrite]: the atomic writer; [SubscriptionStore]: every method of
      store.go as an [Op]; [SubscriptionService]: model.go and fetch.go, the
      application's callbacks an interface ([App]).
    - [SubscriptionFiles], [SubscriptionOpen]: the tree of a store and what
      [NewStore] makes of it; [SubscriptionKept], [SubscriptionSync]: what an
      operation keeps, and memory against disk; [SubscriptionSelect],
      [SubscriptionRecover], [SubscriptionEntries], [SubscriptionActivation]:
      triples of the operations; [SubscriptionContracts]: the theorems, with
      [SubscriptionExample] for their witnesses.
    - [SubscriptionScheduler]: scheduler.go as labelled steps of the loop and its
      workers; [SubscriptionSchedulerFacts]: the inductive invariant;
      [SubscriptionSchedulerRun]: the theorems on runs.

    The interface (src/core, src/ipc).
    - [CoreSnapshot] (snapshot.go, activation.go), [IpcFrame], [IpcProtocol],
      [IpcFacts].

    ** What the theorems show

    - Decisions.  [Decide] proposes a switch exactly when its specification does;
      a switch improves by the configured gain and is never undone on the same
      samples; over every run of the scheduler every decision is authorised by
      the accepted group state, rounds are answered once and end, histories are
      bounded.  Where the code does otherwise ([generation_race],
      [DecideSteady_cyclic_ranking]) the theorem states that.
    - The store.  Every interruption of an update - an error of any operation, a
      crash at any step, repeated during recovery - leaves the old or the new
      files and manifest after one complete recovery; without faults updates and
      recoveries complete.  Commits that fail are undone, roll back restores,
      finalize installs.  The methods of a plan refine a five-state machine in
      which nothing is committed without a validated candidate.
    - Staging.  Nothing outside the staging directory changes; a staged plan has
      exactly the enabled resources, with bytes that pass validation and pins, and
      is what [Commit] needs.
    - Downloads.  Requests are HTTPS within the redirect limit; validators stay
      with their origin; bodies and error excerpts are bounded.
    - Configuration and DNS.  An accepted configuration is consistent across its
      parts, starts the scheduler, and builds a DNS policy.
    - Rendering.  A rendered configuration has one controller behind a secret, no
      inbound of the profile, the TUN only when asked for and DNS on loopback; the
      managed rules come first, with their providers; what is read back from the
      file is what was rendered; every change is reported but for six keys; a
      change of the mode alone is recognised as one.  [odd_tun_generated] is the
      hole in the check for a profile's own TUN.
    - Subscriptions.  [NewStore] opens exactly the trees a store can leave;
      promotions and deletions are one step under faults and crashes; cleanup
      removes nothing in use; an activation decides for the store and the resource
      registry at once, and a start settles one that was interrupted.  The
      theorems ending in [_closes] are the ways to make a store unopenable.
    - The subscription scheduler.  Nothing is refreshed twice at a time; the timer
      covers every deadline; a loop blocked on a full queue is released; a stopped
      scheduler ends and can be started again.
    - The interface.  Frames round-trip under any cutting of reads and writes;
      accepted commands have the shape of their kind; accepted snapshots fit.

    ** Bounds, fuel and assumptions

    The only fuel is in the loops over redirects ([maxRedirects], the bound of
    the code itself) and over reads, which consume the list of pieces delivered.
    The walks over a directory tree are over finite maps.  A file operation that
    has completed persists: the sources sync files before renaming them and
    directories after, and those syncs are steps that can fail, but the model has
    no cache that a crash could lose.  SHA-256 is an uninterpreted function
    ([GoHash]); theorems that identify files with their hashes say so in their
    hypotheses.  Random names come from the environment.  Windows-only files are
    not modelled; [prepareLegacyRemoval] does nothing elsewhere.  Symbolic links
    are entries the store refuses.

    ** Not modelled

    Third-party and system code: the TOML decoder, the HTTP transport, sockets,
    child processes, polkit, the desktop toolkits; the YAML codec, [os.Lstat] and
    the parsers of package netip are parameters.  Of the repository: the service
    loop of [app] apart from [monitorPolicy], the configuration editors (text edits
    over the decoder's positions) and the file watcher, Mihomo's controller and
    process, the IPC transport and sessions, system proxy and TUN settings (system
    calls and commands), the terminal and desktop interfaces, and the command
    line. *)
From Stdlib Require Export ZArith Lia.
From stdpp Require Export base decidable list gmap strings fin_maps sorting.

#[export] Set Warnings "-clear-no-such-hyp".

(** ** Results

    A Go function that returns [(T, error)] is a function to [result E T]:
    the error branch carries the message class the caller can observe. *)
Inductive result (E A : Type) : Type :=
| Ok (a : A)
| Err (e : E).
Arguments Ok {E A} a.
Arguments Err {E A} e.

#[export] Instance result_ret {E} : MRet (result E) := λ A a, Ok a.
#[export] Instance result_bind {E} : MBind (result E) :=
  λ A B f r, match r with Ok a => f a | Err e => Err e end.

Declare Scope go_scope.
Delimit Scope go_scope with go.

(** [if cond { return err }] at the head of a block. *)
Notation "'fail_if' b 'with' e ';' k" := (if b then Err e else k)
  (at level 100, b at level 99, e at level 99, k at level 200, right associativity) : go_scope.

(** A step that is only enabled under [b]. *)
Notation "'only_if' b ';' k" := (if b then k else None)
  (at level 100, b at level 99, k at level 200, right associativity) : go_scope.

Definition is_ok {E A} (r : result E A) : bool :=
  match r with Ok _ => true | Err _ => false end.

(** A [for range] loop whose body may return an error. *)
Fixpoint each {E A} (f : A → result E unit) (l : list A) : result E unit :=
  match l with
  | [] => Ok tt
  | x :: l => match f x with Ok _ => each f l | Err e => Err e end
  end.

(** The same loop with an accumulator the body updates. *)
Fixpoint fold_each {E A S} (f : S → A → result E S) (s : S) (l : list A) : result E S :=
  match l with
  | [] => Ok s
  | x :: l => match f s x with Ok s' => fold_each f s' l | Err e => Err e end
  end.

(** ** Tactics *)

(** Case analysis on the next scrutinee, keeping its equation. *)
Ltac go_case :=
  match goal with
  | H : context [ match ?x with _ => _ end ] |- _ => destruct x eqn:?; simplify_eq/=
  | |- context [ match ?x with _ => _ end ] => destruct x eqn:?; simplify_eq/=
  end.

(** Boolean guards as propositions. *)
Ltac go_bool :=
  repeat match goal with
  | H : (_ && _)%bool = true |- _ => apply andb_true_iff in H as [? ?]
  | H : (_ || _)%bool = false |- _ => apply orb_false_iff in H as [? ?]
  | H : negb _ = true |- _ => apply negb_true_iff in H
  | H : negb _ = false |- _ => apply negb_false_iff in H
  | H : bool_decide _ = true |- _ => apply bool_decide_eq_true in H
  | H : bool_decide _ = false |- _ => apply bool_decide_eq_false in H
  | H : Z.ltb _ _ = true |- _ => apply Z.ltb_lt in H
  | H : Z.ltb _ _ = false |- _ => apply Z.ltb_ge in H
  | H : Z.leb _ _ = true |- _ => apply Z.leb_le in H
  | H : Z.leb _ _ = false |- _ => apply Z.leb_gt in H
  | H : Z.eqb _ _ = true |- _ => apply Z.eqb_eq in H
  | H : Z.eqb _ _ = false |- _ => apply Z.eqb_neq in H
  end.

Ltac invert H := inversion H; subst; clear H.

(** ** Hint databases

    [go_list]: membership, length and order facts about the list operations
    the components share.  [go_valid]: consequences of passing a validator. *)
Create HintDb go_list.
Create HintDb go_valid.

(** ** Lists *)

(** Go's [len]. *)
Definition len {A} (l : list A) : Z := Z.of_nat (length l).

(** [l[n:]] for [0 <= n <= len l]. *)
Definition slice_from {A} (l : list A) (n : Z) : list A := drop (Z.to_nat n) l.

Lemma len_nonneg {A} (l : list A) : (0 ≤ len l)%Z.
Proof. unfold len. lia. Qed.

Lemma len_nil_iff {A} (l : list A) : len l = 0%Z ↔ l = [].
Proof. unfold len. split; [destruct l; [done|cbn; lia] | by intros ->]. Qed.

Lemma len_app {A} (l k : list A) : len (l ++ k) = (len l + len k)%Z.
Proof. unfold len. rewrite length_app. lia. Qed.

Lemma len_cons {A} (x : A) l : len (x :: l) = (len l + 1)%Z.
Proof. unfold len. cbn. lia. Qed.

Lemma len_snoc {A} (l : list A) x : len (l ++ [x]) = (len l + 1)%Z.
Proof. rewrite len_app, len_cons. unfold len. cbn. lia. Qed.

Lemma len_slice_from {A} (l : list A) n :
  (0 ≤ n ≤ len l)%Z → len (slice_from l n) = (len l - n)%Z.
Proof. unfold len, slice_from. rewrite length_drop. lia. Qed.

Lemma slice_from_0 {A} (l : list A) : slice_from l 0 = l.
Proof. done. Qed.

Lemma elem_of_slice_from {A} (x : A) l n : x ∈ slice_from l n → x ∈ l.
Proof. unfold slice_from. intros H. rewrite <- (take_drop (Z.to_nat n) l). set_solver. Qed.

Lemma last_slice_from {A} (l : list A) n :
  (0 ≤ n < len l)%Z → last (slice_from l n) = last l.
Proof.
  unfold slice_from, len. intros H.
  rewrite <- (take_drop (Z.to_nat n) l) at 2.
  rewrite last_app. destruct (last (drop _ _)) eqn:E; [done|].
  apply last_None in E. apply (f_equal length) in E.
  rewrite length_drop in E. cbn in E. lia.
Qed.

#[export] Hint Resolve len_nonneg elem_of_slice_from : go_list.

Lemma each_ok {E A} (f : A → result E unit) l :
  each f l = Ok tt ↔ ∀ x, x ∈ l → is_ok (f x) = true.
Proof.
  induction l as [|x l IH]; cbn.
  { split; [intros _ y Hy; by apply not_elem_of_nil in Hy | done]. }
  destruct (f x) as [[]|e] eqn:Hx.
  - rewrite IH. setoid_rewrite elem_of_cons. split.
    + intros H y [->|Hy]; [by rewrite Hx | auto].
    + auto.
  - split; [done|]. intros H. specialize (H x ltac:(by left)). by rewrite Hx in H.
Qed.

Lemma fold_each_inv {E A S} (P : list A → S → Prop) (f : S → A → result E S) l :
  (∀ done x s s', P done s → x ∈ l → f s x = Ok s' → P (done ++ [x]) s') →
  ∀ done s s', P done s → fold_each f s l = Ok s' → P (done ++ l) s'.
Proof.
  intros Hstep. induction l as [|x l IH]; intros don s s' HP; cbn.
  - intros [= <-]. by rewrite app_nil_r.
  - destruct (f s x) as [s1|] eqn:Hs; [|done]. intros Hrest.
    change (x :: l) with ([x] ++ l). rewrite (app_assoc don [x] l).
    eapply IH; [|eapply Hstep; [done|by left|done]|done].
    intros d y t t' Hd Hy Ht. eapply Hstep; [done|by right|done].
Qed.

Lemma StronglySorted_nth {A} (R : relation A) (l : list A) d i j :
  StronglySorted R l → (i < j < length l)%nat → R (nth i l d) (nth j l d).
Proof.
  intros Hs. revert i j. induction Hs as [|x l Hs IH Hx]; intros i j Hij; cbn in Hij; [lia|].
  destruct j as [|j]; [lia|]. rewrite Forall_forall in Hx.
  destruct i as [|i]; cbn; [|apply IH; lia].
  apply Hx, list_elem_of_In, nth_In. lia.
Qed.

Lemma len_filter_le {A} (P : A → Prop) `{∀ x, Decision (P x)} (l : list A) : (0 ≤ len (filter P l) ≤ len l)%Z.
Proof. unfold len. pose proof (length_filter P l). lia. Qed.

Lemma len_filter_split {A} (f : A → bool) (l : list A) :
  (len (filter (λ x, f x = true) l) + len (filter (λ x, f x = false) l))%Z = len l.
Proof.
  induction l as [|x l IH]; [done|]. rewrite !filter_cons.
  destruct (f x) eqn:Hx; repeat case_decide; simplify_eq; rewrite !len_cons; lia.
Qed.

(** A [for range] loop over distinct elements: the invariant is indexed by the
    elements already visited. *)
Lemma foldl_inv {A S} (P : list A → S → Prop) (f : S → A → S) l don s :
  NoDup (don ++ l) →
  (∀ d x t, P d t → x ∈ l → x ∉ d → P (d ++ [x]) (f t x)) →
  P don s → P (don ++ l) (foldl f s l).
Proof.
  revert don s. induction l as [|x l IH]; intros don s Hnd Hstep HP; cbn; [by rewrite app_nil_r|].
  change (x :: l) with ([x] ++ l). rewrite (app_assoc don [x] l).
  apply IH; [by rewrite <- app_assoc| |].
  - intros d y t Hd Hy Hn. apply Hstep; [done|by right|done].
  - apply Hstep; [done|by left|]. intros Hx. apply NoDup_app in Hnd as (_ & Hd & _).
    eapply Hd; [done|by left].
Qed.

(** The same with an invariant that ignores what was visited. *)
Lemma foldl_ind {A S} (P : S → Prop) (f : S → A → S) l s :
  (∀ x t, P t → x ∈ l → P (f t x)) → P s → P (foldl f s l).
Proof.
  revert s. induction l as [|x l IH]; intros s Hstep HP; cbn; [done|].
  apply IH; [|apply Hstep; [done|by left]]. intros y t Ht Hy. apply Hstep; [done|by right].
Qed.

Lemma filter_all {A} (P : A → Prop) `{∀ x, Decision (P x)} (l : list A) :
  (∀ x, x ∈ l → P x) → filter P l = l.
Proof.
  induction l as [|x l IH]; intros Hl; [done|]. rewrite filter_cons_True by set_solver.
  by rewrite IH by set_solver.
Qed.

Lemma filter_none {A} (P : A → Prop) `{∀ x, Decision (P x)} (l : list A) :
  (∀ x, x ∈ l → ¬ P x) → filter P l = [].
Proof.
  induction l as [|x l IH]; intros Hl; [done|]. rewrite filter_cons_False by set_solver.
  apply IH. set_solver.
Qed.

Lemma StronglySorted_impl {A} (R S : relation A) (l : list A) :
  (∀ x y, R x y → S x y) → StronglySorted R l → StronglySorted S l.
Proof.
  intros HRS. induction 1 as [|x l Hs IH Hx]; constructor; [done|].
  eapply Forall_impl; [done|]. intros y. apply HRS.
Qed.

(** A validating loop that threads the keys it has seen: [seen] projects them
    from the accumulator, and [Q] is what one accepted element satisfies. *)
Lemma fold_each_unique {E A S} `{Countable K} (seen : S → gset K) (key : A → K) (Q : A → Prop)
    (f : S → A → result E S) :
  (∀ s x s', f s x = Ok s' → (key x ∉ seen s) ∧ seen s' = {[key x]} ∪ seen s ∧ Q x) →
  ∀ l s s', fold_each f s l = Ok s' →
    NoDup (key <$> l) ∧ (∀ x, x ∈ l → (key x ∉ seen s) ∧ Q x) ∧ seen s' = list_to_set (key <$> l) ∪ seen s.
Proof.
  intros Hf. induction l as [|x l IH]; intros s s'; cbn [fold_each fmap list_fmap].
  { intros [= <-]. split_and!; [constructor|set_solver|set_solver]. }
  destruct (f s x) as [s1|] eqn:Hs; [|done]. intros Hrest.
  apply Hf in Hs as (Hn & Hs1 & HQ). apply IH in Hrest as (Hnd & Hl & ->). split_and!.
  - apply NoDup_cons. split; [|done]. intros (y & Hy & Hin)%list_elem_of_fmap.
    destruct (Hl y Hin) as [Hy' _]. rewrite Hs1, <- Hy in Hy'. set_solver.
  - intros y [->|Hy]%elem_of_cons; [done|]. destruct (Hl y Hy) as [Hy' ?]. split; [set_solver|done].
  - rewrite Hs1. cbn. set_solver.
Qed.

(** The same loop with a set as its whole accumulator. *)
Lemma fold_each_set {E A} `{Countable K} (key : A → K) (Q : A → Prop) (f : gset K → A → result E (gset K)) l s' :
  (∀ s x s', f s x = Ok s' → (key x ∉ s) ∧ s' = {[key x]} ∪ s ∧ Q x) →
  fold_each f ∅ l = Ok s' → NoDup (key <$> l) ∧ Forall Q l ∧ s' = list_to_set (key <$> l).
Proof.
  intros Hf Hl. apply (fold_each_unique (λ s, s) key Q f Hf) in Hl as (Hnd & Hq & ->).
  split_and!; [done| |set_solver]. apply Forall_forall. intros x Hx. by apply Hq.
Qed.

Lemma bind_ok {E A B} (r : result E A) (k : A → result E B) b :
  r ≫= k = Ok b ↔ ∃ a, r = Ok a ∧ k a = Ok b.
Proof. destruct r; cbn; [|by split; [|intros (? & ? & _)]]. split; [eauto|by intros (? & [= <-] & ?)]. Qed.
