(* ===== verification/GoTime.v ===== *)
(** * Go integers, durations, instants and float64 conversions

    The parts of the language and of package [time] the sources compute with.
    An [int], [int64] or [time.Duration] is a [Z] kept in the signed 64-bit
    range by [wrap64] wherever Go's arithmetic can leave it.  A [time.Time] is
    its distance in nanoseconds from the zero [Time] (January 1 of year 1), so
    [IsZero] is a comparison with 0; location and monotonic readings, which the
    modelled code never inspects, are not represented. *)
From Stdlib Require Import SpecFloat.
From S2P Require Import Prelude.
Open Scope Z_scope.

Definition min_int64 : Z := - 2 ^ 63.
Definition max_int64 : Z := 2 ^ 63 - 1.

Definition in_int64 (x : Z) : Prop := min_int64 ≤ x ≤ max_int64.
Definition in_int64b (x : Z) : bool := (min_int64 <=? x) && (x <=? max_int64).

(** Two's-complement wrap-around to 64 bits. *)
Definition wrap64 (x : Z) : Z := (x + 2 ^ 63) mod 2 ^ 64 - 2 ^ 63.

Definition sub64 (x y : Z) : Z := wrap64 (x - y).
Definition add64 (x y : Z) : Z := wrap64 (x + y).

Lemma wrap64_id x : in_int64 x → wrap64 x = x.
Proof.
  unfold in_int64, wrap64, min_int64, max_int64. intros H.
  rewrite Z.mod_small; lia.
Qed.

Lemma wrap64_range x : in_int64 (wrap64 x).
Proof.
  unfold in_int64, wrap64, min_int64, max_int64.
  pose proof (Z.mod_pos_bound (x + 2 ^ 63) (2 ^ 64) ltac:(lia)). lia.
Qed.

Abbreviation duration := Z (only parsing).
Abbreviation time := Z (only parsing).

Definition Nanosecond : duration := 1.
Definition Millisecond : duration := 1000000.
Definition Second : duration := 1000 * Millisecond.
Definition Minute : duration := 60 * Second.
Definition Hour : duration := 60 * Minute.

(** [Duration.Abs]: the minimum has no negation and maps to the maximum. *)
Definition duration_abs (d : duration) : duration :=
  if 0 <=? d then d else if d =? min_int64 then max_int64 else - d.

Definition zero_time : time := 0.
Definition time_is_zero (t : time) : bool := t =? zero_time.
Definition time_before (t u : time) : bool := t <? u.
Definition time_after (t u : time) : bool := u <? t.
Definition time_add (t : time) (d : duration) : time := t + d.
(** [Time.Sub] saturates at the ends of the duration range. *)
Definition time_sub (t u : time) : duration :=
  Z.max min_int64 (Z.min max_int64 (t - u)).

Lemma time_sub_range t u : in_int64 (time_sub t u).
Proof. unfold in_int64, time_sub, min_int64, max_int64. lia. Qed.

Lemma time_sub_lt t u d : in_int64 d → time_sub t u < d ↔ t - u < d ∧ min_int64 < d.
Proof. unfold in_int64, time_sub, min_int64, max_int64. lia. Qed.

(** ** float64

    IEEE 754 binary64 through the Standard Library's executable
    specification: precision 53, exponent bound 1024, round to nearest even. *)
Definition f64 : Type := spec_float.
Definition f64_of_int (z : Z) : f64 := binary_normalize 53 1024 z 0 false.
Definition f64_div : f64 → f64 → f64 := SFdiv 53 1024.
Definition f64_add : f64 → f64 → f64 := SFadd 53 1024.

(** [Duration.Seconds]. *)
Definition duration_seconds (d : duration) : f64 :=
  f64_add (f64_of_int (Z.quot d Second))
          (f64_div (f64_of_int (Z.rem d Second)) (f64_of_int 1000000000)).

(** Truncation of a finite float toward zero. *)
Definition f64_trunc (f : f64) : option Z :=
  match f with
  | S754_zero _ => Some 0
  | S754_finite s m e =>
      let magnitude := if 0 <=? e then Z.pos m * 2 ^ e else Z.pos m / 2 ^ (- e) in
      Some (if s then - magnitude else magnitude)
  | S754_infinity _ | S754_nan => None
  end.

(** [int64(f)].  Go leaves a value outside the integer range to the
    implementation, so that result is the class's function of the float. *)
Class GoFloat := { f64_out_of_range : f64 → Z; f64_out_of_range_int64 f : in_int64 (f64_out_of_range f) }.

Definition int64_of_f64 `{GoFloat} (f : f64) : Z :=
  match f64_trunc f with
  | Some z => if in_int64b z then z else f64_out_of_range f
  | None => f64_out_of_range f
  end.

Lemma int64_of_f64_range `{GoFloat} f : in_int64 (int64_of_f64 f).
Proof.
  unfold int64_of_f64. destruct (f64_trunc f) as [z|]; [|apply f64_out_of_range_int64].
  destruct (in_int64b z) eqn:E; [|apply f64_out_of_range_int64].
  unfold in_int64b in E. go_bool. by split.
Qed.

(** The amd64 instruction's "integer indefinite" result. *)
#[export, refine] Instance amd64_float : GoFloat := {| f64_out_of_range _ := min_int64 |}.
Proof. intros _. unfold in_int64, min_int64, max_int64. lia. Defined.
