(* ===== verification/GoSort.v ===== *)
(** * Package [sort]

    [insertion_sort] is the loop [sort.Slice] runs on up to twelve elements and
    [sort.SliceStable] on one block; on a strict weak order the stable result is
    unique, so it is also what [SliceStable] returns on any length.  [GoSort]
    states what callers may rely on from [sort.Slice] at every length: a
    permutation, the insertion loop up to twelve elements, and a sorted result
    whenever the comparison is a strict weak order on the elements. *)
From S2P Require Import Prelude GoTime.
Open Scope Z_scope.

Section insertion.
Context {A : Type} (less : A → A → bool).

(** One pass of the inner loop: [x] moves left past the elements it is less
    than.  The sorted prefix is held reversed. *)
Fixpoint ins_rev (x : A) (rp : list A) : list A :=
  match rp with
  | [] => [x]
  | y :: r => if less x y then y :: ins_rev x r else x :: y :: r
  end.

Definition insertion_sort (l : list A) : list A :=
  rev (fold_left (λ rp x, ins_rev x rp) l []).

(** [less] behaves as a strict weak order on the elements satisfying [P]. *)
Definition strict_weak_on (P : A → Prop) : Prop :=
  (∀ x y, P x → P y → less x y = true → less y x = false) ∧
  (∀ x y z, P x → P y → P z → less y x = false → less z y = false → less z x = false).

(** The order of a sorted slice: no later element is less than an earlier. *)
Definition not_after (x y : A) : Prop := less y x = false.

Lemma ins_rev_perm x rp : ins_rev x rp ≡ₚ x :: rp.
Proof.
  induction rp as [|y r IH]; cbn; [done|].
  destruct (less x y); [|done]. rewrite IH. apply Permutation_swap.
Qed.

Lemma insertion_fold_perm l acc : fold_left (λ rp x, ins_rev x rp) l acc ≡ₚ l ++ acc.
Proof.
  revert acc. induction l as [|x l IH]; intros acc; cbn; [done|].
  rewrite IH, ins_rev_perm. symmetry. apply Permutation_middle.
Qed.

Lemma insertion_sort_perm l : insertion_sort l ≡ₚ l.
Proof.
  unfold insertion_sort. rewrite <- Permutation_rev, insertion_fold_perm.
  by rewrite app_nil_r.
Qed.

Section sorted.
Context (P : A → Prop) (Hsw : strict_weak_on P).

Lemma ins_rev_sorted x rp :
  P x → Forall P rp → StronglySorted (flip not_after) rp →
  StronglySorted (flip not_after) (ins_rev x rp).
Proof.
  destruct Hsw as [Hasym Htrans].
  induction rp as [|y r IH]; intros Hx HP Hs; cbn.
  { repeat constructor. }
  apply Forall_cons in HP as [Hy HP].
  apply StronglySorted_cons in Hs as [Hyr Hs].
  destruct (less x y) eqn:Hxy.
  - apply StronglySorted_cons; split; [|by apply IH].
    rewrite ins_rev_perm. constructor; [|done].
    unfold flip, not_after. auto.
  - apply StronglySorted_cons; split; [|by apply StronglySorted_cons].
    constructor; [done|]. rewrite Forall_forall in Hyr, HP |- *.
    intros z Hz. unfold flip, not_after in *. eapply (Htrans z y x); auto.
Qed.

Lemma insertion_fold_sorted l acc :
  Forall P l → Forall P acc → StronglySorted (flip not_after) acc →
  StronglySorted (flip not_after) (fold_left (λ rp x, ins_rev x rp) l acc).
Proof.
  revert acc. induction l as [|x l IH]; intros acc HP Hacc Hs; cbn; [done|].
  apply Forall_cons in HP as [Hx HP]. apply IH; [done| |by apply ins_rev_sorted].
  rewrite ins_rev_perm. by constructor.
Qed.
End sorted.

Lemma StronglySorted_rev (R : relation A) l :
  StronglySorted (flip R) l → StronglySorted R (rev l).
Proof.
  induction l as [|x l IH]; cbn; [constructor|].
  rewrite StronglySorted_cons. intros [Hx Hs]. apply StronglySorted_app_2.
  - intros a b Ha Hb. apply list_elem_of_singleton in Hb as ->.
    rewrite Forall_forall in Hx. apply Hx.
    apply list_elem_of_In, in_rev. by apply list_elem_of_In in Ha.
  - by apply IH.
  - repeat constructor.
Qed.

Lemma insertion_sort_sorted (P : A → Prop) l :
  strict_weak_on P → Forall P l → StronglySorted not_after (insertion_sort l).
Proof.
  intros Hsw HP. apply StronglySorted_rev.
  eapply insertion_fold_sorted; [done..|constructor].
Qed.

(** A comparison that only refines a strict weak order [coarse], whatever it
    does on the ties of [coarse], still leaves the slice in [coarse] order. *)
Section refined.
Context (coarse : A → A → bool) (P : A → Prop).
Context (Htrans : ∀ x y z, P x → P y → P z → coarse y x = false → coarse z y = false → coarse z x = false).
Context (Hless : ∀ x y, P x → P y → coarse x y = true → less x y = true ∧ less y x = false).

Lemma ins_rev_refined x rp :
  P x → Forall P rp → StronglySorted (λ a b, coarse a b = false) rp →
  StronglySorted (λ a b, coarse a b = false) (ins_rev x rp).
Proof.
  induction rp as [|y r IH]; intros Hx HP Hs; cbn; [repeat constructor|].
  apply Forall_cons in HP as [Hy HP]. apply StronglySorted_cons in Hs as [Hyr Hs].
  destruct (less x y) eqn:Hxy; apply StronglySorted_cons.
  - split; [|by apply IH]. rewrite ins_rev_perm. constructor; [|done].
    destruct (coarse y x) eqn:Hc; [|done]. destruct (Hless y x) as [_ Hn]; congruence.
  - assert (coarse x y = false) as Hn.
    { destruct (coarse x y) eqn:Hc; [|done]. destruct (Hless x y); congruence. }
    split; [|by apply StronglySorted_cons]. constructor; [done|].
    rewrite Forall_forall in Hyr, HP |- *. intros z Hz.
    eapply (Htrans z y x); auto.
Qed.

Lemma insertion_sort_refined l :
  Forall P l → StronglySorted (λ a b, coarse b a = false) (insertion_sort l).
Proof.
  intros HP. apply StronglySorted_rev. unfold flip.
  assert (∀ acc, Forall P acc → StronglySorted (λ a b, coarse a b = false) acc →
    StronglySorted (λ a b, coarse a b = false) (fold_left (λ rp x, ins_rev x rp) l acc)) as H.
  { induction l as [|x l IH]; intros acc Ha Hs; cbn; [done|].
    apply Forall_cons in HP as [Hx HP]. apply IH; [done| |by apply ins_rev_refined].
    rewrite ins_rev_perm. by constructor. }
  apply H; constructor.
Qed.
End refined.

(** A slice already in order is left as it is. *)
Lemma insertion_fold_id l acc :
  StronglySorted not_after (rev acc ++ l) →
  fold_left (λ rp x, ins_rev x rp) l acc = rev l ++ acc.
Proof.
  revert acc. induction l as [|x l IH]; intros acc Hs; cbn; [done|].
  assert (ins_rev x acc = x :: acc) as ->.
  { destruct acc as [|y acc]; [done|]. cbn in *.
    assert (less x y = false) as ->; [|done].
    eapply (StronglySorted_app_1_elem_of not_after _ _ y x Hs); [|by left].
    rewrite elem_of_app. right. by left. }
  rewrite IH; [by rewrite <- app_assoc|].
  cbn. by rewrite <- app_assoc.
Qed.

Lemma insertion_sort_id l : StronglySorted not_after l → insertion_sort l = l.
Proof.
  intros Hs. unfold insertion_sort. rewrite (insertion_fold_id l []); [|done].
  by rewrite app_nil_r, rev_involutive.
Qed.

Lemma insertion_sort_length l : length (insertion_sort l) = length l.
Proof. apply Permutation_length, insertion_sort_perm. Qed.

Lemma elem_of_insertion_sort x l : x ∈ insertion_sort l ↔ x ∈ l.
Proof. by rewrite insertion_sort_perm. Qed.

(** Under a total order the sorted slice does not depend on the input order. *)
Lemma insertion_sort_unique (P : A → Prop) l k :
  strict_weak_on P → (∀ x y, P x → P y → less x y = false → less y x = false → x = y) →
  Forall P l → l ≡ₚ k → insertion_sort l = insertion_sort k.
Proof.
  intros Hsw Htot Hl Hlk.
  assert (Forall P k) as Hk by by rewrite <- Hlk.
  apply (StronglySorted_unique_strong not_after).
  - intros x y Hx Hy Hxy Hyx. rewrite elem_of_insertion_sort in Hx, Hy.
    rewrite Forall_forall in Hl, Hk. apply Htot; auto.
  - by eapply insertion_sort_sorted.
  - by eapply insertion_sort_sorted.
  - by rewrite !insertion_sort_perm.
Qed.
End insertion.

(** What [sort.Slice] promises its callers. *)
Class GoSort := {
  sort_slice : ∀ {A : Type}, (A → A → bool) → list A → list A;
  sort_slice_perm : ∀ {A : Type} (less : A → A → bool) l, sort_slice less l ≡ₚ l;
  sort_slice_small : ∀ {A : Type} (less : A → A → bool) l,
    (length l ≤ 12)%nat → sort_slice less l = insertion_sort less l;
  sort_slice_sorted : ∀ {A : Type} (less : A → A → bool) (P : A → Prop) l,
    strict_weak_on less P → Forall P l → StronglySorted (not_after less) (sort_slice less l)
}.

#[export, refine] Instance insertion_sort_slice : GoSort := {| sort_slice := @insertion_sort |}.
Proof.
  - intros. apply insertion_sort_perm.
  - done.
  - intros. by eapply insertion_sort_sorted.
Defined.

(** ** Ordering integers and instants *)

Lemma ltb_strict_weak : strict_weak_on Z.ltb (λ _, True).
Proof. split; intros; go_bool; [apply Z.ltb_ge | apply Z.ltb_ge]; lia. Qed.

Lemma ltb_total x y : Z.ltb x y = false → Z.ltb y x = false → x = y.
Proof. rewrite !Z.ltb_ge. lia. Qed.

Lemma strict_weak_on_proj {A B} (f : A → B) (less : B → B → bool) (P : B → Prop) :
  strict_weak_on less P → strict_weak_on (λ x y, less (f x) (f y)) (λ x, P (f x)).
Proof. intros [H1 H2]. split; intros; eauto. Qed.

(** ** The newest elements of a log

    [append([]T(nil), l...)], [sort.SliceStable] by completion time, then the
    last [limit] entries: the shape [recent] and [recentStreams] share. *)
Definition newest_by {A} (finished : A → time) (l : list A) (limit : Z) : list A :=
  let ordered := insertion_sort (λ a b, time_before (finished a) (finished b)) l in
  if (0 <? limit) && (limit <? len ordered)
  then slice_from ordered (len ordered - limit)
  else ordered.

Section newest.
Context {A : Type} (finished : A → time).

Definition chronological (l : list A) : Prop :=
  StronglySorted (λ a b, finished a ≤ finished b) l.

Abbreviation earlier := (λ a b : A, time_before (finished a) (finished b)).

Lemma finished_strict_weak : strict_weak_on earlier (λ _, True).
Proof. apply (strict_weak_on_proj finished Z.ltb (λ _, True)), ltb_strict_weak. Qed.

Lemma not_after_finished a b : not_after earlier a b ↔ finished a ≤ finished b.
Proof. unfold not_after, time_before. by rewrite Z.ltb_ge. Qed.

Lemma chronological_not_after l : chronological l ↔ StronglySorted (not_after earlier) l.
Proof.
  unfold chronological. induction l as [|x l IH]; [split; constructor|].
  rewrite !StronglySorted_cons, IH, !Forall_forall.
  by setoid_rewrite not_after_finished.
Qed.

Lemma sort_finished_chronological l : chronological (insertion_sort earlier l).
Proof.
  apply chronological_not_after.
  eapply insertion_sort_sorted; [apply finished_strict_weak|by apply Forall_true].
Qed.

(** What [newest_by] returns: a chronological suffix of the log, of the
    requested length, with nothing newer left out. *)
Lemma newest_by_split l limit :
  ∃ older, older ++ newest_by finished l limit ≡ₚ l ∧
    chronological (older ++ newest_by finished l limit).
Proof.
  unfold newest_by. set (o := insertion_sort earlier l). case_match.
  - exists (take (Z.to_nat (len o - limit)) o). unfold slice_from.
    rewrite take_drop. split; [apply insertion_sort_perm|apply sort_finished_chronological].
  - exists []. split; [apply insertion_sort_perm|apply sort_finished_chronological].
Qed.

Lemma newest_by_chronological l limit : chronological (newest_by finished l limit).
Proof.
  destruct (newest_by_split l limit) as (o & _ & H). by eapply StronglySorted_app_1_r.
Qed.

Lemma elem_of_newest_by x l limit : x ∈ newest_by finished l limit → x ∈ l.
Proof. destruct (newest_by_split l limit) as (o & Hp & _). intros Hx. rewrite <- Hp. set_solver. Qed.

Lemma len_newest_by l limit :
  len (newest_by finished l limit) = if 0 <? limit then Z.min limit (len l) else len l.
Proof.
  unfold newest_by. set (o := insertion_sort earlier l).
  assert (len o = len l) as Ho by (unfold len, o; by rewrite insertion_sort_length).
  destruct (0 <? limit) eqn:H0; cbn; [|done].
  apply Z.ltb_lt in H0. destruct (limit <? len o) eqn:H1; go_bool.
  - rewrite len_slice_from; lia.
  - lia.
Qed.

Lemma newest_by_nil_iff l limit : newest_by finished l limit = [] ↔ l = [].
Proof.
  rewrite <- !len_nil_iff, len_newest_by. pose proof (len_nonneg l).
  destruct (0 <? limit) eqn:H0; go_bool; lia.
Qed.

Lemma newest_by_nil limit : newest_by finished [] limit = [].
Proof. by apply newest_by_nil_iff. Qed.

(** The last entry is a newest one of the whole log. *)
Lemma newest_by_last_max l limit x y :
  last (newest_by finished l limit) = Some x → y ∈ l → finished y ≤ finished x.
Proof.
  destruct (newest_by_split l limit) as (o & Hp & Hs).
  intros Hl Hy. rewrite <- Hp in Hy. apply last_Some in Hl as [l' Hl]. rewrite Hl, app_assoc in Hs, Hy.
  apply elem_of_app in Hy as [Hy|Hy%list_elem_of_singleton]; [|by subst].
  eapply (StronglySorted_app_1_elem_of _ _ _ y x Hs); [done|by left].
Qed.

(** A log already in order only loses its oldest entries. *)
Lemma newest_by_chronological_eq l limit :
  chronological l →
  newest_by finished l limit =
    if (0 <? limit) && (limit <? len l) then slice_from l (len l - limit) else l.
Proof.
  intros Hl. unfold newest_by.
  by rewrite insertion_sort_id by by apply chronological_not_after.
Qed.

Lemma newest_by_idemp l limit :
  newest_by finished (newest_by finished l limit) 0 = newest_by finished l limit.
Proof. by rewrite (newest_by_chronological_eq (newest_by _ _ _)) by apply newest_by_chronological. Qed.

Lemma newest_by_twice l limit :
  newest_by finished (newest_by finished l limit) limit = newest_by finished l limit.
Proof.
  rewrite (newest_by_chronological_eq (newest_by _ _ _)) by apply newest_by_chronological.
  case_match; [|done]. go_bool. pose proof (len_newest_by l limit) as Hn.
  destruct (0 <? limit) eqn:?; go_bool; lia.
Qed.
End newest.
#[export] Hint Resolve newest_by_chronological elem_of_newest_by : go_list.
