(* ===== verification/GoStrings.v ===== *)
(** * Packages [strings], [strconv] and [encoding/hex]

    A Go string is a sequence of bytes, here a Rocq [string].  The sources range
    over runes only to compare them with ASCII ranges; a byte of a multi-byte or
    invalid sequence is at least 128, outside every such range, so these loops
    are written over bytes. *)
From S2P Require Import Prelude.
From Stdlib Require Import Ascii.
From stdpp Require Import pretty.
Open Scope Z_scope.

(** [len(s)]: the number of bytes. *)
Definition slen (s : string) : Z := Z.of_nat (String.length s).

Definition bytes_of (s : string) : list ascii := String.list_ascii_of_string s.
Definition of_bytes (l : list ascii) : string := String.string_of_list_ascii l.

Definition code (c : ascii) : Z := Z.of_N (N_of_ascii c).

Definition in_range (lo hi : Z) (c : ascii) : bool := (lo <=? code c) && (code c <=? hi).
(** ['a'..'z'], ['A'..'Z'], ['0'..'9']. *)
Definition is_lower : ascii → bool := in_range 97 122.
Definition is_upper : ascii → bool := in_range 65 90.
Definition is_digit : ascii → bool := in_range 48 57.
Definition is_alnum (c : ascii) : bool := is_lower c || is_upper c || is_digit c.

Lemma of_bytes_of s : of_bytes (bytes_of s) = s.
Proof. apply String.string_of_list_ascii_of_string. Qed.

Lemma bytes_of_bytes l : bytes_of (of_bytes l) = l.
Proof. apply String.list_ascii_of_string_of_list_ascii. Qed.

Lemma bytes_of_app s t : bytes_of (s +:+ t) = bytes_of s ++ bytes_of t.
Proof.
  induction s as [|c s IH]; [done|].
  change (c :: bytes_of (s +:+ t) = c :: (bytes_of s ++ bytes_of t)). by rewrite IH.
Qed.

Lemma bytes_of_inj s t : bytes_of s = bytes_of t → s = t.
Proof. intros H. by rewrite <- (of_bytes_of s), H, of_bytes_of. Qed.

Lemma slen_bytes s : slen s = len (bytes_of s).
Proof.
  unfold slen, len, bytes_of. f_equal. induction s as [|c s IH]; cbn; [done|by rewrite IH].
Qed.

Lemma slen_app s t : slen (s +:+ t) = slen s + slen t.
Proof. rewrite !slen_bytes, bytes_of_app. apply len_app. Qed.

Lemma slen_nonneg s : 0 ≤ slen s.
Proof. unfold slen. lia. Qed.

Lemma slen_0 s : slen s = 0 → s = "".
Proof. destruct s; [done|]. unfold slen. cbn. lia. Qed.

(** [strings.HasPrefix], [strings.TrimPrefix] on byte lists. *)
Fixpoint strip_prefix (p l : list ascii) : option (list ascii) :=
  match p, l with
  | [], _ => Some l
  | a :: p, b :: l => if ascii_dec a b then strip_prefix p l else None
  | _ :: _, [] => None
  end.

Lemma strip_prefix_Some p l r : strip_prefix p l = Some r ↔ l = p ++ r.
Proof.
  revert l. induction p as [|a p IH]; intros [|b l]; cbn; try (split; congruence).
  destruct (ascii_dec a b) as [<-|Hne].
  - rewrite IH. split; congruence.
  - split; [done|]. congruence.
Qed.

Definition has_prefix (s p : string) : bool :=
  bool_decide (is_Some (strip_prefix (bytes_of p) (bytes_of s))).
Definition trim_prefix (s p : string) : string :=
  match strip_prefix (bytes_of p) (bytes_of s) with Some r => of_bytes r | None => s end.
Definition has_suffix (s p : string) : bool :=
  bool_decide (is_Some (strip_prefix (rev (bytes_of p)) (rev (bytes_of s)))).
Definition trim_suffix (s p : string) : string :=
  match strip_prefix (rev (bytes_of p)) (rev (bytes_of s)) with
  | Some r => of_bytes (rev r)
  | None => s
  end.

Lemma has_prefix_spec s p : has_prefix s p = true ↔ ∃ r, s = p +:+ r.
Proof.
  unfold has_prefix. rewrite bool_decide_eq_true. unfold is_Some.
  setoid_rewrite strip_prefix_Some. split.
  - intros [r Hr]. exists (of_bytes r). apply bytes_of_inj.
    by rewrite bytes_of_app, bytes_of_bytes.
  - intros [r ->]. exists (bytes_of r). apply bytes_of_app.
Qed.

(** [strings.Contains]. *)
Fixpoint contains_bytes (l sub : list ascii) : bool :=
  match strip_prefix sub l with
  | Some _ => true
  | None => match l with [] => false | _ :: l => contains_bytes l sub end
  end.
Definition contains (s sub : string) : bool := contains_bytes (bytes_of s) (bytes_of sub).

(** [strings.ContainsAny] for a set of ASCII characters. *)
Definition contains_any (s chars : string) : bool :=
  existsb (λ c, existsb (Ascii.eqb c) (bytes_of chars)) (bytes_of s).

Lemma contains_any_false s chars :
  contains_any s chars = false ↔ ∀ c, c ∈ bytes_of s → c ∉ bytes_of chars.
Proof.
  unfold contains_any. split.
  - intros H c Hc Hin. apply not_true_iff_false in H. apply H, existsb_exists.
    exists c. split; [by apply list_elem_of_In|]. apply existsb_exists.
    exists c. split; [by apply list_elem_of_In|]. apply Ascii.eqb_refl.
  - intros H. apply not_true_iff_false. intros Ht.
    apply existsb_exists in Ht as (c & Hc & (d & Hd & Heq)%existsb_exists).
    apply Ascii.eqb_eq in Heq as <-. apply (H c); by apply list_elem_of_In.
Qed.

(** [strings.Cut] at a one-byte separator. *)
Fixpoint cut_bytes (sep : ascii) (l : list ascii) : option (list ascii * list ascii) :=
  match l with
  | [] => None
  | c :: l =>
      if ascii_dec c sep then Some ([], l)
      else match cut_bytes sep l with Some (a, b) => Some (c :: a, b) | None => None end
  end.
Definition cut (s : string) (sep : ascii) : option (string * string) :=
  match cut_bytes sep (bytes_of s) with
  | Some (a, b) => Some (of_bytes a, of_bytes b)
  | None => None
  end.

(** [strings.Split] at a one-byte separator: never empty. *)
Fixpoint split_bytes (sep : ascii) (l : list ascii) : list (list ascii) :=
  match l with
  | [] => [[]]
  | c :: l =>
      if ascii_dec c sep then [] :: split_bytes sep l
      else match split_bytes sep l with
           | w :: ws => (c :: w) :: ws
           | [] => [[c]]
           end
  end.
Definition split (s : string) (sep : ascii) : list string :=
  of_bytes <$> split_bytes sep (bytes_of s).

(** [strings.Join]. *)
Fixpoint join_bytes (sep : list ascii) (ws : list (list ascii)) : list ascii :=
  match ws with
  | [] => []
  | [w] => w
  | w :: ws => w ++ sep ++ join_bytes sep ws
  end.
Definition join (ws : list string) (sep : string) : string :=
  of_bytes (join_bytes (bytes_of sep) (bytes_of <$> ws)).

Lemma split_bytes_cons sep l : ∃ w ws, split_bytes sep l = w :: ws.
Proof.
  induction l as [|c l (w & ws & IH)]; cbn; [eauto|].
  destruct (ascii_dec c sep); [eauto|]. rewrite IH. eauto.
Qed.

Lemma join_split_bytes sep l : join_bytes [sep] (split_bytes sep l) = l.
Proof.
  induction l as [|c l IH]; cbn; [done|].
  destruct (split_bytes_cons sep l) as (w & ws & E). rewrite E in *.
  destruct (ascii_dec c sep) as [->|_]; cbn.
  - by rewrite <- IH.
  - destruct ws; cbn in *; by rewrite <- IH.
Qed.

(** ** Unicode white space, [unicode.IsSpace] in UTF-8 *)
Definition byte (z : Z) : ascii := ascii_of_N (Z.to_N z).

Lemma code_byte z : 0 ≤ z < 256 → code (byte z) = z.
Proof.
  intros H. unfold code, byte. rewrite N_ascii_embedding by lia. lia.
Qed.

Lemma code_range c : 0 ≤ code c < 256.
Proof. unfold code. pose proof (N_ascii_bounded c). lia. Qed.

Definition space_runes : list (list ascii) :=
  [[byte 9]; [byte 10]; [byte 11]; [byte 12]; [byte 13]; [byte 32];
   [byte 194; byte 133]; [byte 194; byte 160]; [byte 225; byte 154; byte 128]] ++
  ((λ d, [byte 226; byte 128; byte d]) <$>
     [128; 129; 130; 131; 132; 133; 134; 135; 136; 137; 138; 168; 169; 175]) ++
  [[byte 226; byte 129; byte 159]; [byte 227; byte 128; byte 128]].

Fixpoint strip_first (pats : list (list ascii)) (l : list ascii) : option (list ascii) :=
  match pats with
  | [] => None
  | p :: pats => match strip_prefix p l with Some r => Some r | None => strip_first pats l end
  end.

(** Each step removes at least one byte, so the length is enough fuel. *)
Fixpoint strip_spaces (pats : list (list ascii)) (fuel : nat) (l : list ascii) : list ascii :=
  match fuel with
  | O => l
  | S fuel => match strip_first pats l with Some r => strip_spaces pats fuel r | None => l end
  end.

Definition trim_space_bytes (l : list ascii) : list ascii :=
  let r := strip_spaces space_runes (length l) l in
  rev (strip_spaces (@rev ascii <$> space_runes) (length r) (rev r)).

(** [strings.TrimSpace]. *)
Definition trim_space (s : string) : string := of_bytes (trim_space_bytes (bytes_of s)).

(** ** Case folding

    [strings.ToLower] and [ToUpper] exactly on ASCII letters and on the runes
    outside ASCII that map to one (U+0130 and U+212A in lower case, U+0131 and
    U+017F in upper case); other runes, which stay outside ASCII, are kept, which
    no comparison with an ASCII string can tell.  [equal_fold target s] is
    [strings.EqualFold] against an ASCII constant: the two runes that fold to
    ASCII letters are U+017F and U+212A. *)
Definition lower_byte (c : ascii) : ascii := if is_upper c then byte (code c + 32) else c.
Definition upper_byte (c : ascii) : ascii := if is_lower c then byte (code c - 32) else c.

(** Replaces each occurrence of a rune's bytes by one letter. *)
Fixpoint map_runes (table : list (list ascii * ascii)) (one : ascii → ascii) (fuel : nat) (l : list ascii) : list ascii :=
  match fuel, l with
  | S fuel, c :: l' =>
      match list_find (λ entry : list ascii * ascii, is_Some (strip_prefix entry.1 l)) table with
      | Some (_, (rune, letter)) => letter :: map_runes table one fuel (drop (length rune) l)
      | None => one c :: map_runes table one fuel l'
      end
  | _, _ => []
  end.
Definition to_lower (s : string) : string :=
  let l := bytes_of s in
  of_bytes (map_runes [([byte 196; byte 176], byte 105); ([byte 226; byte 132; byte 170], byte 107)] lower_byte (length l) l).
Definition to_upper (s : string) : string :=
  let l := bytes_of s in
  of_bytes (map_runes [([byte 196; byte 177], byte 73); ([byte 197; byte 191], byte 83)] upper_byte (length l) l).

Fixpoint fold_bytes (l : list ascii) : list ascii :=
  match l with
  | [] => []
  | c :: l' =>
      match l' with
      | d :: l'' =>
          if (code c =? 197) && (code d =? 191) then byte 115 :: fold_bytes l''
          else match l'' with
               | e :: l''' =>
                   if (code c =? 226) && (code d =? 132) && (code e =? 170)
                   then byte 107 :: fold_bytes l'''
                   else lower_byte c :: fold_bytes l'
               | [] => lower_byte c :: fold_bytes l'
               end
      | [] => [lower_byte c]
      end
  end.
Definition equal_fold (target s : string) : bool :=
  bool_decide (fold_bytes (bytes_of s) = lower_byte <$> bytes_of target).

(** ** Numbers *)
Fixpoint digits_value (acc : Z) (l : list ascii) : option Z :=
  match l with
  | [] => Some acc
  | c :: l => if is_digit c then digits_value (acc * 10 + (code c - 48)) l else None
  end.

(** [strconv.Atoi] and [strconv.ParseInt(s, 10, 64)]: an optional sign, then
    decimal digits, within the signed 64-bit range. *)
Definition atoi (s : string) : option Z :=
  let '(neg, digits) :=
    match bytes_of s with
    | c :: l => if code c =? 45 then (true, l) else if code c =? 43 then (false, l) else (false, c :: l)
    | [] => (false, [])
    end in
  match digits with
  | [] => None
  | _ => match digits_value 0 digits with
         | Some v =>
             let v := if neg : bool then - v else v in
             if (- 2 ^ 63 <=? v) && (v <=? 2 ^ 63 - 1) then Some v else None
         | None => None
         end
  end.

(** [strconv.Itoa]. *)
Definition itoa (z : Z) : string := pretty z.

Lemma atoi_range s n : atoi s = Some n → - 2 ^ 63 ≤ n ≤ 2 ^ 63 - 1.
Proof.
  unfold atoi. repeat case_match; intros; simplify_eq; go_bool; lia.
Qed.

(** ** Hexadecimal *)
Definition is_hex_digit (c : ascii) : bool := is_digit c || in_range 97 102 c || in_range 65 70 c.
Fixpoint hex_pairs (l : list ascii) : bool :=
  match l with
  | [] => true
  | a :: b :: l => is_hex_digit a && is_hex_digit b && hex_pairs l
  | [_] => false
  end.
(** [hex.DecodeString(s)] succeeds. *)
Definition hex_decodes (s : string) : bool := hex_pairs (bytes_of s).

(** ** Strings as values *)
Definition streq (s t : string) : bool := bool_decide (s = t).
Definition str_in (s : string) (l : list string) : bool := bool_decide (s ∈ l).

Lemma streq_true s t : streq s t = true ↔ s = t.
Proof. apply bool_decide_eq_true. Qed.
Lemma streq_refl s : streq s s = true.
Proof. by apply streq_true. Qed.
Lemma streq_false s t : streq s t = false ↔ s ≠ t.
Proof. apply bool_decide_eq_false. Qed.

(** Go compares strings byte by byte. *)
Fixpoint bytes_ltb (l k : list ascii) : bool :=
  match l, k with
  | [], _ :: _ => true
  | a :: l, b :: k => if ascii_dec a b then bytes_ltb l k else code a <? code b
  | _, [] => false
  end.
Definition string_ltb (s t : string) : bool := bytes_ltb (bytes_of s) (bytes_of t).

Lemma code_inj a b : code a = code b → a = b.
Proof.
  unfold code. intros H%N2Z.inj. rewrite <- (ascii_N_embedding a), <- (ascii_N_embedding b).
  by rewrite H.
Qed.

Lemma bytes_ltb_irrefl l : bytes_ltb l l = false.
Proof. induction l as [|a l IH]; cbn; [done|]. by destruct (ascii_dec a a). Qed.

Lemma bytes_ltb_trans a b c : bytes_ltb a b = true → bytes_ltb b c = true → bytes_ltb a c = true.
Proof.
  revert b c. induction a as [|x a IH]; intros [|y b] [|z c]; cbn; try done.
  intros H1 H2. repeat case_match; subst; rewrite ?Z.ltb_lt in *;
    try congruence; try lia; eauto.
Qed.

Lemma bytes_ltb_total a b : bytes_ltb a b = false → bytes_ltb b a = false → a = b.
Proof.
  revert b. induction a as [|x a IH]; intros [|y b]; cbn; try done.
  intros H1 H2. repeat case_match; subst; rewrite ?Z.ltb_ge in *; try congruence.
  - f_equal. auto.
  - assert (x = y) by (apply code_inj; lia). congruence.
Qed.

Lemma string_ltb_irrefl s : string_ltb s s = false.
Proof. apply bytes_ltb_irrefl. Qed.

Lemma string_ltb_trans s t u : string_ltb s t = true → string_ltb t u = true → string_ltb s u = true.
Proof. apply bytes_ltb_trans. Qed.

Lemma string_ltb_total s t : string_ltb s t = false → string_ltb t s = false → s = t.
Proof. intros H1 H2. by apply bytes_of_inj, bytes_ltb_total. Qed.

(** ** Trimming leaves nothing to trim *)
Lemma strip_first_Some pats l r : strip_first pats l = Some r → ∃ p, p ∈ pats ∧ l = p ++ r.
Proof.
  induction pats as [|p pats IH]; cbn; [done|]. destruct (strip_prefix p l) as [r'|] eqn:E.
  - intros [= <-]. apply strip_prefix_Some in E. exists p. split; [by left|done].
  - intros (q & ? & ?)%IH. exists q. split; [by right|done].
Qed.
Lemma strip_first_None pats l : strip_first pats l = None ↔ ∀ p r, p ∈ pats → l ≠ p ++ r.
Proof.
  induction pats as [|p pats IH]; cbn; [split; [intros _ p r Hp; by apply not_elem_of_nil in Hp|done]|].
  destruct (strip_prefix p l) as [r'|] eqn:E.
  - apply strip_prefix_Some in E. split; [done|]. intros Hn. by destruct (Hn p r'); [left|].
  - rewrite IH. split; intros Hn q r Hq; [|apply Hn; by right]. apply elem_of_cons in Hq as [->|Hq]; [|by apply Hn].
    intros Hl. apply strip_prefix_Some in Hl. congruence.
Qed.

Lemma strip_spaces_suffix pats n l : ∃ p, l = p ++ strip_spaces pats n l.
Proof.
  revert l. induction n as [|n IH]; intros l; cbn; [by exists []|]. destruct (strip_first pats l) as [r|] eqn:E; [|by exists []].
  apply strip_first_Some in E as (p & _ & ->). destruct (IH r) as [q Hq]. exists (p ++ q). by rewrite <- app_assoc, <- Hq.
Qed.
Lemma strip_spaces_stripped pats n l :
  [] ∉ pats → (length l ≤ n)%nat → strip_first pats (strip_spaces pats n l) = None.
Proof.
  intros Hne. revert l. induction n as [|n IH]; intros l Hl; cbn.
  - destruct l; [|cbn in Hl; lia]. apply strip_first_None. intros [|? ?] r Hp; [done|discriminate].
  - destruct (strip_first pats l) as [r|] eqn:E; [|done]. apply IH.
    apply strip_first_Some in E as ([|c p] & Hp & ->); [done|]. rewrite length_app in Hl. cbn in Hl. lia.
Qed.
Lemma strip_spaces_none pats n l : strip_first pats l = None → strip_spaces pats n l = l.
Proof. intros E. destruct n; cbn; [done|]. by rewrite E. Qed.

Lemma space_runes_not_nil : [] ∉ space_runes ∧ [] ∉ (@rev ascii <$> space_runes).
Proof. split; intros Hin; cbn in Hin; repeat (apply elem_of_cons in Hin as [Hin|Hin]; [done|]); by apply not_elem_of_nil in Hin. Qed.

Lemma trim_space_bytes_idem l : trim_space_bytes (trim_space_bytes l) = trim_space_bytes l.
Proof.
  destruct space_runes_not_nil as [Hs Hr]. unfold trim_space_bytes at 2 3. cbn zeta.
  set (m := strip_spaces space_runes (length l) l).
  assert (strip_first space_runes m = None) as Hm by by apply strip_spaces_stripped.
  set (k := strip_spaces (@rev ascii <$> space_runes) (length m) (rev m)).
  assert (strip_first (@rev ascii <$> space_runes) k = None) as Hk.
  { apply strip_spaces_stripped; [done|]. by rewrite length_rev. }
  assert (strip_first space_runes (rev k) = None) as Hf.
  { destruct (strip_spaces_suffix (@rev ascii <$> space_runes) (length m) (rev m)) as [p Hp]. fold k in Hp.
    apply (f_equal (@rev ascii)) in Hp. rewrite rev_involutive, rev_app_distr in Hp.
    apply strip_first_None. intros q r Hq E. rewrite E, <- app_assoc in Hp.
    by apply (proj1 (strip_first_None space_runes m) Hm q (r ++ rev p)). }
  unfold trim_space_bytes. cbn zeta. rewrite (strip_spaces_none space_runes) by done.
  rewrite rev_involutive. by rewrite strip_spaces_none.
Qed.
Lemma trim_space_idem s : trim_space (trim_space s) = trim_space s.
Proof. unfold trim_space. by rewrite bytes_of_bytes, trim_space_bytes_idem. Qed.
