(* ===== verification/GoNet.v ===== *)
(** * Packages [net] and [net/url]

    [url.Parse], [net.SplitHostPort] and [net.ParseIP] are kept abstract: the
    sources only branch on the parsed components, so every theorem holds for
    any parser.  The methods of a parsed URL are the Standard Library's. *)
From Stdlib Require Import Ascii.
From S2P Require Import Prelude GoStrings.
Open Scope Z_scope.

Record URL := mkURL {
  u_Scheme : string;
  u_Opaque : string;
  u_User : bool;        (** [u.User != nil] *)
  u_Host : string;
  u_Path : string;
  u_Fragment : string
}.

Record IP := mkIP { ip_IsLoopback : bool; ip_IsUnspecified : bool }.

Class GoNet := {
  url_parse : string → option URL;
  split_host_port : string → option (string * string);
  parse_ip : string → option IP
}.

(** The index of the last colon splits host and port when what follows it is a
    possibly empty run of digits. *)
Definition url_split (host_port : string) : string * string :=
  let r := rev (bytes_of host_port) in
  let '(host, port) :=
    match cut_bytes (byte 58) r with
    | Some (p, h) => if forallb is_digit p then (rev h, rev p) else (bytes_of host_port, [])
    | None => (bytes_of host_port, [])
    end in
  let host :=
    match host with
    | c :: l => match rev l with
                | d :: m => if (code c =? 91) && (code d =? 93) then rev m else host
                | [] => host
                end
    | [] => host
    end in
  (of_bytes host, of_bytes port).

Definition url_hostname (u : URL) : string := fst (url_split (u_Host u)).
Definition url_port (u : URL) : string := snd (url_split (u_Host u)).

(** A concrete [GoNet] for closed examples: literal tables. *)
Definition table_net (urls : list (string * URL)) (hosts : list (string * (string * string)))
    (ips : list (string * IP)) : GoNet := {|
  url_parse s := snd <$> list_find (λ p, p.1 = s) urls ≫= λ p, Some p.2;
  split_host_port s := snd <$> list_find (λ p, p.1 = s) hosts ≫= λ p, Some p.2;
  parse_ip s := snd <$> list_find (λ p, p.1 = s) ips ≫= λ p, Some p.2
|}.

Definition https_url (host path : string) : URL := mkURL "https" "" false host path "".

(** ** Package [net/netip] and what else addresses need of the Go library

    Parsing is an interface, as in [GoNet]; what is computed from parsed
    addresses is written out. *)
(** [ad_Bits]: the address as a number of [addr_width] bits. *)
Record Addr := mkAddr { ad_Is4 : bool; ad_Bits : Z; ad_Zone : string }.
Record Prefix := mkPrefix { pf_Addr : Addr; pf_Length : Z }.
#[export] Instance addr_eq_dec : EqDecision Addr.
Proof. solve_decision. Defined.

Class GoNetip := {
  ParseAddr : string → option Addr;
  ParsePrefix : string → option Prefix
}.

Definition addr_width (a : Addr) : Z := if ad_Is4 a then 32 else 128.
(** [Addr.Is4In6] and [Addr.Unmap]: an IPv4 address mapped into ::ffff:0:0/96
    becomes that IPv4 address and loses its zone. *)
Definition is_4in6 (a : Addr) : bool := negb (ad_Is4 a) && (Z.shiftr (ad_Bits a) 32 =? 65535).
Definition unmap (a : Addr) : Addr := if is_4in6 a then mkAddr true (Z.land (ad_Bits a) (2 ^ 32 - 1)) "" else a.
(** [Prefix.Contains]: an address with a zone is in no prefix. *)
Definition prefix_contains (p : Prefix) (a : Addr) : bool :=
  streq (ad_Zone a) "" && eqb (ad_Is4 (pf_Addr p)) (ad_Is4 a) &&
  (Z.shiftr (Z.lxor (ad_Bits (pf_Addr p)) (ad_Bits a)) (addr_width a - pf_Length p) =? 0).

(** [strings.Trim] with a set of characters. *)
Fixpoint trim_left_chars (chars l : list ascii) : list ascii :=
  match l with c :: r => if bool_decide (c ∈ chars) then trim_left_chars chars r else l | [] => [] end.
Definition trim_chars (s chars : string) : string :=
  of_bytes (rev (trim_left_chars (bytes_of chars) (rev (trim_left_chars (bytes_of chars) (bytes_of s))))).

(** A concrete [GoNetip] for closed examples. *)
Definition table_netip (addrs : list (string * Addr)) (prefixes : list (string * Prefix)) : GoNetip := {|
  ParseAddr s := list_find (λ p, p.1 = s) addrs ≫= λ p, Some p.2.2;
  ParsePrefix s := list_find (λ p, p.1 = s) prefixes ≫= λ p, Some p.2.2
|}.
