(* ===== verification/MonitorModel.v ===== *)
(** * monitor/model.go and the policy record of monitor/policy.go

    Samples, decisions, group states and alerts as Go declares them, the policy
    record with its defaults, and [Policy.Validate]. *)
From S2P Require Import Prelude GoTime GoStrings GoNet.
Open Scope Z_scope.
Open Scope go_scope.

Inductive Outcome := OutcomeError | OutcomeSuccess | OutcomeTimeout.

Record Sample := mkSample {
  s_Group : string;
  s_Proxy : string;
  s_URL : string;
  s_FinishedAt : time;
  s_Latency : duration;
  s_Outcome : Outcome
}.

Inductive StreamOutcome :=
| StreamSuccess | StreamReset | StreamStall | StreamTruncated
| StreamTLS | StreamTimeout | StreamError.

Record StreamSample := mkStreamSample {
  ss_Proxy : string;
  ss_URL : string;
  ss_FinishedAt : time;
  ss_Bytes : Z;
  ss_FirstByte : duration;
  ss_Duration : duration;
  ss_Outcome : StreamOutcome
}.

#[export] Instance Outcome_eq_dec : EqDecision Outcome.
Proof. solve_decision. Defined.
#[export] Instance Sample_eq_dec : EqDecision Sample.
Proof. solve_decision. Defined.
#[export] Instance StreamOutcome_eq_dec : EqDecision StreamOutcome.
Proof. solve_decision. Defined.
#[export] Instance StreamSample_eq_dec : EqDecision StreamSample.
Proof. solve_decision. Defined.

Definition Completed (s : StreamSample) : bool := bool_decide (ss_Outcome s = StreamSuccess).

Definition Throughput `{GoFloat} (s : StreamSample) : Z :=
  if ss_Duration s <=? 0 then 0
  else int64_of_f64 (f64_div (f64_of_int (ss_Bytes s)) (duration_seconds (ss_Duration s))).

Record StreamStability := mkStreamStability {
  sst_Proxy : string;
  sst_Samples : Z;
  sst_Completed : Z;
  sst_MedianThroughput : Z
}.

Record Decision := mkDecision {
  d_Switch : bool;
  d_LowerLatency : bool;
  d_Group : string;
  d_Old : string;
  d_New : string;
  d_Reason : string;
  d_Evidence : list Sample;
  d_Streams : list StreamSample
}.

Record GroupState := mkGroupState {
  g_Group : string;
  g_Selected : string;
  g_Proxies : list string;
  g_ProbeEnabled : bool;
  g_AutomationEnabled : bool;
  g_ManualOverride : bool;
  g_SwitchInFlight : bool;
  g_LastSwitchAt : time
}.

#[export] Instance GroupState_eq_dec : EqDecision GroupState.
Proof. solve_decision. Defined.

Record AlertState := mkAlertState { a_HighLatency : bool }.

Inductive AlertTransition := AlertNoChange | AlertHighLatency | AlertRecovered.
#[export] Instance AlertTransition_eq_dec : EqDecision AlertTransition.
Proof. solve_decision. Defined.

Record AlertEvent := mkAlertEvent {
  ae_Transition : AlertTransition;
  ae_Group : string;
  ae_Threshold : duration;
  ae_Evidence : list Sample
}.

(** Summary of one proxy's most recent probes (policy.go). *)
Record Stability := mkStability {
  st_Samples : Z;
  st_Failures : Z;
  st_Median : duration;
  st_Jitter : duration
}.

Record ProxyStability := mkProxyStability {
  ps_Group : string;
  ps_Proxy : string;
  ps_Stability : Stability
}.

Record Batch := mkBatch {
  b_FinishedAt : time;
  b_Samples : list Sample;
  b_Streams : list StreamSample;
  b_Decisions : list Decision;
  b_Alerts : list AlertEvent;
  b_Stability : list ProxyStability;
  b_StreamStability : list StreamStability
}.

(** ** Policy *)
Definition SwitchFailover : string := "failover".
Definition SwitchLowestLatency : string := "lowest_latency".
Definition SwitchSteadyStream : string := "steady_stream".
Definition SwitchPolicies : list string := [SwitchLowestLatency; SwitchFailover; SwitchSteadyStream].

Definition MinStreamInterval : duration := 4 * Minute.
Definition StreamCandidates : Z := 3.
Definition StreamPullCap : Z := 8.
Definition DefaultStreamURL : string := "https://speed.cloudflare.com/__down?bytes=262144".

(** core.MonitorWindowMin and core.MonitorWindowMax. *)
Definition MonitorWindowMin : Z := 2.
Definition MonitorWindowMax : Z := 20.

Record Policy := mkPolicy {
  p_TestURL : string;
  p_SwitchPolicy : string;
  p_Interval : duration;
  p_Timeout : duration;
  p_Concurrency : Z;
  p_Threshold : duration;
  p_LatencyAlertThreshold : duration;
  p_WindowSize : Z;
  p_MinCandidateSamples : Z;
  p_ConsecutiveBadSamples : Z;
  p_MaxFailures : Z;
  p_MinImprovement : duration;
  p_Cooldown : duration;
  p_Jitter : duration;
  p_StreamURL : string;
  p_StreamInterval : duration
}.

Definition DefaultPolicy : Policy := {|
  p_TestURL := "http://cp.cloudflare.com/generate_204";
  p_SwitchPolicy := SwitchLowestLatency;
  p_Interval := 1 * Minute;
  p_Timeout := 5 * Second;
  p_Concurrency := 3;
  p_Threshold := 800 * Millisecond;
  p_LatencyAlertThreshold := 250 * Millisecond;
  p_WindowSize := 5;
  p_MinCandidateSamples := 3;
  p_ConsecutiveBadSamples := 3;
  p_MaxFailures := 2;
  p_MinImprovement := 100 * Millisecond;
  p_Cooldown := 5 * Minute;
  p_Jitter := 10 * Second;
  p_StreamURL := DefaultStreamURL;
  p_StreamInterval := 5 * Minute
|}.

Definition ValidPolicyName (name : string) : bool := str_in name SwitchPolicies.

(** The bytes NUL, CR, LF and [#], which no accepted URL contains. *)
Definition forbidden_url_chars : string := of_bytes [byte 0; byte 13; byte 10; byte 35].

Section validate.
Context `{GoNet}.

Definition ValidStreamURL (raw : string) : result string unit :=
  match url_parse raw with
  | None => Err "stream URL must use HTTPS without credentials or fragment"
  | Some parsed =>
      fail_if (2048 <? slen raw) || contains_any raw forbidden_url_chars ||
              negb (streq (u_Scheme parsed) "https") || streq (u_Host parsed) "" ||
              u_User parsed || negb (streq (u_Opaque parsed) "")
        with "stream URL must use HTTPS without credentials or fragment";
      Ok tt
  end.

Definition Validate (p : Policy) : result string unit :=
  fail_if match url_parse (p_TestURL p) with
          | None => true
          | Some parsed =>
              contains_any (p_TestURL p) forbidden_url_chars ||
              (negb (streq (u_Scheme parsed) "http") && negb (streq (u_Scheme parsed) "https")) ||
              streq (u_Host parsed) "" || u_User parsed ||
              negb (streq (u_Fragment parsed) "") || negb (streq (u_Opaque parsed) "")
          end
    with "monitor policy: test URL must use HTTP or HTTPS without credentials or fragment";
  fail_if negb (ValidPolicyName (p_SwitchPolicy p))
    with "monitor policy: switch policy must be one of lowest_latency, failover, steady_stream";
  fail_if streq (p_SwitchPolicy p) SwitchSteadyStream && negb (is_ok (ValidStreamURL (p_StreamURL p)))
    with "monitor policy: stream URL must use HTTPS without credentials or fragment";
  fail_if streq (p_SwitchPolicy p) SwitchSteadyStream &&
          ((p_StreamInterval p <? MinStreamInterval) || (24 * Hour <? p_StreamInterval p))
    with "monitor policy: stream interval must be between 4m and 24h";
  fail_if p_Interval p <=? 0
    with "monitor policy: interval must be positive";
  fail_if (p_Timeout p <=? 0) || (p_Interval p <? p_Timeout p)
    with "monitor policy: timeout must be positive and no greater than interval";
  fail_if (p_Concurrency p <? 1) || (64 <? p_Concurrency p)
    with "monitor policy: concurrency must be between 1 and 64";
  fail_if (p_Threshold p <=? 0) || (p_LatencyAlertThreshold p <=? 0)
    with "monitor policy: latency thresholds must be positive";
  fail_if (p_WindowSize p <? MonitorWindowMin) || (p_ConsecutiveBadSamples p <? 1) ||
          (p_WindowSize p <? p_ConsecutiveBadSamples p)
    with "monitor policy: unhealthy sample count must fit within a window of at least 2";
  fail_if (p_MinCandidateSamples p <? MonitorWindowMin) || (p_WindowSize p <? p_MinCandidateSamples p)
    with "monitor policy: candidate sample count must be between 2 and the window size";
  fail_if (p_MaxFailures p <? 1) || (p_WindowSize p <? p_MaxFailures p)
    with "monitor policy: max failures must be between 1 and the window size";
  fail_if p_MinImprovement p <=? 0
    with "monitor policy: minimum improvement must be positive";
  fail_if (p_Cooldown p <? 0) || (p_Jitter p <? 0) || (p_Interval p <=? p_Jitter p)
    with "monitor policy: cooldown must be nonnegative and jitter must be nonnegative and less than interval";
  Ok tt.

(** What the decision procedures rely on. *)
Record policy_bounds (p : Policy) : Prop := {
  pb_interval : 0 < p_Interval p;
  pb_timeout : 0 < p_Timeout p ≤ p_Interval p;
  pb_concurrency : 1 ≤ p_Concurrency p ≤ 64;
  pb_threshold : 0 < p_Threshold p;
  pb_alert : 0 < p_LatencyAlertThreshold p;
  pb_window : 2 ≤ p_WindowSize p;
  pb_bad : 1 ≤ p_ConsecutiveBadSamples p ≤ p_WindowSize p;
  pb_candidates : 2 ≤ p_MinCandidateSamples p ≤ p_WindowSize p;
  pb_failures : 1 ≤ p_MaxFailures p ≤ p_WindowSize p;
  pb_improvement : 0 < p_MinImprovement p;
  pb_cooldown : 0 ≤ p_Cooldown p;
  pb_jitter : 0 ≤ p_Jitter p < p_Interval p
}.

Lemma Validate_bounds p : Validate p = Ok tt → policy_bounds p.
Proof.
  unfold Validate, MonitorWindowMin. repeat case_match; try done. intros _.
  go_bool. constructor; lia.
Qed.
End validate.
#[export] Hint Resolve Validate_bounds : go_valid.
