(* ===== verification/MonitorPolicy.v ===== *)
(** * monitor/policy.go: stability, the latency decision and the latency alert

    [Decide] is the whole function, guards and early returns in order; the two
    loops it contains are [count_bad] (the run of unhealthy samples ending the
    selected node's window) and [pick] (the scan for the best candidate). *)
From S2P Require Import Prelude GoTime GoSort GoStrings GoNet MonitorModel.
Open Scope Z_scope.
Open Scope go_scope.

Definition ReasonManualOverride : string := "manual override active".
Definition ReasonAutomationDisabled : string := "automation disabled".
Definition ReasonSwitchInFlight : string := "switch already in flight".
Definition ReasonCooldown : string := "switch cooldown active".
Definition ReasonAllCandidatesFailed : string := "all candidates failed".
Definition ReasonInsufficientSamples : string := "insufficient samples".
Definition ReasonSelectedHealthy : string := "selected proxy is healthy".
Definition ReasonNoBetterCandidate : string := "no materially better candidate".
Definition ReasonSwitchCandidate : string := "materially better candidate".
Definition ReasonSteadierStream : string := "steadier HTTPS downloads".
Definition ReasonSelectedStreamsHealthy : string := "selected node completes its downloads".

(** [guard]: [""] when policy may decide. *)
Definition guard (policy : Policy) (state : GroupState) (now : time) : string :=
  if g_ManualOverride state then ReasonManualOverride
  else if negb (g_AutomationEnabled state) then ReasonAutomationDisabled
  else if g_SwitchInFlight state then ReasonSwitchInFlight
  else if time_after (g_LastSwitchAt state) now ||
          (negb (time_is_zero (g_LastSwitchAt state)) &&
           (time_sub now (g_LastSwitchAt state) <? p_Cooldown policy))
  then ReasonCooldown
  else "".

(** ** Windows and stability *)
Definition recent (samples : list Sample) (limit : Z) : list Sample :=
  newest_by s_FinishedAt samples limit.

Definition sampleFailed (s : Sample) : bool :=
  negb (bool_decide (s_Outcome s = OutcomeSuccess)) || (s_Latency s <=? 0).

Definition unhealthy (s : Sample) (threshold : duration) : bool :=
  sampleFailed s || (threshold <? s_Latency s).

(** [values[i]] for an index the code keeps in range. *)
Definition at_index (values : list Z) (i : Z) : Z := nth (Z.to_nat i) values 0.

Definition median (values : list duration) : duration :=
  let values := insertion_sort Z.ltb values in
  let middle := Z.quot (len values) 2 in
  if Z.rem (len values) 2 =? 1 then at_index values middle
  else add64 (at_index values (middle - 1))
             (Z.quot (sub64 (at_index values middle) (at_index values (middle - 1))) 2).

Definition MeasureStability (samples : list Sample) (windowSize : Z) : Stability :=
  let window := recent samples windowSize in
  let failures := len (filter (λ s, sampleFailed s = true) window) in
  let latencies := s_Latency <$> filter (λ s, sampleFailed s = false) window in
  match latencies with
  | [] => mkStability (len window) failures 0 0
  | _ =>
      let m := median latencies in
      mkStability (len window) failures m
        (median ((λ l, duration_abs (sub64 l m)) <$> latencies))
  end.

Definition steadier (a : Stability) (aName : string) (b : Stability) (bName : string) : bool :=
  if negb (st_Failures a =? st_Failures b) then st_Failures a <? st_Failures b
  else if negb (st_Median a =? st_Median b) then st_Median a <? st_Median b
  else if negb (st_Jitter a =? st_Jitter b) then st_Jitter a <? st_Jitter b
  else string_ltb aName bName.

(** [byProxy[name]], a Go map whose missing entries read as the empty slice. *)
Definition by_proxy_get {A} (m : gmap string (list A)) (name : string) : list A :=
  default [] (m !! name).
Definition by_proxy_add {A} (name : string) (x : A) (m : gmap string (list A)) : gmap string (list A) :=
  <[name := by_proxy_get m name ++ [x]]> m.

Definition last_failed (l : list Sample) : bool :=
  match last l with Some s => sampleFailed s | None => true end.

(** [len(samples) == 0 || !sampleFailed(samples[len(samples)-1])] ends the scan. *)
Fixpoint allCandidatesFailed_from (proxies : list string) (byProxy : gmap string (list Sample))
    (windowSize : Z) : bool :=
  match proxies with
  | [] => true
  | proxy :: rest =>
      match recent (by_proxy_get byProxy proxy) windowSize with
      | [] => false
      | samples => if negb (last_failed samples) then false
                   else allCandidatesFailed_from rest byProxy windowSize
      end
  end.
Definition allCandidatesFailed (proxies : list string) (byProxy : gmap string (list Sample))
    (windowSize : Z) : bool :=
  match proxies with [] => false | _ => allCandidatesFailed_from proxies byProxy windowSize end.

(** ** The decision *)

(** The samples of the group measured against the policy's test URL. *)
Definition relevant (policy : Policy) (state : GroupState) (s : Sample) : bool :=
  negb (negb (streq (s_Group s) (g_Group state)) || streq (s_Proxy s) "" ||
        (negb (streq (p_TestURL policy) "") && negb (streq (s_URL s) (p_TestURL policy)))).

Definition group_samples (policy : Policy) (state : GroupState) (samples : list Sample) : list Sample :=
  filter (λ s, relevant policy state s = true) samples.

Definition index_samples (samples : list Sample) : gmap string (list Sample) :=
  foldl (λ m s, by_proxy_add (s_Proxy s) s m) ∅ samples.

(** [for i := len(window)-1; i >= 0 && bad < limit; i--], on the reversed window. *)
Fixpoint count_bad (threshold : duration) (limit : Z) (rwindow : list Sample) (bad : Z) : Z :=
  match rwindow with
  | [] => bad
  | s :: rest =>
      if bad <? limit
      then if unhealthy s threshold then count_bad threshold limit rest (bad + 1) else bad
      else bad
  end.

(** How the selected node's window allows leaving it: stop with a reason, or go
    on with the samples candidates are compared to and the [unstable] mark. *)
Definition examine_selected (policy : Policy) (window : list Sample) (selected : Stability)
    : result string (list Sample * bool) :=
  if streq (p_SwitchPolicy policy) SwitchLowestLatency then
    fail_if len window <? p_MinCandidateSamples policy with ReasonInsufficientSamples;
    Ok (window, false)
  else
    fail_if (len window <? p_ConsecutiveBadSamples policy) && (st_Failures selected <? p_MaxFailures policy)
      with ReasonInsufficientSamples;
    let bad := count_bad (p_Threshold policy) (p_ConsecutiveBadSamples policy) (rev window) 0 in
    if p_ConsecutiveBadSamples policy <=? bad then Ok (slice_from window (len window - bad), false)
    else if p_MaxFailures policy <=? st_Failures selected then Ok (window, true)
    else Err ReasonSelectedHealthy.

(** One candidate's eligibility, the body of the scan up to the comparison with
    the best so far. *)
Definition eligible (policy : Policy) (byProxy : gmap string (list Sample)) (selectedName : string)
    (selected baseline : Stability) (selectedOffline unstable : bool) (proxy : string) : option Stability :=
  if streq proxy selectedName then None else
  let candidate := recent (by_proxy_get byProxy proxy) (p_WindowSize policy) in
  if last_failed candidate then None else
  let stats := MeasureStability candidate 0 in
  if st_Samples stats - st_Failures stats <? p_MinCandidateSamples policy then None
  else if selectedOffline then Some stats
  else if unstable then
    if (st_Failures selected <=? st_Failures stats) || (p_Threshold policy <? st_Median stats)
    then None else Some stats
  else
    if (p_MaxFailures policy <=? st_Failures stats) ||
       (sub64 (st_Median baseline) (st_Median stats) <? p_MinImprovement policy)
    then None else Some stats.

(** The scan; [None] is [bestName == ""].  A proxy named [""] never becomes a
    remembered best, exactly as the comparison with [""] has it. *)
Definition better_of (best : string * Stability) (proxy : string) (stats : Stability) : string * Stability :=
  if streq best.1 "" || steadier stats proxy best.2 best.1 then (proxy, stats) else best.

Definition no_stability : Stability := mkStability 0 0 0 0.

Definition pick (candidate : string → option Stability) (proxies : list string) : string * Stability :=
  foldl (λ best proxy,
           match candidate proxy with Some stats => better_of best proxy stats | None => best end)
        ("", no_stability) proxies.

Definition stay (state : GroupState) (reason : string) (evidence : list Sample) : Decision :=
  mkDecision false false (g_Group state) (g_Selected state) "" reason evidence [].

Definition Decide (policy : Policy) (state : GroupState) (samples : list Sample) (now : time) : Decision :=
  let groupSamples := group_samples policy state samples in
  let byProxy := index_samples groupSamples in
  let reason := guard policy state now in
  if negb (streq reason "") then stay state reason groupSamples else
  if streq (g_Selected state) "" || (len (g_Proxies state) =? 0)
  then stay state ReasonInsufficientSamples groupSamples else
  if allCandidatesFailed (g_Proxies state) byProxy (p_WindowSize policy)
  then stay state ReasonAllCandidatesFailed groupSamples else
  let window := recent (by_proxy_get byProxy (g_Selected state)) (p_WindowSize policy) in
  let selected := MeasureStability window 0 in
  match examine_selected policy window selected with
  | Err reason => stay state reason groupSamples
  | Ok (comparable, unstable) =>
      let baseline := MeasureStability comparable 0 in
      let selectedOffline := st_Failures baseline =? st_Samples baseline in
      let best := pick (eligible policy byProxy (g_Selected state) selected baseline
                          selectedOffline unstable) (g_Proxies state) in
      if streq best.1 "" then stay state ReasonNoBetterCandidate groupSamples else
      let lowerLatency :=
        negb selectedOffline && negb unstable &&
        (p_MinCandidateSamples policy <=? st_Samples baseline - st_Failures baseline) &&
        negb (last_failed comparable) in
      mkDecision true lowerLatency (g_Group state) (g_Selected state) best.1
        ReasonSwitchCandidate groupSamples []
  end.

(** ** The latency alert *)
Record AlertScan := mkAlertScan {
  al_latest : list Sample;
  al_allHigh : bool;
  al_anyRecovered : bool;
  al_complete : bool
}.

Definition alert_relevant (policy : Policy) (state : GroupState) (s : Sample) : bool :=
  streq (s_Group s) (g_Group state) && negb (streq (s_Proxy s) "") &&
  (streq (p_TestURL policy) "" || streq (s_URL s) (p_TestURL policy)).

Definition alert_scan_step (policy : Policy) (byProxy : gmap string (list Sample))
    (scan : AlertScan) (proxy : string) : AlertScan :=
  match recent (by_proxy_get byProxy proxy) 1 with
  | [] => mkAlertScan (al_latest scan) (al_allHigh scan) (al_anyRecovered scan) false
  | sample :: _ =>
      if sampleFailed sample
      then mkAlertScan (al_latest scan) (al_allHigh scan) (al_anyRecovered scan) false
      else if s_Latency sample <=? p_LatencyAlertThreshold policy
      then mkAlertScan (al_latest scan ++ [sample]) false true (al_complete scan)
      else mkAlertScan (al_latest scan ++ [sample]) (al_allHigh scan) (al_anyRecovered scan) (al_complete scan)
  end.

Definition alert_scan (policy : Policy) (byProxy : gmap string (list Sample))
    (proxies : list string) : AlertScan :=
  foldl (alert_scan_step policy byProxy) (mkAlertScan [] true false true) proxies.

Definition UpdateLatencyAlert (policy : Policy) (state : GroupState) (samples : list Sample)
    (previous : AlertState) : AlertState * AlertEvent :=
  let event t evidence := mkAlertEvent t (g_Group state) (p_LatencyAlertThreshold policy) evidence in
  if len (g_Proxies state) =? 0 then (previous, event AlertNoChange []) else
  let byProxy := index_samples (filter (λ s, alert_relevant policy state s = true) samples) in
  let scan := alert_scan policy byProxy (g_Proxies state) in
  if a_HighLatency previous && al_anyRecovered scan
  then (mkAlertState false, event AlertRecovered (al_latest scan)) else
  if al_complete scan && al_allHigh scan && negb (a_HighLatency previous)
  then (mkAlertState true, event AlertHighLatency (al_latest scan)) else
  (previous, event AlertNoChange (al_latest scan)).
