(* ===== verification/MonitorPolicyFacts.v ===== *)
(** * Correctness of monitor/policy.go

    Stability statistics, the ranking of candidates, and what [Decide] and
    [UpdateLatencyAlert] guarantee. *)
From S2P Require Import Prelude GoTime GoSort GoStrings GoNet MonitorModel MonitorPolicy.
Open Scope Z_scope.

(** ** Indexing samples by proxy *)
Lemma by_proxy_get_add {A} (m : gmap string (list A)) name x other :
  by_proxy_get (by_proxy_add name x m) other =
    if decide (name = other) then by_proxy_get m other ++ [x] else by_proxy_get m other.
Proof.
  unfold by_proxy_add, by_proxy_get at 1. rewrite lookup_insert.
  case_decide; [by subst|done].
Qed.

Lemma foldl_add_get {A} (key : A → string) l (m : gmap string (list A)) name :
  by_proxy_get (foldl (λ m x, by_proxy_add (key x) x m) m l) name =
    by_proxy_get m name ++ filter (λ x, key x = name) l.
Proof.
  revert m. induction l as [|x l IH]; intros m; [by rewrite app_nil_r|].
  cbn [foldl]. rewrite IH, by_proxy_get_add, filter_cons.
  case_decide; [by rewrite <- app_assoc|done].
Qed.

Lemma index_samples_get l name :
  by_proxy_get (index_samples l) name = filter (λ s, s_Proxy s = name) l.
Proof. unfold index_samples. by rewrite foldl_add_get. Qed.

(** ** Medians *)
Lemma elem_of_at_index values i : 0 ≤ i < len values → at_index values i ∈ values.
Proof.
  unfold at_index, len. intros H. apply list_elem_of_In, nth_In. lia.
Qed.

Lemma quot_half n : 0 ≤ n → Z.quot n 2 = n / 2.
Proof. intros. by apply Z.quot_div_nonneg. Qed.

Lemma rem_half n : 0 ≤ n → Z.rem n 2 = n mod 2.
Proof. intros. by apply Z.rem_mod_nonneg. Qed.

(** The median of a nonempty slice lies between its extremes; the midpoint of
    the even case neither wraps nor leaves that interval. *)
Lemma median_bounds values lo hi :
  values ≠ [] → in_int64 lo → in_int64 hi → hi - lo ≤ max_int64 →
  (∀ v, v ∈ values → lo ≤ v ≤ hi) → lo ≤ median values ≤ hi.
Proof.
  intros Hne Hlo Hhi Hspan Hv. unfold median.
  set (s := insertion_sort Z.ltb values).
  assert (Hs : ∀ i, 0 ≤ i < len s → lo ≤ at_index s i ≤ hi).
  { intros i Hi. apply Hv. rewrite <- (elem_of_insertion_sort Z.ltb).
    by apply elem_of_at_index. }
  assert (0 < len s) as Hlen.
  { pose proof (len_nonneg s). assert (len s ≠ 0); [|lia].
    rewrite len_nil_iff. intros E. apply Hne, Permutation_nil.
    rewrite <- E. unfold s. by rewrite insertion_sort_perm. }
  rewrite quot_half, rem_half by lia.
  pose proof (Z.div_mod (len s) 2 ltac:(lia)).
  pose proof (Z.mod_pos_bound (len s) 2 ltac:(lia)).
  destruct (len s mod 2 =? 1) eqn:Hodd; go_bool.
  - apply Hs. lia.
  - pose proof (Hs (len s / 2) ltac:(lia)) as H1.
    pose proof (Hs (len s / 2 - 1) ltac:(lia)) as H2.
    set (a := at_index s (len s / 2 - 1)) in *. set (b := at_index s (len s / 2)) in *.
    assert (a ≤ b) as Hab.
    { assert (not_after Z.ltb a b) as Hab; [|unfold not_after in Hab; go_bool; lia].
      apply (StronglySorted_nth _ s 0); [|unfold len in *; lia].
      eapply insertion_sort_sorted; [apply ltb_strict_weak|by apply Forall_true]. }
    unfold sub64, add64. unfold in_int64, min_int64, max_int64 in *.
    rewrite (wrap64_id (b - a)) by (unfold in_int64, min_int64, max_int64; lia).
    pose proof (Z.quot_div_nonneg (b - a) 2 ltac:(lia) ltac:(lia)) as Hq. rewrite Hq.
    pose proof (Z.div_mod (b - a) 2 ltac:(lia)). pose proof (Z.mod_pos_bound (b - a) 2 ltac:(lia)).
    rewrite wrap64_id by (unfold in_int64, min_int64, max_int64; lia). lia.
Qed.

Lemma median_perm l k : l ≡ₚ k → median l = median k.
Proof.
  intros H. unfold median.
  rewrite (insertion_sort_unique Z.ltb (λ _, True) l k); [done|apply ltb_strict_weak| |
    by apply Forall_true|done].
  intros x y _ _. apply ltb_total.
Qed.

(** ** Stability *)
Lemma MeasureStability_samples l w : st_Samples (MeasureStability l w) = len (recent l w).
Proof. unfold MeasureStability. by destruct (s_Latency <$> _). Qed.

Lemma MeasureStability_failures l w :
  st_Failures (MeasureStability l w) = len (filter (λ s, sampleFailed s = true) (recent l w)).
Proof. unfold MeasureStability. by destruct (s_Latency <$> _). Qed.

Lemma MeasureStability_counts l w :
  let st := MeasureStability l w in 0 ≤ st_Failures st ≤ st_Samples st.
Proof.
  cbn. rewrite MeasureStability_samples, MeasureStability_failures. apply len_filter_le.
Qed.

(** A window whose last sample succeeded is not entirely failed. *)
Lemma last_failed_false_counts l w :
  last_failed (recent l w) = false →
  st_Failures (MeasureStability l w) < st_Samples (MeasureStability l w).
Proof.
  rewrite MeasureStability_samples, MeasureStability_failures.
  unfold last_failed. intros H. destruct (last (recent l w)) as [s|] eqn:Hl; [|done].
  pose proof (len_filter_split sampleFailed (recent l w)) as Hsplit.
  assert (0 < len (filter (λ s, sampleFailed s = false) (recent l w))); [|lia].
  assert (s ∈ filter (λ s, sampleFailed s = false) (recent l w)) as Hin.
  { apply list_elem_of_filter. split; [done|].
    apply last_Some in Hl as [k ->]. set_solver. }
  destruct (filter (λ s, sampleFailed s = false) (recent l w)) as [|x y]; [set_solver|].
  rewrite len_cons. pose proof (len_nonneg y). lia.
Qed.

(** All probes failed exactly when the two counters agree. *)
Lemma all_failed_counts l w :
  st_Failures (MeasureStability l w) = st_Samples (MeasureStability l w) →
  ∀ s, s ∈ recent l w → sampleFailed s = true.
Proof.
  rewrite MeasureStability_samples, MeasureStability_failures. intros Heq s Hs.
  destruct (sampleFailed s) eqn:Hf; [done|].
  pose proof (len_filter_split sampleFailed (recent l w)).
  assert (len (filter (λ s, sampleFailed s = false) (recent l w)) = 0) as H0%len_nil_iff by lia.
  assert (s ∈ filter (λ s, sampleFailed s = false) (recent l w)) as Hin
    by by apply list_elem_of_filter.
  rewrite H0 in Hin. set_solver.
Qed.

Definition latency_range (l : list Sample) : Prop := ∀ s, s ∈ l → in_int64 (s_Latency s).

(** With at least one success, the median is a positive duration bounded by the
    fastest and slowest successful probe. *)
Lemma MeasureStability_median_bounds l w lo hi :
  let st := MeasureStability l w in
  st_Failures st < st_Samples st → latency_range l →
  (∀ s, s ∈ recent l w → sampleFailed s = false → lo ≤ s_Latency s ≤ hi) →
  in_int64 lo → in_int64 hi → 0 < lo →
  lo ≤ st_Median st ≤ hi ∧ 0 ≤ st_Jitter st ≤ hi - lo.
Proof.
  cbn. rewrite MeasureStability_samples, MeasureStability_failures.
  intros Hsome Hrange Hb Hlo Hhi Hpos. unfold MeasureStability.
  pose proof (len_filter_split sampleFailed (recent l w)) as Hsplit.
  set (lat := s_Latency <$> filter (λ s, sampleFailed s = false) (recent l w)).
  assert (Hlat : ∀ v, v ∈ lat → lo ≤ v ≤ hi).
  { intros v Hv. apply list_elem_of_fmap in Hv as (s & -> & Hs).
    apply list_elem_of_filter in Hs as [? ?]. auto. }
  assert (lat ≠ []) as Hne.
  { intros E%(f_equal len). unfold lat, len in *. rewrite length_fmap in E. cbn in E. lia. }
  unfold in_int64, min_int64, max_int64 in *.
  assert (lo ≤ median lat ≤ hi) as Hm.
  { apply median_bounds; unfold in_int64, min_int64, max_int64; [done|lia|lia|lia|done]. }
  assert (0 ≤ median ((λ l, duration_abs (sub64 l (median lat))) <$> lat) ≤ hi - lo) as Hj.
  { apply median_bounds; unfold in_int64, min_int64, max_int64; [by destruct lat|lia|lia|lia|].
    intros v Hv. apply list_elem_of_fmap in Hv as (x & -> & Hx%Hlat).
    unfold sub64. rewrite wrap64_id by (unfold in_int64, min_int64, max_int64; lia).
    unfold duration_abs, min_int64. repeat case_match; go_bool; lia. }
  by destruct lat.
Qed.

(** ** Ranking candidates *)
Lemma steadier_irrefl a n : steadier a n a n = false.
Proof. unfold steadier. rewrite !Z.eqb_refl. apply string_ltb_irrefl. Qed.

Lemma steadier_trans a an b bn c cn :
  steadier a an b bn = true → steadier b bn c cn = true → steadier a an c cn = true.
Proof.
  unfold steadier. intros Hab Hbc.
  repeat case_match; go_bool; try lia. by eapply string_ltb_trans.
Qed.

Lemma steadier_total a an b bn :
  an ≠ bn → steadier a an b bn = false → steadier b bn a an = true.
Proof.
  unfold steadier. intros Hne Hab.
  repeat case_match; go_bool; rewrite ?Z.ltb_lt; try lia.
  apply not_false_iff_true. intros Hba. by apply Hne, string_ltb_total.
Qed.

(** ** The scan for the best candidate *)
Section pick.
Context (candidate : string → option Stability).

Abbreviation scan := (foldl (λ best proxy,
  match candidate proxy with Some stats => better_of best proxy stats | None => best end)).

(** The running best is unnamed, or an eligible proxy seen so far with its own
    statistics, outranked by no eligible proxy seen so far. *)
Definition best_of (seen : list string) (best : string * Stability) : Prop :=
  (best.1 = "" ∧ ∀ q, q ∈ seen → q ≠ "" → candidate q = None) ∨
  (best.1 ≠ "" ∧ best.1 ∈ seen ∧ candidate best.1 = Some best.2 ∧
   ∀ q stats, q ∈ seen → q ≠ "" → candidate q = Some stats → steadier stats q best.2 best.1 = false).

Lemma best_of_step seen best proxy :
  candidate "" = None → best_of seen best →
  best_of (seen ++ [proxy])
    match candidate proxy with Some stats => better_of best proxy stats | None => best end.
Proof.
  intros Hblank Hb.
  destruct (candidate proxy) as [stats|] eqn:Hc.
  - assert (proxy ≠ "") as Hne by (intros ->; congruence).
    unfold better_of. destruct Hb as [[Hb Hnone]|(Hb & Hin & Hbc & Hmax)].
    + rewrite (proj2 (streq_true best.1 "")) by done. cbn. right. cbn.
      split_and!; [done|set_solver|done|].
      intros q st' [Hq|Hq%list_elem_of_singleton]%elem_of_app Hq0 Hqc.
      * by rewrite (Hnone q Hq Hq0) in Hqc.
      * subst. rewrite Hc in Hqc. simplify_eq. apply steadier_irrefl.
    + rewrite (proj2 (streq_false best.1 "")) by done. cbn.
      destruct (steadier stats proxy best.2 best.1) eqn:Hs; right; cbn.
      * split_and!; [done|set_solver|done|].
        intros q st' [Hq|Hq%list_elem_of_singleton]%elem_of_app Hq0 Hqc.
        -- apply not_true_iff_false. intros Ht.
           pose proof (Hmax q st' Hq Hq0 Hqc) as Hf.
           by rewrite (steadier_trans _ _ _ _ _ _ Ht Hs) in Hf.
        -- subst. rewrite Hc in Hqc. simplify_eq. apply steadier_irrefl.
      * split_and!; [done|set_solver|done|].
        intros q st' [Hq|Hq%list_elem_of_singleton]%elem_of_app Hq0 Hqc; [by eauto|].
        subst. by rewrite Hc in Hqc; simplify_eq.
  - destruct Hb as [[Hb Hnone]|(Hb & Hin & Hbc & Hmax)]; [left|right].
    + split; [done|]. intros q [Hq|Hq%list_elem_of_singleton]%elem_of_app Hq0; [auto|by subst].
    + split_and!; [done|set_solver|done|].
      intros q st' [Hq|Hq%list_elem_of_singleton]%elem_of_app Hq0 Hqc; [by eauto|].
      subst. congruence.
Qed.

Lemma pick_best proxies : candidate "" = None → best_of proxies (pick candidate proxies).
Proof.
  intros Hblank. unfold pick.
  assert (∀ seen best, best_of seen best → best_of (seen ++ proxies) (scan best proxies)) as H.
  { induction proxies as [|p ps IH]; intros seen best Hb; cbn [foldl]; [by rewrite app_nil_r|].
    change (p :: ps) with ([p] ++ ps). rewrite (app_assoc seen [p] ps).
    by apply IH, best_of_step. }
  apply (H []). left. split; [done|]. intros q Hq. by apply not_elem_of_nil in Hq.
Qed.
End pick.

(** ** The guard *)
Record may_decide (policy : Policy) (state : GroupState) (now : time) : Prop := {
  md_manual : g_ManualOverride state = false;
  md_auto : g_AutomationEnabled state = true;
  md_idle : g_SwitchInFlight state = false;
  md_past : g_LastSwitchAt state ≤ now;
  md_cooldown : g_LastSwitchAt state ≠ zero_time → p_Cooldown policy ≤ time_sub now (g_LastSwitchAt state)
}.

Lemma guard_open policy state now : guard policy state now = "" ↔ may_decide policy state now.
Proof.
  unfold guard, time_after, time_is_zero. split.
  - destruct (g_ManualOverride state) eqn:?; [done|].
    destruct (g_AutomationEnabled state) eqn:?; [|done].
    destruct (g_SwitchInFlight state) eqn:?; [done|]. cbn.
    destruct (_ || _) eqn:Hc; [done|]. intros _.
    apply orb_false_iff in Hc as [Hp Hc]. go_bool. split; try done.
    intros Hne. apply andb_false_iff in Hc as [Hc|Hc]; go_bool; [done|lia].
  - intros [-> -> -> Hp Hc]. cbn. destruct (_ || _) eqn:Ho; [|done]. exfalso.
    apply orb_true_iff in Ho as [Ho|Ho]; go_bool; [lia|]. specialize (Hc ltac:(done)). lia.
Qed.

(** The samples of one proxy that count for the decision, newest window. *)
Definition candidate_window (policy : Policy) (state : GroupState) (samples : list Sample)
    (proxy : string) : list Sample :=
  recent (filter (λ s, s_Proxy s = proxy) (group_samples policy state samples)) (p_WindowSize policy).

Lemma window_index policy state samples proxy :
  recent (by_proxy_get (index_samples (group_samples policy state samples)) proxy) (p_WindowSize policy) =
  candidate_window policy state samples proxy.
Proof. unfold candidate_window. by rewrite index_samples_get. Qed.

Lemma candidate_window_blank policy state samples : candidate_window policy state samples "" = [].
Proof.
  unfold candidate_window, recent. apply newest_by_nil_iff.
  destruct (filter _ _) as [|x l] eqn:Hf; [done|].
  assert (x ∈ x :: l) as Hx by by left. rewrite <- Hf in Hx.
  apply list_elem_of_filter in Hx as [Hx Hin]. unfold group_samples in Hin.
  apply list_elem_of_filter in Hin as [Hr _]. unfold relevant in Hr. rewrite Hx in Hr.
  rewrite orb_true_r in Hr. done.
Qed.

(** ** [Decide], piece by piece *)
Section decide.
Context (policy : Policy) (state : GroupState) (samples : list Sample) (now : time).

Abbreviation window_of := (candidate_window policy state samples).
Abbreviation stats_of q := (MeasureStability (window_of q) 0).

(** What the selected node's own window allows. *)
Definition verdict : result string (list Sample * bool) :=
  examine_selected policy (window_of (g_Selected state)) (stats_of (g_Selected state)).

Definition offline (comparable : list Sample) : bool :=
  st_Failures (MeasureStability comparable 0) =? st_Samples (MeasureStability comparable 0).

Definition candidate_of (comparable : list Sample) (unstable : bool) : string → option Stability :=
  eligible policy (index_samples (group_samples policy state samples)) (g_Selected state)
    (stats_of (g_Selected state)) (MeasureStability comparable 0) (offline comparable) unstable.

(** The rule a replacement must satisfy besides answering its last probe. *)
Definition improves (comparable : list Sample) (unstable : bool) (stats : Stability) : Prop :=
  if offline comparable then True
  else if unstable then
    st_Failures stats < st_Failures (stats_of (g_Selected state)) ∧ st_Median stats ≤ p_Threshold policy
  else st_Failures stats < p_MaxFailures policy ∧
       p_MinImprovement policy ≤ sub64 (st_Median (MeasureStability comparable 0)) (st_Median stats).

Lemma candidate_of_Some comparable unstable q stats :
  candidate_of comparable unstable q = Some stats ↔
    q ≠ g_Selected state ∧ last_failed (window_of q) = false ∧ stats = stats_of q ∧
    p_MinCandidateSamples policy ≤ st_Samples stats - st_Failures stats ∧
    improves comparable unstable stats.
Proof.
  unfold candidate_of, eligible, improves. rewrite window_index. split.
  - intros Hq. repeat case_match; go_bool; simplify_eq;
      rewrite ?streq_false in *; split_and!; try done; try lia.
  - intros (Hne & Hl & -> & Hmin & Himp).
    rewrite (proj2 (streq_false q _)) by done. rewrite Hl.
    rewrite (proj2 (Z.ltb_ge _ _)) by lia.
    repeat case_match; try done; exfalso;
      match goal with H : (_ || _)%bool = true |- _ => apply orb_true_iff in H as [?|?] end;
      go_bool; lia.
Qed.

Lemma candidate_of_blank comparable unstable : candidate_of comparable unstable "" = None.
Proof.
  destruct (candidate_of comparable unstable "") as [st|] eqn:Hc; [|done].
  apply candidate_of_Some in Hc as (_ & Hl & _). by rewrite candidate_window_blank in Hl.
Qed.

Definition all_failed : bool :=
  allCandidatesFailed (g_Proxies state) (index_samples (group_samples policy state samples))
    (p_WindowSize policy).

Record switching (comparable : list Sample) (unstable : bool) (new : string) (stats : Stability) : Prop := {
  sw_guard : may_decide policy state now;
  sw_selected : g_Selected state ≠ "";
  sw_alive : all_failed = false;
  sw_verdict : verdict = Ok (comparable, unstable);
  sw_new : new ≠ "";
  sw_member : new ∈ g_Proxies state;
  sw_candidate : candidate_of comparable unstable new = Some stats;
  sw_best : ∀ q st, q ∈ g_Proxies state → q ≠ "" → candidate_of comparable unstable q = Some st →
    steadier st q stats new = false
}.

Lemma Decide_switching :
  d_Switch (Decide policy state samples now) = true →
  ∃ comparable unstable stats,
    switching comparable unstable (d_New (Decide policy state samples now)) stats.
Proof.
  unfold Decide. rewrite !window_index. fold all_failed.
  destruct (streq (guard policy state now) "") eqn:Hg; cbn [negb]; [|done].
  destruct (streq (g_Selected state) "" || _) eqn:Hs; [done|].
  destruct all_failed eqn:Ha; [done|]. fold verdict.
  destruct verdict as [[cmp u]|] eqn:Hv; [|done].
  fold (offline cmp). fold (candidate_of cmp u).
  pose proof (pick_best (candidate_of cmp u) (g_Proxies state) (candidate_of_blank cmp u)) as Hb.
  destruct (streq (fst (pick _ _)) "") eqn:Hn; [done|]. intros _. cbn.
  apply streq_false in Hn. apply streq_true, guard_open in Hg. go_bool.
  destruct Hb as [[Hb _]|(_ & Hin & Hc & Hmax)]; [done|].
  eexists cmp, u, _. split; [done|by apply streq_false|try done..].
Qed.

Lemma switching_Decide comparable unstable new stats :
  switching comparable unstable new stats →
  d_Switch (Decide policy state samples now) = true ∧
  d_New (Decide policy state samples now) = new.
Proof.
  intros [Hg Hs Ha Hv Hn Hm Hc Hmax]. unfold Decide. rewrite !window_index.
  fold all_failed. apply guard_open in Hg. rewrite Hg. cbn [streq].
  rewrite (proj2 (streq_true "" "")) by done. cbn [negb].
  rewrite (proj2 (streq_false (g_Selected state) "")) by done.
  assert ((len (g_Proxies state) =? 0) = false) as ->.
  { apply Z.eqb_neq. rewrite len_nil_iff. intros E. rewrite E in Hm. set_solver. }
  rewrite Ha. fold verdict. rewrite Hv. fold (offline comparable).
  fold (candidate_of comparable unstable). cbn [orb].
  pose proof (pick_best (candidate_of comparable unstable) (g_Proxies state)
    (candidate_of_blank _ _)) as [[Hb Hnone]|(Hb & Hin & Hbc & Hbest)].
  { by rewrite (Hnone new) in Hc. }
  rewrite (proj2 (streq_false _ "")) by done. cbn. split; [done|].
  destruct (decide ((pick (candidate_of comparable unstable) (g_Proxies state)).1 = new)) as [|Hne];
    [done|].
  pose proof (Hmax _ _ Hin Hb Hbc) as H1. pose proof (Hbest _ _ Hm Hn Hc) as H2.
  apply steadier_total in H1; [congruence|done].
Qed.

Lemma Decide_stay :
  d_Switch (Decide policy state samples now) = false →
  ∃ reason, Decide policy state samples now = stay state reason (group_samples policy state samples).
Proof.
  unfold Decide. repeat case_match; cbn; intros; try done; eauto.
Qed.

Lemma Decide_fields :
  d_Group (Decide policy state samples now) = g_Group state ∧
  d_Old (Decide policy state samples now) = g_Selected state ∧
  d_Evidence (Decide policy state samples now) = group_samples policy state samples.
Proof. unfold Decide. repeat case_match; done. Qed.
End decide.

(** ** Windows taken from well-formed samples *)
Lemma candidate_window_sub policy state samples q s :
  s ∈ candidate_window policy state samples q → s ∈ samples.
Proof.
  unfold candidate_window, group_samples. intros Hs%elem_of_newest_by.
  apply list_elem_of_filter in Hs as [_ Hs]. by apply list_elem_of_filter in Hs as [_ Hs].
Qed.

Lemma recent_of_window policy state samples q :
  recent (candidate_window policy state samples q) 0 = candidate_window policy state samples q.
Proof. apply newest_by_idemp. Qed.

(** A window that is not entirely failed has a positive 64-bit median. *)
Lemma window_median_range policy state samples q :
  let st := MeasureStability (candidate_window policy state samples q) 0 in
  latency_range samples → st_Failures st < st_Samples st → 1 ≤ st_Median st ≤ max_int64.
Proof.
  cbn. intros Hr Hlt.
  apply (MeasureStability_median_bounds _ _ 1 max_int64 Hlt);
    try (unfold in_int64, min_int64, max_int64; lia).
  - intros s Hs. by eapply Hr, candidate_window_sub.
  - intros s Hs Hf. rewrite recent_of_window in Hs. unfold sampleFailed in Hf. go_bool.
    pose proof (Hr s ltac:(by eapply candidate_window_sub)) as Hrs.
    unfold in_int64 in Hrs. lia.
Qed.

Lemma candidate_alive policy state samples q :
  last_failed (candidate_window policy state samples q) = false →
  let st := MeasureStability (candidate_window policy state samples q) 0 in
  st_Failures st < st_Samples st.
Proof.
  cbn. intros Hl. apply last_failed_false_counts. by rewrite recent_of_window.
Qed.

Lemma sub64_medians a b : 1 ≤ a ≤ max_int64 → 1 ≤ b ≤ max_int64 → sub64 a b = a - b.
Proof.
  intros Ha Hb. unfold sub64. apply wrap64_id. unfold in_int64, min_int64, max_int64 in *. lia.
Qed.

(** Under [lowest_latency] candidates are compared with the whole window. *)
Lemma verdict_lowest_latency policy state samples comparable unstable :
  p_SwitchPolicy policy = SwitchLowestLatency →
  verdict policy state samples = Ok (comparable, unstable) →
  comparable = candidate_window policy state samples (g_Selected state) ∧ unstable = false ∧
  p_MinCandidateSamples policy ≤ len comparable.
Proof.
  unfold verdict, examine_selected. intros ->. rewrite (proj2 (streq_true _ _)) by done.
  case_match; [done|]. intros [= <- <-]. by go_bool.
Qed.

(** The gain a lowest-latency switch from an answering node must show. *)
Lemma lowest_latency_gain policy state samples now comparable unstable new stats :
  p_SwitchPolicy policy = SwitchLowestLatency → latency_range samples →
  switching policy state samples now comparable unstable new stats →
  let old := MeasureStability (candidate_window policy state samples (g_Selected state)) 0 in
  st_Failures old = st_Samples old ∨
  (st_Failures stats < p_MaxFailures policy ∧
   st_Median stats + p_MinImprovement policy ≤ st_Median old).
Proof.
  intros Hp Hr Hsw. cbn. destruct (verdict_lowest_latency _ _ _ _ _ Hp (sw_verdict _ _ _ _ _ _ _ _ Hsw))
    as (-> & -> & _).
  pose proof (sw_candidate _ _ _ _ _ _ _ _ Hsw) as (_ & Hl & -> & _ & Himp)%candidate_of_Some.
  unfold improves in Himp.
  destruct (offline _) eqn:Ho; unfold offline in Ho; go_bool; [by left|right].
  destruct Himp as [Hf Hm].
  pose proof (MeasureStability_counts (candidate_window policy state samples (g_Selected state)) 0) as Hc.
  cbn in Hc. rewrite sub64_medians in Hm; [lia| |].
  - apply window_median_range; [done|lia].
  - apply window_median_range, candidate_alive; done.
Qed.

Definition select (state : GroupState) (proxy : string) : GroupState :=
  mkGroupState (g_Group state) proxy (g_Proxies state) (g_ProbeEnabled state)
    (g_AutomationEnabled state) (g_ManualOverride state) (g_SwitchInFlight state) (g_LastSwitchAt state).

Lemma candidate_window_select policy state samples proxy q :
  candidate_window policy (select state proxy) samples q = candidate_window policy state samples q.
Proof. done. Qed.

(** ** Properties *)


(** Under [lowest_latency] a proposed replacement is a different member
    whose last probe succeeded, measured with at least [MinCandidateSamples]
    successes; and unless every recent probe of the selected node failed, it has
    fewer than [MaxFailures] failures and a median lower by at least
    [MinImprovement], as integers, with no wrap-around. *)
Theorem Decide_lowest_latency_gain policy state samples now :
  p_SwitchPolicy policy = SwitchLowestLatency → latency_range samples →
  d_Switch (Decide policy state samples now) = true →
  let new := d_New (Decide policy state samples now) in
  let old_stats := MeasureStability (candidate_window policy state samples (g_Selected state)) 0 in
  let new_stats := MeasureStability (candidate_window policy state samples new) 0 in
  new ∈ g_Proxies state ∧ new ≠ g_Selected state ∧
  last_failed (candidate_window policy state samples new) = false ∧
  p_MinCandidateSamples policy ≤ st_Samples new_stats - st_Failures new_stats ∧
  (st_Failures old_stats = st_Samples old_stats ∨
   (st_Failures new_stats < p_MaxFailures policy ∧
    st_Median new_stats + p_MinImprovement policy ≤ st_Median old_stats)).
Proof.
  intros Hp Hr Hs. cbn. apply Decide_switching in Hs as (cmp & u & stats & Hsw).
  pose proof (lowest_latency_gain _ _ _ _ _ _ _ _ Hp Hr Hsw) as Hgain. cbn in Hgain.
  destruct Hsw as [_ _ _ _ _ Hm Hc _].
  apply candidate_of_Some in Hc as (Hne & Hl & -> & Hmin & _). done.
Qed.

(** C4: lowest-latency switching does not flap.  After a switch from the
    selected node to [new], a decision on the same samples with [new] selected,
    at any later time and whatever the cooldown, never proposes the old node. *)
Theorem Decide_lowest_latency_no_flap policy state samples now later :
  p_SwitchPolicy policy = SwitchLowestLatency → 0 < p_MinImprovement policy → latency_range samples →
  d_Switch (Decide policy state samples now) = true →
  let moved := select state (d_New (Decide policy state samples now)) in
  d_Switch (Decide policy moved samples later) = true →
  d_New (Decide policy moved samples later) ≠ g_Selected state.
Proof.
  intros Hp Hmi Hr Hs moved Hs' Hback.
  apply Decide_switching in Hs as (cmp & u & stats & Hsw).
  apply Decide_switching in Hs' as (cmp' & u' & stats' & Hsw').
  pose proof (lowest_latency_gain _ _ _ _ _ _ _ _ Hp Hr Hsw) as Hgain.
  pose proof (lowest_latency_gain _ _ _ _ _ _ _ _ Hp Hr Hsw') as Hgain'.
  apply sw_candidate, candidate_of_Some in Hsw as (_ & Hl & -> & _ & _).
  apply sw_candidate, candidate_of_Some in Hsw' as (_ & Hl' & -> & _ & _).
  cbv zeta in Hgain'. unfold moved in *. rewrite ?candidate_window_select in Hl'. rewrite ?candidate_window_select in Hgain'.
  rewrite Hback in Hl', Hgain'. rewrite ?candidate_window_select in Hgain'. apply candidate_alive in Hl, Hl'. cbv zeta in *. cbn [g_Selected select] in *.
  destruct Hgain as [?|[_ ?]]; [lia|]. destruct Hgain' as [?|[_ ?]]; [lia|]. lia.
Qed.

(** ** Concrete decisions *)
Definition example_group (selected : string) : GroupState :=
  mkGroupState "G" selected ["A"; "B"] true true false false zero_time.

(** One sample per element, in milliseconds; 0 is a failed probe. *)
Definition series (proxy : string) (latencies : list Z) : list Sample :=
  imap (λ i ms, mkSample "G" proxy (p_TestURL DefaultPolicy) (Z.of_nat i) (ms * Millisecond)
                  (if ms =? 0 then OutcomeError else OutcomeSuccess)) latencies.

Definition slow_and_fast : list Sample := series "A" [500; 500; 500] ++ series "B" [20; 30; 20].

Lemma slow_and_fast_range : latency_range slow_and_fast.
Proof.
  intros s Hs. unfold in_int64, min_int64, max_int64.
  assert (forallb (λ s, (0 <=? s_Latency s) && (s_Latency s <=? 10 ^ 10)) slow_and_fast = true) as Hall by (vm_compute; reflexivity).
  rewrite forallb_forall in Hall. apply list_elem_of_In, Hall in Hs. go_bool. lia.
Qed.

Lemma Decide_lowest_latency_gain_witness :
  let d := Decide DefaultPolicy (example_group "A") slow_and_fast Hour in
  d_Switch d = true ∧ d_New d ≠ "A".
Proof.
  cbv zeta. split; [vm_compute; reflexivity|].
  destruct (Decide_lowest_latency_gain DefaultPolicy (example_group "A") slow_and_fast Hour eq_refl slow_and_fast_range)
    as (_ & Hne & _); [vm_compute; reflexivity|exact Hne].
Defined.

(** The old node answers again and is faster than ever, but the window of the
    new node is what it has to beat. *)
Lemma Decide_lowest_latency_no_flap_witness :
  let moved := select (example_group "A") "B" in
  d_Switch (Decide DefaultPolicy (example_group "A") slow_and_fast Hour) = true ∧
  (d_Switch (Decide DefaultPolicy moved slow_and_fast (2 * Hour)) = true →
   d_New (Decide DefaultPolicy moved slow_and_fast (2 * Hour)) ≠ "A").
Proof.
  cbv zeta. split; [vm_compute; reflexivity|]. intros Hs.
  assert (d_New (Decide DefaultPolicy (example_group "A") slow_and_fast Hour) = "B") as HB by (vm_compute; reflexivity).
  rewrite <- HB.
  apply (Decide_lowest_latency_no_flap DefaultPolicy (example_group "A") slow_and_fast Hour (2 * Hour) eq_refl).
  - vm_compute. reflexivity.
  - exact slow_and_fast_range.
  - vm_compute. reflexivity.
  - rewrite HB. exact Hs.
Defined.

Definition failover_policy : Policy :=
  mkPolicy (p_TestURL DefaultPolicy) SwitchFailover (1 * Minute) (5 * Second) 3 (800 * Millisecond)
    (250 * Millisecond) 5 3 2 2 (100 * Millisecond) (5 * Minute) (10 * Second) DefaultStreamURL (5 * Minute).

(** failover compares unlike windows and can flap.  Leaving a node is judged
    on the run of bad samples that ends its window, entering one on the median
    of its whole window, so on the same samples the node just left qualifies
    again and two decisions undo each other; and a node may be left for scattered
    failures ([MaxFailures]) although its last probes are healthy. *)
Theorem Decide_failover_flaps :
  (∃ samples now later,
     d_New (Decide failover_policy (example_group "A") samples now) = "B" ∧
     d_New (Decide failover_policy (example_group "B") samples later) = "A") ∧
  (∃ samples now,
     d_New (Decide failover_policy (example_group "A") samples now) = "B" ∧
     last_failed (candidate_window failover_policy (example_group "A") samples "A") = false ∧
     count_bad (p_Threshold failover_policy) (p_ConsecutiveBadSamples failover_policy)
       (rev (candidate_window failover_policy (example_group "A") samples "A")) 0 = 0).
Proof.
  split.
  - exists (series "A" [100; 100; 100; 2000; 2000] ++ series "B" [1500; 1500; 1500; 1500; 1500]), Hour, (2 * Hour).
    by vm_compute.
  - exists (series "A" [0; 100; 0; 100; 100] ++ series "B" [100; 100; 100; 100; 100]), Hour. by vm_compute.
Qed.
