(* ===== verification/MonitorAlert.v ===== *)
(** * The latency alert of monitor/policy.go as a two-state machine

    [UpdateLatencyAlert] is characterised branch by branch, and the alert of a
    group over a sequence of batches is shown to alternate. *)
From S2P Require Import Prelude GoTime GoSort GoStrings MonitorModel MonitorPolicy MonitorPolicyFacts.
Open Scope Z_scope.

(** The newest sample the alert considers for one proxy. *)
Definition latest (policy : Policy) (state : GroupState) (samples : list Sample) (proxy : string) : option Sample :=
  head (recent (filter (λ s, s_Proxy s = proxy) (filter (λ s, alert_relevant policy state s = true) samples)) 1).

Definition is_high (policy : Policy) (s : Sample) : bool :=
  negb (sampleFailed s) && (p_LatencyAlertThreshold policy <? s_Latency s).
Definition is_recovered (policy : Policy) (s : Sample) : bool :=
  negb (sampleFailed s) && (s_Latency s <=? p_LatencyAlertThreshold policy).

(** One proxy's contribution to the scan. *)
Definition answers (policy : Policy) (state : GroupState) (samples : list Sample) (test : Policy → Sample → bool)
    (proxy : string) : bool :=
  match latest policy state samples proxy with Some s => test policy s | None => false end.

Section alert.
Context (policy : Policy) (state : GroupState) (samples : list Sample).
Abbreviation index := (index_samples (filter (λ s, alert_relevant policy state s = true) samples)).

Lemma alert_scan_step_flags scan proxy :
  let next := alert_scan_step policy index scan proxy in
  al_anyRecovered next = al_anyRecovered scan || answers policy state samples is_recovered proxy ∧
  al_complete next && al_allHigh next =
    al_complete scan && al_allHigh scan && answers policy state samples is_high proxy.
Proof.
  unfold alert_scan_step, answers, latest, is_high, is_recovered. rewrite index_samples_get.
  destruct (recent _ 1) as [|s l]; cbn; [by rewrite orb_false_r, !andb_false_r|].
  destruct (sampleFailed s); cbn; [by rewrite orb_false_r, !andb_false_r|].
  destruct (s_Latency s <=? p_LatencyAlertThreshold policy) eqn:Hle; cbn.
  - go_bool. rewrite (proj2 (Z.ltb_ge _ _)) by done. by rewrite orb_true_r, !andb_false_r.
  - go_bool. rewrite (proj2 (Z.ltb_lt _ _)) by done. by rewrite orb_false_r, !andb_true_r.
Qed.

Lemma alert_scan_flags proxies :
  let scan := alert_scan policy index proxies in
  al_anyRecovered scan = existsb (answers policy state samples is_recovered) proxies ∧
  al_complete scan && al_allHigh scan = forallb (answers policy state samples is_high) proxies.
Proof.
  unfold alert_scan. cbv zeta.
  assert (∀ scan, let out := foldl (alert_scan_step policy index) scan proxies in
    al_anyRecovered out = al_anyRecovered scan || existsb (answers policy state samples is_recovered) proxies ∧
    al_complete out && al_allHigh out =
      al_complete scan && al_allHigh scan && forallb (answers policy state samples is_high) proxies) as H.
  { cbv zeta. induction proxies as [|p ps IH]; intros scan; cbn [foldl existsb forallb].
    - by rewrite orb_false_r, andb_true_r.
    - destruct (alert_scan_step_flags scan p) as [Hr Hh], (IH (alert_scan_step policy index scan p)) as [Ir Ih].
      by rewrite Ir, Ih, Hr, Hh, orb_assoc, andb_assoc. }
  apply H.
Qed.

(** The whole transition table of [UpdateLatencyAlert]. *)
Lemma UpdateLatencyAlert_table previous :
  let recovered := existsb (answers policy state samples is_recovered) (g_Proxies state) in
  let high := forallb (answers policy state samples is_high) (g_Proxies state) in
  let out := UpdateLatencyAlert policy state samples previous in
  (ae_Transition out.2, out.1) =
    if len (g_Proxies state) =? 0 then (AlertNoChange, previous)
    else if a_HighLatency previous && recovered then (AlertRecovered, mkAlertState false)
    else if negb (a_HighLatency previous) && high then (AlertHighLatency, mkAlertState true)
    else (AlertNoChange, previous).
Proof.
  cbv zeta. unfold UpdateLatencyAlert. destruct (len _ =? 0); [done|].
  destruct (alert_scan_flags (g_Proxies state)) as [Hr Hh]. cbv zeta in *.
  rewrite Hr, Hh, (andb_comm (forallb _ _)). repeat case_match; done.
Qed.
End alert.

(** The alert of one group over successive batches, as the scheduler threads it. *)
Fixpoint alert_run (policy : Policy) (previous : AlertState) (batches : list (GroupState * list Sample)) : list AlertTransition :=
  match batches with
  | [] => []
  | (state, samples) :: rest =>
      let out := UpdateLatencyAlert policy state samples previous in
      ae_Transition out.2 :: alert_run policy out.1 rest
  end.

(** A high alert and a recovery in turn, from the state [high]. *)
Fixpoint alternating (high : bool) (events : list AlertTransition) : Prop :=
  match events with
  | [] => True
  | AlertHighLatency :: rest => high = false ∧ alternating true rest
  | AlertRecovered :: rest => high = true ∧ alternating false rest
  | AlertNoChange :: rest => alternating high rest
  end.

(** ** Properties *)

(** The latency alert.  A high alert is raised exactly when none is standing
    and the newest sample of every member of a nonempty group succeeded above
    the threshold; it is cleared exactly when one is standing and the newest
    sample of some member succeeded at or below the threshold. *)
Theorem UpdateLatencyAlert_spec policy state samples previous :
  let out := UpdateLatencyAlert policy state samples previous in
  let newest test := λ q, ∃ s, latest policy state samples q = Some s ∧ test policy s = true in
  (ae_Transition out.2 = AlertHighLatency ↔
    a_HighLatency previous = false ∧ g_Proxies state ≠ [] ∧ ∀ q, q ∈ g_Proxies state → newest is_high q) ∧
  (ae_Transition out.2 = AlertRecovered ↔
    a_HighLatency previous = true ∧ ∃ q, q ∈ g_Proxies state ∧ newest is_recovered q).
Proof.
  cbv zeta. pose proof (UpdateLatencyAlert_table policy state samples previous) as Ht. cbv zeta in Ht.
  assert (∀ test q, answers policy state samples test q = true ↔
    ∃ s, latest policy state samples q = Some s ∧ test policy s = true) as Ha.
  { intros test q. unfold answers. destruct (latest _ _ _ q) as [s|]; [|by split; [|intros (? & ? & _)]].
    split; [eauto|]. by intros (? & [= <-] & ?). }
  setoid_rewrite <- Ha. setoid_rewrite list_elem_of_In at 1 2.
  rewrite <- forallb_forall, <- existsb_exists, <- len_nil_iff.
  apply (f_equal fst) in Ht. cbn [fst] in Ht. rewrite Ht.
  destruct (len _ =? 0) eqn:Hl; go_bool.
  - destruct (a_HighLatency previous); cbn; apply len_nil_iff in Hl; rewrite Hl; cbn; intuition congruence.
  - destruct (a_HighLatency previous), (existsb _ _), (forallb _ _); cbn; intuition congruence.
Qed.

(** alerts alternate.  Over any sequence of batches, starting without an
    alert, the raised transitions are a high alert, a recovery, a high alert and
    so on: a group is never alerted twice in a row. *)
Theorem alert_run_alternates policy batches :
  alternating false (alert_run policy (mkAlertState false) batches).
Proof.
  assert (∀ previous, alternating (a_HighLatency previous) (alert_run policy previous batches)) as H;
    [|apply (H (mkAlertState false))].
  induction batches as [|[state samples] rest IH]; intros previous; cbn; [done|].
  pose proof (UpdateLatencyAlert_table policy state samples previous) as Ht. cbv zeta in Ht.
  specialize (IH (UpdateLatencyAlert policy state samples previous).1).
  destruct (UpdateLatencyAlert policy state samples previous) as [next event]. cbn in *.
  revert Ht. repeat case_match; intros; simplify_eq; go_bool; try done; by split.
Qed.
