(* ===== verification/MonitorSteady.v ===== *)
(** * monitor/steady.go: decisions from completed HTTPS downloads

    [MeasureStreams] and [DecideSteady] as written.  The ranking of eligible
    nodes goes through [sort.Slice], so the decision is relative to [GoSort];
    throughput goes through [GoFloat]. *)
From S2P Require Import Prelude GoTime GoSort GoStrings MonitorModel MonitorPolicy MonitorPolicyFacts.
Open Scope Z_scope.

Definition recentStreams (samples : list StreamSample) (limit : Z) : list StreamSample :=
  newest_by ss_FinishedAt samples limit.

Record candidate := mkCandidate { c_name : string; c_stats : StreamStability }.

(** [stats.Samples - stats.Completed] *)
Definition interruptions (stats : StreamStability) : Z := sst_Samples stats - sst_Completed stats.

(** [len(window) > 0 && window[len(window)-1].Completed()] *)
Definition last_completed (window : list StreamSample) : bool :=
  match last window with Some s => Completed s | None => false end.

(** The comparison given to [sort.Slice]. *)
Definition candidate_less (latencyByProxy : gmap string duration) (a b : candidate) : bool :=
  let fa := interruptions (c_stats a) in
  let fb := interruptions (c_stats b) in
  if negb (fa =? fb) then fa <? fb else
  let ta := sst_MedianThroughput (c_stats a) in
  let tb := sst_MedianThroughput (c_stats b) in
  if negb (ta =? tb) then tb <? ta else
  let la := default 0 (latencyByProxy !! c_name a) in
  let lb := default 0 (latencyByProxy !! c_name b) in
  if negb (la =? lb) && (0 <? la) && (0 <? lb) then la <? lb else
  string_ltb (c_name a) (c_name b).

(** The median latency of each proxy sampled in the group. *)
Definition latency_by_proxy (policy : Policy) (state : GroupState) (latency : list Sample) : gmap string duration :=
  (λ samples, st_Median (MeasureStability (recent samples (p_WindowSize policy)) 0)) <$>
    index_samples (filter (λ s, streq (s_Group s) (g_Group state) = true) latency).

Section steady.
Context `{GoSort} `{GoFloat}.

(** [rates[len(rates)/2]] of the sorted rates. *)
Definition MeasureStreams (proxy : string) (samples : list StreamSample) (windowSize : Z) : StreamStability :=
  let window := recentStreams samples windowSize in
  let rates := Throughput <$> filter (λ s, Completed s = true) window in
  mkStreamStability proxy (len window) (len rates)
    match rates with
    | [] => 0
    | _ => at_index (sort_slice Z.ltb rates) (Z.quot (len rates) 2)
    end.

Section decide_steady.
Context (policy : Policy) (state : GroupState) (streams : gmap string (list StreamSample)).

(** [windows[proxy]]: filled for the group's members, empty otherwise. *)
Definition stream_window (proxy : string) : list StreamSample :=
  if bool_decide (proxy ∈ g_Proxies state)
  then recentStreams (by_proxy_get streams proxy) (p_WindowSize policy) else [].

Definition measured_nodes : list string :=
  filter (λ p, stream_window p ≠ []) (g_Proxies state).
Definition all_streams_failed : bool :=
  forallb (λ p, negb (last_completed (stream_window p))) (g_Proxies state).

Definition steady_eligible (interrupted : Z) (proxy : string) : option candidate :=
  let window := stream_window proxy in
  if streq proxy (g_Selected state) || negb (last_completed window) then None else
  let stats := MeasureStreams proxy window 0 in
  if (sst_Completed stats <? p_MinCandidateSamples policy) || (interrupted <=? interruptions stats)
  then None else Some (mkCandidate proxy stats).

Definition eligible_nodes (interrupted : Z) : list candidate :=
  omap (steady_eligible interrupted) (g_Proxies state).

Definition steady_stay (reason : string) : Decision :=
  mkDecision false false (g_Group state) (g_Selected state) "" reason [] [].

Definition DecideSteady (latency : list Sample) (now : time) : Decision :=
  let reason := guard policy state now in
  if negb (streq reason "") then steady_stay reason else
  if streq (g_Selected state) "" || (len (g_Proxies state) =? 0)
  then steady_stay ReasonInsufficientSamples else
  if (1 <? len measured_nodes) && all_streams_failed
  then steady_stay ReasonAllCandidatesFailed else
  let selected := MeasureStreams (g_Selected state) (stream_window (g_Selected state)) 0 in
  let interrupted := interruptions selected in
  if interrupted <? p_MaxFailures policy
  then steady_stay (if 0 <? sst_Samples selected then ReasonSelectedStreamsHealthy
                    else ReasonInsufficientSamples) else
  match sort_slice (candidate_less (latency_by_proxy policy state latency)) (eligible_nodes interrupted) with
  | [] => steady_stay ReasonNoBetterCandidate
  | best :: _ =>
      mkDecision true false (g_Group state) (g_Selected state) (c_name best) ReasonSteadierStream
        (filter (λ s, streq (s_Group s) (g_Group state) &&
                      (streq (s_Proxy s) (g_Selected state) || streq (s_Proxy s) (c_name best)) = true) latency)
        (stream_window (g_Selected state) ++ stream_window (c_name best))
  end.
End decide_steady.
End steady.

(** ** Lemmas *)
Lemma len_fmap {A B} (f : A → B) l : len (f <$> l) = len l.
Proof. unfold len. by rewrite length_fmap. Qed.

(** The strict weak order every refinement of the ranking respects: fewer
    interruptions, then higher median throughput. *)
Definition coarse_less (a b : candidate) : bool :=
  let fa := interruptions (c_stats a) in
  let fb := interruptions (c_stats b) in
  if negb (fa =? fb) then fa <? fb
  else sst_MedianThroughput (c_stats b) <? sst_MedianThroughput (c_stats a).

Lemma coarse_less_trans a b c :
  coarse_less b a = false → coarse_less c b = false → coarse_less c a = false.
Proof. unfold coarse_less. intros. repeat case_match; go_bool; try lia; apply Z.ltb_ge; lia. Qed.

Lemma candidate_less_coarse latencies a b :
  coarse_less a b = true → candidate_less latencies a b = true ∧ candidate_less latencies b a = false.
Proof.
  unfold coarse_less, candidate_less. intros H.
  rewrite (Z.eqb_sym (interruptions (c_stats b))), (Z.eqb_sym (sst_MedianThroughput (c_stats b))).
  destruct (negb (_ =? _)) eqn:Hi; [split; [done|]; go_bool; apply Z.ltb_ge; lia|].
  go_bool. assert ((sst_MedianThroughput (c_stats a) =? sst_MedianThroughput (c_stats b)) = false) as ->.
  { apply Z.eqb_neq. lia. }
  cbn. split; [by apply Z.ltb_lt|apply Z.ltb_ge; lia].
Qed.

Section steady_facts.
Context `{GoSort} `{GoFloat}.

Lemma MeasureStreams_counts proxy samples w :
  let st := MeasureStreams proxy samples w in
  sst_Samples st = len (recentStreams samples w) ∧ 0 ≤ sst_Completed st ≤ sst_Samples st.
Proof.
  cbn. rewrite len_fmap. pose proof (len_filter_le (λ s, Completed s = true) (recentStreams samples w)).
  split; [done|lia].
Qed.

Section switch.
Context (policy : Policy) (state : GroupState) (streams : gmap string (list StreamSample)).
Abbreviation stats_of proxy := (MeasureStreams proxy (stream_window policy state streams proxy) 0).

Lemma stream_window_member proxy :
  stream_window policy state streams proxy ≠ [] → proxy ∈ g_Proxies state.
Proof. unfold stream_window. case_bool_decide; by intros. Qed.

Lemma steady_eligible_Some interrupted proxy c :
  steady_eligible policy state streams interrupted proxy = Some c ↔
    proxy ≠ g_Selected state ∧ last_completed (stream_window policy state streams proxy) = true ∧
    p_MinCandidateSamples policy ≤ sst_Completed (stats_of proxy) ∧
    interruptions (stats_of proxy) < interrupted ∧ c = mkCandidate proxy (stats_of proxy).
Proof.
  unfold steady_eligible. split.
  - intros Hc. repeat case_match; go_bool; simplify_eq. rewrite streq_false in *. done.
  - intros (Hne & -> & Hm & Hi & ->). rewrite (proj2 (streq_false _ _)) by done. cbn [negb orb].
    rewrite (proj2 (Z.ltb_ge _ _)) by done. by rewrite (proj2 (Z.leb_gt _ _)).
Qed.

Lemma eligible_nodes_elem interrupted c :
  c ∈ eligible_nodes policy state streams interrupted ↔
    c_name c ∈ g_Proxies state ∧ steady_eligible policy state streams interrupted (c_name c) = Some c.
Proof.
  unfold eligible_nodes. rewrite list_elem_of_omap. split.
  - intros (q & Hq & Hc). pose proof Hc as (_ & _ & _ & _ & ->)%steady_eligible_Some. done.
  - eauto.
Qed.

Definition broken : Z := interruptions (stats_of (g_Selected state)).

Record steady_switch (latency : list Sample) (now : time) (best : candidate) : Prop := {
  sd_guard : may_decide policy state now;
  sd_selected : g_Selected state ≠ "";
  sd_broken : p_MaxFailures policy ≤ broken;
  sd_alive : ¬ (1 < len (measured_nodes policy state streams) ∧ all_streams_failed policy state streams = true);
  sd_head : head (sort_slice (candidate_less (latency_by_proxy policy state latency))
                   (eligible_nodes policy state streams broken)) = Some best
}.

Lemma DecideSteady_switching latency now :
  d_Switch (DecideSteady policy state streams latency now) = true →
  ∃ best, d_New (DecideSteady policy state streams latency now) = c_name best ∧
    steady_switch latency now best.
Proof.
  unfold DecideSteady.
  destruct (streq (guard policy state now) "") eqn:Hg; cbn [negb]; [|done].
  destruct (streq (g_Selected state) "" || _) eqn:Hs; [done|].
  destruct (_ && all_streams_failed _ _ _) eqn:Ha; [done|]. fold broken.
  destruct (broken <? p_MaxFailures policy) eqn:Hb; [done|].
  destruct (sort_slice _ _) as [|best rest] eqn:Hsort; [done|]. intros _.
  exists best. split; [done|]. apply streq_true, guard_open in Hg. go_bool. split; try done.
  - by apply streq_false.
  - intros [Hl Hf]. rewrite Hf, andb_true_r in Ha. go_bool. lia.
  - by rewrite Hsort.
Qed.

Lemma steady_switch_best latency now best :
  steady_switch latency now best → best ∈ eligible_nodes policy state streams broken.
Proof.
  intros [_ _ _ _ Hh]. apply head_Some_elem_of in Hh. by rewrite sort_slice_perm in Hh.
Qed.
End switch.
End steady_facts.

(** ** Properties *)

(** C23: a steady-stream switch is justified by completed downloads.  The guards
    are open, the selected node has at least [MaxFailures] interrupted pulls in
    its window, and the proposed node is a different member whose last pull
    completed, with at least [MinCandidateSamples] completed pulls and strictly
    fewer interruptions than the selected node, whatever [sort.Slice] does. *)
Theorem DecideSteady_safe `{GoSort} `{GoFloat} policy state streams latency now :
  d_Switch (DecideSteady policy state streams latency now) = true →
  let new := d_New (DecideSteady policy state streams latency now) in
  let stats q := MeasureStreams q (stream_window policy state streams q) 0 in
  may_decide policy state now ∧
  new ∈ g_Proxies state ∧ new ≠ g_Selected state ∧
  last_completed (stream_window policy state streams new) = true ∧
  p_MinCandidateSamples policy ≤ sst_Completed (stats new) ∧
  p_MaxFailures policy ≤ interruptions (stats (g_Selected state)) ∧
  interruptions (stats new) < interruptions (stats (g_Selected state)).
Proof.
  intros (best & Hn & Hsw)%DecideSteady_switching. cbv zeta. rewrite Hn.
  pose proof (steady_switch_best _ _ _ _ _ _ Hsw) as [Hm (? & ? & ? & ? & _)%steady_eligible_Some]%eligible_nodes_elem.
  by destruct Hsw.
Qed.

(** Speed only breaks ties.  With at most twelve eligible nodes, no eligible
    node has fewer interruptions than the chosen one, and none with as many has
    a higher median throughput. *)
Theorem DecideSteady_ranking `{GoSort} `{GoFloat} policy state streams latency now :
  d_Switch (DecideSteady policy state streams latency now) = true →
  len (eligible_nodes policy state streams (broken policy state streams)) ≤ 12 →
  let stats q := MeasureStreams q (stream_window policy state streams q) 0 in
  let new := stats (d_New (DecideSteady policy state streams latency now)) in
  ∀ other, other ∈ eligible_nodes policy state streams (broken policy state streams) →
    interruptions new < interruptions (c_stats other) ∨
    (interruptions new = interruptions (c_stats other) ∧
     sst_MedianThroughput (c_stats other) ≤ sst_MedianThroughput new).
Proof.
  intros (best & Hn & Hsw)%DecideSteady_switching Hlen. cbv zeta. rewrite Hn. intros other Ho.
  pose proof (steady_switch_best _ _ _ _ _ _ Hsw) as [_ (_ & _ & _ & _ & Hb)%steady_eligible_Some]%eligible_nodes_elem.
  apply sd_head in Hsw. rewrite sort_slice_small in Hsw by (unfold len in Hlen; lia).
  set (less := candidate_less _) in Hsw.
  pose proof (insertion_sort_refined less coarse_less (λ _, True)
    (λ a b c _ _ _, coarse_less_trans a b c)
    (λ a b _ _, candidate_less_coarse _ a b)
    (eligible_nodes policy state streams (broken policy state streams)) (Forall_true _ _ (λ _, I))) as Hs.
  rewrite <- (elem_of_insertion_sort less) in Ho.
  destruct (insertion_sort less _) as [|b rest]; [done|]. injection Hsw as ->.
  apply (f_equal c_stats) in Hb. cbn [c_stats] in Hb. rewrite <- Hb.
  apply elem_of_cons in Ho as [->|Ho]; [right; lia|].
  apply StronglySorted_cons in Hs as [Hs _]. rewrite Forall_forall in Hs. specialize (Hs _ Ho).
  unfold coarse_less in Hs. case_match; go_bool; lia.
Qed.

(** ** Concrete decisions *)
Definition steady_policy : Policy :=
  mkPolicy (p_TestURL DefaultPolicy) SwitchSteadyStream (1 * Minute) (5 * Second) 3 (800 * Millisecond)
    (250 * Millisecond) 5 3 3 2 (100 * Millisecond) (5 * Minute) (10 * Second) DefaultStreamURL (5 * Minute).

Definition group_of (proxies : list string) : GroupState :=
  mkGroupState "G" "now" proxies true true false false zero_time.

Definition pull (proxy : string) (at_ : time) (outcome : StreamOutcome) : StreamSample :=
  mkStreamSample proxy DefaultStreamURL at_ 262144 (10 * Millisecond) Second outcome.
Definition pulls (proxy : string) (outcome : StreamOutcome) : list StreamSample :=
  [pull proxy 1 outcome; pull proxy 2 outcome; pull proxy 3 outcome].
Definition probe (proxy : string) (latency : duration) : Sample :=
  mkSample "G" proxy (p_TestURL DefaultPolicy) 3 latency OutcomeSuccess.

(** The selected node resets every download; three others complete theirs at
    the same speed.  "b" and "c" have been probed for latency, "a" has not. *)
Definition three_streams : gmap string (list StreamSample) :=
  <["now" := pulls "now" StreamReset]> (<["a" := pulls "a" StreamSuccess]>
    (<["b" := pulls "b" StreamSuccess]> {["c" := pulls "c" StreamSuccess]})).
Definition two_latencies : list Sample := [probe "b" (20 * Millisecond); probe "c" (10 * Millisecond)].

Lemma DecideSteady_safe_witness :
  let d := DecideSteady steady_policy (group_of ["now"; "a"; "b"; "c"]) three_streams two_latencies (1 * Hour) in
  d_Switch d = true ∧ d_New d ≠ "now".
Proof.
  cbv zeta. split; [vm_compute; reflexivity|].
  destruct (@DecideSteady_safe insertion_sort_slice amd64_float steady_policy (group_of ["now"; "a"; "b"; "c"]) three_streams two_latencies (1 * Hour))
    as (_ & _ & Hne & _); [vm_compute; reflexivity|exact Hne].
Defined.

Lemma DecideSteady_ranking_witness :
  let state := group_of ["now"; "a"; "b"; "c"] in
  let d := DecideSteady steady_policy state three_streams two_latencies (1 * Hour) in
  interruptions (MeasureStreams (d_New d) (stream_window steady_policy state three_streams (d_New d)) 0) <= 0.
Proof.
  cbv zeta.
  destruct (@DecideSteady_ranking insertion_sort_slice amd64_float steady_policy (group_of ["now"; "a"; "b"; "c"]) three_streams two_latencies (1 * Hour)
    ltac:(vm_compute; reflexivity) ltac:(vm_compute; discriminate)
    (mkCandidate "a" (MeasureStreams "a" (pulls "a" StreamSuccess) 0))) as [Hlt|[Heq _]].
  - vm_compute. left.
  - apply Z.lt_le_incl. exact Hlt.
  - rewrite Heq. vm_compute. discriminate.
Defined.

(** the comparison given to [sort.Slice] is not transitive.  A node without
    latency samples compares by name with everyone, while two measured nodes
    compare by latency, so "a" < "b" < "c" may close into a cycle; and the
    decision then depends on the order in which the group lists its members. *)
Theorem DecideSteady_cyclic_ranking :
  (∃ a b c latencies,
     candidate_less latencies a b = true ∧ candidate_less latencies b c = true ∧
     candidate_less latencies c a = true) ∧
  let decide_for order := d_New (DecideSteady steady_policy (group_of order) three_streams
      [probe "a" (30 * Millisecond); probe "c" (10 * Millisecond)] (1 * Hour)) in
  decide_for ["now"; "a"; "b"; "c"] ≠ decide_for ["now"; "b"; "c"; "a"].
Proof.
  split; [|vm_compute; discriminate].
  pose (st := mkStreamStability "" 3 3 1).
  exists (mkCandidate "a" st), (mkCandidate "b" st), (mkCandidate "c" st),
    (<["a" := 30]> {["c" := 10]} : gmap string Z).
  by vm_compute.
Qed.
