(* ===== verification/MonitorScheduler.v ===== *)
(** * monitor/scheduler.go: the scheduler's state and operations

    [Shared] is what [Scheduler] guards with its mutex, [Loop] the variables of
    [Run], split into the latency round and the stream round.  Each exported
    method is a function on [Shared]; [refresh], the loop head and the cases of
    the [select] are functions on both.  Clock readings, random jitter and the
    order in which Go ranges over a map are inputs. *)
From S2P Require Import Prelude GoTime GoSort GoStrings GoNet MonitorModel MonitorPolicy MonitorSteady.
Open Scope Z_scope.
Open Scope go_scope.

Definition DialFailureProbeSpacing : duration := 15 * Second.

(** [groups] is [None] for the nil slice a new scheduler holds, which
    [reflect.DeepEqual] tells from an empty one. *)
Record Shared := mkShared {
  sh_groups : option (list GroupState);
  sh_generation : Z;
  sh_requests : gset string;
  sh_dialFailures : gmap string Z;
  sh_lastDialProbe : gmap string time;
  sh_members : gset string;
  sh_wake : bool
}.

Definition wrap_u64 (x : Z) : Z := x mod 2 ^ 64.

Section new_scheduler.
Context `{GoNet}.

(** [NewScheduler]: the handlers are represented by whether they are nil. *)
Definition NewScheduler (policy : Policy) (prober streamer onBatch : bool) : result string Shared :=
  match Validate policy with
  | Err e => Err e
  | Ok _ =>
      fail_if negb prober with "monitor scheduler: delay prober is required";
      fail_if streq (p_SwitchPolicy policy) SwitchSteadyStream && negb streamer
        with "monitor scheduler: stream prober is required for steady_stream";
      fail_if negb onBatch with "monitor scheduler: batch handler is required";
      Ok (mkShared None 0 ∅ ∅ ∅ ∅ false)
  end.
End new_scheduler.

(** ** Mutex-guarded methods *)
Definition signal (s : Shared) : Shared :=
  mkShared (sh_groups s) (sh_generation s) (sh_requests s) (sh_dialFailures s)
    (sh_lastDialProbe s) (sh_members s) true.

(** The members of one group: the accumulator is the set of names seen and
    whether the selected proxy was among them. *)
Definition check_member (group : GroupState) (acc : gset string * bool) (proxy : string)
    : result string (gset string * bool) :=
  fail_if streq (trim_space proxy) "" with "monitor scheduler: blank proxy in group";
  fail_if bool_decide (proxy ∈ acc.1) with "monitor scheduler: duplicate proxy in group";
  Ok ({[proxy]} ∪ acc.1, acc.2 || streq proxy (g_Selected group)).

Definition check_group (seen : gset string) (group : GroupState) : result string (gset string) :=
  fail_if streq (trim_space (g_Group group)) "" with "monitor scheduler: group name is required";
  fail_if bool_decide (g_Group group ∈ seen) with "monitor scheduler: duplicate group";
  fail_if streq (g_Selected group) "" with "monitor scheduler: selected proxy is required for group";
  match fold_each (check_member group) (∅, false) (g_Proxies group) with
  | Err e => Err e
  | Ok (_, selectedFound) =>
      fail_if negb selectedFound with "monitor scheduler: selected proxy is absent from group";
      fail_if g_AutomationEnabled group && negb (g_ProbeEnabled group)
        with "monitor scheduler: automated group must enable probes";
      Ok ({[g_Group group]} ∪ seen)
  end.

Definition SetGroups (s : Shared) (groups : list GroupState) : result string Shared :=
  match fold_each check_group ∅ groups with
  | Err e => Err e
  | Ok _ =>
      if bool_decide (sh_groups s = Some groups) then Ok s else
      Ok (signal (mkShared (Some groups) (wrap_u64 (sh_generation s + 1)) (sh_requests s)
                    (sh_dialFailures s) (sh_lastDialProbe s) (sh_members s) (sh_wake s)))
  end.

Definition current_groups (s : Shared) : list GroupState := default [] (sh_groups s).

Definition with_requests (s : Shared) (requests : gset string) : Shared :=
  mkShared (sh_groups s) (sh_generation s) requests (sh_dialFailures s) (sh_lastDialProbe s)
    (sh_members s) (sh_wake s).

Definition Request (s : Shared) (group : string) : result string Shared :=
  fail_if negb (existsb (λ current, streq (g_Group current) group) (current_groups s))
    with "monitor scheduler: unknown group";
  Ok (signal (with_requests s ({[group]} ∪ sh_requests s))).

Definition ProbedGroups (s : Shared) : list string :=
  g_Group <$> filter (λ g, g_ProbeEnabled g = true) (current_groups s).

Definition SetStreamMembers (s : Shared) (names : list string) : Shared :=
  let members : gset string := list_to_set names in
  if bool_decide (sh_members s = members) then s else
  signal (mkShared (sh_groups s) (sh_generation s) (sh_requests s) (sh_dialFailures s)
            (sh_lastDialProbe s) members (sh_wake s)).

Definition ReportDialFailure (policy : Policy) (s : Shared) (group : string) (now : time) : Shared :=
  let probed := match List.find (λ current, streq (g_Group current) group) (current_groups s) with
                | Some current => g_ProbeEnabled current
                | None => false
                end in
  if negb probed then s else
  let failures := default 0 (sh_dialFailures s !! group) + 1 in
  let counted lastDialProbe requests :=
    mkShared (sh_groups s) (sh_generation s) requests (<[group := failures]> (sh_dialFailures s))
      lastDialProbe (sh_members s) (sh_wake s) in
  if (failures <? p_MaxFailures policy) ||
     (time_sub now (default zero_time (sh_lastDialProbe s !! group)) <? DialFailureProbeSpacing)
  then counted (sh_lastDialProbe s) (sh_requests s)
  else signal (counted (<[group := now]> (sh_lastDialProbe s)) ({[group]} ∪ sh_requests s)).

(** ** The loop's variables *)
Record probeTask := mkProbeTask { t_group : string; t_proxy : string }.
#[export] Instance probeTask_eq_dec : EqDecision probeTask.
Proof. solve_decision. Defined.

Record groupRuntime := mkGroupRuntime {
  gr_state : GroupState;
  gr_next : time;
  gr_history : gmap string (list Sample);
  gr_alert : AlertState
}.

Abbreviation runtimes_map := (gmap string groupRuntime) (only parsing).

Record ProbeRound := mkProbeRound {
  pr_pending : list probeTask;
  pr_active : bool;
  pr_remaining : gmap string Z;
  pr_activeGroups : list string;
  pr_batchSamples : list Sample;
  pr_batchGeneration : Z
}.

Record StreamRound := mkStreamRound {
  sr_next : time;
  sr_history : gmap string (list StreamSample);
  sr_pending : list string;
  sr_active : bool;
  sr_inFlight : Z;
  sr_samples : list StreamSample;
  sr_generation : Z;
  sr_round : Z
}.

Record Loop := mkLoop {
  lp_runtimes : gmap string groupRuntime;
  lp_forced : gset string;
  lp_probe : ProbeRound;
  lp_stream : StreamRound
}.

Definition idle_round : ProbeRound := mkProbeRound [] false ∅ [] [] 0.
Definition initial_loop : Loop :=
  mkLoop ∅ ∅ idle_round (mkStreamRound zero_time ∅ [] false 0 [] 0 0).

(** What one step reads from the clock and the random source, by group. *)
Record Readings := mkReadings {
  rd_refresh : string → time;
  rd_due : string → time;
  rd_next : string → time;
  rd_jitter : string → duration;
  rd_stream : time;
  rd_streamNext : time;
  rd_streamJitter : duration
}.

(** [jitter] draws from [0, Jitter], or returns 0 without a positive bound. *)
Definition jitter_draw (policy : Policy) (j : duration) : Prop :=
  if p_Jitter policy <=? 0 then j = 0 else 0 ≤ j ≤ p_Jitter policy.

Definition sortedGroupNames {A} (groups : gmap string A) : list string :=
  insertion_sort string_ltb (map_to_list groups).*1.

(** ** [refresh] *)
Definition refresh_group (readings : Readings) (acc : runtimes_map * gset string) (state : GroupState)
    : runtimes_map * gset string :=
  let name := g_Group state in
  match acc.1 !! name with
  | None =>
      let next := if g_ProbeEnabled state then rd_refresh readings name else zero_time in
      (<[name := mkGroupRuntime state next ∅ (mkAlertState false)]> acc.1, acc.2)
  | Some runtime =>
      let forced := if negb (bool_decide (gr_state runtime = state)) && g_ProbeEnabled state
                    then {[name]} ∪ acc.2 else acc.2 in
      let next := if g_ProbeEnabled state && negb (g_ProbeEnabled (gr_state runtime))
                  then rd_refresh readings name else gr_next runtime in
      (<[name := if g_ProbeEnabled state
                 then mkGroupRuntime state next (gr_history runtime) (gr_alert runtime)
                 else mkGroupRuntime state zero_time ∅ (mkAlertState false)]> acc.1, forced)
  end.

Definition refresh (policy : Policy) (readings : Readings) (s : Shared) (l : Loop) : Shared * Loop :=
  let inputs := current_groups s in
  let requests := sh_requests s in
  let s := with_requests s ∅ in
  let present : gset string := list_to_set (g_Group <$> inputs) in
  let updated := foldl (refresh_group readings) (lp_runtimes l, lp_forced l) inputs in
  let runtimes := filter (λ entry, entry.1 ∈ present) updated.1 in
  let forced := filter (λ name, ¬ (is_Some (updated.1 !! name) ∧ name ∉ present)) updated.2 in
  let st := lp_stream l in
  let streamNext :=
    if streq (p_SwitchPolicy policy) SwitchSteadyStream then
      if negb (existsb (λ entry, g_AutomationEnabled (gr_state entry.2)) (map_to_list runtimes))
      then zero_time
      else if time_is_zero (sr_next st) then rd_stream readings else sr_next st
    else sr_next st in
  let forced := forced ∪ filter (λ name, is_Some (runtimes !! name)) requests in
  (s, mkLoop runtimes forced (lp_probe l)
        (mkStreamRound streamNext (sr_history st) (sr_pending st) (sr_active st) (sr_inFlight st)
           (sr_samples st) (sr_generation st) (sr_round st))).

(** ** Stream targets *)
Record ranked := mkRanked { rk_proxy : string; rk_median : duration }.

(** [add]: a member not yet taken, while the round is under the cap. *)
Definition add_target (members : gset string) (out : list string) (proxy : string) : list string :=
  if bool_decide (proxy ∈ members) && negb (bool_decide (proxy ∈ out)) && (len out <? StreamPullCap)
  then out ++ [proxy] else out.

Definition rank_candidates (history : gmap string (gmap string (list Sample))) (members : gset string)
    (windowSize : Z) (group : GroupState) : list ranked :=
  let ranked_of proxy :=
    let samples := recent (by_proxy_get (default ∅ (history !! g_Group group)) proxy) windowSize in
    if streq proxy (g_Selected group) || negb (bool_decide (proxy ∈ members)) || last_failed samples
    then None else Some (mkRanked proxy (st_Median (MeasureStability samples 0))) in
  insertion_sort (λ a b, rk_median a <? rk_median b) (omap ranked_of (g_Proxies group)).

Definition streamTargets (groups : list GroupState) (history : gmap string (gmap string (list Sample)))
    (members : gset string) (windowSize round : Z) : list string :=
  let automated := filter (λ g, g_AutomationEnabled g = true) groups in
  let out := foldl (λ out g, add_target members out (g_Selected g)) [] automated in
  let candidates := rank_candidates history members windowSize <$> automated in
  foldl (λ out rank,
           foldl (λ out i,
                    match nth_error candidates (Z.to_nat (Z.rem (round + Z.of_nat i) (len candidates))) with
                    | Some group =>
                        match nth_error group rank with
                        | Some r => add_target members out (rk_proxy r)
                        | None => out
                        end
                    | None => out
                    end) out (seq 0 (length candidates)))
        out (seq 0 (Z.to_nat StreamCandidates)).

(** [pruneStreams]: drop the expired prefix, then all but the last [windowSize]. *)
Fixpoint expired_prefix (samples : list StreamSample) (cutoff : time) : Z :=
  match samples with
  | s :: rest => if time_before (ss_FinishedAt s) cutoff then 1 + expired_prefix rest cutoff else 0
  | [] => 0
  end.
Definition pruneStreams (samples : list StreamSample) (cutoff : time) (windowSize : Z) : list StreamSample :=
  let start := Z.max (expired_prefix samples cutoff) (len samples - windowSize) in
  if start =? 0 then samples else slice_from samples start.

(** ** The loop head *)
Definition due (readings : Readings) (name : string) (runtime : groupRuntime) : bool :=
  g_ProbeEnabled (gr_state runtime) && negb (time_is_zero (gr_next runtime)) &&
  negb (time_before (rd_due readings name) (gr_next runtime)).

Record Starting := mkStarting {
  sg_runtimes : gmap string groupRuntime;
  sg_forced : gset string;
  sg_dialFailures : gmap string Z;
  sg_groups : list string;
  sg_remaining : gmap string Z;
  sg_pending : list probeTask
}.

Definition start_group (policy : Policy) (readings : Readings) (acc : Starting) (name : string) : Starting :=
  match sg_runtimes acc !! name with
  | None => acc
  | Some runtime =>
      if negb (due readings name runtime) && negb (bool_decide (name ∈ sg_forced acc)) then acc else
      let state := gr_state runtime in
      let next := if g_ProbeEnabled state
                  then time_add (rd_next readings name) (add64 (p_Interval policy) (rd_jitter readings name))
                  else gr_next runtime in
      mkStarting (<[name := mkGroupRuntime state next (gr_history runtime) (gr_alert runtime)]> (sg_runtimes acc))
        (sg_forced acc ∖ {[name]}) (delete name (sg_dialFailures acc)) (sg_groups acc ++ [name])
        (<[name := len (g_Proxies state)]> (sg_remaining acc))
        (sg_pending acc ++ (mkProbeTask name <$> g_Proxies state))
  end.

Definition start_round (policy : Policy) (readings : Readings) (s : Shared) (l : Loop) : Shared * Loop :=
  let started := foldl (start_group policy readings)
    (mkStarting (lp_runtimes l) (lp_forced l) (sh_dialFailures s) [] ∅ []) (sortedGroupNames (lp_runtimes l)) in
  (mkShared (sh_groups s) (sh_generation s) (sh_requests s) (sg_dialFailures started)
     (sh_lastDialProbe s) (sh_members s) (sh_wake s),
   mkLoop (sg_runtimes started) (sg_forced started)
     (mkProbeRound (sg_pending started) (0 <? len (sg_groups started)) (sg_remaining started)
        (sg_groups started) [] (sh_generation s))
     (lp_stream l)).

Definition start_stream_round (policy : Policy) (readings : Readings) (s : Shared) (l : Loop) : Loop :=
  let st := lp_stream l in
  if streq (p_SwitchPolicy policy) SwitchSteadyStream && negb (pr_active (lp_probe l)) &&
     negb (sr_active st) && negb (time_is_zero (sr_next st)) &&
     negb (time_before (rd_stream readings) (sr_next st))
  then
    let groups := omap (λ name, gr_state <$> lp_runtimes l !! name) (sortedGroupNames (lp_runtimes l)) in
    let pending := streamTargets groups (gr_history <$> lp_runtimes l) (sh_members s)
                     (p_WindowSize policy) (sr_round st) in
    mkLoop (lp_runtimes l) (lp_forced l) (lp_probe l)
      (mkStreamRound (time_add (rd_streamNext readings) (add64 (p_StreamInterval policy) (rd_streamJitter readings)))
         (sr_history st) pending (0 <? len pending) (sr_inFlight st) [] (sh_generation s) (sr_round st + 1))
  else l.

Definition loop_head (policy : Policy) (readings : Readings) (s : Shared) (l : Loop) : Shared * Loop :=
  if pr_active (lp_probe l) then (s, l) else
  let '(s, l) := start_round policy readings s l in
  (s, start_stream_round policy readings s l).

(** [nextDeadline] over the runtimes in any order; 0 is "no deadline". *)
Definition earlier_deadline (next : time) (runtime : groupRuntime) : time :=
  if negb (g_ProbeEnabled (gr_state runtime)) || time_is_zero (gr_next runtime) then next
  else if time_is_zero next || time_before (gr_next runtime) next then gr_next runtime else next.
Definition nextDeadline (runtimes : list groupRuntime) : time := foldl earlier_deadline zero_time runtimes.

(** The instant the loop's timer is set for. *)
Definition wake_deadline (policy : Policy) (l : Loop) (order : list groupRuntime) : time :=
  if pr_active (lp_probe l) then zero_time else
  let deadline := nextDeadline order in
  let next := sr_next (lp_stream l) in
  if streq (p_SwitchPolicy policy) SwitchSteadyStream && negb (sr_active (lp_stream l)) &&
     negb (time_is_zero next) && (time_is_zero deadline || time_before next deadline)
  then next else deadline.

(** ** Results *)

(** The sample a worker builds from the prober's answer. *)
Definition worker_sample (policy : Policy) (task : probeTask) (finished : time) (latency : duration)
    (failed deadline : bool) : Sample :=
  if failed || (latency <=? 0)
  then mkSample (t_group task) (t_proxy task) (p_TestURL policy) finished 0
         (if deadline then OutcomeTimeout else OutcomeError)
  else mkSample (t_group task) (t_proxy task) (p_TestURL policy) finished latency OutcomeSuccess.

Definition with_history (runtime : groupRuntime) (history : gmap string (list Sample)) : groupRuntime :=
  mkGroupRuntime (gr_state runtime) (gr_next runtime) history (gr_alert runtime).

Definition record_sample (policy : Policy) (task : probeTask) (sample : Sample) (runtimes : runtimes_map) : runtimes_map :=
  match runtimes !! t_group task with
  | None => runtimes
  | Some runtime =>
      let items := by_proxy_get (gr_history runtime) (t_proxy task) ++ [sample] in
      let items := if p_WindowSize policy <? len items
                   then slice_from items (len items - p_WindowSize policy) else items in
      <[t_group task := with_history runtime (<[t_proxy task := items]> (gr_history runtime))]> runtimes
  end.

(** [historySamples]: [order] lists the history's keys as the range visits them. *)
Definition historySamples (order : list string) (runtime : groupRuntime) : list Sample :=
  flat_map (by_proxy_get (gr_history runtime)) order.

Definition reset_runtime (runtimes : runtimes_map) (name : string) : runtimes_map :=
  match runtimes !! name with
  | None => runtimes
  | Some runtime =>
      <[name := mkGroupRuntime (gr_state runtime) (gr_next runtime) ∅ (mkAlertState false)]> runtimes
  end.

Section results.
Context `{GoSort} `{GoFloat} (policy : Policy).

(** One group of a finished round. *)
Definition conclude_group (orders : string → list string) (acc : runtimes_map * Batch) (name : string)
    : runtimes_map * Batch :=
  match acc.1 !! name with
  | None => acc
  | Some runtime =>
      let batch := acc.2 in
      let state := gr_state runtime in
      let decision := Decide policy state (historySamples (orders name) runtime) (b_FinishedAt batch) in
      let stability := (λ proxy, mkProxyStability name proxy
        (MeasureStability (by_proxy_get (gr_history runtime) proxy) (p_WindowSize policy))) <$> g_Proxies state in
      let groupSamples := filter (λ s, streq (s_Group s) name = true) (b_Samples batch) in
      let '(nextAlert, alert) := UpdateLatencyAlert policy state groupSamples (gr_alert runtime) in
      let alerts := if bool_decide (ae_Transition alert = AlertNoChange)
                    then b_Alerts batch else b_Alerts batch ++ [alert] in
      (<[name := mkGroupRuntime state (gr_next runtime) (gr_history runtime) nextAlert]> acc.1,
       mkBatch (b_FinishedAt batch) (b_Samples batch) (b_Streams batch)
         (b_Decisions batch ++ [decision]) alerts (b_Stability batch ++ stability) (b_StreamStability batch))
  end.

Definition conclude_round (orders : string → list string) (now : time) (s : Shared) (l : Loop) : Loop * Batch :=
  let pr := lp_probe l in
  let batch := mkBatch now (pr_batchSamples pr) [] [] [] [] [] in
  let '(runtimes, batch) :=
    if pr_batchGeneration pr =? sh_generation s
    then foldl (conclude_group orders) (lp_runtimes l, batch) (pr_activeGroups pr)
    else (foldl reset_runtime (lp_runtimes l) (pr_activeGroups pr), batch) in
  (mkLoop runtimes (lp_forced l)
     (mkProbeRound (pr_pending pr) false (pr_remaining pr) (pr_activeGroups pr) (pr_batchSamples pr)
        (pr_batchGeneration pr)) (lp_stream l), batch).

(** [case result := <-results]: the loop, and the batch handed to [onBatch]
    when the round is over ([refresh] then follows). *)
Definition on_result (orders : string → list string) (now : time) (s : Shared) (l : Loop)
    (task : probeTask) (sample : Sample) : Loop * option Batch :=
  let pr := lp_probe l in
  let left := default 0 (pr_remaining pr !! t_group task) - 1 in
  let remaining := <[t_group task := left]> (pr_remaining pr) in
  let l := mkLoop (record_sample policy task sample (lp_runtimes l)) (lp_forced l)
             (mkProbeRound (pr_pending pr) (pr_active pr) remaining (pr_activeGroups pr)
                (pr_batchSamples pr ++ [sample]) (pr_batchGeneration pr)) (lp_stream l) in
  if (left =? 0) && negb (existsb (λ entry, 0 <? entry.2) (map_to_list remaining))
  then let '(l, batch) := conclude_round orders now s l in (l, Some batch)
  else (l, None).

(** [case sample := <-streamResults] *)
Definition on_stream_result (orders : string → list string) (now : time) (s : Shared) (l : Loop)
    (sample : StreamSample) : Loop * option Batch :=
  let st := lp_stream l in
  let cutoff := time_add now (wrap64 (-6 * p_StreamInterval policy)) in
  let history := <[ss_Proxy sample :=
    pruneStreams (by_proxy_get (sr_history st) (ss_Proxy sample) ++ [sample]) cutoff (p_WindowSize policy)]>
    (sr_history st) in
  let samples := sr_samples st ++ [sample] in
  let inFlight := sr_inFlight st - 1 in
  let with_stream active history :=
    mkLoop (lp_runtimes l) (lp_forced l) (lp_probe l)
      (mkStreamRound (sr_next st) history (sr_pending st) active inFlight samples
         (sr_generation st) (sr_round st)) in
  if (0 <? len (sr_pending st)) || (0 <? inFlight) then (with_stream (sr_active st) history, None) else
  if negb (sr_generation st =? sh_generation s) then (with_stream false history, None) else
  let history := omap (λ l, match pruneStreams l cutoff (p_WindowSize policy) with
                            | [] => None | l => Some l end) history in
  let stability := (λ pulled, MeasureStreams (ss_Proxy pulled) (by_proxy_get history (ss_Proxy pulled))
                                (p_WindowSize policy)) <$> samples in
  let decisions := omap (λ name,
    match lp_runtimes l !! name with
    | Some runtime =>
        if g_AutomationEnabled (gr_state runtime)
        then Some (DecideSteady policy (gr_state runtime) history (historySamples (orders name) runtime) now)
        else None
    | None => None
    end) (sortedGroupNames (lp_runtimes l)) in
  (with_stream false history, Some (mkBatch now [] samples decisions [] [] stability)).
End results.

(** [case send <- nextTask] and [case streamSend <- nextStream]. *)
Definition on_send (l : Loop) : option (probeTask * Loop) :=
  let pr := lp_probe l in
  match pr_pending pr with
  | [] => None
  | task :: rest =>
      Some (task, mkLoop (lp_runtimes l) (lp_forced l)
        (mkProbeRound rest (pr_active pr) (pr_remaining pr) (pr_activeGroups pr) (pr_batchSamples pr)
           (pr_batchGeneration pr)) (lp_stream l))
  end.

Definition on_stream_send (l : Loop) : option (string * Loop) :=
  let st := lp_stream l in
  match sr_pending st with
  | [] => None
  | proxy :: rest =>
      Some (proxy, mkLoop (lp_runtimes l) (lp_forced l) (lp_probe l)
        (mkStreamRound (sr_next st) (sr_history st) rest (sr_active st) (sr_inFlight st + 1)
           (sr_samples st) (sr_generation st) (sr_round st)))
  end.
