(* ===== verification/MonitorSchedulerFacts.v ===== *)
(** * Correctness of the scheduler's operations

    Group snapshots, dial failures, deadlines, stream targets, and the
    independence of decisions from the order Go ranges over a history. *)
From S2P Require Import Prelude GoTime GoSort GoStrings MonitorModel MonitorPolicy MonitorPolicyFacts MonitorSteady MonitorScheduler.
Open Scope Z_scope.

(** ** Group snapshots *)
Record valid_group (g : GroupState) : Prop := {
  vg_name : trim_space (g_Group g) ≠ "";
  vg_selected : g_Selected g ≠ "";
  vg_member : g_Selected g ∈ g_Proxies g;
  vg_nonblank : ∀ q, q ∈ g_Proxies g → trim_space q ≠ "";
  vg_distinct : NoDup (g_Proxies g);
  vg_probed : g_AutomationEnabled g = true → g_ProbeEnabled g = true
}.

Lemma check_members_ok group proxies seen found :
  (∃ acc, fold_each (check_member group) (seen, found) proxies = Ok acc) ↔
    (∀ q, q ∈ proxies → trim_space q ≠ "" ∧ q ∉ seen) ∧ NoDup proxies.
Proof.
  revert seen found. induction proxies as [|q proxies IH]; intros seen found.
  { split; [intros _; split; [set_solver|constructor]|cbn; eauto]. }
  cbn [fold_each]. unfold check_member at 1.
  destruct (streq (trim_space q) "") eqn:Hb.
  { split; [by intros [? ?]|]. intros [H _]. destruct (H q) as [H' _]; [set_solver|].
    by apply streq_true in Hb. }
  apply streq_false in Hb. cbn [fst snd]. destruct (bool_decide (q ∈ seen)) eqn:Hs; go_bool.
  { split; [by intros [? ?]|]. intros [H _]. destruct (H q); [set_solver|done]. }
  rewrite IH, NoDup_cons. set_solver.
Qed.

Lemma check_members_found group proxies seen found acc :
  fold_each (check_member group) (seen, found) proxies = Ok acc →
  acc.2 = found || bool_decide (g_Selected group ∈ proxies).
Proof.
  revert seen found. induction proxies as [|q proxies IH]; intros seen found.
  { intros [= <-]. cbn. by rewrite orb_false_r. }
  cbn [fold_each]. unfold check_member at 1. repeat case_match; try done. intros Hf.
  simplify_eq. apply IH in Hf as ->. rewrite <- orb_assoc. f_equal. unfold streq.
  repeat case_bool_decide; try done; set_solver.
Qed.

Lemma check_group_ok seen group :
  (∃ acc, check_group seen group = Ok acc) ↔ (g_Group group ∉ seen) ∧ valid_group group.
Proof.
  unfold check_group.
  destruct (streq (trim_space _) "") eqn:Hb.
  { split; [by intros [? ?]|]. intros [_ []]. by apply streq_true in Hb. }
  apply streq_false in Hb. destruct (bool_decide (g_Group group ∈ seen)) eqn:Hd; go_bool.
  { split; [by intros [? ?]|by intros [? _]]. }
  destruct (streq (g_Selected group) "") eqn:Hs.
  { split; [by intros [? ?]|]. intros [_ []]. by apply streq_true in Hs. }
  apply streq_false in Hs.
  pose proof (check_members_ok group (g_Proxies group) ∅ false) as Hm.
  destruct (fold_each _ _ _) as [[members found]|e] eqn:Hf.
  - apply check_members_found in Hf. cbn in Hf. subst found.
    destruct Hm as [[Hm Hnd] _]; [eauto|].
    case_bool_decide as Hsel; cbn [negb].
    + destruct (g_AutomationEnabled group && negb (g_ProbeEnabled group)) eqn:Ha; cbn.
      * split; [by intros [? ?]|]. intros [_ Hv]. go_bool. pose proof (vg_probed _ Hv). intuition congruence.
      * split; [|by eauto]. intros _. split; [done|]. split; try done; [intros q Hq; by apply Hm|].
        intros Hauto. rewrite Hauto in Ha. by destruct (g_ProbeEnabled group).
    + split; [by intros [? ?]|]. by intros [_ []].
  - split; [by intros [? ?]|]. intros [_ Hv]. destruct Hm as [_ [? ?]]; [|done].
    destruct Hv. split; [|done]. set_solver.
Qed.

Lemma check_group_seen seen group acc : check_group seen group = Ok acc → acc = {[g_Group group]} ∪ seen.
Proof. unfold check_group. repeat case_match; intros; by simplify_eq. Qed.

Definition valid_snapshot (groups : list GroupState) : Prop :=
  Forall valid_group groups ∧ NoDup (g_Group <$> groups).

Lemma check_groups_ok seen groups :
  (∃ acc, fold_each check_group seen groups = Ok acc) ↔
    valid_snapshot groups ∧ ∀ g, g ∈ groups → g_Group g ∉ seen.
Proof.
  unfold valid_snapshot. revert seen. induction groups as [|g groups IH]; intros seen.
  { split; [|cbn; eauto]. intros _. split; [|set_solver]. split; constructor. }
  cbn [fold_each fmap list_fmap]. rewrite Forall_cons, NoDup_cons.
  destruct (check_group seen g) as [acc|e] eqn:Hc.
  - pose proof Hc as ->%check_group_seen. rewrite IH.
    destruct (proj1 (check_group_ok seen g) (ex_intro _ _ Hc)) as [Hn Hv].
    rewrite list_elem_of_fmap. split.
    + intros [[Hf Hnd] Hd]. split_and!; try done; [|set_solver].
      intros (g' & Heq & Hin). specialize (Hd g' Hin). set_solver.
    + intros [[[_ Hf] [Hnot Hnd]] Hd]. split; [done|]. intros g' Hg'.
      rewrite elem_of_union, elem_of_singleton. intros [Heq|Hs]; [|set_solver].
      apply Hnot. exists g'. by split.
  - split; [by intros [? ?]|]. intros [[[Hv _] _] Hd].
    destruct (proj2 (check_group_ok seen g)) as [acc Hacc]; [|congruence].
    split; [set_solver|done].
Qed.

Lemma SetGroups_ok s groups :
  (∃ s', SetGroups s groups = Ok s') ↔ valid_snapshot groups.
Proof.
  unfold SetGroups. pose proof (check_groups_ok ∅ groups) as Hc.
  destruct (fold_each _ _ _) as [acc|e].
  - split; [|case_bool_decide; eauto]. intros _. by apply Hc; eauto.
  - split; [by intros [? ?]|]. intros Hv. destruct Hc as [_ [? ?]]; [|done]. split; [done|set_solver].
Qed.

Lemma valid_group_proxies g : valid_group g → g_Proxies g ≠ [].
Proof. intros Hv Hn. pose proof (vg_member _ Hv) as H. rewrite Hn in H. set_solver. Qed.

(** ** Sorted names *)
Lemma elem_of_sortedGroupNames {A} (m : gmap string A) name :
  name ∈ sortedGroupNames m ↔ is_Some (m !! name).
Proof.
  unfold sortedGroupNames. rewrite elem_of_insertion_sort, list_elem_of_fmap. split.
  - intros ([k x] & -> & Hk). apply elem_of_map_to_list in Hk. eauto.
  - intros [x Hx]. exists (name, x). split; [done|]. by apply elem_of_map_to_list.
Qed.

Lemma NoDup_sortedGroupNames {A} (m : gmap string A) : NoDup (sortedGroupNames m).
Proof. unfold sortedGroupNames. rewrite insertion_sort_perm. apply NoDup_fst_map_to_list. Qed.

(** ** Histories and the order of a range *)
Definition order_of (runtime : groupRuntime) (order : list string) : Prop :=
  order ≡ₚ (map_to_list (gr_history runtime)).*1.

(** Every sample of a history is filed under its own group and proxy. *)
Definition filed (policy : Policy) (name : string) (history : gmap string (list Sample)) : Prop :=
  ∀ q items, history !! q = Some items →
    len items ≤ p_WindowSize policy ∧
    ∀ s, s ∈ items → s_Group s = name ∧ s_Proxy s = q ∧ s_URL s = p_TestURL policy.

Lemma filter_proxy_history policy name runtime order q :
  filed policy name (gr_history runtime) → NoDup order → (∀ p, is_Some (gr_history runtime !! p) → p ∈ order) →
  filter (λ s, s_Proxy s = q) (historySamples order runtime) = by_proxy_get (gr_history runtime) q.
Proof.
  intros Hf Hnd Hall. unfold historySamples.
  assert (∀ p, filter (λ s, s_Proxy s = q) (by_proxy_get (gr_history runtime) p) =
    if decide (p = q) then by_proxy_get (gr_history runtime) q else []) as Hone.
  { intros p. unfold by_proxy_get. destruct (gr_history runtime !! p) as [items|] eqn:Hp; cbn.
    - destruct (Hf _ _ Hp) as [_ Hs]. case_decide as Hd.
      + subst. rewrite Hp. cbn. apply filter_all. intros s Hin. by apply Hs.
      + apply filter_none. intros s Hin. by destruct (Hs s Hin) as (_ & -> & _).
    - case_decide; [subst; by rewrite Hp|done]. }
  assert (q ∉ order → by_proxy_get (gr_history runtime) q = []) as Habsent.
  { intros Hq. unfold by_proxy_get. destruct (gr_history runtime !! q) eqn:Hl; [|done].
    destruct Hq. apply Hall. eauto. }
  clear Hall. revert Habsent. induction order as [|p order IH]; intros Habsent; cbn [flat_map].
  { rewrite Habsent; [done|apply not_elem_of_nil]. }
  apply NoDup_cons in Hnd as [Hp Hnd]. rewrite filter_app, Hone.
  case_decide as Hd; subst.
  - assert (filter (λ s, s_Proxy s = q) (flat_map (by_proxy_get (gr_history runtime)) order) = []) as ->.
    { clear IH Habsent. induction order as [|r order IH]; [done|]. cbn [flat_map].
      rewrite filter_app, Hone. apply not_elem_of_cons in Hp as [Hne Hp].
      rewrite decide_False by done. apply NoDup_cons in Hnd as [_ Hnd]. by rewrite IH. }
    by rewrite app_nil_r.
  - cbn. apply IH; [done|]. intros Hq. apply Habsent. by apply not_elem_of_cons.
Qed.

Lemma by_proxy_add_lookup {A} name (x : A) m q :
  by_proxy_add name x m !! q =
    if decide (name = q) then Some (default [] (m !! q) ++ [x]) else m !! q.
Proof.
  unfold by_proxy_add, by_proxy_get. rewrite lookup_insert. case_decide; [by subst|done].
Qed.

Lemma index_samples_lookup l q :
  index_samples l !! q = match filter (λ s, s_Proxy s = q) l with [] => None | k => Some k end.
Proof.
  induction l as [|x l IH] using rev_ind; [done|].
  unfold index_samples in *. rewrite foldl_app, filter_app. cbn [foldl].
  rewrite filter_cons, filter_nil, by_proxy_add_lookup, IH. case_decide as Hx.
  - by destruct (filter _ l).
  - rewrite app_nil_r. by destruct (filter _ l).
Qed.

Lemma index_samples_eq l k :
  (∀ q, filter (λ s, s_Proxy s = q) l = filter (λ s, s_Proxy s = q) k) → index_samples l = index_samples k.
Proof. intros Hf. apply map_eq. intros q. by rewrite !index_samples_lookup, Hf. Qed.

(** A decision without the samples it quotes. *)
Definition outcome_of (d : Decision) : bool * bool * string * string * string * string :=
  (d_Switch d, d_LowerLatency d, d_Group d, d_Old d, d_New d, d_Reason d).

Lemma Decide_outcome policy state l k now :
  index_samples (group_samples policy state l) = index_samples (group_samples policy state k) →
  outcome_of (Decide policy state l now) = outcome_of (Decide policy state k now).
Proof. intros Hi. unfold Decide. rewrite <- Hi. repeat case_match; done. Qed.

Lemma group_samples_proxy policy state l q :
  filter (λ s, s_Proxy s = q) (group_samples policy state l) =
  group_samples policy state (filter (λ s, s_Proxy s = q) l).
Proof.
  unfold group_samples. rewrite !list_filter_filter. apply list_filter_iff. tauto.
Qed.

Lemma order_covers runtime order : order_of runtime order →
  NoDup order ∧ ∀ p, is_Some (gr_history runtime !! p) → p ∈ order.
Proof.
  unfold order_of. intros Ho. rewrite Ho. split; [apply NoDup_fst_map_to_list|].
  intros p [x Hx]. rewrite Ho. apply list_elem_of_fmap. exists (p, x). split; [done|].
  by apply elem_of_map_to_list.
Qed.

(** ** Deadlines *)
Definition scheduled (runtime : groupRuntime) : bool :=
  g_ProbeEnabled (gr_state runtime) && negb (time_is_zero (gr_next runtime)).

Lemma earlier_deadline_cases next runtime :
  earlier_deadline next runtime =
    if scheduled runtime then if time_is_zero next then gr_next runtime else Z.min next (gr_next runtime)
    else next.
Proof.
  unfold earlier_deadline, scheduled, time_before, time_is_zero, zero_time.
  destruct (g_ProbeEnabled _), (gr_next runtime =? 0) eqn:Hn; cbn; try done.
  destruct (next =? 0) eqn:H0; cbn; [done|]. go_bool. case_match; go_bool; lia.
Qed.

Lemma nextDeadline_fold runtimes next :
  (∀ r, r ∈ runtimes → 0 ≤ gr_next r) → 0 ≤ next →
  let out := foldl earlier_deadline next runtimes in
  (∀ r, r ∈ runtimes → scheduled r = true → 0 < out ≤ gr_next r) ∧
  (0 < next → 0 < out ≤ next) ∧
  (out = next ∨ ∃ r, r ∈ runtimes ∧ scheduled r = true ∧ out = gr_next r).
Proof.
  cbv zeta. revert next. induction runtimes as [|r rs IH]; intros next Hpos Hn; cbn [foldl].
  { split_and!; [set_solver|lia|by left]. }
  rewrite earlier_deadline_cases. pose proof (Hpos r ltac:(by left)) as Hr.
  assert (scheduled r = true → 0 < gr_next r) as Hsched.
  { unfold scheduled, time_is_zero, zero_time. intros Hs. go_bool. lia. }
  unfold time_is_zero, zero_time.
  destruct (scheduled r) eqn:Hs; [specialize (Hsched eq_refl); destruct (next =? 0) eqn:H0; go_bool|].
  - destruct (IH (gr_next r) ltac:(set_solver) Hr) as (H1 & H2 & H3). split_and!.
    + intros x [->|Hx]%elem_of_cons Hsx; [lia|by apply H1].
    + lia.
    + destruct H3 as [->|(x & ? & ? & ?)]; right; [exists r|exists x]; split_and!; try done; set_solver.
  - destruct (IH (Z.min next (gr_next r)) ltac:(set_solver) ltac:(lia)) as (H1 & H2 & H3). split_and!.
    + intros x [->|Hx]%elem_of_cons Hsx; [lia|by apply H1].
    + lia.
    + destruct H3 as [->|(x & ? & ? & ?)]; [|right; exists x; split_and!; try done; set_solver].
      destruct (Z.min_spec next (gr_next r)) as [[_ ->]|[_ ->]]; [by left|right].
      exists r. split_and!; try done. by left.
  - destruct (IH next ltac:(set_solver) Hn) as (H1 & H2 & H3). split_and!; try done.
    + intros x [->|Hx]%elem_of_cons Hsx; [congruence|by apply H1].
    + destruct H3 as [->|(x & ? & ? & ?)]; [by left|right; exists x; split_and!; try done; set_solver].
Qed.

(** ** Stream targets *)
Lemma add_target_spec (members : gset string) out proxy :
  NoDup out → (∀ q, q ∈ out → q ∈ members) → len out ≤ StreamPullCap →
  NoDup (add_target members out proxy) ∧
  (∀ q, q ∈ add_target members out proxy → q ∈ members ∧ (q ∈ out ∨ q = proxy)) ∧
  len (add_target members out proxy) ≤ StreamPullCap.
Proof.
  intros Hnd Hm Hl. unfold add_target. case_match; [|split_and!; try done; naive_solver].
  go_bool. split_and!.
  - apply NoDup_app. split_and!; [done|set_solver|apply NoDup_singleton].
  - intros q [Hq|Hq%list_elem_of_singleton]%elem_of_app; [split; [auto|by left]|].
    subst. split; [done|by right].
  - rewrite len_app. unfold len at 2. cbn. lia.
Qed.

(** What a list of targets built by [add_target] satisfies, for an origin [P]. *)
Record targets_ok (members : gset string) (P : string → Prop) (out : list string) : Prop := {
  to_distinct : NoDup out;
  to_members : ∀ q, q ∈ out → q ∈ members ∧ P q;
  to_cap : len out ≤ StreamPullCap
}.

Lemma add_target_ok members P out proxy :
  targets_ok members P out → P proxy → targets_ok members P (add_target members out proxy).
Proof.
  intros [Hnd Hm Hc] HP. destruct (add_target_spec members out proxy) as (? & Hq & ?); try done.
  { intros q Hq. by apply Hm. }
  split; try done. intros q Hin. destruct (Hq q Hin) as [? [Ho| ->]]; [by split; [|apply Hm]|done].
Qed.

Section targets.
Context (groups : list GroupState) (history : gmap string (gmap string (list Sample)))
  (members : gset string) (windowSize : Z).

Abbreviation automated := (filter (λ g, g_AutomationEnabled g = true) groups).
Abbreviation proxy_window g q := (recent (by_proxy_get (default ∅ (history !! g_Group g)) q) windowSize).

(** Where a stream target comes from. *)
Definition target_origin (q : string) : Prop :=
  ∃ g, g ∈ groups ∧ g_AutomationEnabled g = true ∧
    (q = g_Selected g ∨ (q ∈ g_Proxies g ∧ last_failed (proxy_window g q) = false)).

Lemma elem_of_rank_candidates g r :
  r ∈ rank_candidates history members windowSize g →
  rk_proxy r ∈ g_Proxies g ∧ last_failed (proxy_window g (rk_proxy r)) = false ∧
  rk_median r = st_Median (MeasureStability (proxy_window g (rk_proxy r)) 0).
Proof.
  unfold rank_candidates. rewrite elem_of_insertion_sort, list_elem_of_omap.
  intros (q & Hq & Hr). case_match eqn:Hc; [done|]. injection Hr as <-. cbn. go_bool. done.
Qed.

(** Fastest first. *)
Lemma rank_candidates_sorted g :
  StronglySorted (λ a b, rk_median a ≤ rk_median b) (rank_candidates history members windowSize g).
Proof.
  unfold rank_candidates. eapply StronglySorted_impl;
    [|eapply (insertion_sort_sorted (λ a b, rk_median a <? rk_median b) (λ _, True));
      [apply (strict_weak_on_proj rk_median Z.ltb (λ _, True)), ltb_strict_weak|by apply Forall_true]].
  intros a b Hab. unfold not_after in Hab. by go_bool.
Qed.

Definition selected_targets : list string :=
  foldl (λ out g, add_target members out (g_Selected g)) [] automated.

Definition candidate_targets (round : Z) (out : list string) : list string :=
  let candidates := rank_candidates history members windowSize <$> automated in
  foldl (λ out rank,
         foldl (λ out i,
                  match nth_error candidates (Z.to_nat (Z.rem (round + Z.of_nat i) (len candidates))) with
                  | Some group =>
                      match nth_error group rank with
                      | Some r => add_target members out (rk_proxy r)
                      | None => out
                      end
                  | None => out
                  end) out (seq 0 (length candidates)))
      out (seq 0 (Z.to_nat StreamCandidates)).

Lemma streamTargets_eq round :
  streamTargets groups history members windowSize round = candidate_targets round selected_targets.
Proof. done. Qed.

(** Induction over the additions of the second phase. *)
Lemma candidate_targets_ind (P : list string → Prop) round out :
  (∀ out g r, g ∈ automated → r ∈ rank_candidates history members windowSize g →
     P out → P (add_target members out (rk_proxy r))) →
  P out → P (candidate_targets round out).
Proof.
  intros Hadd Hout. unfold candidate_targets. apply foldl_ind; [|done].
  intros rank t Ht _. apply foldl_ind; [|done]. intros i u Hu _.
  destruct (nth_error _ _) as [group|] eqn:Hg; [|done].
  destruct (nth_error group rank) as [r|] eqn:Hr; [|done].
  apply nth_error_In, list_elem_of_In in Hg, Hr.
  apply list_elem_of_fmap in Hg as (g & -> & Hg). by eapply Hadd.
Qed.

Lemma selected_targets_ok : targets_ok members target_origin selected_targets.
Proof.
  unfold selected_targets. apply foldl_ind.
  - intros g out Hout Hg. apply add_target_ok; [done|].
    apply list_elem_of_filter in Hg as [Ha Hg]. exists g. split_and!; try done. by left.
  - split; [constructor|set_solver|done].
Qed.

Lemma add_target_full out q : len out = StreamPullCap → add_target members out q = out.
Proof.
  intros Hl. unfold add_target. rewrite Hl, Z.ltb_irrefl, andb_false_r. done.
Qed.

Lemma candidate_targets_full round out : len out = StreamPullCap → candidate_targets round out = out.
Proof.
  intros Hl. apply (candidate_targets_ind (λ o, o = out)); [|done].
  intros o g r _ _ ->. by apply add_target_full.
Qed.

Lemma add_target_grows out q p : p ∈ out → p ∈ add_target members out q.
Proof. unfold add_target. case_match; set_solver. Qed.

Lemma add_target_adds out q : q ∈ members → len out < StreamPullCap → q ∈ add_target members out q.
Proof.
  intros Hm Hl. unfold add_target. rewrite bool_decide_true by done.
  rewrite (proj2 (Z.ltb_lt _ _)) by done.
  destruct (bool_decide (q ∈ out)) eqn:Hq; cbn; go_bool; [done|set_solver].
Qed.

Lemma add_target_len out q : len (add_target members out q) ≤ len out + 1.
Proof. unfold add_target. case_match; rewrite ?len_app; unfold len; cbn; lia. Qed.

Lemma selected_targets_cover (gs : list GroupState) out g :
  len out + len gs ≤ StreamPullCap → g ∈ gs → g_Selected g ∈ members →
  g_Selected g ∈ foldl (λ out g, add_target members out (g_Selected g)) out gs.
Proof.
  revert out. induction gs as [|x gs IH]; intros out Hlen Hg Hm; [set_solver|]. cbn [foldl].
  rewrite len_cons in Hlen. pose proof (add_target_len out (g_Selected x)).
  apply elem_of_cons in Hg as [<-|Hg]; [|apply IH; [lia|done..]].
  apply (foldl_ind (λ o, g_Selected g ∈ o)); [intros; by apply add_target_grows|].
  apply add_target_adds; [done|]. pose proof (len_nonneg gs). lia.
Qed.
End targets.

(** ** Properties *)

(** [SetGroups] accepts exactly the well-formed snapshots: named groups with
    distinct names, each with distinct nonblank members, a selected proxy among
    them, and probing enabled wherever automation is; and an accepted snapshot
    becomes the monitored one. *)
Theorem SetGroups_accepts s groups :
  match SetGroups s groups with
  | Ok s' => valid_snapshot groups ∧ sh_groups s' = Some groups
  | Err _ => ¬ valid_snapshot groups
  end.
Proof.
  pose proof (SetGroups_ok s groups) as Hs. destruct (SetGroups s groups) as [s'|e] eqn:Hr.
  - split; [by apply Hs; eauto|]. revert Hr. unfold SetGroups.
    destruct (fold_each _ _ _); [|done]. case_bool_decide; by intros [= <-].
  - intros Hv. by apply Hs in Hv as [? ?].
Qed.

(** Go's map order does not change a decision.  [historySamples] lists the
    windows of a group in the order the range visits them; for any two orders
    the decision switches alike, to the same node and for the same reason, and
    quotes the same samples up to order. *)
Theorem Decide_range_order policy runtime first second now :
  filed policy (g_Group (gr_state runtime)) (gr_history runtime) →
  order_of runtime first → order_of runtime second →
  let decide_on order := Decide policy (gr_state runtime) (historySamples order runtime) now in
  outcome_of (decide_on first) = outcome_of (decide_on second) ∧
  d_Evidence (decide_on first) ≡ₚ d_Evidence (decide_on second).
Proof.
  intros Hf H1 H2. cbv zeta. split.
  - apply Decide_outcome, index_samples_eq. intros q. rewrite !group_samples_proxy.
    destruct (order_covers _ _ H1), (order_covers _ _ H2).
    by erewrite !filter_proxy_history by done.
  - destruct (Decide_fields policy (gr_state runtime) (historySamples first runtime) now) as (_ & _ & ->).
    destruct (Decide_fields policy (gr_state runtime) (historySamples second runtime) now) as (_ & _ & ->).
    unfold group_samples. apply filter_Permutation. unfold historySamples.
    by rewrite (H1 : first ≡ₚ _), (H2 : second ≡ₚ _).
Qed.

(** The loop's deadline.  With [next] instants after the zero time,
    [nextDeadline] is the earliest one among the probe-enabled groups that have
    one, whatever order the map is ranged in, and zero exactly without any. *)
Theorem nextDeadline_earliest (runtimes : list groupRuntime) :
  (∀ r, r ∈ runtimes → zero_time ≤ gr_next r) →
  (nextDeadline runtimes = zero_time ↔ ∀ r, r ∈ runtimes → scheduled r = false) ∧
  (nextDeadline runtimes ≠ zero_time →
    (∀ r, r ∈ runtimes → scheduled r = true → nextDeadline runtimes ≤ gr_next r) ∧
    ∃ r, r ∈ runtimes ∧ scheduled r = true ∧ nextDeadline runtimes = gr_next r).
Proof.
  intros Hpos. unfold nextDeadline, zero_time in *.
  destruct (nextDeadline_fold runtimes 0 Hpos ltac:(lia)) as (H1 & _ & H3). split; [split|].
  - intros H0 r Hr. destruct (scheduled r) eqn:Hs; [|done]. specialize (H1 r Hr Hs). lia.
  - intros Hnone. destruct H3 as [?|(r & Hr & Hs & _)]; [done|]. by rewrite Hnone in Hs.
  - intros Hne. split; [intros r Hr Hs; by apply H1|]. by destruct H3.
Qed.

Definition runtime_at (name : string) (next : time) : groupRuntime :=
  mkGroupRuntime (mkGroupState name "a" ["a"; "b"] true false false false zero_time) next ∅ (mkAlertState false).

Lemma nextDeadline_earliest_witness :
  nextDeadline [runtime_at "x" 7; runtime_at "y" 5; runtime_at "z" 0] ≠ zero_time ∧
  nextDeadline [runtime_at "x" 7; runtime_at "y" 5; runtime_at "z" 0] ≤ 7.
Proof.
  assert (nextDeadline [runtime_at "x" 7; runtime_at "y" 5; runtime_at "z" 0] ≠ zero_time) as Hne
    by (vm_compute; discriminate).
  split; [exact Hne|].
  destruct (nextDeadline_earliest [runtime_at "x" 7; runtime_at "y" 5; runtime_at "z" 0]) as [_ H].
  - intros r Hr. repeat (apply elem_of_cons in Hr as [->|Hr]; [vm_compute; discriminate|]). by apply not_elem_of_nil in Hr.
  - apply (proj1 (H Hne) (runtime_at "x" 7)); [by left|reflexivity].
Defined.

(** an early probe forced by dial failures needs [MaxFailures] reports since
    the last probe and [DialFailureProbeSpacing] since the last forced probe; a
    report never schedules anything else, and one for a group that is absent or
    not probed changes nothing. *)
Theorem ReportDialFailure_forced policy s group now :
  let s' := ReportDialFailure policy s group now in
  sh_groups s' = sh_groups s ∧ sh_generation s' = sh_generation s ∧
  (s' = s ∨
   (default 0 (sh_dialFailures s' !! group) = default 0 (sh_dialFailures s !! group) + 1 ∧
    ∃ g, g ∈ current_groups s ∧ g_Group g = group ∧ g_ProbeEnabled g = true)) ∧
  (sh_lastDialProbe s' !! group ≠ sh_lastDialProbe s !! group ∨ sh_requests s' ≠ sh_requests s →
    p_MaxFailures policy ≤ default 0 (sh_dialFailures s' !! group) ∧
    DialFailureProbeSpacing ≤ time_sub now (default zero_time (sh_lastDialProbe s !! group)) ∧
    sh_lastDialProbe s' !! group = Some now ∧ group ∈ sh_requests s' ∧ sh_wake s' = true).
Proof.
  cbv zeta. unfold ReportDialFailure.
  destruct (List.find _ (current_groups s)) as [g|] eqn:Hfind; cbn [negb].
  2: { split_and!; [done..|by left|]. naive_solver. }
  destruct (g_ProbeEnabled g) eqn:Hp; cbn [negb].
  2: { split_and!; [done..|by left|]. naive_solver. }
  apply find_some in Hfind as [Hg Hname]. apply streq_true in Hname. apply list_elem_of_In in Hg.
  case_match eqn:Hc.
  - split_and!; cbn; [done..| |naive_solver]. right. rewrite lookup_insert_eq. split; [done|eauto].
  - go_bool. cbn [signal sh_groups sh_generation sh_dialFailures sh_lastDialProbe sh_requests sh_wake].
    rewrite !lookup_insert_eq. split_and!; [done..|right; split; [done|eauto]|].
    intros _. cbn. split_and!; try done; try lia; set_solver.
Qed.

Definition one_group : Shared :=
  mkShared (Some [mkGroupState "x" "a" ["a"; "b"] true false false false zero_time]) 1 ∅ {["x" := 1]} ∅ ∅ false.

Lemma ReportDialFailure_forced_witness :
  "x" ∈ sh_requests (ReportDialFailure DefaultPolicy one_group "x" (1 * Hour)).
Proof.
  destruct (ReportDialFailure_forced DefaultPolicy one_group "x" (1 * Hour)) as (_ & _ & _ & H).
  apply H. left. vm_compute. discriminate.
Defined.

(** A stream round is bounded and legitimate.  Its targets are distinct
    members of the probe group, at most [StreamPullCap] of them, each either the
    selected node of an automated group or a candidate of one whose last latency
    probe succeeded; and with at most [StreamPullCap] automated groups every
    reachable selected node is among them. *)
Theorem streamTargets_sound groups history members windowSize round :
  targets_ok members (target_origin groups history windowSize)
    (streamTargets groups history members windowSize round) ∧
  (len (filter (λ g, g_AutomationEnabled g = true) groups) ≤ StreamPullCap →
   ∀ g, g ∈ groups → g_AutomationEnabled g = true → g_Selected g ∈ members →
   g_Selected g ∈ streamTargets groups history members windowSize round).
Proof.
  rewrite streamTargets_eq. split.
  - apply candidate_targets_ind; [|apply selected_targets_ok].
    intros out g r [Ha Hg]%list_elem_of_filter (Hp & Hl & _)%elem_of_rank_candidates Hout.
    apply add_target_ok; [done|]. exists g. split_and!; try done. by right.
  - intros Hcap g Hg Ha Hm. apply candidate_targets_ind; [intros; by apply add_target_grows|].
    apply selected_targets_cover; [|by apply list_elem_of_filter|done].
    unfold len at 1. cbn. lia.
Qed.

(** Nine automated groups, each on a node of its own. *)
Definition nth_group (i : nat) : GroupState :=
  let name := String (Ascii.ascii_of_nat (97 + i)) EmptyString in
  mkGroupState name name [name; "spare"] true true false false zero_time.
Definition nine_groups : list GroupState := nth_group <$> seq 0 9.
Definition nine_members : gset string := list_to_set ("spare" :: (g_Selected <$> nine_groups)).

(** the cap can starve a later group.  With nine automated groups on nine
    distinct nodes, the ninth group's selected node is pulled in no round at
    all: the rotation only concerns candidates, and the first eight selected
    nodes fill every round. *)
Theorem streamTargets_starves round windowSize history :
  valid_snapshot nine_groups ∧ "i" ∈ g_Selected <$> nine_groups ∧ "i" ∈ nine_members ∧
  "i" ∉ streamTargets nine_groups history nine_members windowSize round.
Proof.
  split_and!.
  - pose proof (SetGroups_ok one_group nine_groups) as H. apply H.
    destruct (SetGroups one_group nine_groups) as [s|e] eqn:Hs; [eauto|]. by vm_compute in Hs.
  - apply (bool_decide_unpack _). by vm_compute.
  - apply (bool_decide_unpack _). by vm_compute.
  - rewrite streamTargets_eq. assert (selected_targets nine_groups nine_members =
      ["a"; "b"; "c"; "d"; "e"; "f"; "g"; "h"]) as -> by by vm_compute.
    rewrite candidate_targets_full by done. apply (bool_decide_unpack _). by vm_compute.
Qed.

Lemma expired_prefix_bounds samples cutoff : 0 ≤ expired_prefix samples cutoff ≤ len samples.
Proof.
  induction samples as [|s rest IH]; cbn [expired_prefix]; [done|].
  rewrite len_cons. case_match; lia.
Qed.

Lemma expired_prefix_drop samples cutoff :
  chronological ss_FinishedAt samples →
  ∀ s, s ∈ drop (Z.to_nat (expired_prefix samples cutoff)) samples → cutoff ≤ ss_FinishedAt s.
Proof.
  unfold chronological. induction samples as [|x rest IH]; intros Hs s Hin; cbn in *; [set_solver|].
  apply StronglySorted_cons in Hs as [Hx Hs]. unfold time_before in *.
  destruct (ss_FinishedAt x <? cutoff) eqn:Hc; go_bool.
  - apply IH; [done|]. pose proof (expired_prefix_bounds rest cutoff).
    replace (Z.to_nat (1 + _)) with (S (Z.to_nat (expired_prefix rest cutoff))) in Hin by lia. done.
  - cbn in Hin. rewrite Forall_forall in Hx. apply elem_of_cons in Hin as [->|Hin]; [lia|].
    specialize (Hx _ Hin). lia.
Qed.

(** [pruneStreams] on a log in completion order keeps exactly its newest
    entries: a suffix of at most [windowSize], none finished before the cutoff,
    from which nothing both recent enough and within the window is missing. *)
Theorem pruneStreams_newest samples cutoff windowSize :
  chronological ss_FinishedAt samples → 0 ≤ windowSize →
  ∃ dropped, samples = dropped ++ pruneStreams samples cutoff windowSize ∧
    len (pruneStreams samples cutoff windowSize) ≤ windowSize ∧
    (∀ s, s ∈ pruneStreams samples cutoff windowSize → cutoff ≤ ss_FinishedAt s) ∧
    (len (pruneStreams samples cutoff windowSize) < windowSize →
     ∀ s, s ∈ dropped → ss_FinishedAt s < cutoff).
Proof.
  intros Hs Hw. unfold pruneStreams.
  pose proof (expired_prefix_bounds samples cutoff) as Hb.
  pose proof (expired_prefix_drop samples cutoff Hs) as Hfresh.
  set (start := Z.max (expired_prefix samples cutoff) (len samples - windowSize)).
  assert ((if start =? 0 then samples else slice_from samples start) = slice_from samples start) as ->.
  { case_match; [|done]. go_bool. by replace start with 0. }
  exists (take (Z.to_nat start) samples). unfold slice_from.
  assert (len (drop (Z.to_nat start) samples) = len samples - start) as Hlen.
  { change (drop (Z.to_nat start) samples) with (slice_from samples start). apply len_slice_from. lia. }
  split_and!.
  - by rewrite take_drop.
  - lia.
  - intros s Hin. apply Hfresh.
    replace (Z.to_nat start) with (Z.to_nat (expired_prefix samples cutoff) + Z.to_nat (start - expired_prefix samples cutoff))%nat in Hin by lia.
    rewrite <- drop_drop in Hin. set (k := Z.to_nat (start - _)) in Hin. set (l := drop _ samples) in *.
    rewrite <- (take_drop k l). set_solver.
  - rewrite Hlen. intros Hlt s Hin.
    assert (start = expired_prefix samples cutoff) as -> by lia.
    clear -Hin. induction samples as [|x rest IH]; cbn in *; [set_solver|].
    unfold time_before in *. destruct (ss_FinishedAt x <? cutoff) eqn:Hc; go_bool; [|cbn in Hin; set_solver].
    pose proof (expired_prefix_bounds rest cutoff).
    replace (Z.to_nat (1 + _)) with (S (Z.to_nat (expired_prefix rest cutoff))) in Hin by lia.
    cbn in Hin. apply elem_of_cons in Hin as [->|Hin]; [done|by apply IH].
Qed.

Lemma pruneStreams_newest_witness :
  pruneStreams (pulls "a" StreamSuccess) 2 1 = [pull "a" 3 StreamSuccess] ∧
  len (pruneStreams (pulls "a" StreamSuccess) 2 1) ≤ 1.
Proof.
  split; [reflexivity|].
  destruct (pruneStreams_newest (pulls "a" StreamSuccess) 2 1) as (d & _ & H & _).
  - repeat constructor; vm_compute; discriminate.
  - lia.
  - exact H.
Defined.

Definition two_histories : groupRuntime :=
  mkGroupRuntime (group_of ["now"; "b"; "c"]) 1
    (<["b" := [probe "b" 20]]> {["c" := [probe "c" 10]]}) (mkAlertState false).

Lemma Decide_range_order_witness :
  outcome_of (Decide steady_policy (gr_state two_histories) (historySamples ["b"; "c"] two_histories) 5) =
  outcome_of (Decide steady_policy (gr_state two_histories) (historySamples ["c"; "b"] two_histories) 5).
Proof.
  apply (Decide_range_order steady_policy two_histories ["b"; "c"] ["c"; "b"] 5).
  - intros q items Hq. cbn [gr_history two_histories] in Hq. apply lookup_insert_Some in Hq as [[<- <-]|[_ Hq]].
    + split; [vm_compute; discriminate|]. intros s ->%list_elem_of_singleton. by vm_compute.
    + apply lookup_singleton_Some in Hq as [<- <-].
      split; [vm_compute; discriminate|]. intros s ->%list_elem_of_singleton. by vm_compute.
  - unfold order_of. apply (bool_decide_unpack _). by vm_compute.
  - unfold order_of. apply (bool_decide_unpack _). by vm_compute.
Defined.
