(* ===== verification/MonitorSystem.v ===== *)
(** * The running scheduler as a transition system

    [exec] performs one labelled step of the scheduler and its environment:
    a call of an exported method, or one statement of [Run]'s loop.  A step is
    what the code does in one go between two points where another goroutine can
    take the mutex, so [refresh], the loop head and the [select] cases are
    separate steps, and the control state says which comes next. *)
From S2P Require Import Prelude GoTime GoSort GoStrings MonitorModel MonitorPolicy MonitorPolicyFacts MonitorSteady MonitorScheduler.
Open Scope Z_scope.
Open Scope go_scope.

Inductive control := PcRefresh | PcHead | PcSelect.
#[export] Instance control_eq_dec : EqDecision control.
Proof. solve_decision. Defined.

(** Besides the code's state: the tasks in the [jobs] channel or at a worker,
    the names in flight at the stream worker, the batches handed to [onBatch],
    and two ghosts: the tasks the current round started with and every group
    state [SetGroups] has accepted. *)
Record System := mkSystem {
  y_shared : Shared;
  y_loop : Loop;
  y_control : control;
  y_inflight : list probeTask;
  y_streaming : list string;
  y_batches : list Batch;
  y_round : list probeTask;
  y_accepted : list GroupState
}.

Definition initial_shared : Shared := mkShared None 0 ∅ ∅ ∅ ∅ false.
Definition initial : System := mkSystem initial_shared initial_loop PcRefresh [] [] [] [] [].

(** The prober's answer for one task. *)
Record Answer := mkAnswer {
  an_finished : time;
  an_latency : duration;
  an_failed : bool;
  an_deadline : bool
}.

Inductive label :=
| LSetGroups (groups : list GroupState)
| LRequest (group : string)
| LReportDialFailure (group : string) (now : time)
| LSetStreamMembers (names : list string)
| LRefresh (readings : Readings)
| LHead (readings : Readings)
| LWake
| LTimer
| LSend
| LResult (task : probeTask) (answer : Answer) (now : time) (orders : string → list string)
| LStreamSend
| LStreamResult (sample : StreamSample) (now : time) (orders : string → list string).

(** [orders] lists the keys of every group's history, in some order. *)
Definition orders_ok (orders : string → list string) (runtimes : gmap string groupRuntime) : bool :=
  forallb (λ entry : string * groupRuntime,
    bool_decide (insertion_sort string_ltb (orders entry.1) = sortedGroupNames (gr_history entry.2)))
    (map_to_list runtimes).

(** Removes the first occurrence of [x], if any. *)
Fixpoint take_out {A} `{!EqDecision A} (x : A) (l : list A) : option (list A) :=
  match l with
  | [] => None
  | y :: l => if bool_decide (x = y) then Some l else (y ::.) <$> take_out x l
  end.

Section exec.
Context `{GoSort} `{GoFloat} (policy : Policy).

Definition with_shared (y : System) (s : Shared) : System :=
  mkSystem s (y_loop y) (y_control y) (y_inflight y) (y_streaming y) (y_batches y) (y_round y) (y_accepted y).

Definition moved (y : System) (s : Shared) (l : Loop) (pc : control) : System :=
  mkSystem s l pc (y_inflight y) (y_streaming y) (y_batches y) (y_round y) (y_accepted y).

Definition exec (y : System) (a : label) : option System :=
  let s := y_shared y in
  let l := y_loop y in
  match a with
  | LSetGroups groups =>
      match SetGroups s groups with
      | Ok s => Some (mkSystem s l (y_control y) (y_inflight y) (y_streaming y) (y_batches y) (y_round y)
                        (groups ++ y_accepted y))
      | Err _ => Some y
      end
  | LRequest group => match Request s group with Ok s => Some (with_shared y s) | Err _ => Some y end
  | LReportDialFailure group now => Some (with_shared y (ReportDialFailure policy s group now))
  | LSetStreamMembers names => Some (with_shared y (SetStreamMembers s names))
  | LRefresh readings =>
      only_if bool_decide (y_control y = PcRefresh);
      let '(s, l) := refresh policy readings s l in Some (moved y s l PcHead)
  | LHead readings =>
      only_if bool_decide (y_control y = PcHead);
      let '(s', l') := loop_head policy readings s l in
      Some (mkSystem s' l' PcSelect (y_inflight y) (y_streaming y) (y_batches y)
              (if pr_active (lp_probe l) then y_round y else pr_pending (lp_probe l')) (y_accepted y))
  | LWake =>
      only_if bool_decide (y_control y = PcSelect); only_if sh_wake s;
      Some (moved y (mkShared (sh_groups s) (sh_generation s) (sh_requests s) (sh_dialFailures s)
                       (sh_lastDialProbe s) (sh_members s) false) l PcRefresh)
  | LTimer =>
      only_if bool_decide (y_control y = PcSelect);
      only_if negb (time_is_zero (wake_deadline policy l (map_to_list (lp_runtimes l)).*2));
      Some (moved y s l PcHead)
  | LSend =>
      only_if bool_decide (y_control y = PcSelect);
      '(task, l) ← on_send l;
      Some (mkSystem s l PcHead (y_inflight y ++ [task]) (y_streaming y) (y_batches y) (y_round y) (y_accepted y))
  | LResult task answer now orders =>
      only_if bool_decide (y_control y = PcSelect); only_if orders_ok orders (record_sample policy task
        (worker_sample policy task (an_finished answer) (an_latency answer) (an_failed answer) (an_deadline answer))
        (lp_runtimes l));
      inflight ← take_out task (y_inflight y);
      let sample := worker_sample policy task (an_finished answer) (an_latency answer)
                      (an_failed answer) (an_deadline answer) in
      let '(l, batch) := on_result policy orders now s l task sample in
      Some (mkSystem s l (if batch is Some _ then PcRefresh else PcHead) inflight (y_streaming y)
              (y_batches y ++ option_list batch) (y_round y) (y_accepted y))
  | LStreamSend =>
      only_if bool_decide (y_control y = PcSelect);
      '(proxy, l) ← on_stream_send l;
      Some (mkSystem s l PcHead (y_inflight y) (y_streaming y ++ [proxy]) (y_batches y) (y_round y) (y_accepted y))
  | LStreamResult sample now orders =>
      only_if bool_decide (y_control y = PcSelect); only_if orders_ok orders (lp_runtimes l);
      streaming ← take_out (ss_Proxy sample) (y_streaming y);
      let '(l, batch) := on_stream_result policy orders now s l sample in
      Some (mkSystem s l PcHead (y_inflight y) streaming (y_batches y ++ option_list batch)
              (y_round y) (y_accepted y))
  end.

Definition run (y : System) (labels : list label) : option System :=
  foldl (λ y a, y ≫= λ y, exec y a) (Some y) labels.

Inductive reachable : System → Prop :=
| reachable_initial : reachable initial
| reachable_step y a y' : reachable y → exec y a = Some y' → reachable y'.

Lemma run_reachable y labels y' : reachable y → run y labels = Some y' → reachable y'.
Proof.
  revert y. induction labels as [|a labels IH]; intros y Hy; cbn; [by intros [= <-]|].
  destruct (exec y a) as [y1|] eqn:He; cbn.
  - apply IH. by eapply reachable_step.
  - assert (∀ ls, foldl (λ y a, y ≫= λ y, exec y a) None ls = None) as ->; [|done].
    induction ls as [|b ls IHl]; [done|apply IHl].
Qed.
End exec.
