(* ===== verification/MonitorInvariant.v ===== *)
(** * Invariants of the running scheduler

    One inductive invariant over the reachable states of [MonitorSystem]: the
    bookkeeping of the current round, the runtimes and their histories, and the
    decisions handed out so far. *)
From S2P Require Import Prelude GoTime GoSort GoStrings MonitorModel MonitorPolicy MonitorPolicyFacts MonitorSteady MonitorScheduler MonitorSchedulerFacts MonitorSystem.
Open Scope Z_scope.
Open Scope go_scope.

(** ** The invariant *)
Definition task_of (s : Sample) : probeTask := mkProbeTask (s_Group s) (s_Proxy s).

(** How many of [tasks] belong to [group]. *)
Definition tasks_of (group : string) (tasks : list probeTask) : Z :=
  len (filter (λ t, t_group t = group) tasks).

Record runtime_ok (policy : Policy) (accepted : list GroupState) (name : string) (rt : groupRuntime) : Prop := {
  rt_name : g_Group (gr_state rt) = name;
  rt_accepted : gr_state rt ∈ accepted;
  rt_filed : filed policy name (gr_history rt)
}.

Definition runtimes_ok (policy : Policy) (accepted : list GroupState) (m : gmap string groupRuntime) : Prop :=
  map_Forall (runtime_ok policy accepted) m.

(** A decision that moves traffic does so for an accepted, automated group. *)
Definition authorized (accepted : list GroupState) (d : Decision) : Prop :=
  d_Switch d = true →
  ∃ g, g ∈ accepted ∧ g_Group g = d_Group d ∧ g_Selected g = d_Old d ∧
    g_AutomationEnabled g = true ∧ g_ManualOverride g = false ∧ g_SwitchInFlight g = false ∧
    d_New d ∈ g_Proxies g ∧ d_New d ≠ d_Old d.

(** The bookkeeping of a round: every task is pending, in flight or answered. *)
Record round_open (pr : ProbeRound) (inflight round : list probeTask) : Prop := {
  ro_tasks : (task_of <$> pr_batchSamples pr) ++ inflight ++ pr_pending pr ≡ₚ round;
  ro_left : ∀ g, default 0 (pr_remaining pr !! g) = tasks_of g (inflight ++ pr_pending pr);
  ro_some : inflight ++ pr_pending pr ≠ []
}.
Definition round_ok (pr : ProbeRound) (inflight round : list probeTask) : Prop :=
  if pr_active pr then round_open pr inflight round else pr_pending pr = [] ∧ inflight = [].

Record scheduler_ok (policy : Policy) (y : System) : Prop := {
  ok_accepted : Forall valid_group (y_accepted y);
  ok_current : ∀ g, g ∈ current_groups (y_shared y) → g ∈ y_accepted y;
  ok_runtimes : runtimes_ok policy (y_accepted y) (lp_runtimes (y_loop y));
  ok_round : round_ok (lp_probe (y_loop y)) (y_inflight y) (y_round y);
  ok_batches : ∀ b d, b ∈ y_batches y → d ∈ b_Decisions b → authorized (y_accepted y) d
}.

(** ** Runtimes *)
Lemma runtime_ok_mono policy accepted more name rt :
  runtime_ok policy accepted name rt → runtime_ok policy (more ++ accepted) name rt.
Proof. intros [? ? ?]. split; try done. set_solver. Qed.

Lemma runtimes_ok_lookup policy accepted m name rt :
  runtimes_ok policy accepted m → m !! name = Some rt → runtime_ok policy accepted name rt.
Proof. intros Hm. apply Hm. Qed.

Lemma runtimes_ok_insert policy accepted m name rt :
  runtimes_ok policy accepted m → runtime_ok policy accepted name rt →
  runtimes_ok policy accepted (<[name := rt]> m).
Proof. intros. by apply map_Forall_insert_2. Qed.

Lemma filed_empty policy name : filed policy name ∅.
Proof. intros q items Hq. by rewrite lookup_empty in Hq. Qed.
#[local] Hint Resolve runtimes_ok_insert filed_empty : core.

Lemma refresh_group_ok policy accepted readings state m forced :
  runtimes_ok policy accepted m → state ∈ accepted →
  runtimes_ok policy accepted (refresh_group readings (m, forced) state).1.
Proof.
  intros Hm Hs. unfold refresh_group. cbn [fst snd].
  destruct (m !! g_Group state) as [rt|] eqn:Hl; cbn [fst].
  - apply (runtimes_ok_lookup _ _ _ _ _ Hm) in Hl as [Hn Ha Hf].
    apply runtimes_ok_insert; [done|]. by destruct (g_ProbeEnabled state); split; cbn.
  - apply runtimes_ok_insert; [done|]. by split; cbn.
Qed.

Lemma refresh_ok policy accepted readings s l :
  runtimes_ok policy accepted (lp_runtimes l) → (∀ g, g ∈ current_groups s → g ∈ accepted) →
  runtimes_ok policy accepted (lp_runtimes (refresh policy readings s l).2).
Proof.
  intros Hm Hc. cbn. intros name rt [Hl _]%map_lookup_filter_Some. revert name rt Hl.
  change (runtimes_ok policy accepted (foldl (refresh_group readings) (lp_runtimes l, lp_forced l) (current_groups s)).1).
  apply (foldl_ind (λ acc : gmap string groupRuntime * gset string, runtimes_ok policy accepted acc.1)); [|done].
  intros g [m forced] Hacc Hg. apply refresh_group_ok; [done|by apply Hc].
Qed.

Lemma record_sample_ok policy accepted task answer_finished latency failed deadline m :
  0 ≤ p_WindowSize policy → runtimes_ok policy accepted m →
  runtimes_ok policy accepted
    (record_sample policy task (worker_sample policy task answer_finished latency failed deadline) m).
Proof.
  intros Hw Hm. unfold record_sample. set (sample := worker_sample _ _ _ _ _ _).
  assert (s_Group sample = t_group task ∧ s_Proxy sample = t_proxy task ∧ s_URL sample = p_TestURL policy) as Hsam.
  { unfold sample, worker_sample. by case_match. }
  destruct (m !! t_group task) as [rt|] eqn:Hl; [|done].
  apply (runtimes_ok_lookup _ _ _ _ _ Hm) in Hl as [Hn Ha Hf].
  apply runtimes_ok_insert; [done|]. split; [done|done|]. cbn [with_history gr_history].
  intros q items. rewrite lookup_insert. case_decide as Hq; [|apply Hf]. subst q.
  intros [= <-]. set (old := by_proxy_get (gr_history rt) (t_proxy task)).
  assert (∀ s, s ∈ old ++ [sample] → s_Group s = t_group task ∧ s_Proxy s = t_proxy task ∧ s_URL s = p_TestURL policy)
    as Hall.
  { intros s [Hs|Hs%list_elem_of_singleton]%elem_of_app; [|by subst s].
    unfold old, by_proxy_get in Hs. destruct (gr_history rt !! t_proxy task) as [k|] eqn:Hk; [|cbn in Hs; set_solver].
    by apply (Hf _ _ Hk). }
  case_match eqn:Hlen; go_bool.
  - rewrite len_slice_from by lia. split; [lia|]. intros s Hs. apply Hall. by apply elem_of_slice_from in Hs.
  - done.
Qed.

Lemma reset_runtimes_ok policy accepted m names :
  runtimes_ok policy accepted m → runtimes_ok policy accepted (foldl reset_runtime m names).
Proof.
  intros Hm. apply foldl_ind; [|done]. intros name t Ht _. unfold reset_runtime.
  destruct (t !! name) as [rt|] eqn:Hl; [|done].
  apply (runtimes_ok_lookup _ _ _ _ _ Ht) in Hl as [Hn Ha Hf]. by apply runtimes_ok_insert; [|split].
Qed.

(** ** Decisions *)
Lemma Decide_authorized policy accepted state samples now :
  state ∈ accepted → authorized accepted (Decide policy state samples now).
Proof.
  intros Hs Hsw. destruct (Decide_fields policy state samples now) as (-> & -> & _).
  apply Decide_switching in Hsw as (cmp & u & st & [Hg _ _ _ _ Hm Hc _]).
  apply candidate_of_Some in Hc as (Hne & _). exists state. by destruct Hg.
Qed.

Lemma DecideSteady_fields `{GoSort} `{GoFloat} policy state streams latency now :
  let d := DecideSteady policy state streams latency now in
  d_Group d = g_Group state ∧ d_Old d = g_Selected state.
Proof. unfold DecideSteady. repeat case_match; done. Qed.

Lemma DecideSteady_authorized `{GoSort} `{GoFloat} policy accepted state streams latency now :
  state ∈ accepted → authorized accepted (DecideSteady policy state streams latency now).
Proof.
  intros Hs Hsw. destruct (DecideSteady_fields policy state streams latency now) as [-> ->].
  apply DecideSteady_switching in Hsw as (best & -> & Hsw).
  pose proof (steady_switch_best _ _ _ _ _ _ Hsw) as [Hm (Hne & _)%steady_eligible_Some]%eligible_nodes_elem.
  exists state. by destruct Hsw as [[] ].
Qed.

Section conclude.
Context (policy : Policy) (accepted : list GroupState) (orders : string → list string).

Lemma conclude_group_ok acc name :
  runtimes_ok policy accepted acc.1 → (∀ d, d ∈ b_Decisions acc.2 → authorized accepted d) →
  let acc' := conclude_group policy orders acc name in
  runtimes_ok policy accepted acc'.1 ∧ (∀ d, d ∈ b_Decisions acc'.2 → authorized accepted d) ∧
  b_Samples acc'.2 = b_Samples acc.2.
Proof.
  intros Hm Hd. cbv zeta. unfold conclude_group.
  destruct (acc.1 !! name) as [rt|] eqn:Hl; [|done].
  apply (runtimes_ok_lookup _ _ _ _ _ Hm) in Hl as [Hn Ha Hf].
  destruct (UpdateLatencyAlert _ _ _ _) as [next alert]. cbn [fst snd b_Decisions b_Samples].
  split_and!; [by apply runtimes_ok_insert; [|split]| |done].
  intros d [Hin|Hin%list_elem_of_singleton]%elem_of_app; [by apply Hd|subst d].
  by apply Decide_authorized.
Qed.

Lemma conclude_round_ok now s l :
  runtimes_ok policy accepted (lp_runtimes l) →
  let out := conclude_round policy orders now s l in
  runtimes_ok policy accepted (lp_runtimes out.1) ∧
  (∀ d, d ∈ b_Decisions out.2 → authorized accepted d) ∧
  b_Samples out.2 = pr_batchSamples (lp_probe l) ∧
  pr_active (lp_probe out.1) = false ∧ pr_pending (lp_probe out.1) = pr_pending (lp_probe l).
Proof.
  intros Hm. cbv zeta. unfold conclude_round. set (batch := mkBatch now _ _ _ _ _ _).
  destruct (_ =? sh_generation s); cycle 1.
  { cbn. split_and!; try done; [by apply reset_runtimes_ok|set_solver]. }
  assert (let acc := foldl (conclude_group policy orders) (lp_runtimes l, batch) (pr_activeGroups (lp_probe l)) in
    runtimes_ok policy accepted acc.1 ∧ (∀ d, d ∈ b_Decisions acc.2 → authorized accepted d) ∧
    b_Samples acc.2 = b_Samples batch) as Hfold.
  { cbv zeta. apply (foldl_ind (λ acc : gmap string groupRuntime * Batch, runtimes_ok policy accepted acc.1 ∧
      (∀ d, d ∈ b_Decisions acc.2 → authorized accepted d) ∧ b_Samples acc.2 = b_Samples batch)).
    - intros name acc (H1 & H2 & H3) _. destruct (conclude_group_ok acc name H1 H2) as (? & ? & Hb).
      split_and!; try done. by rewrite Hb.
    - cbn. split_and!; [done|set_solver|done]. }
  destruct (foldl _ _ _) as [runtimes b]. cbn in *. by destruct Hfold as (? & ? & ->).
Qed.
End conclude.

(** ** Rounds *)
Lemma tasks_of_app g l k : tasks_of g (l ++ k) = tasks_of g l + tasks_of g k.
Proof. unfold tasks_of. by rewrite filter_app, len_app. Qed.

Lemma tasks_of_cons g t l : tasks_of g (t :: l) = (if decide (t_group t = g) then 1 else 0) + tasks_of g l.
Proof. unfold tasks_of. rewrite filter_cons. case_decide; rewrite ?len_cons; lia. Qed.

Lemma tasks_of_perm g l k : l ≡ₚ k → tasks_of g l = tasks_of g k.
Proof. intros Hp. unfold tasks_of, len. by rewrite (filter_Permutation _ _ _ Hp). Qed.

Lemma tasks_of_nonneg g l : 0 ≤ tasks_of g l.
Proof. apply len_nonneg. Qed.

Lemma tasks_of_group g name proxies :
  tasks_of g (mkProbeTask name <$> proxies) = if decide (name = g) then len proxies else 0.
Proof.
  induction proxies as [|q ps IH]; [by case_decide|]. cbn [fmap list_fmap]. rewrite tasks_of_cons.
  change (t_group _) with name. rewrite len_cons. unfold tasks_of, len in *. cbn [fmap] in IH.
  rewrite IH. case_decide; lia.
Qed.

Lemma tasks_of_none l : (∀ g, tasks_of g l ≤ 0) → l = [].
Proof.
  destruct l as [|t l]; [done|]. intros H. specialize (H (t_group t)).
  rewrite tasks_of_cons, decide_True in H by done. pose proof (tasks_of_nonneg (t_group t) l). lia.
Qed.

Lemma take_out_perm {A} `{!EqDecision A} (x : A) l k : take_out x l = Some k → l ≡ₚ x :: k.
Proof.
  revert k. induction l as [|y l IH]; intros k; cbn; [done|].
  case_bool_decide as Hx; [by intros [= <-]; subst|].
  destruct (take_out x l) as [r|]; [|done]. intros [= <-].
  rewrite (IH r eq_refl). apply Permutation_swap.
Qed.

Lemma worker_sample_task policy task finished latency failed deadline :
  task_of (worker_sample policy task finished latency failed deadline) = task.
Proof. unfold worker_sample, task_of. by case_match; destruct task. Qed.

Section start.
Context (policy : Policy) (accepted : list GroupState) (readings : Readings).
Hypothesis (Hvalid : Forall valid_group accepted).

Record starting_ok (visited : list string) (acc : Starting) : Prop := {
  so_runtimes : runtimes_ok policy accepted (sg_runtimes acc);
  so_counts : ∀ g, default 0 (sg_remaining acc !! g) = tasks_of g (sg_pending acc);
  so_fresh : ∀ g, g ∉ visited → sg_remaining acc !! g = None;
  so_some : sg_groups acc = [] ↔ sg_pending acc = []
}.

Lemma start_group_ok visited acc name :
  starting_ok visited acc → name ∉ visited →
  starting_ok (visited ++ [name]) (start_group policy readings acc name).
Proof.
  intros [Hm Hc Hf Hs] Hn. unfold start_group.
  assert (starting_ok (visited ++ [name]) acc) as Hsame.
  { split; try done. intros g Hg. apply Hf. set_solver. }
  destruct (sg_runtimes acc !! name) as [rt|] eqn:Hl; [|done].
  case_match; [done|]. clear Hsame.
  apply (runtimes_ok_lookup _ _ _ _ _ Hm) in Hl as [Hname Ha Hfiled].
  assert (g_Proxies (gr_state rt) ≠ []) as Hne.
  { apply valid_group_proxies. by rewrite Forall_forall in Hvalid; apply Hvalid. }
  split; cbn [sg_runtimes sg_remaining sg_pending sg_groups].
  - by apply runtimes_ok_insert; [|split].
  - intros g. rewrite tasks_of_app, tasks_of_group, <- Hc, lookup_insert.
    destruct (decide (name = g)) as [<-|Hg]; [by rewrite Hf|lia].
  - intros g Hg. rewrite lookup_insert_ne by set_solver. apply Hf. set_solver.
  - split; [by intros [_ ?]%app_eq_nil|]. intros [_ Hp]%app_eq_nil. by apply fmap_nil_inv in Hp.
Qed.

Lemma start_round_ok s l :
  runtimes_ok policy accepted (lp_runtimes l) →
  let l' := (start_round policy readings s l).2 in
  runtimes_ok policy accepted (lp_runtimes l') ∧
  round_ok (lp_probe l') [] (pr_pending (lp_probe l')) ∧
  current_groups (start_round policy readings s l).1 = current_groups s.
Proof.
  intros Hm. cbv zeta. unfold start_round. cbn [snd fst lp_runtimes lp_probe].
  set (start := mkStarting _ _ _ _ _ _).
  assert (starting_ok (sortedGroupNames (lp_runtimes l))
    (foldl (start_group policy readings) start (sortedGroupNames (lp_runtimes l)))) as [H1 H2 _ H4].
  { apply (foldl_inv starting_ok (start_group policy readings) (sortedGroupNames (lp_runtimes l)) []).
    - apply NoDup_sortedGroupNames.
    - intros d x t Ht _ Hx. by apply start_group_ok.
    - split; cbn; done. }
  split_and!; [done| |done]. unfold round_ok. cbn [pr_active pr_pending].
  destruct (0 <? len _) eqn:Hlen; go_bool.
  - split; cbn; [done|done|]. intros Hn. apply H4, len_nil_iff in Hn. lia.
  - split; [|done]. apply H4, len_nil_iff. pose proof (len_nonneg (sg_groups (foldl (start_group policy readings) start (sortedGroupNames (lp_runtimes l))))). lia.
Qed.
End start.

Section result.
Context (policy : Policy) (accepted : list GroupState) (orders : string → list string).
Context (task : probeTask) (answer : Answer) (now : time) (s : Shared) (l : Loop)
  (inflight rest round : list probeTask).
Hypothesis (Hw : 0 ≤ p_WindowSize policy) (Hm : runtimes_ok policy accepted (lp_runtimes l)).
Hypothesis (Hopen : round_open (lp_probe l) inflight round) (Hin : inflight ≡ₚ task :: rest).

Abbreviation sample := (worker_sample policy task (an_finished answer) (an_latency answer)
                          (an_failed answer) (an_deadline answer)).
Abbreviation recorded := (record_sample policy task sample (lp_runtimes l)).

(** The round's bookkeeping once the answer is recorded. *)
Definition after_result : ProbeRound :=
  let pr := lp_probe l in
  mkProbeRound (pr_pending pr) (pr_active pr)
    (<[t_group task := default 0 (pr_remaining pr !! t_group task) - 1]> (pr_remaining pr))
    (pr_activeGroups pr) (pr_batchSamples pr ++ [sample]) (pr_batchGeneration pr).

Lemma after_result_tasks :
  (task_of <$> pr_batchSamples after_result) ++ rest ++ pr_pending after_result ≡ₚ round.
Proof.
  destruct Hopen as [Ht _ _]. cbn. rewrite fmap_app. cbn. rewrite worker_sample_task, <- Ht, Hin.
  rewrite <- app_assoc. by apply Permutation_app_head.
Qed.

Lemma after_result_left g :
  default 0 (pr_remaining after_result !! g) = tasks_of g (rest ++ pr_pending after_result).
Proof.
  destruct Hopen as [_ Hl _]. cbn. specialize (Hl g) as Hlg.
  rewrite tasks_of_app, (tasks_of_perm g _ _ Hin), tasks_of_cons, <- Z.add_assoc, <- tasks_of_app in Hlg.
  rewrite lookup_insert. destruct (decide (t_group task = g)) as [<-|Hg]; cbn; lia.
Qed.

Lemma after_result_done :
  (default 0 (pr_remaining (lp_probe l) !! t_group task) - 1 =? 0) &&
    negb (existsb (λ entry : string * Z, 0 <? entry.2) (map_to_list (pr_remaining after_result))) = true ↔
  rest ++ pr_pending after_result = [].
Proof.
  pose proof after_result_left as Hl. split.
  - intros [_ Hex]%andb_true_iff. go_bool. apply tasks_of_none. intros g. rewrite <- Hl.
    destruct (pr_remaining after_result !! g) as [v|] eqn:Hv; [cbn|done].
    destruct (0 <? v) eqn:Hpos; go_bool; [|lia]. exfalso. apply elem_of_map_to_list in Hv.
    assert (existsb (λ entry : string * Z, 0 <? entry.2) (map_to_list (pr_remaining after_result)) = true); [|congruence].
    apply existsb_exists. exists (g, v). by rewrite <- list_elem_of_In, Z.ltb_lt.
  - intros Hnil. assert (∀ g, default 0 (pr_remaining after_result !! g) = 0) as Hz.
    { intros g. by rewrite Hl, Hnil. }
    apply andb_true_iff. split.
    + specialize (Hz (t_group task)). cbn in Hz. rewrite lookup_insert_eq in Hz. cbn in Hz.
      by rewrite Hz.
    + apply negb_true_iff, not_true_iff_false. rewrite existsb_exists.
      intros ([g v] & Hg & Hpos). apply list_elem_of_In, elem_of_map_to_list in Hg.
      specialize (Hz g). rewrite Hg in Hz. cbn in *. go_bool. lia.
Qed.

Lemma on_result_ok `{GoSort} `{GoFloat} :
  let out := on_result policy orders now s l task sample in
  runtimes_ok policy accepted (lp_runtimes out.1) ∧
  match out.2 with
  | None => pr_active (lp_probe out.1) = pr_active (lp_probe l) ∧ round_open (lp_probe out.1) rest round
  | Some batch =>
      pr_active (lp_probe out.1) = false ∧ pr_pending (lp_probe out.1) = [] ∧ rest = [] ∧
      (task_of <$> b_Samples batch) ≡ₚ round ∧ (∀ d, d ∈ b_Decisions batch → authorized accepted d)
  end.
Proof.
  cbv zeta. unfold on_result. fold after_result.
  pose proof (record_sample_ok policy accepted task (an_finished answer) (an_latency answer)
    (an_failed answer) (an_deadline answer) _ Hw Hm) as Hrec.
  pose proof after_result_done as Hd. change (<[t_group task := _]> _) with (pr_remaining after_result).
  destruct (_ && _) eqn:Hcond.
  - destruct Hd as [Hnil _]. apply app_eq_nil in Hnil as [Hr Hp]; [|done].
    pose proof (conclude_round_ok policy accepted orders now s (mkLoop recorded (lp_forced l) after_result (lp_stream l)) Hrec) as Hc.
    cbv zeta in Hc. unfold after_result in Hc at 1. cbn zeta in Hc.
    destruct (conclude_round _ _ _ _ _) as [l' batch]. cbn [fst snd] in *.
    destruct Hc as (H1 & H2 & H3 & H4 & H5). split; [done|]. split_and!; [done| |done| |done].
    + rewrite H5. done.
    + rewrite H3. pose proof after_result_tasks as Ht. rewrite Hr, Hp, !app_nil_r in Ht. done.
  - cbn [fst snd lp_runtimes lp_probe]. split_and!; [done|done|]. split.
    + apply after_result_tasks.
    + apply after_result_left.
    + intros Hn. apply Hd in Hn. congruence.
Qed.
End result.

(** ** Steps *)
Lemma authorized_mono accepted more d : authorized accepted d → authorized (more ++ accepted) d.
Proof. intros Ha Hsw. destruct (Ha Hsw) as (g & Hg & ?). exists g. split; [set_solver|done]. Qed.

Lemma Request_groups s group s' : Request s group = Ok s' → sh_groups s' = sh_groups s.
Proof. unfold Request. case_match; by intros [= <-]. Qed.

Lemma ReportDialFailure_groups policy s group now :
  sh_groups (ReportDialFailure policy s group now) = sh_groups s.
Proof. unfold ReportDialFailure. repeat case_match; done. Qed.

Lemma SetStreamMembers_groups s names : sh_groups (SetStreamMembers s names) = sh_groups s.
Proof. unfold SetStreamMembers. by case_match. Qed.

Lemma SetGroups_groups s groups s' :
  SetGroups s groups = Ok s' → valid_snapshot groups ∧ sh_groups s' = Some groups.
Proof.
  intros Hs. split; [apply (SetGroups_ok s); eauto|]. revert Hs. unfold SetGroups.
  destruct (fold_each _ _ _); [|done]. case_bool_decide; by intros [= <-].
Qed.

Lemma start_stream_round_keeps policy readings s l :
  lp_runtimes (start_stream_round policy readings s l) = lp_runtimes l ∧
  lp_probe (start_stream_round policy readings s l) = lp_probe l.
Proof. unfold start_stream_round. by case_match. Qed.

Lemma round_send pr task rest inflight round :
  round_ok pr inflight round → pr_pending pr = task :: rest →
  round_ok (mkProbeRound rest (pr_active pr) (pr_remaining pr) (pr_activeGroups pr)
              (pr_batchSamples pr) (pr_batchGeneration pr)) (inflight ++ [task]) round ∧ pr_active pr = true.
Proof.
  unfold round_ok. cbn [pr_active pr_pending]. intros Hok Hp. destruct (pr_active pr).
  - destruct Hok as [H1 H2 H3]. rewrite Hp in *. split; [|done].
    split; cbn [pr_batchSamples pr_pending pr_remaining]; rewrite <- ?app_assoc; [done| |done].
    intros g. apply H2.
  - destruct Hok as [Hn _]. congruence.
Qed.

Lemma on_stream_result_ok `{GoSort} `{GoFloat} policy accepted orders now s l sample :
  runtimes_ok policy accepted (lp_runtimes l) →
  let out := on_stream_result policy orders now s l sample in
  lp_runtimes out.1 = lp_runtimes l ∧ lp_probe out.1 = lp_probe l ∧
  (∀ b d, out.2 = Some b → d ∈ b_Decisions b → authorized accepted d).
Proof.
  intros Hm. cbv zeta. unfold on_stream_result.
  destruct (_ || _); [by split_and!|]. destruct (negb _); [by split_and!|]. split_and!; [done..|].
  intros b d. cbn [snd]. intros [= <-]. cbn [b_Decisions]. rewrite list_elem_of_omap.
  intros (name & _ & Hd). destruct (lp_runtimes l !! name) as [rt|] eqn:Hl; [|done].
  apply (runtimes_ok_lookup _ _ _ _ _ Hm) in Hl as [_ Ha _].
  destruct (g_AutomationEnabled _); [|done]. injection Hd as <-. by apply DecideSteady_authorized.
Qed.

Section preservation.
Context `{GoSort} `{GoFloat} (policy : Policy).
Hypothesis (Hw : 0 ≤ p_WindowSize policy).

Lemma scheduler_ok_initial : scheduler_ok policy initial.
Proof. split; cbn; try set_solver; done. Qed.

Lemma scheduler_ok_shared y s' :
  scheduler_ok policy y → sh_groups s' = sh_groups (y_shared y) → scheduler_ok policy (with_shared y s').
Proof. intros [H1 H2 H3 H4 H5] Hs. split; try done. unfold current_groups. cbn. by rewrite Hs. Qed.

Lemma scheduler_ok_head y readings s' l' :
  scheduler_ok policy y → loop_head policy readings (y_shared y) (y_loop y) = (s', l') →
  scheduler_ok policy (mkSystem s' l' PcSelect (y_inflight y) (y_streaming y) (y_batches y)
    (if pr_active (lp_probe (y_loop y)) then y_round y else pr_pending (lp_probe l')) (y_accepted y)).
Proof.
  intros [H1 H2 H3 H4 H5]. unfold loop_head. destruct (pr_active _) eqn:Ha.
  { intros [= <- <-]. by split. }
  pose proof (start_round_ok policy (y_accepted y) readings H1 (y_shared y) (y_loop y) H3) as Hs. cbv zeta in Hs.
  destruct (start_round _ _ _ _) as [s1 l1]. cbn [fst snd] in Hs. destruct Hs as (Hm & Hr & Hc).
  intros [= <- <-]. destruct (start_stream_round_keeps policy readings s1 l1) as [Hk1 Hk2].
  unfold round_ok in H4. rewrite Ha in H4. destruct H4 as [_ H4]. split; cbn; try done.
  - by rewrite Hc.
  - by rewrite Hk1.
  - by rewrite Hk2, H4.
Qed.

Lemma scheduler_ok_step y a y' :
  scheduler_ok policy y → exec policy y a = Some y' → scheduler_ok policy y'.
Proof.
  intros Hok. pose proof Hok as [H1 H2 H3 H4 H5]. destruct a; cbn [exec].
  - destruct (SetGroups _ _) as [s'|] eqn:Hs; intros [= <-]; [|done].
    apply SetGroups_groups in Hs as [[Hv _] Hg]. split; cbn; try done.
    + apply Forall_app. by split.
    + unfold current_groups. rewrite Hg. cbn. set_solver.
    + intros name rt Hl. by apply runtime_ok_mono, H3.
    + intros b d Hb Hd. apply authorized_mono. by eapply H5.
  - destruct (Request _ _) as [s'|] eqn:Hs; intros [= <-]; [|done].
    apply scheduler_ok_shared; [done|by eapply Request_groups].
  - intros [= <-]. apply scheduler_ok_shared; [done|apply ReportDialFailure_groups].
  - intros [= <-]. apply scheduler_ok_shared; [done|apply SetStreamMembers_groups].
  - case_bool_decide; [|done]. pose proof (refresh_ok policy (y_accepted y) readings _ _ H3 H2) as Hr.
    destruct (refresh _ _ _ _) as [s' l'] eqn:Hl. intros [= <-]. injection Hl as <- <-. by split.
  - case_bool_decide; [|done]. destruct (loop_head _ _ _ _) as [s' l'] eqn:Hl. intros [= <-].
    by apply (scheduler_ok_head y readings).
  - repeat case_match; try done. intros [= <-]. by split.
  - repeat case_match; try done. intros [= <-]. by split.
  - case_bool_decide; [|done]. unfold on_send. destruct (pr_pending _) as [|task rest] eqn:Hp; [done|].
    intros [= <-]. destruct (round_send _ _ _ _ _ H4 Hp) as [Hr _]. by split.
  - case_bool_decide; [|done]. destruct (orders_ok _ _); [|done].
    destruct (take_out task (y_inflight y)) as [rest|] eqn:Ht; [|done]. apply take_out_perm in Ht. cbn [mbind option_bind].
    unfold round_ok in H4. destruct (pr_active _) eqn:Ha; cycle 1.
    { destruct H4 as [_ Hn]. rewrite Hn in Ht. by apply Permutation_nil_cons in Ht. }
    pose proof (on_result_ok policy (y_accepted y) orders task answer now (y_shared y) _ _ _ _ Hw H3 H4 Ht) as Hr.
    cbv zeta in Hr. destruct (on_result _ _ _ _ _ _ _) as [l' batch]. cbn [fst snd] in Hr.
    destruct Hr as [Hm Hr]. intros [= <-]. destruct batch as [b|]; cbn [option_list].
    + destruct Hr as (Hr1 & Hr2 & Hr3 & _ & Hd). split; cbn; try done.
      * unfold round_ok. by rewrite Hr1.
      * intros b' d [Hb|Hb%list_elem_of_singleton]%elem_of_app; [by eapply H5|subst b'; apply Hd].
    + destruct Hr as [Hr1 Hr2]. split; cbn; rewrite ?app_nil_r; try done. unfold round_ok. by rewrite Hr1, Ha.
  - case_bool_decide; [|done]. unfold on_stream_send. destruct (sr_pending _) as [|q rest]; [done|].
    intros [= <-]. by split.
  - case_bool_decide; [|done]. destruct (orders_ok _ _); [|done].
    destruct (take_out _ (y_streaming y)) as [rest|]; [|done]. cbn [mbind option_bind].
    pose proof (on_stream_result_ok policy (y_accepted y) orders now (y_shared y) (y_loop y) sample H3) as Hr.
    cbv zeta in Hr. destruct (on_stream_result _ _ _ _ _ _) as [l' batch]. cbn [fst snd] in Hr.
    destruct Hr as (Hr1 & Hr2 & Hd). intros [= <-]. split; cbn; try done.
    + by rewrite Hr1.
    + by rewrite Hr2.
    + intros b' d [Hb|Hb]%elem_of_app; [by eapply H5|].
      destruct batch as [b|]; [|by apply not_elem_of_nil in Hb]. apply list_elem_of_singleton in Hb as ->.
      by apply Hd.
Qed.

Lemma reachable_ok y : reachable policy y → scheduler_ok policy y.
Proof. induction 1; [apply scheduler_ok_initial|by eapply scheduler_ok_step]. Qed.
End preservation.
