(* ===== verification/MonitorRun.v ===== *)
(** * What every run of the scheduler guarantees

    The properties of the reachable states, proved from the invariant of
    [MonitorInvariant], with concrete runs evaluated step by step. *)
From S2P Require Import Prelude GoTime GoSort GoStrings GoNet MonitorModel MonitorPolicy MonitorPolicyFacts MonitorSteady MonitorScheduler MonitorSchedulerFacts MonitorSystem MonitorInvariant.
Open Scope Z_scope.

Definition active (y : System) : bool := pr_active (lp_probe (y_loop y)).
Definition pending (y : System) : list probeTask := pr_pending (lp_probe (y_loop y)).

(** Steps left before the round is over: one to send and one to answer each
    pending task, one to answer each task in flight. *)
Definition work (y : System) : Z := 2 * len (pending y) + len (y_inflight y).

Definition probe_label (a : label) : bool :=
  match a with LSend | LResult _ _ _ _ => true | _ => false end.
Definition probe_steps (labels : list label) : Z := len (filter (λ a, probe_label a = true) labels).

Section progress.
Context `{GoSort} `{GoFloat} (policy : Policy).
Hypothesis (Hw : 0 ≤ p_WindowSize policy).

Lemma active_work y : scheduler_ok policy y → active y = true → 0 < work y.
Proof.
  intros [_ _ _ Hr _] Ha. unfold round_ok, active, work, pending in *. rewrite Ha in Hr.
  destruct Hr as [_ _ Hs]. pose proof (len_nonneg (pr_pending (lp_probe (y_loop y)))).
  pose proof (len_nonneg (y_inflight y)). pose proof (len_nonneg (y_inflight y ++ pr_pending (lp_probe (y_loop y)))).
  rewrite <- len_nil_iff, len_app in Hs. lia.
Qed.

(** One step of an open round: probe steps do one unit of work each, other
    steps none, and the round only closes with a batch. *)
Lemma open_step y a y' :
  scheduler_ok policy y → active y = true → exec policy y a = Some y' → active y' = true →
  work y' = work y - (if probe_label a then 1 else 0).
Proof.
  intros Hok Ha Hex Ha'. pose proof Hok as [_ _ Hm Hr _]. unfold active, work, pending in *.
  revert Hex. destruct a; cbn [exec probe_label]; rewrite ?Z.sub_0_r.
  - destruct (SetGroups _ _); by intros [= <-].
  - destruct (Request _ _); by intros [= <-].
  - by intros [= <-].
  - by intros [= <-].
  - case_bool_decide; [|done]. destruct (refresh _ _ _ _) as [s' l'] eqn:Hl.
    intros [= <-]. by injection Hl as <- <-.
  - case_bool_decide; [|done]. destruct (loop_head _ _ _ _) as [s' l'] eqn:Hl. intros [= <-].
    unfold loop_head in Hl. rewrite Ha in Hl. by injection Hl as <- <-.
  - repeat case_match; try done. by intros [= <-].
  - repeat case_match; try done. by intros [= <-].
  - case_bool_decide; [|done]. unfold on_send. destruct (pr_pending _) as [|task rest] eqn:Hp; [done|].
    intros [= <-]. cbn [y_loop lp_probe pr_pending y_inflight]. rewrite len_app, !len_cons. change (len []) with 0. lia.
  - case_bool_decide; [|done]. destruct (orders_ok _ _); [|done].
    destruct (take_out task (y_inflight y)) as [rest|] eqn:Ht; [|done]. apply take_out_perm in Ht.
    cbn [mbind option_bind]. unfold round_ok in Hr. rewrite Ha in Hr.
    destruct (on_result _ _ _ _ _ _ _) as [l' batch] eqn:Hout. intros [= <-]. cbn in *.
    unfold on_result in Hout. destruct (_ && _).
    + pose proof (conclude_round_ok policy (y_accepted y) orders now (y_shared y) _
        (record_sample_ok policy (y_accepted y) task (an_finished answer) (an_latency answer)
          (an_failed answer) (an_deadline answer) _ Hw Hm : runtimes_ok _ _ (lp_runtimes (mkLoop _ (lp_forced (y_loop y))
            (after_result policy task answer (y_loop y)) (lp_stream (y_loop y)))))) as Hc.
      cbv zeta in Hc. fold (after_result policy task answer (y_loop y)) in Hout.
      destruct (conclude_round _ _ _ _ _) as [l1 b]. injection Hout as <- <-.
      destruct Hc as (_ & _ & _ & Hc & _). cbn in Hc. congruence.
    + injection Hout as <- <-. cbn. unfold len. rewrite (Permutation_length Ht). cbn. lia.
  - case_bool_decide; [|done]. unfold on_stream_send. destruct (sr_pending _) as [|q rest]; [done|].
    by intros [= <-].
  - case_bool_decide; [|done]. destruct (orders_ok _ _); [|done].
    destruct (take_out _ (y_streaming y)) as [rest|]; [|done]. cbn [mbind option_bind].
    pose proof (on_stream_result_ok policy (y_accepted y) orders now (y_shared y) (y_loop y) sample Hm) as Hs.
    cbv zeta in Hs. destruct (on_stream_result _ _ _ _ _ _) as [l' batch]. intros [= <-]. cbn in *.
    by destruct Hs as (_ & -> & _).
Qed.

Lemma run_cons y a labels : run policy y (a :: labels) = exec policy y a ≫= λ y, run policy y labels.
Proof.
  unfold run. cbn. destruct (exec policy y a) as [y1|]; [done|]. cbn.
  induction labels as [|b ls IH]; [done|apply IH].
Qed.

Lemma probe_steps_cons a labels :
  probe_steps (a :: labels) = (if probe_label a then 1 else 0) + probe_steps labels.
Proof.
  unfold probe_steps. rewrite filter_cons. destruct (probe_label a); [rewrite decide_True, len_cons by done; lia|].
  by rewrite decide_False.
Qed.

(** An open round closes within [work] probe steps. *)
Lemma open_round_closes labels y y' :
  scheduler_ok policy y → active y = true → run policy y labels = Some y' → work y ≤ probe_steps labels →
  ∃ before after closed, labels = before ++ after ∧ run policy y before = Some closed ∧ active closed = false.
Proof.
  revert y. induction labels as [|a labels IH]; intros y Hok Ha Hrun Hwork.
  - pose proof (active_work y Hok Ha). unfold probe_steps, len in Hwork. cbn in Hwork. lia.
  - rewrite run_cons in Hrun. destruct (exec policy y a) as [y1|] eqn:Hex; [|done]. cbn in Hrun.
    rewrite probe_steps_cons in Hwork. destruct (active y1) eqn:Ha1.
    + pose proof (open_step _ _ _ Hok Ha Hex Ha1) as Hstep.
      destruct (IH y1) as (before & after & closed & -> & Hb & Hc); [by eapply scheduler_ok_step|done..|lia|].
      exists (a :: before), after, closed. split_and!; [done| |done]. by rewrite run_cons, Hex.
    + exists [a], labels, y1. split_and!; [done| |done]. by rewrite run_cons, Hex.
Qed.

Definition natural_orders (runtimes : gmap string groupRuntime) (name : string) : list string :=
  match runtimes !! name with Some rt => (map_to_list (gr_history rt)).*1 | None => [] end.

Lemma natural_orders_ok runtimes : orders_ok (natural_orders runtimes) runtimes = true.
Proof.
  unfold orders_ok. apply forallb_forall. intros [name rt] Hin%list_elem_of_In%elem_of_map_to_list.
  apply bool_decide_eq_true. unfold natural_orders. cbn. by rewrite Hin.
Qed.

Lemma take_out_head {A} `{!EqDecision A} (x : A) l : take_out x (x :: l) = Some l.
Proof. cbn. by rewrite bool_decide_true. Qed.

(** In an open round some probe step is always enabled. *)
Lemma open_enabled y (answer : Answer) (now : time) :
  scheduler_ok policy y → active y = true → y_control y = PcSelect →
  ∃ a y', probe_label a = true ∧ exec policy y a = Some y'.
Proof.
  intros [_ _ _ Hr _] Ha Hc. unfold round_ok, active in *. rewrite Ha in Hr. destruct Hr as [_ _ Hs].
  destruct (pr_pending (lp_probe (y_loop y))) as [|task rest] eqn:Hp.
  - rewrite app_nil_r in Hs. destruct (y_inflight y) as [|task rest] eqn:Hi; [done|].
    set (a := LResult task answer now (natural_orders (record_sample policy task
      (worker_sample policy task (an_finished answer) (an_latency answer) (an_failed answer) (an_deadline answer))
      (lp_runtimes (y_loop y))))).
    enough (is_Some (exec policy y a)) as [y' Hy']; [by exists a, y'|]. unfold a. cbn [exec].
    rewrite bool_decide_true by done. rewrite natural_orders_ok, Hi, take_out_head.
    cbn [mbind option_bind]. destruct (on_result _ _ _ _ _ _ _). by eexists.
  - eexists LSend, _. split; [done|]. cbn [exec]. rewrite bool_decide_true by done.
    unfold on_send. rewrite Hp. reflexivity.
Qed.
End progress.

(** ** Properties *)

(** C2: no run of the scheduler proposes to move traffic it has no authority
    over.  Every switch in any batch ever handed out, latency or stream, is for a
    group state accepted by [SetGroups] with automation enabled, no manual
    override and no switch in flight, from its selected node to another of its
    members. *)
Theorem reachable_authorized `{GoSort} `{GoFloat} policy y b d :
  0 ≤ p_WindowSize policy → reachable policy y → b ∈ y_batches y → d ∈ b_Decisions b →
  authorized (y_accepted y) d.
Proof. intros Hw Hy. by apply (reachable_ok policy Hw y Hy). Qed.

(** C6: a round is answered exactly once.  In every reachable state, an answer
    that closes the round hands out one batch, whose samples are the tasks the
    round started with, each exactly once, and leaves nothing in flight. *)
Theorem round_answered_once `{GoSort} `{GoFloat} policy y task answer now orders y' :
  0 ≤ p_WindowSize policy → reachable policy y →
  exec policy y (LResult task answer now orders) = Some y' → active y' = false →
  ∃ batch, y_batches y' = y_batches y ++ [batch] ∧ (task_of <$> b_Samples batch) ≡ₚ y_round y ∧
    y_inflight y' = [] ∧ pending y' = [].
Proof.
  intros Hw Hy Hex Ha'. destruct (reachable_ok policy Hw y Hy) as [_ _ Hm Hr _].
  revert Hex. cbn [exec]. case_bool_decide; [|done]. destruct (orders_ok _ _); [|done].
  destruct (take_out task (y_inflight y)) as [rest|] eqn:Ht; [|done]. apply take_out_perm in Ht. cbn [mbind option_bind].
  unfold round_ok in Hr. destruct (pr_active _) eqn:Ha; cycle 1.
  { destruct Hr as [_ Hn]. rewrite Hn in Ht. by apply Permutation_nil_cons in Ht. }
  pose proof (on_result_ok policy (y_accepted y) orders task answer now (y_shared y) _ _ _ _ Hw Hm Hr Ht) as Hout.
  cbv zeta in Hout. destruct (on_result _ _ _ _ _ _ _) as [l' batch]. intros [= <-]. cbn [fst snd] in Hout.
  unfold active, pending in *. cbn in *. destruct Hout as [_ Hout]. destruct batch as [b|].
  - destruct Hout as (_ & Hp & -> & Hsamples & _). by exists b.
  - destruct Hout as [Hact _]. congruence.
Qed.

(** C22: rounds terminate and never get stuck.  In every reachable state with an
    open round, a probe can be sent or answered whenever the loop selects, and
    any run containing [work] sends and answers (at most two per task) has closed
    the round on the way. *)
Theorem round_terminates `{GoSort} `{GoFloat} policy y :
  0 ≤ p_WindowSize policy → reachable policy y → active y = true →
  (y_control y = PcSelect → ∃ a y', probe_label a = true ∧ exec policy y a = Some y') ∧
  (∀ labels y', run policy y labels = Some y' → work y ≤ probe_steps labels →
   ∃ before after closed, labels = before ++ after ∧ run policy y before = Some closed ∧ active closed = false).
Proof.
  intros Hw Hy Ha. pose proof (reachable_ok policy Hw y Hy) as Hok. split.
  - by apply (open_enabled policy y (mkAnswer 0 0 false false) 0).
  - intros labels y' Hrun Hwork. by eapply open_round_closes.
Qed.

(** Histories stay bounded and filed.  In every reachable state each
    runtime is kept under its own group's name, its state is one [SetGroups]
    accepted, and each history holds at most [WindowSize] samples, all of that
    group, that proxy and the policy's test URL. *)
Theorem reachable_histories `{GoSort} `{GoFloat} policy y name rt :
  0 ≤ p_WindowSize policy → reachable policy y → lp_runtimes (y_loop y) !! name = Some rt →
  g_Group (gr_state rt) = name ∧ valid_group (gr_state rt) ∧ filed policy name (gr_history rt).
Proof.
  intros Hw Hy Hl. destruct (reachable_ok policy Hw y Hy) as [Hv _ Hm _ _].
  apply (runtimes_ok_lookup _ _ _ _ _ Hm) in Hl as [Hn Ha Hf]. split_and!; [done| |done].
  rewrite Forall_forall in Hv. by apply Hv.
Qed.

(** A round the group snapshot has outlived decides nothing.  When the
    generation changed since the round began, its batch carries the samples but
    no decision, alert or statistic, and the histories and alerts of the round's
    groups are discarded. *)
Theorem stale_round_decides_nothing policy orders now s l :
  pr_batchGeneration (lp_probe l) ≠ sh_generation s →
  let out := conclude_round policy orders now s l in
  out.2 = mkBatch now (pr_batchSamples (lp_probe l)) [] [] [] [] [] ∧
  ∀ name rt, name ∈ pr_activeGroups (lp_probe l) → lp_runtimes out.1 !! name = Some rt →
    gr_history rt = ∅ ∧ a_HighLatency (gr_alert rt) = false.
Proof.
  intros Hg. cbv zeta. unfold conclude_round. rewrite (proj2 (Z.eqb_neq _ _)) by done.
  split; [done|]. cbn [fst lp_runtimes]. intros name rt Hname.
  assert (∀ names m, (name ∈ names ∨ (∀ rt, m !! name = Some rt → gr_history rt = ∅ ∧ a_HighLatency (gr_alert rt) = false)) →
    foldl reset_runtime m names !! name = Some rt → gr_history rt = ∅ ∧ a_HighLatency (gr_alert rt) = false) as Hf;
    [|apply Hf; by left].
  clear. induction names as [|n names IH]; intros m Hm; cbn [foldl].
  { destruct Hm as [Hm|Hm]; [by apply not_elem_of_nil in Hm|apply Hm]. }
  apply IH. unfold reset_runtime. destruct (decide (n = name)) as [->|Hne].
  - right. intros rt'. destruct (m !! name) as [rt0|] eqn:Hl; [|congruence].
    rewrite lookup_insert_eq. by intros [= <-].
  - destruct Hm as [Hm|Hm].
    + left. apply elem_of_cons in Hm as [->|Hm]; done.
    + right. intros rt'. destruct (m !! n) as [rt0|]; [rewrite lookup_insert_ne by done|]; apply Hm.
Qed.

(** ** Concrete runs

    One automated group of two nodes, on a policy that compares windows of two
    samples; "a" answers in 500 ms and "b" in 10 ms. *)
Definition run_policy : Policy :=
  mkPolicy (p_TestURL DefaultPolicy) SwitchLowestLatency (1 * Minute) (5 * Second) 3 (800 * Millisecond)
    (250 * Millisecond) 2 2 1 2 (100 * Millisecond) (5 * Minute) 0 DefaultStreamURL (5 * Minute).

Definition pair_group (automated : bool) : GroupState :=
  mkGroupState "G" "a" ["a"; "b"] true automated false false zero_time.

Definition readings_at (t : time) : Readings :=
  mkReadings (λ _, t) (λ _, t) (λ _, t) (λ _, 0) t t 0.

Definition answer_at (t latency : Z) : Answer := mkAnswer t (latency * Millisecond) false false.

Definition order_ab (_ : string) : list string := ["a"; "b"].
Definition order_a (_ : string) : list string := ["a"].

(** A whole round of the pair: two sends and the two answers, [known] telling
    which windows exist before the first answer. *)
Definition pair_round (t : time) (known : string → list string) : list label :=
  [LHead (readings_at t); LSend; LHead (readings_at t); LSend; LHead (readings_at t);
   LResult (mkProbeTask "G" "a") (answer_at t 500) t known; LHead (readings_at t);
   LResult (mkProbeTask "G" "b") (answer_at t 10) t order_ab].

Definition first_labels : list label :=
  [LSetGroups [pair_group true]; LRefresh (readings_at (1 * Hour))] ++ pair_round (1 * Hour) order_a ++
  [LRefresh (readings_at (1 * Hour)); LHead (readings_at (1 * Hour + 1)); LTimer].

(** Stops one step before the last answer of the first round. *)
Definition almost_labels : list label :=
  [LSetGroups [pair_group true]; LRefresh (readings_at (1 * Hour))] ++ take 7 (pair_round (1 * Hour) order_a).

Definition state_after (labels : list label) : System := default initial (run run_policy initial labels).

Lemma reachable_after labels :
  is_Some (run run_policy initial labels) → reachable run_policy (state_after labels).
Proof.
  intros [y Hy]. unfold state_after. rewrite Hy. eapply run_reachable; [apply reachable_initial|done].
Qed.

Definition second_round : list label := first_labels ++ pair_round (1 * Hour + 2 * Minute) order_ab.

Lemma reachable_authorized_witness :
  ∃ d, d_Switch d = true ∧ authorized (y_accepted (state_after second_round)) d.
Proof.
  assert (reachable run_policy (state_after second_round)) as Hr
    by (apply reachable_after; vm_compute; eauto).
  destruct (last (y_batches (state_after second_round))) as [b|] eqn:Hb; [|vm_compute in Hb; discriminate].
  destruct (head (b_Decisions b)) as [d|] eqn:Hd.
  - exists d. split.
    + vm_compute in Hb. injection Hb as <-. vm_compute in Hd. injection Hd as <-. reflexivity.
    + apply (reachable_authorized run_policy (state_after second_round) b d); [vm_compute; discriminate|exact Hr| |].
      * apply last_Some in Hb as [l ->]. set_solver.
      * by apply head_Some_elem_of.
  - exfalso. vm_compute in Hb. injection Hb as <-. vm_compute in Hd. discriminate.
Defined.

Lemma round_answered_once_witness :
  let y := state_after almost_labels in
  ∃ y' batch, exec run_policy y (LResult (mkProbeTask "G" "b") (answer_at (1 * Hour) 10) (1 * Hour) order_ab) = Some y' ∧
    y_batches y' = y_batches y ++ [batch] ∧ (task_of <$> b_Samples batch) ≡ₚ y_round y.
Proof.
  cbv zeta. destruct (exec run_policy (state_after almost_labels)
    (LResult (mkProbeTask "G" "b") (answer_at (1 * Hour) 10) (1 * Hour) order_ab)) as [y'|] eqn:Hex;
    [|vm_compute in Hex; discriminate].
  destruct (round_answered_once run_policy (state_after almost_labels) (mkProbeTask "G" "b") (answer_at (1 * Hour) 10)
    (1 * Hour) order_ab y') as (batch & Hb & Hs & _).
  - vm_compute. discriminate.
  - apply reachable_after. vm_compute. eauto.
  - exact Hex.
  - vm_compute in Hex. injection Hex as <-. reflexivity.
  - exists y', batch. split; [reflexivity|]. split; [exact Hb|exact Hs].
Defined.

Lemma round_terminates_witness :
  ∃ before after closed, drop 2 (take 10 first_labels) = before ++ after ∧
    run run_policy (state_after (take 2 first_labels ++ [LHead (readings_at (1 * Hour))])) (tl before) = Some closed.
Proof.
  assert (run run_policy initial (take 2 first_labels ++ [LHead (readings_at (1 * Hour))]) ≠ None) as Hsome
    by (vm_compute; discriminate).
  destruct (round_terminates run_policy (state_after (take 2 first_labels ++ [LHead (readings_at (1 * Hour))])))
    as [_ Hrun].
  - vm_compute. discriminate.
  - apply reachable_after. vm_compute. eauto.
  - vm_compute. reflexivity.
  - destruct (Hrun (tl (drop 2 (take 10 first_labels))) (state_after (take 10 first_labels))) as (before & after & closed & He & Hb & _).
    + vm_compute. reflexivity.
    + vm_compute. discriminate.
    + exists (LHead (readings_at (1 * Hour)) :: before), after, closed. split; [|exact Hb].
      cbn [app]. rewrite <- He. reflexivity.
Defined.

Lemma reachable_histories_witness :
  ∃ rt, lp_runtimes (y_loop (state_after first_labels)) !! "G" = Some rt ∧
    valid_group (gr_state rt) ∧ filed run_policy "G" (gr_history rt).
Proof.
  destruct (lp_runtimes (y_loop (state_after first_labels)) !! "G") as [rt|] eqn:Hl;
    [|vm_compute in Hl; discriminate].
  exists rt. destruct (reachable_histories run_policy (state_after first_labels) "G" rt) as (_ & Hv & Hf).
  - vm_compute. discriminate.
  - apply reachable_after. vm_compute. eauto.
  - exact Hl.
  - split; [reflexivity|]. split; [exact Hv|exact Hf].
Defined.

Lemma stale_round_decides_nothing_witness :
  let y := state_after almost_labels in
  b_Decisions (conclude_round run_policy order_ab 0
    (mkShared None 5 ∅ ∅ ∅ ∅ false) (y_loop y)).2 = [].
Proof.
  cbv zeta.
  destruct (stale_round_decides_nothing run_policy order_ab 0 (mkShared None 5 ∅ ∅ ∅ ∅ false)
    (y_loop (state_after almost_labels))) as [H _]; [vm_compute; discriminate|].
  rewrite H. reflexivity.
Defined.

(** Before the second round, and after [refresh], automation is switched off. *)
Definition disabled_labels : list label :=
  [LSetGroups [pair_group true]; LRefresh (readings_at (1 * Hour))] ++ pair_round (1 * Hour) order_a ++
  [LRefresh (readings_at (1 * Hour + 2 * Minute)); LSetGroups [pair_group false]].

Definition race_start : System := state_after disabled_labels.
Definition race_end : System :=
  default initial (run run_policy race_start (pair_round (1 * Hour + 2 * Minute) order_ab)).
Definition race_batch : Batch := default (mkBatch 0 [] [] [] [] [] []) (last (y_batches race_end)).
Definition race_decision : Decision :=
  default (stay (pair_group true) "" []) (head (b_Decisions race_batch)).

(** C29: the generation does not cover the copy of the groups.  [refresh] copies
    the groups in one critical section and the loop head reads the generation in
    another; a [SetGroups] between the two makes a round on the old groups pass
    for current.  From a reachable state with no round open and no group
    automated, without any further [SetGroups], the loop hands out a batch that
    decides a switch. *)
Theorem generation_race :
  ∃ y y' labels b d,
    reachable run_policy y ∧ active y = false ∧
    (∀ g, g ∈ current_groups (y_shared y) → g_AutomationEnabled g = false) ∧
    (∀ a, a ∈ labels → match a with LSetGroups _ => False | _ => True end) ∧
    run run_policy y labels = Some y' ∧ y_batches y' = y_batches y ++ [b] ∧
    d ∈ b_Decisions b ∧ d_Switch d = true.
Proof.
  exists race_start, race_end, (pair_round (1 * Hour + 2 * Minute) order_ab), race_batch, race_decision.
  split_and!.
  - apply reachable_after. vm_compute. eauto.
  - vm_compute. reflexivity.
  - intros g Hg. vm_compute in Hg. apply list_elem_of_singleton in Hg as ->. reflexivity.
  - intros a Ha. repeat (apply elem_of_cons in Ha as [->|Ha]; [exact I|]). by apply not_elem_of_nil in Ha.
  - vm_compute. reflexivity.
  - vm_compute. reflexivity.
  - vm_compute. left.
  - vm_compute. reflexivity.
Qed.
