(* ===== verification/GoPath.v ===== *)
(** * Package [path/filepath] with a slash as separator

    [Clean], [Join], [Dir], [Base] and [IsAbs] as their documentation defines
    them on Unix, on byte lists. *)
From Stdlib Require Import Ascii.
From S2P Require Import Prelude GoStrings.
Open Scope Z_scope.

Definition slash : ascii := byte 47.
Definition dot : list ascii := [byte 46].
Definition dotdot : list ascii := [byte 46; byte 46].

Definition is_rooted (l : list ascii) : bool :=
  match l with c :: _ => bool_decide (c = slash) | [] => false end.

Definition filepath_is_abs (path : string) : bool := is_rooted (bytes_of path).

(** One path element against the elements kept so far, last first. *)
Definition clean_step (rooted : bool) (kept : list (list ascii)) (element : list ascii) : list (list ascii) :=
  if bool_decide (element = []) || bool_decide (element = dot) then kept
  else if bool_decide (element = dotdot) then
    match kept with
    | [] => if rooted then [] else [dotdot]
    | last :: rest => if bool_decide (last = dotdot) then dotdot :: kept else rest
    end
  else element :: kept.

Definition clean_bytes (l : list ascii) : list ascii :=
  let rooted := is_rooted l in
  let elements := rev (foldl (clean_step rooted) [] (split_bytes slash l)) in
  match rooted, elements with
  | true, _ => slash :: join_bytes [slash] elements
  | false, [] => dot
  | false, _ => join_bytes [slash] elements
  end.

Definition filepath_clean (path : string) : string := of_bytes (clean_bytes (bytes_of path)).

(** [Join] drops empty elements and cleans the rest. *)
Definition filepath_join (elements : list string) : string :=
  match filter (λ s, s ≠ "") elements with
  | [] => ""
  | kept => filepath_clean (join kept "/")
  end.

Fixpoint strip_slashes (r : list ascii) : list ascii :=
  match r with c :: r' => if bool_decide (c = slash) then strip_slashes r' else r | [] => [] end.
Fixpoint until_slash (r : list ascii) : list ascii :=
  match r with c :: r' => if bool_decide (c = slash) then [] else c :: until_slash r' | [] => [] end.
Fixpoint from_slash (r : list ascii) : list ascii :=
  match r with c :: r' => if bool_decide (c = slash) then r else from_slash r' | [] => [] end.

(** The element after the last slash, trailing slashes removed first. *)
Definition filepath_base (path : string) : string :=
  if streq path "" then "." else
  match rev (until_slash (strip_slashes (rev (bytes_of path)))) with
  | [] => "/"
  | l => of_bytes l
  end.

(** Everything up to and including the last slash, cleaned. *)
Definition filepath_dir (path : string) : string :=
  of_bytes (clean_bytes (rev (from_slash (rev (bytes_of path))))).

(** [filepath.Ext]: the suffix from the last dot of the last element. *)
Fixpoint ext_rev (r acc : list ascii) : list ascii :=
  match r with
  | [] => []
  | c :: r =>
      if bool_decide (c = slash) then []
      else if bool_decide (c = byte 46) then c :: acc else ext_rev r (c :: acc)
  end.
Definition filepath_ext (path : string) : string := of_bytes (ext_rev (rev (bytes_of path)) []).

(** An element without a slash that [Clean] leaves alone. *)
Definition plain_element (l : list ascii) : bool :=
  negb (bool_decide (l = [])) && negb (bool_decide (l = dot)) && negb (bool_decide (l = dotdot)) &&
  forallb (λ c, negb (bool_decide (c = slash))) l.

Lemma until_slash_plain l k : forallb (λ c, negb (bool_decide (c = slash))) l = true →
  until_slash (l ++ slash :: k) = l.
Proof.
  induction l as [|c l IH]; cbn [forallb app until_slash]; [by rewrite bool_decide_true|].
  intros [Hc Hl]%andb_true_iff. go_bool. rewrite bool_decide_false by done. by rewrite IH.
Qed.

Lemma from_slash_plain l k : forallb (λ c, negb (bool_decide (c = slash))) l = true →
  from_slash (l ++ slash :: k) = slash :: k.
Proof.
  induction l as [|c l IH]; cbn [forallb app from_slash]; [by rewrite bool_decide_true|].
  intros [Hc Hl]%andb_true_iff. go_bool. rewrite bool_decide_false by done. by apply IH.
Qed.

Lemma forallb_rev {A} (f : A → bool) l : forallb f (rev l) = forallb f l.
Proof.
  induction l as [|x l IH]; cbn; [done|]. rewrite forallb_app, IH. cbn. rewrite andb_true_r. apply andb_comm.
Qed.
