(* ===== verification/ConfigTypes.v ===== *)
(** * config/types.go and the identifier grammars of config/load.go

    The configuration snapshot as Go declares it; the Go string types
    ([ResourceKind], [ResourceFormat], [RuleType]) stay strings, since the file
    decoder can produce any value.  [core.validResourceID] is here beside the
    grammar it repeats. *)
From Stdlib Require Import Ascii.
From S2P Require Import Prelude GoTime GoStrings MonitorModel.
Open Scope Z_scope.
Open Scope go_scope.

Record Mihomo := mkMihomo {
  mh_Binary : string;
  mh_URLTestInterval : duration;
  mh_URLTestTolerance : duration;
  mh_MixedPort : Z;
  mh_Mode : string
}.

Record Monitor := mkMonitor {
  m_Enabled : bool;
  m_TestURL : string;
  m_SwitchPolicy : string;
  m_StreamURL : string;
  m_StreamInterval : duration;
  m_Interval : duration;
  m_Timeout : duration;
  m_Concurrency : Z;
  m_Threshold : duration;
  m_AlertThreshold : duration;
  m_ConsecutiveBadSamples : Z;
  m_WindowSize : Z;
  m_MinCandidateSamples : Z;
  m_MaxFailures : Z;
  m_MinImprovement : duration;
  m_Cooldown : duration;
  m_Jitter : duration;
  m_AutomatedGroups : list string
}.

Record Tun := mkTun { tn_Enabled : bool; tn_Stack : string; tn_DNSMode : string }.

Record Subscription := mkSubscription {
  sb_ID : string;
  sb_Name : string;
  sb_URL : string;
  sb_UserAgent : string;
  sb_Enabled : bool;
  sb_RefreshInterval : duration;
  sb_Timeout : duration;
  sb_Route : string;
  sb_AllowHTTP : bool;
  sb_AllowInvalidTLS : bool
}.

Definition ResourceGeoIP : string := "geoip.dat".
Definition ResourceGeoSite : string := "geosite.dat".
Definition ResourceMMDB : string := "Country.mmdb".
Definition ResourceRuleSet : string := "rule-set".
Definition ResourceRuleProvider : string := "rule-provider".

Definition FormatDAT : string := "dat".
Definition FormatMMDB : string := "mmdb".
Definition FormatYAML : string := "yaml".
Definition FormatText : string := "text".
Definition FormatMRS : string := "mrs".

Definition RuleDomain : string := "domain".
Definition RuleIPCIDR : string := "ipcidr".
Definition RuleClassical : string := "classical".

Record Resource := mkResource {
  r_ID : string;
  r_Kind : string;
  r_Format : string;
  r_RuleType : string;
  r_URL : string;
  r_Enabled : bool;
  r_Interval : duration;
  r_SHA256 : string
}.

Record ResolverSet := mkResolverSet { rs_ID : string; rs_Endpoints : list string; rs_DNSCrypt : bool }.

Record DNSRoute := mkDNSRoute {
  dr_Suffix : string;
  dr_GeoSite : string;
  dr_Resource : string;
  dr_ResolverSet : string
}.

Record DNS := mkDNS { dn_Listen : string; dn_ResolverSets : list ResolverSet; dn_Routes : list DNSRoute }.

Record Filter := mkFilter {
  fl_ID : string;
  fl_Resource : string;
  fl_Format : string;
  fl_Target : string;
  fl_Enabled : bool
}.

Record Snapshot := mkSnapshot {
  cs_SystemProxy : bool;
  cs_Mihomo : Mihomo;
  cs_Monitor : Monitor;
  cs_DNS : DNS;
  cs_Tun : Tun;
  cs_Subscriptions : list Subscription;
  cs_Resources : list Resource;
  cs_Filters : list Filter
}.

(** ** Identifier grammars *)
Definition is_id_punct (c : ascii) : bool :=
  (code c =? 45) || (code c =? 95) || (code c =? 46).

(** [for i, r := range id]: [first] holds at [i == 0]. *)
Fixpoint stable_chars (first : bool) (l : list ascii) : bool :=
  match l with
  | [] => true
  | c :: l => (is_alnum c || (negb first && is_id_punct c)) && stable_chars false l
  end.

Definition ValidStableID (id : string) : bool :=
  if (slen id =? 0) || (64 <? slen id) || streq id "." || streq id ".." then false
  else stable_chars true (bytes_of id).

(** core/activation.go *)
Definition validResourceID (id : string) : bool :=
  if (slen id =? 0) || (64 <? slen id) then false else stable_chars true (bytes_of id).

Definition ValidRuleToken (value : string) : bool :=
  negb (streq value "") &&
  forallb (λ c, is_alnum c || (code c =? 45) || (code c =? 95)) (bytes_of value).

Definition valid_label (label : string) : bool :=
  match bytes_of label with
  | [] => false
  | first :: _ as l =>
      negb (63 <? len l) && negb (code first =? 45) &&
      negb (match last l with Some c => code c =? 45 | None => false end) &&
      forallb (λ c, is_alnum c || (code c =? 45)) l
  end.

Definition ValidDomain (value : string) : bool :=
  let value := trim_suffix (trim_prefix value ".") "." in
  if (slen value =? 0) || (253 <? slen value) then false
  else forallb valid_label (split value (byte 46)).

Definition validPort (port : string) : bool :=
  match atoi port with Some n => (0 <? n) && (n <=? 65535) | None => false end.

Definition ValidSubscriptionUserAgent (value : string) : bool :=
  if 256 <? slen value then false
  else forallb (in_range 32 126) (bytes_of value).

(** [uniqueID], with the map of IDs seen as a set. *)
Definition uniqueID (seen : gset string) (id : string) : result string (gset string) :=
  fail_if bool_decide (id ∈ seen) with "duplicate id";
  Ok ({[id]} ∪ seen).

Lemma ValidStableID_resource id : ValidStableID id = validResourceID id.
Proof.
  unfold ValidStableID, validResourceID. destruct ((slen id =? 0) || (64 <? slen id)) eqn:Hlen; [done|]. cbn [orb].
  destruct (streq id ".") eqn:H1; [apply streq_true in H1 as ->; by vm_compute|].
  destruct (streq id "..") eqn:H2; [apply streq_true in H2 as ->; by vm_compute|]. done.
Qed.
