(* ===== verification/ConfigValidate.v ===== *)
(** * config/load.go: defaults and validation of a configuration snapshot

    [applyDefaults] and [validateSnapshot] with every helper.  Parsers of URLs
    and addresses come from [GoNet]; [stat] answers [os.Stat] for the binary. *)
From S2P Require Import Prelude GoTime GoStrings GoNet MonitorModel ConfigTypes.
Open Scope Z_scope.
Open Scope go_scope.

Definition maxMonitorConcurrency : Z := 64.
Definition maxMonitorInterval : duration := 24 * Hour.

Definition ProxyModes : list string := ["rule"; "global"; "direct"].
Definition TunStacks : list string := ["gvisor"; "mixed"; "system"].
Definition TunDNSModes : list string := ["profile"; "fake-ip"; "redir-host"].
Definition MixedPortMin : Z := 1024.
Definition MixedPortMax : Z := 65535.

(** download.Routes *)
Definition Routes : list string := ["auto"; "direct"; "system_proxy"; "mihomo_proxy"].
Definition ValidRoute (name : string) : bool := str_in name Routes.

Definition resourceKinds : list string :=
  [ResourceGeoIP; ResourceGeoSite; ResourceMMDB; ResourceRuleProvider; ResourceRuleSet].
Definition ruleFormats : list string := [FormatYAML; FormatText; FormatMRS].

(** ** Defaults *)
Definition or_string (s d : string) : string := if streq s "" then d else s.
Definition or_int (n d : Z) : Z := if n =? 0 then d else n.

Definition default_monitor (m : Monitor) : Monitor :=
  let interval := or_int (m_Interval m) Minute in
  let window := or_int (m_WindowSize m) 5 in
  mkMonitor (m_Enabled m) (or_string (m_TestURL m) "http://cp.cloudflare.com/generate_204")
    (or_string (m_SwitchPolicy m) (p_SwitchPolicy DefaultPolicy))
    (or_string (m_StreamURL m) DefaultStreamURL)
    (or_int (m_StreamInterval m) (p_StreamInterval DefaultPolicy)) interval
    (or_int (m_Timeout m) (if interval <? 5 * Second then interval else 5 * Second))
    (or_int (m_Concurrency m) 3) (or_int (m_Threshold m) (800 * Millisecond))
    (or_int (m_AlertThreshold m) (250 * Millisecond))
    (or_int (m_ConsecutiveBadSamples m) (Z.min 3 window)) window
    (or_int (m_MinCandidateSamples m) (Z.min 3 window))
    (or_int (m_MaxFailures m) (Z.min 2 window)) (or_int (m_MinImprovement m) (100 * Millisecond))
    (m_Cooldown m) (m_Jitter m) (m_AutomatedGroups m).

Definition default_subscription (s : Subscription) : Subscription :=
  mkSubscription (sb_ID s) (or_string (sb_Name s) (sb_ID s)) (sb_URL s) (sb_UserAgent s) (sb_Enabled s)
    (or_int (sb_RefreshInterval s) (12 * Hour)) (or_int (sb_Timeout s) (30 * Second))
    (or_string (sb_Route s) "auto") (sb_AllowHTTP s) (sb_AllowInvalidTLS s).

Definition default_resource (r : Resource) : Resource :=
  mkResource (r_ID r) (r_Kind r) (r_Format r) (r_RuleType r) (r_URL r) (r_Enabled r)
    (or_int (r_Interval r) (12 * Hour)) (r_SHA256 r).

Definition applyDefaults (s : Snapshot) : Snapshot :=
  let mh := cs_Mihomo s in
  mkSnapshot (cs_SystemProxy s)
    (mkMihomo (or_string (mh_Binary mh) "system") (mh_URLTestInterval mh) (mh_URLTestTolerance mh)
       (mh_MixedPort mh) (mh_Mode mh))
    (default_monitor (cs_Monitor s))
    (mkDNS (or_string (dn_Listen (cs_DNS s)) "127.0.0.1:1053") (dn_ResolverSets (cs_DNS s)) (dn_Routes (cs_DNS s)))
    (cs_Tun s) (default_subscription <$> cs_Subscriptions s) (default_resource <$> cs_Resources s) (cs_Filters s).

(** ** Sections without parsers *)
Definition validateMihomo (m : Mihomo) : result string unit :=
  fail_if (0 <? mh_URLTestInterval m) &&
          ((mh_URLTestInterval m <? Second) || (maxMonitorInterval <? mh_URLTestInterval m))
    with "config.toml: mihomo.url_test_interval: must be between one second and 24 hours";
  fail_if (0 <? mh_URLTestTolerance m) &&
          ((mh_URLTestTolerance m <? Millisecond) || (Minute <? mh_URLTestTolerance m))
    with "config.toml: mihomo.url_test_tolerance: must be between one millisecond and one minute";
  fail_if negb (str_in (mh_Mode m) ProxyModes) with "config.toml: mihomo.mode";
  fail_if (mh_MixedPort m <? MixedPortMin) || (MixedPortMax <? mh_MixedPort m)
    with "config.toml: mihomo.mixed_port";
  Ok tt.

Definition validateTun (t : Tun) : result string unit :=
  fail_if negb (str_in (tn_Stack t) TunStacks) with "config.toml: tun.stack";
  fail_if negb (str_in (tn_DNSMode t) TunDNSModes) with "config.toml: tun.dns_mode";
  Ok tt.

Definition validateResourceFormat (r : Resource) : result string unit :=
  if streq (r_Kind r) ResourceGeoIP || streq (r_Kind r) ResourceGeoSite then
    fail_if negb (streq (r_Format r) FormatDAT) with "kind requires format dat";
    fail_if negb (streq (r_RuleType r) "") with "kind does not accept rule_type";
    Ok tt
  else if streq (r_Kind r) ResourceMMDB then
    fail_if negb (streq (r_Format r) FormatMMDB) with "kind requires format mmdb";
    fail_if negb (streq (r_RuleType r) "") with "kind does not accept rule_type";
    Ok tt
  else if streq (r_Kind r) ResourceRuleSet || streq (r_Kind r) ResourceRuleProvider then
    fail_if negb (str_in (r_Format r) ruleFormats) with "kind requires format yaml, text, or mrs";
    if streq (r_RuleType r) RuleDomain || streq (r_RuleType r) RuleIPCIDR then Ok tt
    else if streq (r_RuleType r) RuleClassical then
      fail_if streq (r_Format r) FormatMRS with "kind cannot use mrs format with classical rules";
      Ok tt
    else Err "kind requires rule_type domain, ipcidr, or classical"
  else Err "unknown kind".

(** [monitor.automated_groups]: lower-case SHA-256 names, without repetition. *)
Definition check_automated (seen : gset string) (id : string) : result string (gset string) :=
  fail_if negb (slen id =? 64) || negb (streq (to_lower id) id)
    with "config.toml: monitor.automated_groups: invalid group identity";
  fail_if negb (hex_decodes id) || bool_decide (id ∈ seen)
    with "config.toml: monitor.automated_groups: invalid or duplicate group identity";
  Ok ({[id]} ∪ seen).

Section parsers.
Context `{GoNet}.

Definition validateMonitorTestURL (raw : string) : result string unit :=
  match url_parse raw with
  | None => Err "parse"
  | Some u =>
      fail_if contains_any raw forbidden_url_chars || u_User u || negb (streq (u_Fragment u) "") ||
              negb (streq (u_Opaque u) "") || streq (u_Host u) "" ||
              (negb (streq (u_Scheme u) "http") && negb (streq (u_Scheme u) "https"))
        with "must use an HTTP or HTTPS URL without credentials or fragment";
      Ok tt
  end.

Definition validateMonitor (m : Monitor) : result string unit :=
  fail_if negb (is_ok (validateMonitorTestURL (m_TestURL m))) with "config.toml: monitor.test_url";
  fail_if negb (ValidPolicyName (m_SwitchPolicy m)) with "config.toml: monitor.switch_policy";
  fail_if negb (is_ok (ValidStreamURL (m_StreamURL m))) with "config.toml: monitor.stream_url";
  fail_if (m_StreamInterval m <? MinStreamInterval) || (maxMonitorInterval <? m_StreamInterval m)
    with "config.toml: monitor.stream_interval";
  fail_if (m_Interval m <? Second) || (maxMonitorInterval <? m_Interval m) with "config.toml: monitor.interval";
  fail_if (m_Timeout m <=? 0) || (m_Interval m <? m_Timeout m) with "config.toml: monitor.timeout";
  fail_if (m_Concurrency m <? 1) || (maxMonitorConcurrency <? m_Concurrency m) with "config.toml: monitor.concurrency";
  fail_if m_Threshold m <=? 0 with "config.toml: monitor.threshold";
  fail_if m_AlertThreshold m <=? 0 with "config.toml: monitor.alert_threshold";
  fail_if (m_WindowSize m <? MonitorWindowMin) || (MonitorWindowMax <? m_WindowSize m)
    with "config.toml: monitor.window_size";
  fail_if (m_ConsecutiveBadSamples m <? 1) || (m_WindowSize m <? m_ConsecutiveBadSamples m)
    with "config.toml: monitor.consecutive_bad_samples";
  fail_if (m_MinCandidateSamples m <? MonitorWindowMin) || (m_WindowSize m <? m_MinCandidateSamples m)
    with "config.toml: monitor.min_candidate_samples";
  fail_if (m_MaxFailures m <? 1) || (m_WindowSize m <? m_MaxFailures m) with "config.toml: monitor.max_failures";
  fail_if m_MinImprovement m <=? 0 with "config.toml: monitor.min_improvement";
  fail_if m_Cooldown m <? 0 with "config.toml: monitor.cooldown";
  fail_if (m_Jitter m <? 0) || (m_Interval m <=? m_Jitter m) with "config.toml: monitor.jitter";
  match fold_each check_automated ∅ (m_AutomatedGroups m) with
  | Err e => Err e
  | Ok _ => Ok tt
  end.

Definition validateDNS (d : DNS) : result string unit :=
  fail_if streq (dn_Listen d) "" with "config.toml: dns.listen: required";
  match split_host_port (dn_Listen d) with
  | None => Err "config.toml: dns.listen: must be a loopback host and valid port"
  | Some (host, port) =>
      fail_if negb (match parse_ip host with Some ip => ip_IsLoopback ip | None => false end) ||
              negb (validPort port)
        with "config.toml: dns.listen: must be a loopback host and valid port";
      Ok tt
  end.

(** [strconv.Itoa] of [strconv.Atoi]; the code only reaches it with a valid
    port, so the value taken for a rejected one does not matter. *)
Definition canonical_port (port : string) : string := itoa (default 0 (atoi port)).

(** Host, port and scheme. *)
Definition parseResolverEndpoint (raw : string) : result string (string * string * string) :=
  if negb (contains raw "://") then
    match split_host_port raw with
    | None => Err "invalid endpoint"
    | Some (host, port) =>
        fail_if streq host "" || negb (validPort port) with "invalid endpoint";
        Ok (host, canonical_port port, "udp")
    end
  else
    match url_parse raw with
    | None => Err "invalid endpoint"
    | Some u =>
        fail_if u_User u || streq (u_Host u) "" || negb (streq (u_Opaque u) "") with "invalid endpoint";
        let scheme := to_lower (u_Scheme u) in
        fail_if negb (str_in scheme ["udp"; "tcp"; "tls"; "https"; "quic"]) with "unsupported endpoint scheme";
        let host := url_hostname u in
        fail_if streq host "" with "invalid endpoint";
        let port := if streq (url_port u) "" then
                      if streq scheme "https" then "443"
                      else if streq scheme "tls" || streq scheme "quic" then "853" else "53"
                    else url_port u in
        fail_if negb (validPort port) with "invalid endpoint port";
        fail_if negb (streq scheme "https") && negb (streq (u_Path u) "") && negb (streq (u_Path u) "/")
          with "unexpected endpoint path";
        Ok (host, canonical_port port, scheme)
    end.

Definition isLoopbackHost (host : string) : bool :=
  equal_fold "localhost" host || match parse_ip host with Some ip => ip_IsLoopback ip | None => false end.
Definition isLocalListenHost (host : string) : bool :=
  match parse_ip host with Some ip => ip_IsLoopback ip || ip_IsUnspecified ip | None => false end.

Definition validateSubscriptionURL (raw : string) (allowHTTP : bool) : result string unit :=
  match url_parse raw with
  | None => Err "parse"
  | Some u =>
      fail_if u_User u with "userinfo not allowed";
      if streq (u_Scheme u) "https" then
        fail_if streq (u_Host u) "" || negb (streq (u_Opaque u) "") with "must use https";
        Ok tt
      else if allowHTTP && streq (u_Scheme u) "http" && negb (streq (u_Host u) "") && streq (u_Opaque u) ""
      then Ok tt else Err "must use https"
  end.

(** [filepath.IsAbs] where the separator is a slash. *)
Definition is_abs (path : string) : bool := has_prefix path "/".

Definition validateSourceOrPath (raw : string) (allowPath : bool) : result string unit :=
  if allowPath && is_abs raw then Ok tt else
  match url_parse raw with
  | None => Err "parse"
  | Some u =>
      fail_if streq (u_Scheme u) "" with "must use https or an absolute local path";
      fail_if u_User u with "userinfo not allowed";
      fail_if negb (streq (u_Scheme u) "https") || streq (u_Host u) "" || negb (streq (u_Opaque u) "")
        with "must use https";
      Ok tt
  end.

(** What [os.Stat] reports: whether the file is regular and executable. *)
Context (stat : string → option (bool * bool)).

Definition validateMihomoBinary (binary : string) : result string unit :=
  if streq binary "system" || streq binary "bundled" then Ok tt else
  fail_if streq binary "" with "config.toml: mihomo.binary: required";
  fail_if contains binary "://" with "config.toml: mihomo.binary: invalid binary";
  fail_if negb (contains_any binary "/\") with "config.toml: mihomo.binary: unsupported binary";
  match stat binary with
  | None => Err "config.toml: mihomo.binary: stat"
  | Some (regular, executable) =>
      fail_if negb regular || negb executable with "config.toml: mihomo.binary: not executable";
      Ok tt
  end.

(** ** The snapshot, list by list; each loop threads the IDs seen *)
Definition check_subscription (ids : gset string) (item : Subscription) : result string (gset string) :=
  fail_if negb (ValidStableID (sb_ID item)) with "subscriptions.toml: subscription.id: invalid stable ID";
  fail_if streq (sb_URL item) "" with "subscriptions.toml: subscription.url: required";
  match uniqueID ids (sb_ID item) with
  | Err e => Err e
  | Ok ids =>
      fail_if negb (is_ok (validateSubscriptionURL (sb_URL item) (sb_AllowHTTP item)))
        with "subscriptions.toml: subscription.url";
      fail_if negb (ValidSubscriptionUserAgent (sb_UserAgent item)) with "subscriptions.toml: subscription.user_agent";
      fail_if negb (streq (sb_Route item) "") && negb (ValidRoute (sb_Route item))
        with "subscriptions.toml: subscription.route: unknown route";
      Ok ids
  end.

Definition is_geo (kind : string) : bool :=
  streq kind ResourceGeoIP || streq kind ResourceGeoSite || streq kind ResourceMMDB.

(** IDs, the geodata kinds taken, and the resources by ID. *)
Definition check_resource (acc : gset string * gset string * gmap string Resource) (item : Resource)
    : result string (gset string * gset string * gmap string Resource) :=
  let '(ids, geo, byID) := acc in
  fail_if negb (ValidStableID (r_ID item)) with "resources.toml: resource.id: invalid stable ID";
  fail_if streq (r_URL item) "" with "resources.toml: resource.url: required";
  match uniqueID ids (r_ID item) with
  | Err e => Err e
  | Ok ids =>
      fail_if negb (str_in (r_Kind item) resourceKinds) with "resources.toml: resource.kind: unknown kind";
      fail_if negb (is_ok (validateResourceFormat item)) with "resources.toml: resource.format";
      fail_if negb (is_ok (validateSourceOrPath (r_URL item) true)) with "resources.toml: resource.url";
      fail_if r_Interval item <=? 0 with "resources.toml: resource.interval: must be positive";
      fail_if negb (streq (r_SHA256 item) "") && negb (slen (r_SHA256 item) =? 64)
        with "resources.toml: resource.sha256: must be 64 hexadecimal characters";
      fail_if negb (streq (r_SHA256 item) "") && negb (hex_decodes (r_SHA256 item))
        with "resources.toml: resource.sha256: must be hexadecimal";
      fail_if is_geo (r_Kind item) && bool_decide (r_Kind item ∈ geo) with "resources.toml: resource.kind: both target";
      Ok (ids, if is_geo (r_Kind item) then {[r_Kind item]} ∪ geo else geo, <[r_ID item := item]> byID)
  end.

Definition check_resolver_set (ids : gset string) (set : ResolverSet) : result string (gset string) :=
  fail_if negb (ValidStableID (rs_ID set)) with "resources.toml: resolver_set.id: invalid stable ID";
  fail_if len (rs_Endpoints set) =? 0 with "resources.toml: resolver_set.endpoints: required";
  match uniqueID ids (rs_ID set) with
  | Err e => Err e
  | Ok ids =>
      match each (λ raw, match parseResolverEndpoint raw with Ok _ => Ok tt | Err e => Err e end)
              (rs_Endpoints set) with
      | Err e => Err e
      | Ok _ => Ok ids
      end
  end.

(** The second pass over the endpoints, with the listen address split. *)
Definition check_endpoint (listenHost listenPort : string) (dnscrypt : bool) (raw : string) : result string unit :=
  match parseResolverEndpoint raw with
  | Err e => Err e
  | Ok (host, port, scheme) =>
      fail_if dnscrypt && (negb (isLoopbackHost host) || (negb (streq scheme "udp") && negb (streq scheme "tcp")))
        with "resources.toml: resolver_set.dnscrypt: listener must be a loopback UDP or TCP endpoint";
      fail_if streq port listenPort && isLoopbackHost host && isLocalListenHost listenHost
        with "resources.toml: resolver_set.endpoints: endpoint loops back to dns.listen";
      Ok tt
  end.

Definition check_route (byID : gmap string Resource) (sets : gset string) (route : DNSRoute) : result string unit :=
  fail_if streq (dr_ResolverSet route) "" with "resources.toml: dns_route.resolver_set: required";
  let given s := if negb (streq s "") then 1 else 0 in
  fail_if negb (streq (dr_Suffix route) "") && negb (ValidDomain (dr_Suffix route))
    with "resources.toml: dns_route.suffix: invalid domain";
  fail_if negb (streq (dr_GeoSite route) "") && negb (ValidRuleToken (dr_GeoSite route))
    with "resources.toml: dns_route.geosite: invalid selector";
  fail_if negb (streq (dr_Resource route) "") &&
          negb (match byID !! dr_Resource route with
                | Some r => streq (r_Kind r) ResourceRuleSet && streq (r_RuleType r) RuleDomain && r_Enabled r
                | None => false
                end)
    with "resources.toml: dns_route.resource: must reference an enabled domain rule-set resource";
  fail_if negb (given (dr_Suffix route) + given (dr_GeoSite route) + given (dr_Resource route) =? 1)
    with "resources.toml: dns_route: specify exactly one of suffix, geosite, or domain rule-set resource";
  fail_if negb (bool_decide (dr_ResolverSet route ∈ sets))
    with "resources.toml: dns_route.resolver_set: unknown resolver set";
  Ok tt.

(** The bytes [,], CR, LF, TAB and NUL. *)
Definition forbidden_target_chars : string := of_bytes [byte 44; byte 13; byte 10; byte 9; byte 0].
Definition validTarget (target : string) : bool :=
  negb (streq target "") && streq (trim_space target) target && negb (contains_any target forbidden_target_chars).

Definition check_filter (byID : gmap string Resource) (ids : gset string) (filter : Filter)
    : result string (gset string) :=
  fail_if negb (ValidStableID (fl_ID filter)) with "filters.toml: filter.id: invalid stable ID";
  fail_if streq (fl_Resource filter) "" with "filters.toml: filter.resource: required";
  fail_if negb (validTarget (fl_Target filter)) with "filters.toml: filter.target";
  match uniqueID ids (fl_ID filter) with
  | Err e => Err e
  | Ok ids =>
      match byID !! fl_Resource filter with
      | None => Err "filters.toml: filter.resource: is not a rule resource"
      | Some resource =>
          fail_if negb (streq (r_Kind resource) ResourceRuleProvider) && negb (streq (r_Kind resource) ResourceRuleSet)
            with "filters.toml: filter.resource: is not a rule resource";
          fail_if streq (fl_Format filter) "" with "filters.toml: filter.format: required";
          fail_if negb (str_in (fl_Format filter) ruleFormats) || negb (streq (fl_Format filter) (r_Format resource))
            with "filters.toml: filter.format: must match resource format";
          fail_if fl_Enabled filter && negb (r_Enabled resource)
            with "filters.toml: filter.resource: enabled filter references disabled resource";
          Ok ids
      end
  end.

Definition listen_parts (listen : string) : string * string :=
  match split_host_port listen with
  | Some (host, port) => (host, canonical_port port)
  | None => ("", canonical_port "")
  end.

Definition validateSnapshot (s : Snapshot) : result string unit :=
  validateMihomoBinary (mh_Binary (cs_Mihomo s)) ≫= λ _,
  validateMonitor (cs_Monitor s) ≫= λ _,
  validateMihomo (cs_Mihomo s) ≫= λ _,
  validateDNS (cs_DNS s) ≫= λ _,
  validateTun (cs_Tun s) ≫= λ _,
  fold_each check_subscription ∅ (cs_Subscriptions s) ≫= λ _,
  fold_each check_resource (∅, ∅, ∅) (cs_Resources s) ≫= λ resources,
  fold_each check_resolver_set ∅ (dn_ResolverSets (cs_DNS s)) ≫= λ sets,
  let '(listenHost, listenPort) := listen_parts (dn_Listen (cs_DNS s)) in
  each (λ set, each (check_endpoint listenHost listenPort (rs_DNSCrypt set)) (rs_Endpoints set))
    (dn_ResolverSets (cs_DNS s)) ≫= λ _,
  each (check_route resources.2 sets) (dn_Routes (cs_DNS s)) ≫= λ _,
  fold_each (check_filter resources.2) ∅ (cs_Filters s) ≫= λ _,
  Ok tt.
End parsers.
