(* ===== verification/ConfigFacts.v ===== *)
(** * Correctness of config/load.go

    What a validated configuration satisfies, what the defaults complete, and
    that the monitor section always yields a valid monitor policy. *)
From S2P Require Import Prelude GoTime GoStrings GoNet MonitorModel ConfigTypes ConfigValidate.
Open Scope Z_scope.
Open Scope go_scope.

(** app/lifecycle.go: the policy the scheduler is started with. *)
Definition monitorPolicy (m : Monitor) : Policy :=
  mkPolicy (m_TestURL m) (m_SwitchPolicy m) (m_Interval m) (m_Timeout m) (m_Concurrency m) (m_Threshold m)
    (m_AlertThreshold m) (m_WindowSize m) (m_MinCandidateSamples m) (m_ConsecutiveBadSamples m)
    (m_MaxFailures m) (m_MinImprovement m) (m_Cooldown m) (m_Jitter m) (m_StreamURL m) (m_StreamInterval m).

Lemma uniqueID_ok ids id ids' : uniqueID ids id = Ok ids' → (id ∉ ids) ∧ ids' = {[id]} ∪ ids.
Proof. unfold uniqueID. case_match; [done|]. intros [= <-]. by go_bool. Qed.

Section facts.
Context `{GoNet}.

(** ** The monitor section *)
Lemma test_url_policy raw : is_ok (validateMonitorTestURL raw) = true →
  match url_parse raw with
  | None => true
  | Some parsed =>
      contains_any raw forbidden_url_chars ||
      (negb (streq (u_Scheme parsed) "http") && negb (streq (u_Scheme parsed) "https")) ||
      streq (u_Host parsed) "" || u_User parsed ||
      negb (streq (u_Fragment parsed) "") || negb (streq (u_Opaque parsed) "")
  end = false.
Proof.
  unfold validateMonitorTestURL. destruct (url_parse raw) as [u|]; [|done]. cbn.
  destruct (contains_any _ _), (u_User u), (negb (streq (u_Fragment u) "")), (negb (streq (u_Opaque u) "")),
    (streq (u_Host u) ""), (negb (streq (u_Scheme u) "http") && _); done.
Qed.

Lemma validateMonitor_policy m : validateMonitor m = Ok tt → Validate (monitorPolicy m) = Ok tt.
Proof.
  unfold validateMonitor, Validate, monitorPolicy, maxMonitorConcurrency, maxMonitorInterval.
  cbn [p_TestURL p_SwitchPolicy p_Interval p_Timeout p_Concurrency p_Threshold p_LatencyAlertThreshold p_WindowSize
    p_MinCandidateSamples p_ConsecutiveBadSamples p_MaxFailures p_MinImprovement p_Cooldown p_Jitter p_StreamURL
    p_StreamInterval].
  destruct (negb (is_ok (validateMonitorTestURL _))) eqn:Hurl; [done|]. go_bool.
  rewrite (test_url_policy _ Hurl). destruct (negb (ValidPolicyName _)); [done|].
  destruct (negb (is_ok (ValidStreamURL _))) eqn:Hs; [done|]. rewrite andb_false_r.
  destruct (_ || (24 * Hour <? m_StreamInterval m)) eqn:Hsi; [done|]. rewrite andb_false_r.
  intros Hm. repeat case_match; try done; exfalso; go_bool;
    repeat match goal with Ho : (_ || _)%bool = true |- _ => apply orb_true_iff in Ho as [Ho|Ho] end;
    go_bool; unfold MonitorWindowMin, Second, Millisecond in *; lia.
Qed.

(** A monitor section that leaves everything but interval and window unset. *)
Definition sparse_monitor (interval window : Z) : Monitor :=
  mkMonitor false "" "" "" 0 interval 0 0 0 0 0 window 0 0 0 0 0 [].

Definition default_urls_parse : Prop :=
  is_ok (validateMonitorTestURL "http://cp.cloudflare.com/generate_204") = true ∧
  is_ok (ValidStreamURL DefaultStreamURL) = true.

Lemma default_monitor_valid interval window :
  default_urls_parse → interval = 0 ∨ Second ≤ interval ≤ 24 * Hour →
  window = 0 ∨ MonitorWindowMin ≤ window ≤ MonitorWindowMax →
  validateMonitor (default_monitor (sparse_monitor interval window)) = Ok tt.
Proof.
  intros [Ht Hs] Hi Hw. unfold default_monitor, validateMonitor, sparse_monitor.
  cbn [m_TestURL m_SwitchPolicy m_StreamURL m_StreamInterval m_Interval m_Timeout m_Concurrency m_Threshold
    m_AlertThreshold m_ConsecutiveBadSamples m_WindowSize m_MinCandidateSamples m_MaxFailures m_MinImprovement
    m_Cooldown m_Jitter m_AutomatedGroups].
  change (or_string "" ?x) with x. rewrite Ht, Hs. change (negb (ValidPolicyName _)) with false. cbn [negb].
  unfold or_int. change (0 =? 0) with true. cbn iota.
  unfold MonitorWindowMin, MonitorWindowMax, maxMonitorInterval, maxMonitorConcurrency, Hour, Minute, Second, Millisecond in *.
  cbn [fold_each p_StreamInterval DefaultPolicy].
  destruct (interval =? 0) eqn:Hi0, (window =? 0) eqn:Hw0; go_bool; subst;
    repeat case_match; try done; exfalso;
    repeat match goal with Ho : (_ || _)%bool = true |- _ => apply orb_true_iff in Ho as [Ho|Ho] end;
    go_bool; unfold MinStreamInterval, Minute, Second, Millisecond in *; try lia.
Qed.

(** ** The lists of a snapshot *)
Lemma check_subscription_ok ids item ids' :
  check_subscription ids item = Ok ids' →
  (sb_ID item ∉ ids) ∧ ids' = {[sb_ID item]} ∪ ids ∧
  (ValidStableID (sb_ID item) = true ∧ is_ok (validateSubscriptionURL (sb_URL item) (sb_AllowHTTP item)) = true ∧
   ValidSubscriptionUserAgent (sb_UserAgent item) = true ∧ (sb_Route item = "" ∨ ValidRoute (sb_Route item) = true)).
Proof.
  unfold check_subscription. destruct (ValidStableID _); cbn [negb]; [|done]. case_match; [done|].
  destruct (uniqueID _ _) as [ids1|] eqn:Hu; [|done]. apply uniqueID_ok in Hu as [? ->].
  destruct (is_ok _); cbn [negb]; [|done]. destruct (ValidSubscriptionUserAgent _); cbn [negb]; [|done].
  destruct (streq (sb_Route item) "") eqn:Hr; cbn [negb andb].
  - apply streq_true in Hr. intros [= <-]. split_and!; [done..|by left].
  - destruct (ValidRoute _); [|done]. intros [= <-]. split_and!; [done..|by right].
Qed.

Definition resource_ok (r : Resource) : Prop :=
  ValidStableID (r_ID r) = true ∧ validateResourceFormat r = Ok tt ∧
  is_ok (validateSourceOrPath (r_URL r) true) = true ∧ 0 < r_Interval r ∧
  (r_SHA256 r = "" ∨ slen (r_SHA256 r) = 64 ∧ hex_decodes (r_SHA256 r) = true).

Lemma check_resource_ok acc item acc' :
  check_resource acc item = Ok acc' →
  (r_ID item ∉ acc.1.1) ∧ acc'.1.1 = {[r_ID item]} ∪ acc.1.1 ∧ resource_ok item ∧
  acc'.2 = <[r_ID item := item]> acc.2 ∧
  acc'.1.2 = (if is_geo (r_Kind item) then {[r_Kind item]} ∪ acc.1.2 else acc.1.2) ∧
  (is_geo (r_Kind item) = true → r_Kind item ∉ acc.1.2).
Proof.
  destruct acc as [[ids geo] byID]. unfold check_resource, resource_ok.
  destruct (ValidStableID _) eqn:Hid; cbn [negb]; [|done]. case_match; [done|].
  destruct (uniqueID _ _) as [ids1|] eqn:Hu; [|done]. apply uniqueID_ok in Hu as [? ->].
  destruct (str_in _ _); cbn [negb]; [|done].
  destruct (validateResourceFormat item) as [[]|] eqn:Hf; cbn [negb is_ok]; [|done].
  destruct (is_ok (validateSourceOrPath _ _)) eqn:Hs; cbn [negb]; [|done].
  destruct (r_Interval item <=? 0) eqn:Hi; [done|]. go_bool.
  destruct (negb (streq _ "") && negb (slen _ =? 64)) eqn:Hl; [done|].
  destruct (negb (streq _ "") && negb (hex_decodes _)) eqn:Hh; [done|].
  destruct (is_geo _ && _) eqn:Hg; [done|]. intros [= <-]. cbn. split_and!; try done.
  - destruct (streq (r_SHA256 item) "") eqn:Hsha; [left; by apply streq_true|right]. cbn in *. by go_bool.
  - intros Hgeo. rewrite Hgeo in Hg. cbn in Hg. by go_bool.
Qed.

(** The resources by ID are the list itself. *)
Lemma check_resources_byID l ids geo byID :
  fold_each check_resource (∅, ∅, ∅) l = Ok (ids, geo, byID) →
  ∀ id r, byID !! id = Some r ↔ r ∈ l ∧ r_ID r = id.
Proof.
  intros Hl. pose proof Hl as Huniq.
  apply (fold_each_unique (λ acc : gset string * gset string * gmap string Resource, acc.1.1) r_ID (λ _, True))
    in Huniq as (Hnd & _ & _).
  2: { intros acc x acc' Hc. apply check_resource_ok in Hc as (? & ? & _). done. }
  set (P := λ (visited : list Resource) (acc : gset string * gset string * gmap string Resource),
    NoDup (r_ID <$> visited) → ∀ id r, acc.2 !! id = Some r ↔ r ∈ visited ∧ r_ID r = id).
  cut (P ([] ++ l) (ids, geo, byID)); [by intros HP; apply HP|].
  apply (fold_each_inv P check_resource l) with (s := (∅, ∅, ∅)); [| |done].
  - intros d x acc acc' IH _ Hc Hnd' id r. apply check_resource_ok in Hc as (_ & _ & _ & -> & _).
    rewrite fmap_app in Hnd'. apply NoDup_app in Hnd' as (Hd & Hx & _).
    rewrite lookup_insert, elem_of_app, list_elem_of_singleton. case_decide as Hid.
    + split.
      * intros [= <-]. split; [by right|done].
      * intros [[Hr| ->] Hrid]; [|done]. exfalso. apply (Hx (r_ID x)); [|by left].
        rewrite Hid, <- Hrid. by apply list_elem_of_fmap_2.
    + rewrite (IH Hd). split; [naive_solver|]. intros [[?| ->] ?]; done.
  - intros _ id r. cbn. rewrite lookup_empty. split; [done|]. intros [Hr _]. by apply not_elem_of_nil in Hr.
Qed.

Lemma check_resolver_set_ok ids set ids' :
  check_resolver_set ids set = Ok ids' →
  (rs_ID set ∉ ids) ∧ ids' = {[rs_ID set]} ∪ ids ∧
  (ValidStableID (rs_ID set) = true ∧ rs_Endpoints set ≠ [] ∧
   ∀ raw, raw ∈ rs_Endpoints set → is_ok (parseResolverEndpoint raw) = true).
Proof.
  unfold check_resolver_set. destruct (ValidStableID _); cbn [negb]; [|done].
  destruct (len _ =? 0) eqn:Hl; [done|]. go_bool. rewrite len_nil_iff in Hl.
  destruct (uniqueID _ _) as [ids1|] eqn:Hu; [|done]. apply uniqueID_ok in Hu as [? ->].
  destruct (each _ _) as [[]|] eqn:He; [|done]. intros [= <-]. split_and!; try done.
  intros raw Hraw. rewrite each_ok in He. specialize (He raw Hraw). by destruct (parseResolverEndpoint raw).
Qed.

Lemma check_filter_ok byID ids f ids' :
  check_filter byID ids f = Ok ids' →
  (fl_ID f ∉ ids) ∧ ids' = {[fl_ID f]} ∪ ids ∧
  (ValidStableID (fl_ID f) = true ∧ validTarget (fl_Target f) = true ∧
   ∃ r, byID !! fl_Resource f = Some r ∧ (r_Kind r = ResourceRuleProvider ∨ r_Kind r = ResourceRuleSet) ∧
     fl_Format f = r_Format r ∧ (fl_Enabled f = true → r_Enabled r = true)).
Proof.
  unfold check_filter. destruct (ValidStableID _); cbn [negb]; [|done]. case_match; [done|].
  destruct (validTarget _); cbn [negb]; [|done].
  destruct (uniqueID _ _) as [ids1|] eqn:Hu; [|done]. apply uniqueID_ok in Hu as [? ->].
  destruct (byID !! fl_Resource f) as [r|]; [|done].
  destruct (negb (streq (r_Kind r) ResourceRuleProvider) && _) eqn:Hk; [done|]. case_match; [done|].
  destruct (negb (str_in _ _) || _) eqn:Hf; [done|]. destruct (fl_Enabled f && _) eqn:He; [done|]. intros [= <-].
  split_and!; try done. exists r. split_and!; [done| | |].
  - apply andb_false_iff in Hk as [Hk|Hk]; go_bool; [left|right]; by apply streq_true.
  - go_bool. by apply streq_true.
  - intros Hen. rewrite Hen in He. cbn in He. by go_bool.
Qed.

(** ** The snapshot *)
Definition given (s : string) : Z := if negb (streq s "") then 1 else 0.

Definition route_ok (resources : list Resource) (sets : list ResolverSet) (route : DNSRoute) : Prop :=
  given (dr_Suffix route) + given (dr_GeoSite route) + given (dr_Resource route) = 1 ∧
  (dr_Suffix route ≠ "" → ValidDomain (dr_Suffix route) = true) ∧
  (dr_GeoSite route ≠ "" → ValidRuleToken (dr_GeoSite route) = true) ∧
  (dr_Resource route ≠ "" → ∃ r, r ∈ resources ∧ r_ID r = dr_Resource route ∧
     r_Kind r = ResourceRuleSet ∧ r_RuleType r = RuleDomain ∧ r_Enabled r = true) ∧
  ∃ set, set ∈ sets ∧ rs_ID set = dr_ResolverSet route.

Definition filter_ok (resources : list Resource) (f : Filter) : Prop :=
  ValidStableID (fl_ID f) = true ∧ validTarget (fl_Target f) = true ∧
  ∃ r, r ∈ resources ∧ r_ID r = fl_Resource f ∧ (r_Kind r = ResourceRuleProvider ∨ r_Kind r = ResourceRuleSet) ∧
    fl_Format f = r_Format r ∧ (fl_Enabled f = true → r_Enabled r = true).

Record valid_config (s : Snapshot) : Prop := {
  vc_monitor : validateMonitor (cs_Monitor s) = Ok tt;
  vc_dns : validateDNS (cs_DNS s) = Ok tt;
  vc_subscriptions : NoDup (sb_ID <$> cs_Subscriptions s);
  vc_resources : NoDup (r_ID <$> cs_Resources s) ∧ ∀ r, r ∈ cs_Resources s → resource_ok r;
  vc_geo : NoDup (r_Kind <$> filter (λ r, is_geo (r_Kind r) = true) (cs_Resources s));
  vc_sets : NoDup (rs_ID <$> dn_ResolverSets (cs_DNS s));
  vc_endpoints : ∀ set raw, set ∈ dn_ResolverSets (cs_DNS s) → raw ∈ rs_Endpoints set →
    let '(host, port) := listen_parts (dn_Listen (cs_DNS s)) in
    ValidStableID (rs_ID set) = true ∧ check_endpoint host port (rs_DNSCrypt set) raw = Ok tt;
  vc_nonempty : ∀ set, set ∈ dn_ResolverSets (cs_DNS s) → ValidStableID (rs_ID set) = true ∧ rs_Endpoints set ≠ [];
  vc_routes : ∀ route, route ∈ dn_Routes (cs_DNS s) →
    route_ok (cs_Resources s) (dn_ResolverSets (cs_DNS s)) route;
  vc_filters : NoDup (fl_ID <$> cs_Filters s) ∧ ∀ f, f ∈ cs_Filters s → filter_ok (cs_Resources s) f
}.

Lemma check_route_ok byID sets route :
  check_route byID sets route = Ok tt →
  given (dr_Suffix route) + given (dr_GeoSite route) + given (dr_Resource route) = 1 ∧
  (dr_Suffix route ≠ "" → ValidDomain (dr_Suffix route) = true) ∧
  (dr_GeoSite route ≠ "" → ValidRuleToken (dr_GeoSite route) = true) ∧
  (dr_Resource route ≠ "" → ∃ r, byID !! dr_Resource route = Some r ∧
     r_Kind r = ResourceRuleSet ∧ r_RuleType r = RuleDomain ∧ r_Enabled r = true) ∧
  dr_ResolverSet route ∈ sets.
Proof.
  unfold check_route. cbv zeta. case_match; [done|].
  destruct (negb (streq (dr_Suffix route) "") && _) eqn:Hs; [done|].
  destruct (negb (streq (dr_GeoSite route) "") && _) eqn:Hg; [done|].
  destruct (negb (streq (dr_Resource route) "") && _) eqn:Hr; [done|].
  destruct (negb (_ =? 1)) eqn:Hc; [done|]. destruct (negb (bool_decide _)) eqn:Hin; [done|]. intros _.
  go_bool. split_and!; [done| | | |done].
  - intros Hne%streq_false. rewrite Hne in Hs. cbn in Hs. by go_bool.
  - intros Hne%streq_false. rewrite Hne in Hg. cbn in Hg. by go_bool.
  - intros Hne%streq_false. rewrite Hne in Hr. cbn in Hr. go_bool.
    destruct (byID !! _) as [r|]; [|done]. go_bool. exists r. by rewrite !streq_true in *.
Qed.

Lemma geo_distinct l acc acc' :
  fold_each check_resource acc l = Ok acc' →
  NoDup (r_Kind <$> filter (λ r, is_geo (r_Kind r) = true) l) ∧
  ∀ r, r ∈ l → is_geo (r_Kind r) = true → r_Kind r ∉ acc.1.2.
Proof.
  revert acc. induction l as [|x l IH]; intros acc; cbn [fold_each].
  { intros _. split; [constructor|]. intros r Hr. by apply not_elem_of_nil in Hr. }
  destruct (check_resource acc x) as [acc1|] eqn:Hx; [|done]. intros Hl.
  apply check_resource_ok in Hx as (_ & _ & _ & _ & Hgeo & Hnew). apply IH in Hl as [Hnd Hall].
  rewrite filter_cons. destruct (is_geo (r_Kind x)) eqn:Hg.
  - rewrite decide_True by done. cbn. split.
    + apply NoDup_cons. split; [|done]. intros (r & Hk & Hr)%list_elem_of_fmap.
      apply list_elem_of_filter in Hr as [Hgr Hr]. apply (Hall r Hr Hgr). rewrite Hgeo, <- Hk. set_solver.
    + intros r [->|Hr]%elem_of_cons Hgr; [by apply Hnew|]. specialize (Hall r Hr Hgr). set_solver.
  - rewrite decide_False by congruence. split; [done|].
    intros r [->|Hr]%elem_of_cons Hgr; [congruence|]. specialize (Hall r Hr Hgr). by rewrite Hgeo in Hall.
Qed.

Lemma validateSnapshot_valid stat s : validateSnapshot stat s = Ok tt → valid_config s.
Proof.
  unfold validateSnapshot. rewrite bind_ok. intros (_ & _ & Hs).
  apply bind_ok in Hs as ([] & Hmon & Hs). apply bind_ok in Hs as (_ & _ & Hs).
  apply bind_ok in Hs as ([] & Hdns & Hs). apply bind_ok in Hs as (_ & _ & Hs).
  apply bind_ok in Hs as (subs & Hsubs & Hs). apply bind_ok in Hs as ([[rids geo] byID] & Hres & Hs).
  apply bind_ok in Hs as (sets & Hsets & Hs).
  destruct (listen_parts (dn_Listen (cs_DNS s))) as [host port] eqn:Hlisten.
  apply bind_ok in Hs as ([] & Hend & Hs). apply bind_ok in Hs as ([] & Hroutes & Hs).
  apply bind_ok in Hs as (fids & Hfilters & _).
  pose proof (check_resources_byID _ _ _ _ Hres) as HbyID. cbn [snd] in *.
  pose proof (geo_distinct _ _ _ Hres) as [Hgeo _].
  apply (fold_each_set sb_ID _ _ _ _ check_subscription_ok) in Hsubs as (Hsub & _ & _).
  apply (fold_each_unique (λ acc : gset string * gset string * gmap string Resource, acc.1.1) r_ID resource_ok)
    in Hres as (Hrn & Hr & _).
  2: { intros acc x acc' Hc. by apply check_resource_ok in Hc as (? & ? & ? & _). }
  apply (fold_each_set rs_ID _ _ _ _ check_resolver_set_ok) in Hsets as (Hsn & Hset & ->).
  apply (fold_each_set fl_ID _ _ _ _ (check_filter_ok byID)) in Hfilters as (Hfn & Hf & _).
  rewrite Forall_forall in Hset. rewrite Forall_forall in Hf.
  rewrite each_ok in Hend. rewrite each_ok in Hroutes.
  split; [done|done|done|split; [done|intros r Hin; by apply Hr]|done|done| | | |].
  - intros set raw Hin Hraw. rewrite Hlisten. split; [by apply Hset|].
    specialize (Hend set Hin). destruct (each _ (rs_Endpoints set)) as [[]|] eqn:He; [|done].
    rewrite each_ok in He. specialize (He raw Hraw). by destruct (check_endpoint _ _ _ raw) as [[]|].
  - intros set Hin. destruct (Hset set Hin) as (? & ? & _). done.
  - intros route Hin. specialize (Hroutes route Hin).
    destruct (check_route _ _ route) as [[]|] eqn:Hc; [|done].
    apply check_route_ok in Hc as (H1 & H2 & H3 & H4 & H5). split_and!; [done..| |].
    + intros Hne. destruct (H4 Hne) as (r & Hl & ?). apply HbyID in Hl as [? ?]. by exists r.
    + apply elem_of_list_to_set, list_elem_of_fmap in H5 as (set & -> & Hin'). by exists set.
  - split; [done|]. intros f Hin. destruct (Hf f Hin) as (? & ? & r & Hl & ? & ? & ?).
    apply HbyID in Hl as [? ?]. split_and!; [done..|]. by exists r.
Qed.
End facts.

(** ** Properties *)

(** C24: a validated configuration is consistent across its files.  IDs are
    unique in every list, at most one resource targets each geodata file, every
    DNS route has exactly one valid matcher and a declared resolver set, a route's
    resource is an enabled domain rule-set, every filter matches the format of a
    rule resource that is enabled when the filter is, and no resolver endpoint
    loops back to the listener. *)
Theorem validateSnapshot_consistent `{GoNet} stat s : validateSnapshot stat s = Ok tt → valid_config s.
Proof. apply validateSnapshot_valid. Qed.

(** Configuration checks are strong enough for the scheduler.  Whatever
    monitor section config/load.go accepts, the policy the application builds from
    it passes [Policy.Validate], so starting the monitor cannot fail on it. *)
Theorem validateMonitor_starts `{GoNet} m :
  validateMonitor m = Ok tt → Validate (monitorPolicy m) = Ok tt ∧ policy_bounds (monitorPolicy m).
Proof. intros Hm%validateMonitor_policy. split; [done|]. by apply Validate_bounds. Qed.

(** the defaults fit together.  With only an interval and a window set,
    within their ranges, or neither, the completed monitor section is valid: the
    default timeout and sample counts shrink with the interval and the window. *)
Theorem defaults_fit `{GoNet} interval window :
  default_urls_parse → interval = 0 ∨ Second ≤ interval ≤ 24 * Hour →
  window = 0 ∨ MonitorWindowMin ≤ window ≤ MonitorWindowMax →
  validateMonitor (default_monitor (sparse_monitor interval window)) = Ok tt.
Proof. apply default_monitor_valid. Qed.

(** applying the defaults is idempotent: a completed configuration is a
    fixed point of [applyDefaults]. *)
Theorem applyDefaults_idempotent s : applyDefaults (applyDefaults s) = applyDefaults s.
Proof.
  assert (∀ x d, or_string (or_string x d) d = or_string x d) as Hs.
  { intros x d. unfold or_string. destruct (streq x "") eqn:Hx; rewrite ?Hx; [|done]. by case_match. }
  assert (∀ x d, or_int (or_int x d) d = or_int x d) as Hi.
  { intros x d. unfold or_int. destruct (x =? 0) eqn:Hx; rewrite ?Hx; [|done]. by case_match. }
  unfold applyDefaults. destruct s as [sp mh m d t subs res fl]. cbn. f_equal.
  - by rewrite Hs.
  - unfold default_monitor. cbn. by rewrite !Hs, !Hi.
  - by rewrite Hs.
  - rewrite <- list_fmap_compose. apply list_fmap_ext. intros i x _. unfold default_subscription. cbn. by rewrite !Hs, !Hi.
  - rewrite <- list_fmap_compose. apply list_fmap_ext. intros i x _. unfold default_resource. cbn. by rewrite !Hi.
Qed.

(** ** A concrete configuration *)
Definition example_net : GoNet :=
  table_net
    [("http://cp.cloudflare.com/generate_204", mkURL "http" "" false "cp.cloudflare.com" "/generate_204" "");
     (DefaultStreamURL, https_url "speed.cloudflare.com" "/__down");
     ("https://rules.example/d", https_url "rules.example" "/d");
     ("https://sub.example/s", https_url "sub.example" "/s")]
    [("127.0.0.1:1053", ("127.0.0.1", "1053")); ("1.1.1.1:53", ("1.1.1.1", "53"))]
    [("127.0.0.1", mkIP true false); ("1.1.1.1", mkIP false false)].

Definition example_config : Snapshot :=
  applyDefaults (mkSnapshot true (mkMihomo "" 0 0 7899 "rule") (sparse_monitor 0 0)
    (mkDNS "" [mkResolverSet "public" ["1.1.1.1:53"] false]
       [mkDNSRoute "example.org" "" "" "public"; mkDNSRoute "" "" "ads" "public"])
    (mkTun false "gvisor" "profile")
    [mkSubscription "main" "" "https://sub.example/s" "" true 0 0 "" false false]
    [mkResource "ads" ResourceRuleSet FormatYAML RuleDomain "https://rules.example/d" true 0 ""]
    [mkFilter "block" "ads" FormatYAML "REJECT" true]).

Lemma example_config_accepted : validateSnapshot (H := example_net) (λ _, None) example_config = Ok tt.
Proof. vm_compute. reflexivity. Qed.

Lemma validateSnapshot_consistent_witness : valid_config (H := example_net) example_config.
Proof. apply (validateSnapshot_consistent (H := example_net) (λ _, None)), example_config_accepted. Defined.

Lemma validateMonitor_starts_witness :
  Validate (H := example_net) (monitorPolicy (cs_Monitor example_config)) = Ok tt.
Proof. apply (validateMonitor_starts (H := example_net)). vm_compute. reflexivity. Defined.

Lemma defaults_fit_witness :
  validateMonitor (H := example_net) (default_monitor (sparse_monitor (2 * Second) 2)) = Ok tt.
Proof.
  apply (defaults_fit (H := example_net)).
  - split; vm_compute; reflexivity.
  - right. split; vm_compute; discriminate.
  - right. split; vm_compute; discriminate.
Defined.
