(* ===== verification/ResourceValidate.v ===== *)
(** * resources/validate.go: declarations and contents of managed resources

    Data is a list of bytes.  The YAML decoder, [netip] and [regexp] are the
    fields of [RuleParsers]; the line scanner, the classical rule grammar and the
    port arithmetic are translated. *)
From Stdlib Require Import Ascii.
From S2P Require Import Prelude GoStrings ConfigTypes.
Open Scope Z_scope.
Open Scope go_scope.

Class RuleParsers := {
  (** the [payload] of a single strictly decoded document, or why not *)
  yaml_payload : list ascii → result string (list string);
  parse_prefix : string → bool;
  parse_addr : string → bool;
  regexp_compiles : string → bool
}.

Definition ValidateDeclaration (r : Resource) : result string unit :=
  fail_if negb (ValidStableID (r_ID r)) with "invalid resource ID";
  if streq (r_Kind r) ResourceGeoIP || streq (r_Kind r) ResourceGeoSite then
    fail_if negb (streq (r_Format r) FormatDAT) || negb (streq (r_RuleType r) "")
      with "requires kind-specific dat format and no rule type";
    Ok tt
  else if streq (r_Kind r) ResourceMMDB then
    fail_if negb (streq (r_Format r) FormatMMDB) || negb (streq (r_RuleType r) "")
      with "requires mmdb format and no rule type";
    Ok tt
  else if streq (r_Kind r) ResourceRuleProvider || streq (r_Kind r) ResourceRuleSet then
    fail_if negb (streq (r_Format r) FormatYAML) && negb (streq (r_Format r) FormatText) &&
            negb (streq (r_Format r) FormatMRS)
      with "unsupported rule format";
    if streq (r_RuleType r) RuleDomain || streq (r_RuleType r) RuleIPCIDR then Ok tt
    else if streq (r_RuleType r) RuleClassical then
      fail_if streq (r_Format r) FormatMRS with "mrs format does not support classical rules";
      Ok tt
    else Err "unsupported rule type"
  else Err "unsupported kind".

(** [int] digits with the cap the code checks after each one. *)
Fixpoint newPort_from (n : Z) (l : list ascii) : Z :=
  match l with
  | [] => n
  | c :: l =>
      if negb (is_digit c) then 0 else
      let n := n * 10 + (code c - 48) in
      if 65535 <? n then 0 else newPort_from n l
  end.
Definition newPort (value : string) : Z := newPort_from 0 (bytes_of value).

Definition parsePortOrRange (value : string) : result string string :=
  if contains value "-" then
    match split value (byte 45) with
    | [l; r] =>
        let left := newPort l in
        let right := newPort r in
        fail_if (left =? 0) || (right <? left) with "invalid port range";
        Ok value
    | _ => Err "invalid port range"
    end
  else
    fail_if newPort value =? 0 with "invalid port";
    Ok value.

(** The loop stops at a closing parenthesis without an open one. *)
Fixpoint depth_scan (depth : Z) (l : list ascii) : option Z :=
  match l with
  | [] => Some depth
  | c :: l =>
      if code c =? 40 then depth_scan (depth + 1) l
      else if code c =? 41 then
        if depth - 1 <? 0 then None else depth_scan (depth - 1) l
      else depth_scan depth l
  end.
Definition balancedExpression (value : string) : bool :=
  if slen value <? 2 then false else
  match depth_scan 0 (bytes_of value) with
  | None => false
  | Some depth => (depth =? 0) && has_prefix (trim_space value) "("
  end.

Definition validateDomain (domain : string) : result string unit :=
  fail_if (253 <? slen domain) || has_prefix domain "." || negb (ValidDomain domain) with "invalid domain";
  Ok tt.

(** Kinds whose target is not looked into. *)
Definition free_kinds : list string :=
  ["DOMAIN-KEYWORD"; "DOMAIN-WILDCARD"; "GEOSITE"; "GEOIP"; "SRC-GEOIP"; "IP-ASN"; "SRC-IP-ASN"; "IP-SUFFIX";
   "SRC-IP-SUFFIX"; "PROCESS-NAME"; "PROCESS-PATH"; "PROCESS-NAME-REGEX"; "PROCESS-PATH-REGEX";
   "PROCESS-NAME-WILDCARD"; "PROCESS-PATH-WILDCARD"; "UID"; "IN-TYPE"; "IN-USER"; "IN-NAME"; "REMATCH-NAME"].

(** [bufio.ScanLines]: lines end at a newline, one carriage return before it is
    dropped, and a final empty line is not returned. *)
Definition drop_cr (l : list ascii) : list ascii :=
  match rev l with c :: r => if code c =? 13 then rev r else l | [] => l end.
Definition scan_lines (data : list ascii) : list string :=
  let pieces := split_bytes (byte 10) data in
  let lines := match rev pieces with [] :: r => rev r | _ => pieces end in
  (λ l, of_bytes (drop_cr l)) <$> lines.

Definition mmdb_marker : list ascii := [byte 171; byte 205; byte 239] ++ bytes_of "MaxMind.com".
Definition zstd_magic : list ascii := [byte 40; byte 181; byte 47; byte 253].

Section rules.
Context `{RuleParsers}.

Definition validateClassical (line : string) : result string unit :=
  let parts := split line (byte 44) in
  let kind := to_upper (trim_space (hd "" parts)) in
  if str_in kind ["AND"; "OR"; "NOT"] then
    fail_if negb (balancedExpression (join (tl parts) ",")) with "invalid expression";
    Ok tt
  else
    match tl parts with
    | [] => Err "rule target is required"
    | second :: _ =>
        let target := trim_space second in
        fail_if streq target "" with "rule target is required";
        if str_in kind ["DOMAIN"; "DOMAIN-SUFFIX"] then validateDomain target
        else if streq kind "DOMAIN-REGEX" then
          if regexp_compiles target then Ok tt else Err "regexp"
        else if str_in kind free_kinds then Ok tt
        else if streq kind "NETWORK" then
          if equal_fold "tcp" target || equal_fold "udp" target then Ok tt else Err "invalid network type"
        else if streq kind "DSCP" then
          fail_if 63 <? newPort target with "invalid DSCP value";
          fail_if newPort target =? 0 with "invalid DSCP value";
          Ok tt
        else if str_in kind ["IP-CIDR"; "IP-CIDR6"; "SRC-IP-CIDR"] then
          if parse_prefix target then Ok tt
          else if parse_addr target then Ok tt else Err "invalid IP address or prefix"
        else if str_in kind ["DST-PORT"; "SRC-PORT"; "IN-PORT"] then
          match parsePortOrRange target with Ok _ => Ok tt | Err e => Err e end
        else Err "unsupported classical rule"
    end.

Definition validateRuleLine (ruleType line : string) : result string unit :=
  let line := trim_space line in
  fail_if streq line "" || has_prefix line "#" with "empty or commented rule";
  if streq ruleType RuleDomain then validateDomain (trim_prefix line "+.")
  else if streq ruleType RuleIPCIDR then
    if parse_prefix line then Ok tt else Err "invalid IP prefix"
  else if streq ruleType RuleClassical then validateClassical line
  else Err "unknown rule behavior".

(** One scanned line; the count is of the rules so far. *)
Definition text_line (ruleType : string) (count : Z) (text : string) : result (Z * string) Z :=
  let line := trim_space text in
  if streq line "" || has_prefix line "#" then Ok count else
  match validateRuleLine ruleType line with
  | Err e => Err (count + 1, e)
  | Ok _ => Ok (count + 1)
  end.

(** The error of a text provider carries the line number the message prints. *)
Definition validateRules (r : Resource) (data : list ascii) : result (Z * string) unit :=
  if streq (r_Format r) FormatYAML then
    match yaml_payload data with
    | Err e => Err (0, e)
    | Ok [] => Err (0, "yaml rule provider requires a non-empty payload")
    | Ok payload =>
        match each (validateRuleLine (r_RuleType r)) payload with
        | Err e => Err (0, e)
        | Ok _ => Ok tt
        end
    end
  else if streq (r_Format r) FormatText then
    match fold_each (text_line (r_RuleType r)) 0 (scan_lines data) with
    | Err e => Err e
    | Ok count => fail_if count =? 0 with (0, "text rule provider has no rules"); Ok tt
    end
  else if streq (r_Format r) FormatMRS then
    fail_if (len data <? 4) || negb (bool_decide (take 4 data = zstd_magic)) with (0, "invalid mrs binary");
    Ok tt
  else Err (0, "unsupported format").

Definition ValidateResource (r : Resource) (data : list ascii) : result (Z * string) unit :=
  match ValidateDeclaration r with
  | Err e => Err (0, e)
  | Ok _ =>
      fail_if len data =? 0 with (0, "resource is empty");
      if streq (r_Kind r) ResourceGeoIP || streq (r_Kind r) ResourceGeoSite then Ok tt
      else if streq (r_Kind r) ResourceMMDB then
        fail_if negb (contains_bytes data mmdb_marker) with (0, "not a MaxMind database");
        Ok tt
      else if streq (r_Kind r) ResourceRuleProvider || streq (r_Kind r) ResourceRuleSet then validateRules r data
      else Err (0, "unsupported kind")
  end.
End rules.
