(* ===== verification/ResourceValidateFacts.v ===== *)
(** * Correctness of resources/validate.go

    The port and expression grammars against their plain specifications, and
    the agreement of the two declaration checks of the program. *)
From Stdlib Require Import Ascii.
From S2P Require Import Prelude GoTime GoStrings GoNet ConfigTypes ConfigValidate ResourceValidate.
Open Scope Z_scope.

(** ** Ports *)
Lemma digits_value_mono n l v : 0 ≤ n → digits_value n l = Some v → n ≤ v.
Proof.
  revert n. induction l as [|c l IH]; intros n Hn; cbn; [intros [= ->]; lia|].
  destruct (is_digit c) eqn:Hd; [|done]. unfold is_digit, in_range in Hd. go_bool.
  intros Hv. apply IH in Hv; lia.
Qed.

(** The capped loop agrees with the unbounded value on its range and reads 0
    for anything else. *)
Lemma newPort_value n l : 0 ≤ n ≤ 65535 →
  newPort_from n l =
    match digits_value n l with
    | Some v => if v <=? 65535 then v else 0
    | None => 0
    end.
Proof.
  revert n. induction l as [|c l IH]; intros n Hn; cbn.
  { by rewrite (proj2 (Z.leb_le _ _)) by lia. }
  destruct (is_digit c) eqn:Hd; cbn; [|done].
  assert (0 ≤ code c - 48) as Hc by (unfold is_digit, in_range in Hd; go_bool; lia).
  set (m := n * 10 + (code c - 48)). destruct (65535 <? m) eqn:Hm; go_bool.
  - destruct (digits_value m l) as [v|] eqn:Hv; [|done].
    apply digits_value_mono in Hv; [|lia]. by rewrite (proj2 (Z.leb_gt _ _)) by lia.
  - apply IH. lia.
Qed.

Definition port_number (value : string) (n : Z) : Prop :=
  digits_value 0 (bytes_of value) = Some n ∧ 1 ≤ n ≤ 65535.

Lemma newPort_port value n : n ≠ 0 → newPort value = n ↔ port_number value n.
Proof.
  intros Hn. unfold newPort, port_number. rewrite newPort_value by lia.
  destruct (digits_value 0 _) as [v|] eqn:Hv; [|split; [by intros <-|by intros [? _]]].
  pose proof (digits_value_mono 0 _ v ltac:(lia) Hv).
  destruct (v <=? 65535) eqn:Hle; go_bool; split.
  - intros ->. split; [done|lia].
  - by intros [[= ->] _].
  - by intros <-.
  - intros [[= ->] ?]. lia.
Qed.

Lemma newPort_bounds value : 0 ≤ newPort value ≤ 65535.
Proof.
  unfold newPort. rewrite newPort_value by lia. destruct (digits_value 0 _) as [v|] eqn:Hv; [|lia].
  pose proof (digits_value_mono 0 _ v ltac:(lia) Hv). case_match; go_bool; lia.
Qed.

(** ** Balanced expressions *)
Fixpoint opened (l : list ascii) : Z :=
  match l with
  | [] => 0
  | c :: l => (if code c =? 40 then 1 else if code c =? 41 then -1 else 0) + opened l
  end.

Lemma opened_app l k : opened (l ++ k) = opened l + opened k.
Proof. induction l as [|c l IH]; cbn; [done|]. rewrite IH. lia. Qed.

Lemma depth_scan_spec d l : 0 ≤ d →
  ∀ out, depth_scan d l = Some out ↔
    out = d + opened l ∧ ∀ p q, l = p ++ q → 0 ≤ d + opened p.
Proof.
  revert d. induction l as [|c l IH]; intros d Hd out; cbn.
  { split; [intros [= <-]; split; [lia|] | intros [-> _]; f_equal; lia].
    intros p q Hpq. symmetry in Hpq. apply app_eq_nil in Hpq as [-> _]. cbn. lia. }
  assert (∀ e, 0 ≤ d + e → (∀ p, opened (c :: p) = e + opened p) →
    depth_scan (d + e) l = Some out ↔
      out = d + opened (c :: l) ∧ ∀ p q, c :: l = p ++ q → 0 ≤ d + opened p) as Hstep.
  { intros e He Hop. rewrite IH by lia. rewrite Hop. split; intros [-> Hp]; (split; [lia|]).
    - intros [|c' p] q Hpq; [cbn; lia|]. injection Hpq as <- Hpq. rewrite Hop. specialize (Hp p q Hpq). lia.
    - intros p q ->. specialize (Hp (c :: p) q eq_refl). rewrite Hop in Hp. lia. }
  destruct (code c =? 40) eqn:H40.
  { rewrite (Hstep 1); [cbn; by rewrite H40|lia|]. intros p. cbn. by rewrite H40. }
  destruct (code c =? 41) eqn:H41.
  - destruct (d - 1 <? 0) eqn:Hneg; go_bool.
    + split; [done|]. intros [_ Hp]. specialize (Hp [c] l eq_refl). cbn in Hp.
      rewrite (proj2 (Z.eqb_neq _ _) H40), H41 in Hp. cbn in Hp. lia.
    + change (d - 1) with (d + -1). rewrite (Hstep (-1)); [cbn; by rewrite (proj2 (Z.eqb_neq _ _) H40), H41|lia|].
      intros p. cbn. by rewrite (proj2 (Z.eqb_neq _ _) H40), H41.
  - replace d with (d + 0) at 1 by lia.
    rewrite (Hstep 0); [cbn; by rewrite H40, H41|lia|]. intros p. cbn. by rewrite H40, H41.
Qed.

(** ** Declarations *)
Lemma str_in_spec s l : str_in s l = existsb (streq s) l.
Proof.
  unfold str_in. induction l as [|x l IH]; cbn; [done|].
  rewrite <- IH. unfold streq. repeat case_bool_decide; set_solver.
Qed.

Lemma ValidateDeclaration_format r :
  ValidateDeclaration r = Ok tt ↔ ValidStableID (r_ID r) = true ∧ validateResourceFormat r = Ok tt.
Proof.
  unfold ValidateDeclaration, validateResourceFormat, ruleFormats. rewrite str_in_spec. cbn [existsb].
  rewrite orb_false_r.
  destruct (ValidStableID (r_ID r)); cbn [negb]; [|by split; [|intros [? _]]].
  rewrite (orb_comm (streq (r_Kind r) ResourceRuleProvider)).
  destruct (_ || _); [destruct (streq (r_Format r) _), (streq (r_RuleType r) _); by split; intros; try destruct_and?|].
  destruct (streq (r_Kind r) ResourceMMDB);
    [destruct (streq (r_Format r) _), (streq (r_RuleType r) _); by split; intros; try destruct_and?|].
  destruct (_ || _); [|by split; intros; try destruct_and?].
  rewrite !negb_orb. destruct (negb (streq (r_Format r) FormatYAML)), (negb (streq (r_Format r) FormatText)),
    (negb (streq (r_Format r) FormatMRS)); cbn [andb]; repeat case_match; by split; intros; try destruct_and?.
Qed.

(** ** Properties *)

(** port rules.  [parsePortOrRange] accepts exactly a decimal port from 1 to
    65535, or two such ports in order around the only dash, and returns the text
    unchanged. *)
Theorem parsePortOrRange_accepts value out :
  parsePortOrRange value = Ok out ↔
    out = value ∧
    ((contains value "-" = false ∧ ∃ n, port_number value n) ∨
     (contains value "-" = true ∧ ∃ l r a b, split value (byte 45) = [l; r] ∧
        port_number l a ∧ port_number r b ∧ a ≤ b)).
Proof.
  unfold parsePortOrRange. destruct (contains value "-").
  - split.
    + repeat case_match; try done. intros [= <-]. go_bool. split; [done|right]. split; [done|].
      do 2 eexists. exists (newPort s), (newPort s0). pose proof (newPort_bounds s). pose proof (newPort_bounds s0).
      split_and!; [done|apply newPort_port; [lia|done]|apply newPort_port; [lia|done]|lia].
    + intros [-> [[? _]|(_ & l & r & a & b & Hs & Ha & Hb & Hab)]]; [done|]. rewrite Hs.
      pose proof Ha as [_ ?]. pose proof Hb as [_ ?].
      apply newPort_port in Ha as ->; [|lia]. apply newPort_port in Hb as ->; [|lia].
      rewrite (proj2 (Z.eqb_neq _ _)), (proj2 (Z.ltb_ge _ _)) by lia. done.
  - split.
    + case_match eqn:Hz; [done|]. intros [= <-]. go_bool. split; [done|left]. split; [done|].
      exists (newPort value). by apply newPort_port.
    + intros [-> [[_ [n Hn]]|[? _]]]; [|done]. pose proof Hn as [_ ?].
      apply newPort_port in Hn as ->; [|lia]. by rewrite (proj2 (Z.eqb_neq _ _)) by lia.
Qed.

(** logical rules.  [balancedExpression] accepts exactly the texts of at
    least two bytes that start with a parenthesis once trimmed and in which every
    prefix closes at most what it opened and the whole closes everything. *)
Theorem balancedExpression_balanced value :
  balancedExpression value = true ↔
    2 ≤ slen value ∧ has_prefix (trim_space value) "(" = true ∧
    opened (bytes_of value) = 0 ∧ ∀ p q, bytes_of value = p ++ q → 0 ≤ opened p.
Proof.
  unfold balancedExpression. pose proof (depth_scan_spec 0 (bytes_of value) ltac:(lia)) as Hs.
  destruct (slen value <? 2) eqn:Hl; go_bool; [split; [done|]; intros (? & _); lia|].
  destruct (depth_scan 0 (bytes_of value)) as [d|] eqn:Hd.
  - destruct (proj1 (Hs d) eq_refl) as [-> Hp]. rewrite andb_true_iff, Z.eqb_eq. naive_solver lia.
  - split; [done|]. intros (_ & _ & H0 & Hp). specialize (Hs (opened (bytes_of value))).
    assert (None = Some (opened (bytes_of value))); [|done]. apply Hs. split; [lia|]. intros p q Hpq.
    specialize (Hp p q Hpq). lia.
Qed.

(** The two declaration checks agree.  [resources.ValidateDeclaration]
    accepts a resource exactly when its identifier is a stable ID and the check of
    config/load.go accepts its kind, format and rule type; and the identifier
    grammar is the one core repeats for activation errors. *)
Theorem ValidateDeclaration_agrees r :
  (ValidateDeclaration r = Ok tt ↔ ValidStableID (r_ID r) = true ∧ validateResourceFormat r = Ok tt) ∧
  ValidStableID (r_ID r) = validResourceID (r_ID r).
Proof. split; [apply ValidateDeclaration_format|apply ValidStableID_resource]. Qed.

(** DSCP 0, the default class of unmarked packets, is refused: no
    classical rule on it is accepted, while 63 is; and the line an error reports
    counts the rules before it, so blank and commented lines shift it. *)
Theorem classical_quirks `{RuleParsers} :
  (∃ e, validateClassical "DSCP,0,DIRECT" = Err e) ∧ validateClassical "DSCP,63,DIRECT" = Ok tt ∧
  ∃ e, validateRules (mkResource "r" ResourceRuleSet FormatText RuleClassical "" true 0 "")
    (bytes_of ("# header" +:+ of_bytes [byte 10; byte 10] +:+ "BAD,x")) = Err (1, e).
Proof. split_and!; [by eexists; vm_compute|by vm_compute|by eexists; vm_compute]. Qed.
