(* ===== verification/Dns.v ===== *)
(** * dns/policy.go: DNS routing policy and the DNSCrypt probe

    [Build] turns a configuration into nameserver-policy entries; [Validate] adds
    the managed files and the probes of local listeners, whose file system and
    network answers are parameters; the probe's packets are byte lists. *)
From Stdlib Require Import Ascii.
From S2P Require Import Prelude GoTime GoSort GoStrings GoNet GoPath ConfigTypes ConfigValidate ResourceValidate.
Open Scope Z_scope.
Open Scope go_scope.

(** filters.Name and resources.ManagedFilename are used by several packages. *)
Definition provider_name (resourceID : string) : string :=
  if negb (ValidStableID resourceID) then "" else "managed-" +:+ resourceID.

Record endpoint := mkEndpoint { ep_host : string; ep_port : string; ep_network : string }.

Abbreviation DnsPolicy := (gmap string (list string)) (only parsing).

Section dns.
Context `{GoNet}.

Definition dns_parseEndpoint (raw : string) : result string endpoint :=
  if negb (contains raw "://") then
    match split_host_port raw with
    | None => Err "dns: invalid resolver endpoint"
    | Some (host, port) =>
        fail_if streq host "" || negb (validPort port) with "dns: invalid resolver endpoint";
        Ok (mkEndpoint host (canonical_port port) "udp")
    end
  else
    match url_parse raw with
    | None => Err "dns: invalid resolver endpoint"
    | Some u =>
        fail_if u_User u || streq (u_Host u) "" || negb (streq (u_Opaque u) "") with "dns: invalid resolver endpoint";
        let network := to_lower (u_Scheme u) in
        fail_if negb (str_in network ["udp"; "tcp"; "tls"; "https"; "quic"]) with "dns: unsupported resolver scheme";
        let host := url_hostname u in
        let port := url_port u in
        fail_if streq host "" with "dns: invalid resolver host";
        let port := if streq port "" then
                      if streq network "https" then "443"
                      else if str_in network ["tls"; "quic"] then "853" else "53"
                    else port in
        fail_if negb (validPort port) with "dns: invalid resolver port";
        fail_if negb (streq network "https") && negb (streq (u_Path u) "") && negb (streq (u_Path u) "/")
          with "dns: unexpected resolver path";
        Ok (mkEndpoint host (canonical_port port) network)
    end.

Definition dns_validateListen (address : string) : result string unit :=
  match split_host_port address with
  | None => Err "dns: listen address must be loopback with a valid port"
  | Some (host, port) =>
      fail_if negb (match parse_ip host with Some ip => ip_IsLoopback ip | None => false end) ||
              negb (validPort port)
        with "dns: listen address must be loopback with a valid port";
      Ok tt
  end.

Definition dns_isLoopback (host : string) : bool :=
  if equal_fold "localhost" host then true
  else match parse_ip host with Some ip => ip_IsLoopback ip | None => false end.
Definition dns_isLocalListen (host : string) : bool :=
  match parse_ip host with Some ip => ip_IsLoopback ip || ip_IsUnspecified ip | None => false end.

(** The first loop over the resolver sets. *)
Definition build_endpoint (set : ResolverSet) (raw : string) : result string unit :=
  match dns_parseEndpoint raw with
  | Err e => Err e
  | Ok parsed =>
      fail_if rs_DNSCrypt set &&
              (negb (dns_isLoopback (ep_host parsed)) ||
               (negb (streq (ep_network parsed) "udp") && negb (streq (ep_network parsed) "tcp")))
        with "dns: DNSCrypt listener must be a loopback UDP or TCP endpoint";
      Ok tt
  end.
Definition build_set (sets : DnsPolicy) (set : ResolverSet) : result string DnsPolicy :=
  fail_if negb (ValidStableID (rs_ID set)) || (len (rs_Endpoints set) =? 0) with "dns: invalid or empty resolver set";
  match sets !! rs_ID set with
  | Some _ => Err "dns: duplicate resolver set"
  | None =>
      match each (build_endpoint set) (rs_Endpoints set) with
      | Err e => Err e
      | Ok _ => Ok (<[rs_ID set := rs_Endpoints set]> sets)
      end
  end.

Definition build_resource (resources : gmap string Resource) (r : Resource) : result string (gmap string Resource) :=
  fail_if negb (ValidStableID (r_ID r)) with "dns: invalid resource ID";
  match resources !! r_ID r with
  | Some _ => Err "dns: duplicate resource ID"
  | None => Ok (<[r_ID r := r]> resources)
  end.

(** The second loop: no endpoint may be the listener itself. *)
Definition build_loopback (listenHost listenPort : string) (set : ResolverSet) (raw : string) : result string unit :=
  match dns_parseEndpoint raw with
  | Err e => Err e
  | Ok parsed =>
      fail_if rs_DNSCrypt set && negb (dns_isLoopback (ep_host parsed)) with "dns: DNSCrypt listener must be loopback";
      fail_if streq (ep_port parsed) listenPort && dns_isLoopback (ep_host parsed) && dns_isLocalListen listenHost
        with "dns: resolver endpoint loops back to dns.listen";
      Ok tt
  end.

(** One matcher of a route: how many there are so far, and the last key. *)
Definition suffix_matcher (route : DNSRoute) (acc : Z * string) : result string (Z * string) :=
  if streq (dr_Suffix route) "" then Ok acc else
  fail_if negb (ValidDomain (dr_Suffix route)) with "dns: invalid suffix";
  Ok (acc.1 + 1, "+." +:+ trim_prefix (trim_suffix (dr_Suffix route) ".") ".").
Definition geosite_matcher (route : DNSRoute) (acc : Z * string) : result string (Z * string) :=
  if streq (dr_GeoSite route) "" then Ok acc else
  fail_if negb (ValidRuleToken (dr_GeoSite route)) with "dns: invalid GeoSite selector";
  Ok (acc.1 + 1, "geosite:" +:+ dr_GeoSite route).
Definition resource_matcher (resources : gmap string Resource) (route : DNSRoute) (acc : Z * string)
    : result string (Z * string) :=
  if streq (dr_Resource route) "" then Ok acc else
  match resources !! dr_Resource route with
  | None => Err "dns: route resource must be an enabled domain rule-set"
  | Some r =>
      fail_if negb (r_Enabled r) || negb (streq (r_Kind r) ResourceRuleSet) || negb (streq (r_RuleType r) RuleDomain)
        with "dns: route resource must be an enabled domain rule-set";
      match ValidateDeclaration r with
      | Err e => Err e
      | Ok _ => Ok (acc.1 + 1, "rule-set:" +:+ provider_name (dr_Resource route))
      end
  end.

Definition build_route (sets : DnsPolicy) (resources : gmap string Resource) (policy : DnsPolicy) (route : DNSRoute)
    : result string DnsPolicy :=
  fail_if negb (ValidStableID (dr_ResolverSet route)) with "dns: route has no valid resolver set";
  match sets !! dr_ResolverSet route with
  | None => Err "dns: unknown resolver set"
  | Some endpoints =>
      match (suffix_matcher route (0, "") ≫= geosite_matcher route) ≫= resource_matcher resources route with
      | Err e => Err e
      | Ok (matchers, key) =>
          fail_if negb (matchers =? 1) with "dns: route must select exactly one suffix, GeoSite, or domain rule-set resource";
          match policy !! key with
          | Some _ => Err "dns: duplicate route matcher"
          | None => Ok (<[key := endpoints]> policy)
          end
      end
  end.

Definition dns_Build (s : Snapshot) : result string DnsPolicy :=
  dns_validateListen (dn_Listen (cs_DNS s)) ≫= λ _,
  fold_each build_set ∅ (dn_ResolverSets (cs_DNS s)) ≫= λ sets,
  fold_each build_resource ∅ (cs_Resources s) ≫= λ resources,
  let '(listenHost, listenPort) := listen_parts (dn_Listen (cs_DNS s)) in
  each (λ set, each (build_loopback listenHost listenPort set) (rs_Endpoints set)) (dn_ResolverSets (cs_DNS s)) ≫= λ _,
  fold_each (build_route sets resources) ∅ (dn_Routes (cs_DNS s)).

Definition SortedKeys (policy : DnsPolicy) : list string :=
  insertion_sort string_ltb (map_to_list policy).*1.

(** ** Managed files and live listeners *)
(** resources.ManagedFilename, [os.Lstat] (symbolic link, regular file) and
    the answer of [probeDNSCrypt]. *)
Context (managed_filename : Resource → string) (lstat : string → option (bool * bool))
  (probe : endpoint → result string unit).

Definition validate_route (managedPaths : gmap string string) (resources : gmap string Resource) (home : string)
    (route : DNSRoute) : result string string :=
  if streq (dr_Resource route) "" then Ok home else
  let path := default "" (managedPaths !! dr_Resource route) in
  fail_if streq path "" || negb (filepath_is_abs path) with "dns: required rule-set resource has no managed absolute path";
  match resources !! dr_Resource route with
  | None => Err "dns: rule-set resource path is not its registry destination"
  | Some r =>
      fail_if negb (streq (filepath_base path) (managed_filename r))
        with "dns: rule-set resource path is not its registry destination";
      fail_if negb (streq home "") && negb (streq (filepath_dir path) home)
        with "dns: rule-set resources do not share one managed home";
      match lstat path with
      | None => Err "dns: required rule-set resource is unavailable"
      | Some (symlink, regular) =>
          fail_if symlink || negb regular with "dns: required rule-set resource is unavailable";
          Ok (if streq home "" then filepath_dir path else home)
      end
  end.

Definition validate_listener (dnscrypt : bool) (raw : string) : result string unit :=
  match dns_parseEndpoint raw with
  | Err e => Err e
  | Ok parsed => if negb dnscrypt then Ok tt else probe parsed
  end.

Definition dns_Validate (s : Snapshot) (managedPaths : gmap string string) : result string unit :=
  dns_Build s ≫= λ _,
  let resources := foldl (λ m r, <[r_ID r := r]> m) ∅ (cs_Resources s) in
  fold_each (validate_route managedPaths resources) "" (dn_Routes (cs_DNS s)) ≫= λ _,
  each (λ set, each (validate_listener (rs_DNSCrypt set)) (rs_Endpoints set)) (dn_ResolverSets (cs_DNS s)).
End dns.

(** ** The probe's packets *)
Definition u16_bytes (n : Z) : list ascii := [byte (Z.shiftr n 8 mod 256); byte (n mod 256)].
Definition u16_of (l : list ascii) : Z :=
  match l with a :: b :: _ => Z.lor (Z.shiftl (code a) 8) (code b) | _ => 0 end.

(** [dnsProbeQuery] for a random identifier: a header with recursion desired and
    one question, clashpulse.invalid of type A in class IN. *)
Definition dnsProbeQuery (id : Z) : list ascii :=
  u16_bytes id ++ [byte 1; byte 0] ++ u16_bytes 1 ++ u16_bytes 0 ++ u16_bytes 0 ++ u16_bytes 0 ++
  [byte 10] ++ bytes_of "clashpulse" ++ [byte 7] ++ bytes_of "invalid" ++ [byte 0; byte 0; byte 1; byte 0; byte 1].

Definition validateDNSResponse (response : list ascii) (id : Z) : result string unit :=
  fail_if (len response <? 12) || negb (u16_of response =? id) ||
          (Z.land (u16_of (drop 2 response)) 32768 =? 0)
    with "dns: invalid DNS probe response";
  Ok tt.

(** The bytes a TCP probe writes: the query behind its length. *)
Definition tcp_packet (query : list ascii) : list ascii := u16_bytes (len query) ++ query.

(** The exchange over TCP given the bytes the peer sends: [None] where
    [io.ReadFull] fails for lack of bytes. *)
Definition read_full (n : Z) (stream : list ascii) : option (list ascii * list ascii) :=
  if len stream <? n then None else Some (take (Z.to_nat n) stream, drop (Z.to_nat n) stream).

Definition tcp_answer (stream : list ascii) (id : Z) : result string unit :=
  match read_full 2 stream with
  | None => Err "EOF"
  | Some (size, rest) =>
      let length := u16_of size in
      fail_if (length <? 12) || (4096 <? length) with "dns: invalid DNS response length";
      match read_full length rest with
      | None => Err "unexpected EOF"
      | Some (response, _) => validateDNSResponse response id
      end
  end.
