(* ===== verification/DnsFacts.v ===== *)
(** * Correctness of dns/policy.go

    [Build] against the configuration validator, the content of the policy it
    returns, and the probe's wire format. *)
From Stdlib Require Import Ascii.
From S2P Require Import Prelude GoTime GoSort GoStrings GoNet GoPath ConfigTypes ConfigValidate ConfigFacts ResourceValidate ResourceValidateFacts Dns.
Open Scope Z_scope.
Open Scope go_scope.

Section facts.
Context `{GoNet}.

(** The two endpoint parsers of the program agree. *)
Lemma dns_parseEndpoint_config raw :
  match parseResolverEndpoint raw with
  | Ok (host, port, scheme) => dns_parseEndpoint raw = Ok (mkEndpoint host port scheme)
  | Err _ => ∃ e, dns_parseEndpoint raw = Err e
  end.
Proof.
  unfold dns_parseEndpoint, parseResolverEndpoint.
  destruct (negb (contains raw "://")).
  - destruct (split_host_port raw) as [[host port]|]; [|by eexists]. destruct (_ || _); [by eexists|done].
  - destruct (url_parse raw) as [u|]; [|by eexists]. destruct (_ || negb (streq (u_Opaque u) "")); [by eexists|].
    destruct (negb (str_in _ _)); [by eexists|]. destruct (streq (url_hostname u) ""); [by eexists|].
    rewrite (str_in_spec _ ["tls"; "quic"]). cbn [existsb]. rewrite orb_false_r.
    destruct (negb (validPort _)); [by eexists|]. destruct (_ && negb (streq (u_Path u) "/")); [by eexists|done].
Qed.

Lemma dns_isLoopback_config host : dns_isLoopback host = isLoopbackHost host.
Proof. unfold dns_isLoopback, isLoopbackHost. by destruct (equal_fold _ _). Qed.

(** The key a route is filed under. *)
Definition route_key (route : DNSRoute) : string :=
  if negb (streq (dr_Resource route) "") then "rule-set:" +:+ provider_name (dr_Resource route)
  else if negb (streq (dr_GeoSite route) "") then "geosite:" +:+ dr_GeoSite route
  else "+." +:+ trim_prefix (trim_suffix (dr_Suffix route) ".") ".".

Lemma build_endpoint_ok s set raw :
  valid_config s → set ∈ dn_ResolverSets (cs_DNS s) → raw ∈ rs_Endpoints set →
  is_ok (build_endpoint set raw) = true ∧
  is_ok (build_loopback (listen_parts (dn_Listen (cs_DNS s))).1 (listen_parts (dn_Listen (cs_DNS s))).2 set raw) = true.
Proof.
  intros Hv Hin Hraw. pose proof (vc_endpoints _ Hv set raw Hin Hraw) as Hc.
  destruct (listen_parts _) as [host port]. destruct Hc as [_ Hc]. cbn [fst snd].
  unfold check_endpoint in Hc. unfold build_endpoint, build_loopback.
  pose proof (dns_parseEndpoint_config raw) as Hp.
  destruct (parseResolverEndpoint raw) as [[[h p] scheme]|]; [|done]. rewrite Hp. cbn [ep_host ep_port ep_network].
  rewrite !dns_isLoopback_config. change (dns_isLocalListen host) with (isLocalListenHost host).
  destruct (rs_DNSCrypt set); cbn [andb] in *.
  - destruct (isLoopbackHost h); cbn [negb orb andb] in *; [|done].
    destruct (negb (streq scheme "udp") && _); [done|]. by destruct (_ && isLocalListenHost host).
  - by destruct (_ && isLocalListenHost host).
Qed.

Lemma build_sets_ok (l : list ResolverSet) (sets : gmap string (list string)) :
  (∀ set, set ∈ l → ValidStableID (rs_ID set) = true ∧ rs_Endpoints set ≠ [] ∧ sets !! rs_ID set = None ∧
     ∀ raw, raw ∈ rs_Endpoints set → is_ok (build_endpoint set raw) = true) →
  NoDup (rs_ID <$> l) →
  ∃ out, fold_each build_set sets l = Ok out ∧
    ∀ id es, out !! id = Some es ↔ sets !! id = Some es ∨ ∃ set, set ∈ l ∧ rs_ID set = id ∧ rs_Endpoints set = es.
Proof.
  revert sets. induction l as [|set l IH]; intros sets Hl Hnd; cbn [fold_each].
  { exists sets. split; [done|]. intros id es. split; [by left|]. intros [?|(x & Hx & _)]; [done|].
    by apply not_elem_of_nil in Hx. }
  destruct (Hl set ltac:(by left)) as (Hid & Hne & Hnew & Hraw).
  cbn in Hnd. apply NoDup_cons in Hnd as [Hnin Hnd].
  assert (build_set sets set = Ok (<[rs_ID set := rs_Endpoints set]> sets)) as ->.
  { unfold build_set. rewrite Hid. cbn [negb orb]. destruct (len _ =? 0) eqn:Hz; go_bool; [by apply len_nil_iff in Hz|].
    rewrite Hnew. apply each_ok in Hraw. by rewrite Hraw. }
  destruct (IH (<[rs_ID set := rs_Endpoints set]> sets)) as (out & Hout & Hspec).
  - intros x Hx. destruct (Hl x ltac:(by right)) as (? & ? & ? & ?). split_and!; try done.
    rewrite lookup_insert_ne; [done|]. intros Heq. apply Hnin. rewrite Heq. by apply list_elem_of_fmap_2.
  - done.
  - exists out. split; [done|]. intros id es. rewrite Hspec, lookup_insert. case_decide as Hd.
    + subst id. split.
      * intros [[= <-]|(x & Hx & Hxid & Hes)]; right; [exists set|exists x]; split_and!; try done; [by left|by right].
      * intros [?|(x & [->|Hx]%elem_of_cons & Hxid & Hes)]; [congruence|left; congruence|].
        exfalso. apply Hnin. rewrite <- Hxid. by apply list_elem_of_fmap_2.
    + split.
      * intros [?|(x & Hx & ?)]; [by left|right; exists x; split; [by right|done]].
      * intros [?|(x & [->|Hx]%elem_of_cons & Hxid & Hes)]; [by left|congruence|right; by exists x].
Qed.

Lemma build_resources_ok (l : list Resource) (m : gmap string Resource) :
  (∀ r, r ∈ l → ValidStableID (r_ID r) = true ∧ m !! r_ID r = None) → NoDup (r_ID <$> l) →
  ∃ out, fold_each build_resource m l = Ok out ∧ ∀ r, r ∈ l → out !! r_ID r = Some r.
Proof.
  intros Hl Hnd.
  assert (∃ out, fold_each build_resource m l = Ok out ∧ (∀ r, r ∈ l → out !! r_ID r = Some r) ∧
    ∀ id, id ∉ r_ID <$> l → out !! id = m !! id) as (out & ? & ? & _); [|by exists out].
  revert m Hl Hnd. induction l as [|r l IH]; intros m Hl Hnd; cbn [fold_each].
  { exists m. split_and!; [done|intros r Hr; by apply not_elem_of_nil in Hr|done]. }
  cbn in Hnd. apply NoDup_cons in Hnd as [Hnin Hnd]. destruct (Hl r ltac:(by left)) as [Hid Hnew].
  assert (build_resource m r = Ok (<[r_ID r := r]> m)) as ->.
  { unfold build_resource. by rewrite Hid, Hnew. }
  destruct (IH (<[r_ID r := r]> m)) as (out & Hout & Hin & Hrest); [|done|].
  { intros x Hx. destruct (Hl x ltac:(by right)). split; [done|].
    rewrite lookup_insert_ne; [done|]. intros Heq. apply Hnin. rewrite Heq. by apply list_elem_of_fmap_2. }
  exists out. split_and!; [done| |].
  - intros x [->|Hx]%elem_of_cons; [|by apply Hin]. rewrite Hrest by done. by rewrite lookup_insert_eq.
  - intros id Hnid. cbn in Hnid. apply not_elem_of_cons in Hnid as [Hne Hnid].
    rewrite Hrest by done. by rewrite lookup_insert_ne.
Qed.

(** One route of a validated configuration goes to its own key. *)
Lemma build_route_ok s sets resources (policy : gmap string (list string)) route :
  valid_config s → route ∈ dn_Routes (cs_DNS s) →
  (∀ id es, sets !! id = Some es ↔ ∃ set, set ∈ dn_ResolverSets (cs_DNS s) ∧ rs_ID set = id ∧ rs_Endpoints set = es) →
  (∀ r, r ∈ cs_Resources s → resources !! r_ID r = Some r) →
  ∃ set, set ∈ dn_ResolverSets (cs_DNS s) ∧ rs_ID set = dr_ResolverSet route ∧
    build_route sets resources policy route =
      match policy !! route_key route with
      | Some _ => Err "dns: duplicate route matcher"
      | None => Ok (<[route_key route := rs_Endpoints set]> policy)
      end.
Proof.
  intros Hv Hr Hsets Hres.
  destruct (vc_routes _ Hv route Hr) as (Hone & Hsuffix & Hgeo & Hresource & set & Hset & Hid).
  exists set. split_and!; [done|done|]. unfold build_route.
  rewrite <- Hid. destruct (vc_nonempty _ Hv set Hset) as [Hsid _]. rewrite Hsid. cbn [negb].
  rewrite (proj2 (Hsets (rs_ID set) (rs_Endpoints set))) by eauto.
  unfold suffix_matcher, geosite_matcher, resource_matcher, route_key, given in *.
  destruct (streq (dr_Suffix route) "") eqn:H1, (streq (dr_GeoSite route) "") eqn:H2, (streq (dr_Resource route) "") eqn:H3;
    cbn [negb] in *; try lia; rewrite ?streq_false in *.
  - destruct (Hresource H3) as (r & Hin & Hrid & Hk & Ht & He). cbn [mbind result_bind].
    rewrite <- Hrid, (Hres r Hin), He, Hk, Ht. cbn [negb orb].
    destruct (vc_resources _ Hv) as [_ Hok]. destruct (Hok r Hin) as (Hrv & Hf & _).
    rewrite (proj2 (ValidateDeclaration_format r)) by done. rewrite !(proj2 (streq_true _ _)) by done. done.
  - cbn [mbind result_bind]. rewrite (Hgeo H2). done.
  - cbn [mbind result_bind]. rewrite (Hsuffix H1). done.
Qed.

Lemma build_routes_ok s sets resources (l : list DNSRoute) (policy : gmap string (list string)) :
  valid_config s → (∀ route, route ∈ l → route ∈ dn_Routes (cs_DNS s)) →
  (∀ id es, sets !! id = Some es ↔ ∃ set, set ∈ dn_ResolverSets (cs_DNS s) ∧ rs_ID set = id ∧ rs_Endpoints set = es) →
  (∀ r, r ∈ cs_Resources s → resources !! r_ID r = Some r) →
  match fold_each (build_route sets resources) policy l with
  | Ok out => NoDup (route_key <$> l) ∧ (∀ k, k ∈ route_key <$> l → policy !! k = None) ∧
      (∀ k, k ∉ route_key <$> l → out !! k = policy !! k) ∧
      ∀ route, route ∈ l → ∃ set, set ∈ dn_ResolverSets (cs_DNS s) ∧ rs_ID set = dr_ResolverSet route ∧
        out !! route_key route = Some (rs_Endpoints set)
  | Err _ => ¬ (NoDup (route_key <$> l) ∧ ∀ k, k ∈ route_key <$> l → policy !! k = None)
  end.
Proof.
  intros Hv Hl Hsets Hres. revert policy. induction l as [|route l IH]; intros policy; cbn [fold_each].
  { split_and!; [constructor|set_solver|done|]. intros r Hr. by apply not_elem_of_nil in Hr. }
  destruct (build_route_ok s sets resources policy route Hv (Hl route ltac:(by left)) Hsets Hres)
    as (set & Hset & Hid & ->).
  cbn [fmap list_fmap]. destruct (policy !! route_key route) as [es|] eqn:Hp.
  { intros [_ Hnone]. rewrite Hnone in Hp; [done|by left]. }
  specialize (IH (λ r Hr, Hl r ltac:(by right)) (<[route_key route := rs_Endpoints set]> policy)).
  destruct (fold_each _ _ l) as [out|e].
  - destruct IH as (Hnd & Hnew & Hkeep & Hroutes).
    assert (route_key route ∉ route_key <$> l) as Hnin.
    { intros Hk. specialize (Hnew _ Hk). by rewrite lookup_insert_eq in Hnew. }
    split_and!.
    + by apply NoDup_cons.
    + intros k [->|Hk]%elem_of_cons; [done|]. specialize (Hnew _ Hk).
      destruct (decide (route_key route = k)) as [<-|Hne]; [done|]. by rewrite lookup_insert_ne in Hnew.
    + intros k [Hne Hk]%not_elem_of_cons. rewrite (Hkeep k Hk). by rewrite lookup_insert_ne.
    + intros r [->|Hr]%elem_of_cons; [|by apply Hroutes]. exists set. split_and!; [done|done|].
      rewrite (Hkeep _ Hnin). apply lookup_insert_eq.
  - intros [[Hnin Hnd]%NoDup_cons Hnone]. apply IH. split; [done|]. intros k Hk.
    rewrite lookup_insert_ne; [apply Hnone; by right|]. intros <-. done.
Qed.
End facts.

(** ** The wire *)
Lemma u16_round_trip n l : 0 ≤ n < 65536 → u16_of (u16_bytes n ++ l) = n.
Proof.
  intros Hn. unfold u16_of, u16_bytes. cbn [app].
  rewrite Z.shiftr_div_pow2 by lia. change (2 ^ 8) with 256.
  rewrite !code_byte by (pose proof (Z.mod_pos_bound n 256); pose proof (Z.mod_pos_bound (n / 256) 256); lia).
  rewrite (Z.mod_small (n / 256)) by (split; [apply Z.div_pos|apply Z.div_lt_upper_bound]; lia).
  rewrite Z.shiftl_mul_pow2 by lia. change (2 ^ 8) with 256.
  assert (Z.land (n / 256 * 256) (n mod 256) = 0) as Hland.
  { apply Z.bits_inj'. intros i Hi. rewrite Z.land_spec, Z.bits_0.
    change 256 with (2 ^ 8). rewrite <- Z.shiftl_mul_pow2 by lia.
    destruct (Z.lt_ge_cases i 8).
    - rewrite Z.shiftl_spec_low by lia. done.
    - rewrite Z.mod_pow2_bits_high by lia. apply andb_false_r. }
  pose proof (Z.add_lor_land (n / 256 * 256) (n mod 256)) as Hadd. pose proof (Z.div_mod n 256). lia.
Qed.

(** ** Properties *)

(** C25: [Build] refines the configuration validator.  On a configuration that
    config/load.go accepts, it succeeds exactly when no two routes have the same
    matcher, and then every route's key maps to the endpoints of its resolver set
    and nothing else is in the policy. *)
Theorem Build_valid_config `{GoNet} s :
  valid_config s →
  match dns_Build s with
  | Ok policy => NoDup (route_key <$> dn_Routes (cs_DNS s)) ∧
      (∀ key, is_Some (policy !! key) → key ∈ route_key <$> dn_Routes (cs_DNS s)) ∧
      ∀ route, route ∈ dn_Routes (cs_DNS s) → ∃ set, set ∈ dn_ResolverSets (cs_DNS s) ∧
        rs_ID set = dr_ResolverSet route ∧ policy !! route_key route = Some (rs_Endpoints set)
  | Err _ => ¬ NoDup (route_key <$> dn_Routes (cs_DNS s))
  end.
Proof.
  intros Hv. unfold dns_Build.
  assert (dns_validateListen (dn_Listen (cs_DNS s)) = Ok tt) as ->.
  { pose proof (vc_dns _ Hv) as Hd. unfold validateDNS in Hd. unfold dns_validateListen.
    case_match; [done|]. destruct (split_host_port _) as [[host port]|]; [|done]. by destruct (_ || _). }
  cbn [mbind result_bind].
  destruct (build_sets_ok (dn_ResolverSets (cs_DNS s)) ∅) as (sets & -> & Hsets).
  { intros set Hin. destruct (vc_nonempty _ Hv set Hin). split_and!; [done..|].
    intros raw Hraw. by eapply build_endpoint_ok. }
  { apply Hv. }
  destruct (build_resources_ok (cs_Resources s) ∅) as (resources & -> & Hres).
  { intros r Hin. split; [|done]. by apply (vc_resources _ Hv). }
  { apply Hv. }
  cbn [mbind result_bind].
  assert (each (λ set, each (build_loopback (listen_parts (dn_Listen (cs_DNS s))).1 (listen_parts (dn_Listen (cs_DNS s))).2 set)
    (rs_Endpoints set)) (dn_ResolverSets (cs_DNS s)) = Ok tt) as Hloop.
  { apply each_ok. intros set Hin. rewrite (proj2 (each_ok _ _)); [done|].
    intros raw Hraw. by eapply build_endpoint_ok. }
  destruct (listen_parts _) as [host port]. cbn [fst snd] in Hloop. rewrite Hloop. cbn [mbind result_bind].
  pose proof (build_routes_ok s sets resources (dn_Routes (cs_DNS s)) ∅ Hv (λ _ h, h)) as Hr.
  assert (∀ id es, sets !! id = Some es ↔ ∃ set, set ∈ dn_ResolverSets (cs_DNS s) ∧ rs_ID set = id ∧ rs_Endpoints set = es) as Hs.
  { intros id es. rewrite Hsets, lookup_empty. naive_solver. }
  specialize (Hr Hs Hres). destruct (fold_each _ _ _) as [out|e].
  - destruct Hr as (Hnd & _ & Hkeep & Hroutes). split_and!; [done| |done].
    intros key [es Hk]. destruct (decide (key ∈ route_key <$> dn_Routes (cs_DNS s))) as [|Hn]; [done|].
    by rewrite (Hkeep key Hn), lookup_empty in Hk.
  - intros Hnd. apply Hr. split; [done|]. intros k _. apply lookup_empty.
Qed.

(** The DNSCrypt probe over TCP reads exactly one framed message.  Whatever
    follows a response of legal length behind its two length bytes, the probe's
    verdict is that of the response; and the probe never takes its own query for
    an answer, while the same header with the response bit is one. *)
Theorem tcp_probe_framing response extra id :
  12 ≤ len response ≤ 4096 →
  tcp_answer (tcp_packet response ++ extra) id = validateDNSResponse response id ∧
  (0 ≤ id < 65536 → validateDNSResponse (dnsProbeQuery id) id = Err "dns: invalid DNS probe response" ∧
     validateDNSResponse (u16_bytes id ++ [byte 129; byte 128] ++ drop 4 (dnsProbeQuery id)) id = Ok tt).
Proof.
  intros Hlen. split.
  - unfold tcp_answer, tcp_packet, read_full. rewrite <- app_assoc.
    rewrite !len_app. pose proof (len_nonneg extra). change (len (u16_bytes (len response))) with 2.
    rewrite (proj2 (Z.ltb_ge _ _)) by lia. change (Z.to_nat 2) with (length (u16_bytes (len response))).
    rewrite take_app_length, drop_app_length.
    rewrite <- (app_nil_r (u16_bytes _)), u16_round_trip by lia.
    rewrite (proj2 (Z.ltb_ge (len response) 12)), (proj2 (Z.ltb_ge 4096 _)) by lia. cbn [orb].
    rewrite len_app, (proj2 (Z.ltb_ge (len response + len extra) _)) by lia.
    unfold len. rewrite Nat2Z.id, take_app_length. done.
  - intros Hid. unfold validateDNSResponse. split.
    + unfold dnsProbeQuery. rewrite u16_round_trip by done. rewrite Z.eqb_refl. done.
    + rewrite u16_round_trip by done. rewrite Z.eqb_refl. done.
Qed.

Lemma tcp_probe_framing_witness :
  tcp_answer (tcp_packet (dnsProbeQuery 7) ++ [byte 0]) 7 = Err "dns: invalid DNS probe response".
Proof.
  destruct (tcp_probe_framing (dnsProbeQuery 7) [byte 0] 7) as [-> H];
    [split; vm_compute; discriminate|apply H; lia].
Defined.

Lemma Build_valid_config_witness :
  ∃ policy, dns_Build (H := example_net) example_config = Ok policy ∧
    NoDup (route_key <$> dn_Routes (cs_DNS example_config)).
Proof.
  pose proof (Build_valid_config (H := example_net) example_config
    (validateSnapshot_valid (H := example_net) (λ _, None) _ example_config_accepted)) as Hb.
  destruct (dns_Build (H := example_net) example_config) as [policy|e] eqn:He.
  - exists policy. split; [reflexivity|]. by destruct Hb.
  - exfalso. vm_compute in He. discriminate.
Defined.
