(* ===== verification/CoreSnapshot.v ===== *)
(** * core/snapshot.go: the sanitized state clients receive

    The snapshot's records as Go declares them (a string of fields the modelled
    code never reads is still there, so that bounds cover all of them), with the
    predicates and lookups defined beside them. *)
From Stdlib Require Import Ascii.
From S2P Require Import Prelude GoStrings ConfigTypes.
Open Scope Z_scope.

Definition MaxDiagnostics : Z := 200.
Definition MaxFinishedJobs : Z := 32.

Record GroupSnapshot := mkGroupSnapshot {
  gs_ID : string; gs_Label : string; gs_Type : string; gs_Selected : string;
  gs_Proxies : list string; gs_AutomationEnabled : bool; gs_ManualOverride : bool
}.

Record ProxySnapshot := mkProxySnapshot {
  px_ID : string; px_Label : string; px_GroupID : string;
  px_LatencyMillis : Z; px_FinishedAt : Z; px_Outcome : string; px_MihomoMillis : Z;
  px_MedianMillis : Z; px_JitterMillis : Z; px_Samples : Z; px_Failures : Z;
  px_StreamSamples : Z; px_StreamCompleted : Z; px_StreamKBps : Z
}.

Record UsageSnapshot := mkUsageSnapshot {
  us_UploadedBytes : Z; us_DownloadedBytes : Z; us_TotalBytes : Z; us_ExpiresAt : Z
}.

Record SubscriptionSnapshot := mkSubscriptionSnapshot {
  ssn_ID : string; ssn_Name : string; ssn_SourceHost : string; ssn_HashPrefix : string;
  ssn_AppliedHashPrefix : string; ssn_Route : string;
  ssn_RefreshIntervalSeconds : Z; ssn_TimeoutSeconds : Z;
  ssn_AllowHTTP : bool; ssn_AllowInvalidTLS : bool;
  ssn_Enabled : bool; ssn_Active : bool; ssn_PendingActivation : bool;
  ssn_LastCheck : Z; ssn_LastSuccess : Z; ssn_NextDue : Z;
  ssn_LastFailure : string; ssn_Usage : option UsageSnapshot
}.

Record ResourceSnapshot := mkResourceSnapshot {
  rsn_ID : string; rsn_Kind : string; rsn_Format : string; rsn_RuleType : string;
  rsn_SourceHost : string; rsn_HashPrefix : string; rsn_Destination : string;
  rsn_Validated : bool; rsn_Enabled : bool; rsn_LastResult : string;
  rsn_LastCheck : Z; rsn_LastSuccess : Z; rsn_NextDue : Z
}.

Record FilterSnapshot := mkFilterSnapshot {
  fsn_ID : string; fsn_ResourceID : string; fsn_Format : string; fsn_Target : string;
  fsn_SourceHost : string; fsn_HashPrefix : string; fsn_Destination : string; fsn_LastFailure : string;
  fsn_Enabled : bool; fsn_Validated : bool; fsn_LastSuccess : Z; fsn_NextDue : Z
}.

Record BinarySnapshot := mkBinarySnapshot {
  bs_Desired : string; bs_ObservedVersion : string; bs_LastCompatibilityFailure : string;
  bs_Capabilities : list string
}.

Record ConfigOverrideSnapshot := mkConfigOverrideSnapshot { co_Key : string; co_Change : string }.

Definition ConfigOverrideKeys : list string :=
  ["mixed-port"; "port"; "socks-port"; "external-controller"; "secret"; "allow-lan"; "bind-address";
   "dns.listen"; "external-controller-unix"; "external-controller-tls"; "external-controller-cors"; "external-ui";
   "dns.nameserver-policy"; "rule-providers"; "proxy-groups"; "rules";
   "tun"; "dns.enable"; "dns.enhanced-mode"; "dns.fake-ip-range"; "dns.fake-ip-range6"; "dns.fake-ip-filter";
   "mode"; "listeners"].

Definition override_valid (o : ConfigOverrideSnapshot) : bool :=
  if negb (streq (co_Change o) "added") && negb (streq (co_Change o) "replaced") && negb (streq (co_Change o) "removed")
  then false else str_in (co_Key o) ConfigOverrideKeys.

Record MonitorSnapshot := mkMonitorSnapshot {
  msn_Enabled : bool; msn_TestURL : string; msn_SwitchPolicy : string; msn_StreamURLConfigured : bool;
  msn_StreamIntervalSeconds : Z; msn_URLTestIntervalSeconds : Z; msn_URLTestToleranceMillis : Z;
  msn_IntervalSeconds : Z; msn_TimeoutMillis : Z; msn_Concurrency : Z; msn_ThresholdMillis : Z;
  msn_AlertThresholdMillis : Z; msn_ConsecutiveBadSamples : Z; msn_WindowSize : Z; msn_MinCandidateSamples : Z;
  msn_MaxFailures : Z; msn_MinImprovementMillis : Z; msn_CooldownSeconds : Z; msn_JitterMillis : Z;
  msn_AutoFastest : bool
}.

Record ResolverSetSnapshot := mkResolverSetSnapshot { rss_ID : string; rss_Endpoints : list string; rss_DNSCrypt : bool }.
Record DNSRouteSnapshot := mkDNSRouteSnapshot {
  drs_Suffix : string; drs_GeoSite : string; drs_Resource : string; drs_ResolverSet : string
}.
Record DNSSnapshot := mkDNSSnapshot {
  dsn_Listen : string; dsn_ResolverSets : list ResolverSetSnapshot; dsn_Routes : list DNSRouteSnapshot
}.

Record SystemProxySnapshot := mkSystemProxySnapshot { sp_Enabled : bool; sp_Active : bool }.

Record TunSnapshot := mkTunSnapshot {
  ts_Enabled : bool; ts_Active : bool; ts_Stack : string; ts_DNSMode : string; ts_Privilege : string;
  ts_PrivilegedPath : string; ts_Device : string; ts_LastFailure : string; ts_Leftover : bool
}.

Definition TunPrivileges : list string := ["ready"; "missing"; "stale"; "nosuid"; "no-agent"; "unsupported-platform"].

Definition ManualGrantCommand (t : TunSnapshot) : string :=
  if negb (streq (ts_Privilege t) "no-agent") || streq (ts_PrivilegedPath t) "" then ""
  else "sudo setcap cap_net_admin+ep " +:+ ts_PrivilegedPath t.

Record ProbeSnapshot := mkProbeSnapshot {
  pb_ProxyID : string; pb_FinishedAt : Z; pb_LatencyMillis : Z; pb_Outcome : string
}.
Record StreamProbeSnapshot := mkStreamProbeSnapshot {
  sps_ProxyID : string; sps_FinishedAt : Z; sps_Outcome : string; sps_KBps : Z
}.
Record SwitchSnapshot := mkSwitchSnapshot {
  sw_GroupID : string; sw_OldID : string; sw_NewID : string; sw_Reason : string; sw_At : Z;
  sw_Evidence : list ProbeSnapshot; sw_StreamEvidence : list StreamProbeSnapshot
}.
Record JobSnapshot := mkJobSnapshot { jb_ID : string; jb_Kind : string; jb_State : string }.
Record ErrorSnapshot := mkErrorSnapshot {
  er_File : string; er_Key : string; er_Kind : string; er_SourceID : string; er_Message : string
}.
Record DiagnosticSnapshot := mkDiagnosticSnapshot {
  dg_At : Z; dg_Severity : string; dg_Kind : string; dg_SourceID : string; dg_Message : string
}.

(** A stream probe's source is shown as the node's label, or a short prefix. *)
Definition DiagnosticSource (proxies : list ProxySnapshot) (d : DiagnosticSnapshot) : string :=
  if negb (streq (dg_Kind d) "stream_probe") then dg_SourceID d else
  match List.find (λ p, streq (px_ID p) (dg_SourceID d) && negb (streq (px_Label p) "")) proxies with
  | Some p => px_Label p
  | None => if 8 <? slen (dg_SourceID d) then of_bytes (take 8 (bytes_of (dg_SourceID d))) else dg_SourceID d
  end.

Record Snapshot := mkSnapshot {
  sn_Revision : Z; sn_ActiveSource : string; sn_ServiceRunning : bool;
  sn_ConfigOverrides : list ConfigOverrideSnapshot; sn_Groups : list GroupSnapshot; sn_Proxies : list ProxySnapshot;
  sn_Subscriptions : list SubscriptionSnapshot; sn_Resources : list ResourceSnapshot; sn_Filters : list FilterSnapshot;
  sn_Binary : BinarySnapshot; sn_Monitor : MonitorSnapshot; sn_DNS : DNSSnapshot; sn_SystemProxy : SystemProxySnapshot;
  sn_MixedPort : Z; sn_ProxyMode : string; sn_Tun : TunSnapshot; sn_Jobs : list JobSnapshot;
  sn_FinishedJobs : list JobSnapshot; sn_Switches : list SwitchSnapshot; sn_Errors : list ErrorSnapshot;
  sn_Diagnostics : list DiagnosticSnapshot
}.

(** ** core/activation.go: activation failures that clients may see

    A stage of the activation with an optional resource; the cause stays inside
    and is not represented. *)
Definition ActivationBinary : string := "binary".
Definition ActivationResources : string := "resources".
Definition ActivationStateCommit : string := "state_commit".
Definition ActivationRollback : string := "rollback".

Definition activationMessages : list (string * string) :=
  [("file_input", "local profile file is unavailable or invalid");
   (ActivationBinary, "selected Mihomo binary is incompatible or unavailable");
   (ActivationResources, "managed resources could not be validated");
   ("config_validation", "generated Mihomo configuration was rejected");
   ("process_start", "Mihomo process could not start");
   ("mixed_port", "the configured mixed port is already in use");
   ("stream_probe_port", "the stream probe port is unavailable");
   ("controller_readiness", "Mihomo controller did not become ready");
   ("system_proxy", "System Proxy could not be applied");
   ("system_proxy_unsupported", "system proxy is unsupported in this desktop environment");
   ("tun_privilege", "TUN privilege is not granted for the selected Mihomo binary");
   ("tun_start", "Mihomo did not start the TUN interface");
   (ActivationStateCommit, "private activation state could not be committed");
   (ActivationRollback, "activation rollback failed; prior runtime needs attention")].

Definition stage_message (stage : string) : string :=
  match list_find (λ p : string * string, p.1 = stage) activationMessages with
  | Some (_, (_, message)) => message
  | None => "activation failed"
  end.

Record ActivationError := mkActivationError { ae_Stage : string; ae_ResourceID : string }.
#[export] Instance activation_error_eq_dec : EqDecision ActivationError.
Proof. solve_decision. Defined.

(** The stages whose error may name a resource. *)
Definition names_resource (stage : string) : bool := streq stage ActivationBinary || streq stage ActivationResources.
Definition WrapActivation (stage : string) : ActivationError := mkActivationError stage "".
Definition WrapActivationResource (stage id : string) : ActivationError :=
  mkActivationError stage (if negb (names_resource stage) || negb (validResourceID id) then "" else id).
Definition activation_text (e : ActivationError) : string :=
  if names_resource (ae_Stage e) && validResourceID (ae_ResourceID e)
  then stage_message (ae_Stage e) +:+ " (resource " +:+ ae_ResourceID e +:+ ")"
  else stage_message (ae_Stage e).

(** The activation error in an error's tree, if there is one, without its cause. *)
Definition PublicActivation (failure : option ActivationError) : option ActivationError :=
  (λ e, mkActivationError (ae_Stage e)
    (if negb (validResourceID (ae_ResourceID e)) || negb (names_resource (ae_Stage e)) then "" else ae_ResourceID e)) <$> failure.
