(* ===== verification/GoJson.v ===== *)
(** * Package [encoding/json]

    A codec per value type, with what the sources rely on: a marshalled value
    decodes to itself and nothing follows it.  [json_plain] marks the values that
    survive: the marshaller replaces invalid UTF-8 in strings. *)
From Stdlib Require Import Ascii.
From S2P Require Import Prelude GoStrings.
Open Scope Z_scope.

(** What decoding a second value from the rest of a document gives. *)
Inductive json_next := NextEOF | NextValue | NextError (e : string).

Class JsonCodec (A : Type) := {
  json_marshal : A → result string (list ascii);
  (** one strictly decoded value and the undecoded rest *)
  json_decode : list ascii → result string (A * list ascii);
  json_next_value : list ascii → json_next;
  json_plain : A → bool;
  json_round_trip : ∀ v body, json_plain v = true → json_marshal v = Ok body →
    ∃ rest, json_decode body = Ok (v, rest) ∧ json_next_value rest = NextEOF
}.

(** ** [utf8.ValidString] *)
Definition cont_byte (lo hi : Z) (c : ascii) : bool := in_range lo hi c.

(** The second byte's range of a multi-byte sequence and how many continuation
    bytes follow it, by first byte. *)
Definition utf8_shape (c : ascii) : option (Z * Z * nat) :=
  if in_range 194 223 c then Some (128, 191, O)
  else if code c =? 224 then Some (160, 191, 1%nat)
  else if code c =? 237 then Some (128, 159, 1%nat)
  else if in_range 225 239 c then Some (128, 191, 1%nat)
  else if code c =? 240 then Some (144, 191, 2%nat)
  else if in_range 241 243 c then Some (128, 191, 2%nat)
  else if code c =? 244 then Some (128, 143, 2%nat)
  else None.

(** [want] is what is still missing of the current sequence: the range of its
    next byte and how many plain continuation bytes follow. *)
Fixpoint utf8_scan (want : option (Z * Z * nat)) (l : list ascii) : bool :=
  match l, want with
  | [], None => true
  | [], Some _ => false
  | c :: l, None =>
      if code c <? 128 then utf8_scan None l
      else match utf8_shape c with Some w => utf8_scan (Some w) l | None => false end
  | c :: l, Some (lo, hi, n) =>
      cont_byte lo hi c && utf8_scan (match n with O => None | S n => Some (128, 191, n) end) l
  end.

Definition utf8_valid (s : string) : bool := utf8_scan None (bytes_of s).

(** ASCII text is valid. *)
Lemma utf8_scan_ascii l : forallb (λ c, code c <? 128) l = true → utf8_scan None l = true.
Proof.
  induction l as [|c l IH]; cbn; [done|]. intros [-> Hl]%andb_true_iff. by apply IH.
Qed.
