(* ===== verification/GoYaml.v ===== *)
(** * Package [gopkg.in/yaml.v3] as the sources use it, and [reflect.DeepEqual]

    A decoded document is a value of type [any]: what [yaml.Unmarshal] stores in
    a Go [any], and the two typed values the renderer adds to it ([[]string] and
    [dns.Policy]).  Encoder and decoder are an interface. *)
From Stdlib Require Import Ascii.
From S2P Require Import Prelude GoTime GoStrings.
Open Scope Z_scope.

Inductive scalar :=
| SNil
| SBool (b : bool)
| SInt (n : Z)
| SFloat (bits : Z)
| SStr (s : string)
| STime (t : time) (offset : Z).
#[export] Instance scalar_eq_dec : EqDecision scalar.
Proof. solve_decision. Defined.
#[export, refine] Instance scalar_countable : Countable scalar :=
  inj_countable' (λ s, match s with
    | SNil => inl (inl tt) | SBool b => inl (inr b) | SInt n => inr (inl (inl n)) | SFloat n => inr (inl (inr n))
    | SStr s => inr (inr (inl s)) | STime t z => inr (inr (inr (t, z))) end)
  (λ x, match x with
    | inl (inl _) => SNil | inl (inr b) => SBool b | inr (inl (inl n)) => SInt n | inr (inl (inr n)) => SFloat n
    | inr (inr (inl s)) => SStr s | inr (inr (inr (t, z))) => STime t z end) _.
Proof. by intros []. Defined.

(** [AnyMap] is Go's [map[any]any], which the decoder makes of a mapping that has
    a key other than a string. *)
Inductive any :=
| Scalar (s : scalar)
| List (l : list any)
| Map (m : gmap string any)
| AnyMap (m : gmap scalar any)
| Strs (l : list string)
| PolicyMap (p : gmap string (list string)).
Abbreviation Nil := (Scalar SNil).
Abbreviation Bool b := (Scalar (SBool b)).
Abbreviation Int n := (Scalar (SInt n)).
Abbreviation Float n := (Scalar (SFloat n)).
Abbreviation Str s := (Scalar (SStr s)).

(** Reading a Go [map[string]any]: a missing key is the nil interface. *)
Definition get (document : gmap string any) (key : string) : any := default Nil (document !! key).
Definition is_nil (v : any) : bool := match v with Nil => true | _ => false end.
(** Type assertions. *)
Definition as_map (v : any) : option (gmap string any) := match v with Map m => Some m | _ => None end.
Definition as_list (v : any) : option (list any) := match v with List l => Some l | _ => None end.
Definition as_string (v : any) : option string := match v with Str s => Some s | _ => None end.
(** Comparing an interface with a constant. *)
Definition is_string (v : any) (s : string) : bool := match v with Str t => streq t s | _ => false end.
Definition is_true (v : any) : bool := match v with Bool b => b | _ => false end.
Definition is_zero (v : any) : bool := match v with Int n => n =? 0 | _ => false end.

(** ** [reflect.DeepEqual] *)
(** [==] on float64 values given by their bits: a NaN differs from everything,
    the two zeros are equal. *)
Definition float_nan (bits : Z) : bool := 2 ^ 52 * 2047 <? Z.land bits (2 ^ 63 - 1).
Definition float_eqb (a b : Z) : bool :=
  negb (float_nan a) && negb (float_nan b) && ((a =? b) || ((Z.land a (2 ^ 63 - 1) =? 0) && (Z.land b (2 ^ 63 - 1) =? 0))).
Definition scalar_equal (a b : scalar) : bool :=
  match a, b with SFloat a, SFloat b => float_eqb a b | _, _ => bool_decide (a = b) end.

(** Equality up to [eq] on scalars. *)
Fixpoint equal_with (eq : scalar → scalar → bool) (x y : any) : bool :=
  match x, y with
  | Scalar a, Scalar b => eq a b
  | List l, List k =>
      (fix go (l k : list any) : bool :=
         match l, k with
         | [], [] => true
         | x :: l, y :: k => equal_with eq x y && go l k
         | _, _ => false
         end) l k
  | Map m, Map n =>
      bool_decide (size m = size n) &&
      map_fold (λ key v acc, match n !! key with Some w => equal_with eq v w | None => false end && acc) true m
  | AnyMap m, AnyMap n =>
      bool_decide (size m = size n) &&
      map_fold (λ key v acc, eq key key && match n !! key with Some w => equal_with eq v w | None => false end && acc) true m
  | Strs l, Strs k => bool_decide (l = k)
  | PolicyMap p, PolicyMap q => bool_decide (p = q)
  | _, _ => false
  end.
Definition deep_equal : any → any → bool := equal_with scalar_equal.
(** Maps behind two [map[string]any] variables. *)
Definition deep_equal_maps (m n : gmap string any) : bool := deep_equal (Map m) (Map n).

(** ** Induction *)
Fixpoint any_size (v : any) : nat :=
  match v with
  | List l => S (sum_list_with any_size l)
  | Map m => S (map_fold (λ _ v n, any_size v + n)%nat 0%nat m)
  | AnyMap m => S (map_fold (λ _ v n, any_size v + n)%nat 0%nat m)
  | _ => 1
  end.
Lemma size_in_map {K} `{Countable K} (m : gmap K any) k v : m !! k = Some v → (any_size v < S (map_fold (λ _ v n, any_size v + n)%nat 0%nat m))%nat.
Proof.
  revert k v. apply (map_fold_weak_ind (λ n m, ∀ k v, m !! k = Some v → (any_size v < S n)%nat)).
  - intros k v E. by rewrite lookup_empty in E.
  - intros i x m' r _ IH k v [[-> ->]|[_ Hk]]%lookup_insert_Some; [lia|]. specialize (IH k v Hk). lia.
Qed.
Lemma any_induction (P : any → Prop) :
  (∀ s, P (Scalar s)) → (∀ l, Forall P l → P (List l)) → (∀ m, map_Forall (λ _, P) m → P (Map m)) →
  (∀ m, map_Forall (λ _, P) m → P (AnyMap m)) → (∀ l, P (Strs l)) → (∀ p, P (PolicyMap p)) → ∀ v, P v.
Proof.
  intros Hs Hl Hm Ha Hss Hp v. remember (any_size v) as n eqn:En. revert v En.
  induction (lt_wf n) as [n _ IH]. intros v ->. destruct v as [s|l|m|m|l|p]; auto.
  - apply Hl, Forall_forall. intros x Hx. eapply IH; [|done]. cbn. clear -Hx.
    induction l as [|y l IHl]; [by apply not_elem_of_nil in Hx|]. apply elem_of_cons in Hx as [->|Hx]; cbn; [lia|]. specialize (IHl Hx). cbn in IHl. lia.
  - apply Hm. intros k x Hx. eapply IH; [|done]. cbn. by eapply size_in_map.
  - apply Ha. intros k x Hx. eapply IH; [|done]. cbn. by eapply size_in_map.
Qed.

(** A fold of conjunctions over a map. *)
Lemma map_fold_andb {K A} `{Countable K} (f : K → A → bool) (m : gmap K A) :
  map_fold (λ k v acc, f k v && acc) true m = true ↔ map_Forall (λ k v, f k v = true) m.
Proof.
  induction m as [|i x m Hi Hfst IH] using map_first_key_ind.
  - rewrite map_fold_empty. split; [intros _; apply map_Forall_empty|done].
  - rewrite map_fold_insert_first_key by done. rewrite andb_true_iff, IH, map_Forall_insert by done. done.
Qed.
(** A map of the same size as one it includes is that one. *)
Lemma same_size_same {K A} `{Countable K} (m n : gmap K A) : size m = size n → m ⊆ n → m = n.
Proof. intros Hs Hm. apply map_subseteq_size_eq; [done|lia]. Qed.

Section equality.
Context (eq : scalar → scalar → bool).
Lemma equal_with_maps m n :
  equal_with eq (Map m) (Map n) = true ↔ size m = size n ∧ ∀ k v, m !! k = Some v → ∃ w, n !! k = Some w ∧ equal_with eq v w = true.
Proof.
  cbn. rewrite andb_true_iff, bool_decide_eq_true. apply and_iff_compat_l.
  rewrite (map_fold_andb (λ key v, match n !! key with Some w => equal_with eq v w | None => false end)).
  split; intros Hm k v Hk; specialize (Hm k v Hk); cbn in *; destruct (n !! k) as [w|]; [by exists w|done|by destruct Hm as (? & [= ->] & ?)|by destruct Hm as (? & ? & _)].
Qed.
Lemma equal_with_anymaps m n :
  equal_with eq (AnyMap m) (AnyMap n) = true ↔
  size m = size n ∧ ∀ k v, m !! k = Some v → eq k k = true ∧ ∃ w, n !! k = Some w ∧ equal_with eq v w = true.
Proof.
  cbn. rewrite andb_true_iff, bool_decide_eq_true. apply and_iff_compat_l.
  rewrite (map_fold_andb (λ key v, eq key key && match n !! key with Some w => equal_with eq v w | None => false end)).
  split; intros Hm k v Hk; specialize (Hm k v Hk); cbn in *.
  - apply andb_true_iff in Hm as [He Hm]. split; [done|]. destruct (n !! k) as [w|]; [by exists w|done].
  - destruct Hm as (-> & w & -> & ->). done.
Qed.

(** Where [eq] is equality, so is [equal_with]. *)
Lemma equal_with_eq (Heq : ∀ a b, eq a b = true → a = b) x y : equal_with eq x y = true → x = y.
Proof.
  revert y. induction x as [s|l IH|m IH|m IH|l|p] using any_induction; intros [s'|l'|m'|m'|l'|p']; try done.
  - cbn. by intros ->%Heq.
  - cbn. intros Hk. f_equal. revert l' Hk. induction IH as [|x l Hx _ IHl]; intros [|y k]; try done.
    intros [?%Hx ?%IHl]%andb_true_iff. by subst.
  - rewrite equal_with_maps. intros [Hs Hk]. f_equal. apply same_size_same; [done|]. apply map_subseteq_spec.
    intros k v Hv. destruct (Hk k v Hv) as (w & Hw & E). by rewrite (IH k v Hv w E).
  - rewrite equal_with_anymaps. intros [Hs Hk]. f_equal. apply same_size_same; [done|]. apply map_subseteq_spec.
    intros k v Hv. destruct (Hk k v Hv) as (_ & w & Hw & E). by rewrite (IH k v Hv w E).
  - cbn. by intros ->%bool_decide_eq_true.
  - cbn. by intros ->%bool_decide_eq_true.
Qed.
End equality.

(** A value without a NaN equals itself. *)
Definition no_nan : any → bool := λ v, deep_equal v v.
Definition any_eqb : any → any → bool := equal_with (λ a b, bool_decide (a = b)).
Lemma any_eqb_eq x y : any_eqb x y = true → x = y.
Proof. apply equal_with_eq. intros a b. apply bool_decide_eq_true. Qed.
Lemma any_eqb_refl x : any_eqb x x = true.
Proof.
  induction x as [s|l IH|m IH|m IH|l|p] using any_induction.
  - by apply bool_decide_eq_true.
  - cbn. induction IH as [|x l Hx _ IHl]; [done|]. by rewrite andb_true_iff.
  - apply equal_with_maps. split; [done|]. intros k v Hv. eauto.
  - apply equal_with_anymaps. split; [done|]. intros k v Hv. split; [by apply bool_decide_eq_true|]. eauto.
  - by apply bool_decide_eq_true.
  - by apply bool_decide_eq_true.
Qed.
#[export] Instance any_eq_dec : EqDecision any.
Proof.
  intros x y. destruct (any_eqb x y) eqn:E; [left; by apply any_eqb_eq|right; intros <-; by rewrite any_eqb_refl in E].
Defined.

(** ** The codec *)
(** What a value is once it has been written and read again. *)
Fixpoint decoded (v : any) : any :=
  match v with
  | List l => List (decoded <$> l)
  | Map m => Map (decoded <$> m)
  | AnyMap m => AnyMap (decoded <$> m)
  | Strs l => List ((λ s, Str s) <$> l)
  | PolicyMap p => Map ((λ l, List ((λ s, Str s) <$> l)) <$> p)
  | _ => v
  end.

(** [yaml_unmarshal] decodes into a [map[string]any]; [None] is an error, and
    [Some None] the nil map of an empty document.  [yaml_int], [yaml_string],
    [yaml_fields] and [yaml_items] decode a value into an [int], a [string], a
    struct and a slice. *)
Class Yaml := {
  yaml_marshal : gmap string any → option (list ascii);
  yaml_unmarshal : list ascii → option (option (gmap string any));
  yaml_int : any → option Z;
  yaml_string : any → option string;
  yaml_fields : any → option (gmap string any);
  yaml_items : any → option (list any);
  yaml_plain : gmap string any → bool;
  yaml_round_trip : ∀ document body, yaml_plain document = true → yaml_marshal document = Some body →
    yaml_unmarshal body = Some (Some (decoded <$> document));
  (** the decoder makes generic values only *)
  yaml_generic : ∀ body document, yaml_unmarshal body = Some (Some document) → decoded <$> document = document;
  yaml_int_of : ∀ n, - 2 ^ 63 ≤ n < 2 ^ 63 → yaml_int (Int n) = Some n;
  yaml_int_nil : yaml_int Nil = Some 0;
  yaml_string_of : ∀ s, yaml_string (Str s) = Some s;
  yaml_string_nil : yaml_string Nil = Some "";
  yaml_fields_of : ∀ m, yaml_fields (Map m) = Some m;
  yaml_items_of : ∀ l, yaml_items (List l) = Some l;
  yaml_items_nil : yaml_items Nil = Some []
}.

(** ** Reading documents *)
Lemma get_insert (document : gmap string any) key v : get (<[key := v]> document) key = v.
Proof. unfold get. by rewrite lookup_insert_eq. Qed.
Lemma get_insert_ne (document : gmap string any) key key' v : key' ≠ key → get (<[key' := v]> document) key = get document key.
Proof. intros Hne. unfold get. by rewrite lookup_insert_ne. Qed.
Lemma get_same (d d' : gmap string any) key : d' !! key = d !! key → get d' key = get d key.
Proof. unfold get. by intros ->. Qed.
Lemma get_decoded (document : gmap string any) key : get (decoded <$> document) key = decoded (get document key).
Proof. unfold get. rewrite lookup_fmap. by destruct (document !! key). Qed.
Lemma is_nil_true v : is_nil v = true ↔ v = Nil.
Proof. destruct v as [[]| | | | |]; done. Qed.
Lemma as_map_Some v m : as_map v = Some m ↔ v = Map m.
Proof. destruct v; cbn; split; by intros [= ->]. Qed.
Lemma as_list_Some v l : as_list v = Some l ↔ v = List l.
Proof. destruct v; cbn; split; by intros [= ->]. Qed.

(** ** Documents that agree outside some keys *)
Definition Kept (keys : list string) (d d' : gmap string any) : Prop := ∀ k, k ∉ keys → d' !! k = d !! k.
Lemma kept_refl keys d : Kept keys d d.
Proof. by intros k _. Qed.
Lemma kept_trans keys keys' d d' d'' : Kept keys d d' → Kept keys' d' d'' → Kept (keys ++ keys') d d''.
Proof. intros Hd Hd' k Hk. rewrite Hd', Hd; set_solver. Qed.
Lemma kept_weaken keys keys' d d' : Kept keys d d' → keys ⊆ keys' → Kept keys' d d'.
Proof. intros Hd Hs k Hk. apply Hd. set_solver. Qed.
Lemma kept_insert keys d d' key v : key ∈ keys → Kept keys d d' → Kept keys d (<[key := v]> d').
Proof. intros Hin Hd k Hk. rewrite lookup_insert_ne by (intros ->; done). by apply Hd. Qed.
Lemma kept_delete keys d d' key : key ∈ keys → Kept keys d d' → Kept keys d (delete key d').
Proof. intros Hin Hd k Hk. rewrite lookup_delete_ne by (intros ->; done). by apply Hd. Qed.
#[export] Hint Resolve kept_refl kept_insert kept_delete : go_list.

(** Membership of a literal key in a literal list. *)
Ltac decide_key := match goal with |- ?P => apply (bool_decide_unpack P); vm_compute; exact I end.
(** A chain of insertions of literal keys. *)
Ltac keeps := repeat (first [apply kept_insert; [decide_key|] | apply kept_delete; [decide_key|]]); first [apply kept_refl | assumption].

(** ** A codec of a table of documents, for closed examples *)
Lemma decoded_idemp v : decoded (decoded v) = decoded v.
Proof.
  induction v as [s|l IH|m IH|m IH|l|p] using any_induction; cbn; [done| | | | |].
  - f_equal. rewrite <- list_fmap_compose. by apply Forall_fmap_ext_1.
  - f_equal. rewrite <- map_fmap_compose. apply map_fmap_ext. intros k x Hx. by apply (IH k).
  - f_equal. rewrite <- map_fmap_compose. apply map_fmap_ext. intros k x Hx. by apply (IH k).
  - f_equal. rewrite <- list_fmap_compose. by apply list_fmap_ext.
  - f_equal. rewrite <- map_fmap_compose. apply map_fmap_ext. intros k x _. cbn. f_equal. rewrite <- list_fmap_compose. by apply list_fmap_ext.
Qed.
Definition table_index (table : list (gmap string any)) (document : gmap string any) : option nat :=
  fst <$> list_find (λ d, any_eqb (Map document) (Map d) = true) table.
(** A document is written as as many bytes as its place in the table. *)
Lemma table_round_trip table document n : table_index table document = Some n → table !! n = Some document.
Proof.
  unfold table_index. destruct (list_find _ table) as [[i d]|] eqn:E; [|done]. intros [= <-].
  apply list_find_Some in E as (E & Heq & _). apply any_eqb_eq in Heq. by simplify_eq.
Qed.
Definition table_yaml (table : list (gmap string any)) : Yaml.
Proof.
  refine {|
    yaml_marshal d := match table_index table d with Some n => Some (repeat (byte 0) n) | None => None end;
    yaml_unmarshal body := match table !! length body with Some d => Some (Some (decoded <$> d)) | None => None end;
    yaml_int v := match v with Int n => Some n | Nil => Some 0 | _ => None end;
    yaml_string v := match v with Str s => Some s | Nil => Some "" | _ => None end;
    yaml_fields v := match v with Map m => Some m | Nil => Some ∅ | _ => None end;
    yaml_items v := match v with List l => Some l | Nil => Some [] | _ => None end;
    yaml_plain d := bool_decide (is_Some (table_index table d)) |}; try done.
  - intros d body _. destruct (table_index table d) as [n|] eqn:Hn; [|done]. intros [= <-].
    rewrite repeat_length. by apply table_round_trip in Hn as ->.
  - intros body d. destruct (table !! length body) as [d'|]; [|done]. intros [= <-]. rewrite <- map_fmap_compose. apply map_fmap_ext. intros k x _. apply decoded_idemp.
Defined.
