(* ===== verification/GoFs.v ===== *)
(** * Package [os]: a directory tree with failing operations and crashes

    Paths are lists of components under one root.  Every operation is one step
    at which the environment may let it succeed, make it fail, or stop the whole
    process; a failure or crash in the middle of a write or of a recursive
    removal leaves a part of its effect.  What has completed stays: the sources
    sync files before renaming them and directories after, and these syncs are
    steps that can fail as well. *)
From Stdlib Require Import Ascii.
From S2P Require Import Prelude GoSort GoStrings.
Open Scope Z_scope.
Open Scope go_scope.

Abbreviation Path := (list string) (only parsing).
Abbreviation Bytes := (list ascii) (only parsing).

(** [EOther]: a symbolic link or any other irregular file. *)
Inductive entry := EFile (body : list ascii) | EDir | EOther.
#[export] Instance entry_eq_dec : EqDecision entry.
Proof. solve_decision. Defined.

(** A tree; its map's instances are named, so that binders need no types. *)
Abbreviation Fs := (@gmap (list string) (@list_eq_dec string String.eq_dec) (@list_countable string String.eq_dec String.countable) entry)
  (only parsing).

Inductive fs_error := ENotExist | EFs (message : string).
Definition os_IsNotExist (e : fs_error) : bool := match e with ENotExist => true | EFs _ => false end.

Inductive op_kind :=
| OpLstat | OpRead | OpReadDir | OpCreateTemp | OpChmod | OpWrite | OpSync | OpClose | OpRename | OpRemove
| OpMkdir | OpRemoveAll | OpRandom.
#[export] Instance op_kind_eq_dec : EqDecision op_kind.
Proof. solve_decision. Defined.

(** [done]: how far the operation got before it failed or the process died. *)
Inductive fault := Fine | Fails (message : string) (done : nat) | Crashes (done : nat).
#[export] Instance fault_eq_dec : EqDecision fault.
Proof. solve_decision. Defined.

(** What the environment does at each step, and the random names it provides. *)
Class GoOs := {
  faults : nat → op_kind → fault;
  (** os.CreateTemp: some name with the prefix *)
  temp_name : nat → Fs → list string → string → string;
  temp_name_prefix : ∀ t fs parent prefix, has_prefix (temp_name t fs parent prefix) prefix = true;
  (** sixteen bytes of crypto/rand in hexadecimal *)
  random_id : nat → string;
  random_id_hex : ∀ t, slen (random_id t) = 32 ∧ hex_decodes (random_id t) = true
}.

Record World := mkWorld { w_tick : nat; w_fs : Fs }.

Inductive outcome (A : Type) := Done (a : A) | Failed (e : fs_error) | Crashed.
Arguments Done {A} a.
Arguments Failed {A} e.
Arguments Crashed {A}.

Definition IO (A : Type) : Type := World → outcome A * World.

Definition throw {A} (e : fs_error) : IO A := λ w, (Failed e, w).
#[export] Instance io_ret : MRet IO := λ A a w, (Done a, w).
#[export] Instance io_bind : MBind IO := λ A B k m w,
  match m w with
  | (Done a, w) => k a w
  | (Failed e, w) => (Failed e, w)
  | (Crashed, w) => (Crashed, w)
  end.

(** The error as a value, for code that looks at it. *)
Definition attempt {A} (m : IO A) : IO (result fs_error A) := λ w,
  match m w with
  | (Done a, w) => (Done (Ok a), w)
  | (Failed e, w) => (Done (Err e), w)
  | (Crashed, w) => (Crashed, w)
  end.

(** [defer]: runs after success and failure, not after a crash; its own error
    is dropped, as in [defer os.Remove(name)]. *)
Definition deferred {A} (cleanup : IO unit) (m : IO A) : IO A := λ w,
  match m w with
  | (Crashed, w) => (Crashed, w)
  | (o, w) => match cleanup w with (Crashed, w) => (Crashed, w) | (_, w) => (o, w) end
  end.

(** A cleanup that runs only after an error, which it does not change. *)
Definition on_failure {A : Type} (cleanup : IO unit) (m : IO A) : IO A :=
  r ← attempt m;
  match r with Ok a => mret a | Err e => attempt cleanup ≫= λ _, throw e end.

(** [fmt.Errorf] around an error hides which one it was from [os.IsNotExist]. *)
Definition wrap {A} (message : string) (m : IO A) : IO A := λ w,
  match m w with
  | (Failed _, w) => (Failed (EFs message), w)
  | r => r
  end.

(** A check of the code that fails with its message. *)
Definition refuse (b : bool) (message : string) : IO unit := if b then throw (EFs message) else mret tt.
Definition lift {A} (r : result string A) : IO A :=
  match r with Ok a => mret a | Err e => throw (EFs e) end.

(** A [for range] loop. *)
Fixpoint for_each {A S} (body : S → A → IO S) (s : S) (l : list A) : IO S :=
  match l with
  | [] => mret s
  | x :: l => body s x ≫= λ s, for_each body s l
  end.

(** [filepath.Dir] of a path below the root. *)
Definition dir_of (p : list string) : list string := take (length p - 1) p.
Definition base_of (p : list string) : string := default "" (last p).

Definition below (p q : list string) : bool := bool_decide (take (length p) q = p).

Section os.
Context `{GoOs}.

Definition step {A : Type} (kind : op_kind) (partial : nat → Fs → Fs)
    (run : Fs → result fs_error A * Fs) : IO A := λ w,
  match faults (w_tick w) kind with
  | Fine =>
      match run (w_fs w) with
      | (Ok a, fs) => (Done a, mkWorld (S (w_tick w)) fs)
      | (Err e, fs) => (Failed e, mkWorld (S (w_tick w)) fs)
      end
  | Fails m n => (Failed (EFs m), mkWorld (S (w_tick w)) (partial n (w_fs w)))
  | Crashes n => (Crashed, mkWorld (S (w_tick w)) (partial n (w_fs w)))
  end.

Definition nothing (n : nat) (fs : Fs) := fs.

Definition lstat (p : list string) : IO entry :=
  step OpLstat nothing (λ fs, (match fs !! p with Some e => Ok e | None => Err ENotExist end, fs)).

(** Opening a file and reading all of it, up to [limit] bytes. *)
Definition read_limited (p : list string) (limit : Z) : IO (list ascii) :=
  step OpRead nothing (λ fs,
    (match fs !! p with
     | Some (EFile body) => Ok (take (Z.to_nat limit) body)
     | Some _ => Err (EFs "is not a regular file")
     | None => Err ENotExist
     end, fs)).

Definition chmod (p : list string) : IO unit :=
  step OpChmod nothing (λ fs, (match fs !! p with Some _ => Ok tt | None => Err ENotExist end, fs)).

(** Names in a directory, sorted, with whether each is a directory. *)
Definition children (p : list string) (fs : Fs) : list (string * bool) :=
  let names := omap (λ q, if bool_decide (dir_of q = p) && (length q =? S (length p))%nat then Some (base_of q) else None)
    (map_to_list fs).*1 in
  (λ name, (name, bool_decide (fs !! (p ++ [name]) = Some EDir))) <$> insertion_sort string_ltb names.
Definition read_dir (p : list string) : IO (list (string * bool)) :=
  step OpReadDir nothing (λ fs,
    (match fs !! p with
     | Some EDir => Ok (children p fs)
     | Some _ => Err (EFs "not a directory")
     | None => Err ENotExist
     end, fs)).

Definition create_temp (parent : list string) (prefix : string) : IO (list string) := λ w,
  let p := parent ++ [temp_name (w_tick w) (w_fs w) parent prefix] in
  step OpCreateTemp nothing (λ fs,
    match fs !! parent with
    | Some EDir => (Ok p, <[p := EFile []]> fs)
    | _ => (Err ENotExist, fs)
    end) w.

Definition write (p : list string) (body : list ascii) : IO unit :=
  step OpWrite (λ n fs, <[p := EFile (take n body)]> fs) (λ fs, (Ok tt, <[p := EFile body]> fs)).

Definition sync (p : list string) : IO unit := step OpSync nothing (λ fs, (Ok tt, fs)).
Definition close (p : list string) : IO unit := step OpClose nothing (λ fs, (Ok tt, fs)).

Definition rename (src dst : list string) : IO unit :=
  step OpRename nothing (λ fs,
    match fs !! src, fs !! dst with
    | None, _ => (Err ENotExist, fs)
    | Some _, Some EDir => (Err (EFs "file exists"), fs)
    | Some e, _ => (Ok tt, <[dst := e]> (delete src fs))
    end).

(** [os.Rename] of a directory moves what is below it. *)
Definition move_tree (src dst : list string) (fs : Fs) : Fs :=
  list_to_map ((λ entry : list string * entry,
    (if below src entry.1 then dst ++ drop (length src) entry.1 else entry.1, entry.2)) <$> map_to_list fs).
Definition rename_dir (src dst : list string) : IO unit :=
  step OpRename nothing (λ fs,
    match fs !! src, fs !! dst, fs !! dir_of dst with
    | Some EDir, None, Some EDir => (Ok tt, move_tree src dst fs)
    | Some EDir, None, _ => (Err ENotExist, fs)
    | Some EDir, Some _, _ => (Err (EFs "file exists"), fs)
    | _, _, _ => (Err ENotExist, fs)
    end).

Definition remove (p : list string) : IO unit :=
  step OpRemove nothing (λ fs,
    match fs !! p with
    | None => (Err ENotExist, fs)
    | Some EDir => if bool_decide (children p fs = []) then (Ok tt, delete p fs) else (Err (EFs "directory not empty"), fs)
    | Some _ => (Ok tt, delete p fs)
    end).

Definition mkdir (p : list string) : IO unit :=
  step OpMkdir nothing (λ fs,
    match fs !! p, fs !! dir_of p with
    | Some _, _ => (Err (EFs "file exists"), fs)
    | None, Some EDir => (Ok tt, <[p := EDir]> fs)
    | None, _ => (Err ENotExist, fs)
    end).

(** [os.MkdirAll] of the root of the tree. *)
Definition mkdir_root (p : list string) : IO unit :=
  step OpMkdir nothing (λ fs,
    match fs !! p with
    | Some EDir => (Ok tt, fs)
    | Some _ => (Err (EFs "not a directory"), fs)
    | None => (Ok tt, <[p := EDir]> fs)
    end).

(** [os.MkdirAll]: every directory of the path that is missing. *)
Definition prefixes (p : list string) : list (list string) := (λ n, take n p) <$> seq 0 (S (length p)).
Definition make_dirs (l : list (list string)) (fs : Fs) : Fs :=
  foldl (λ fs q, match fs !! q with None => <[q := EDir]> fs | Some _ => fs end) fs l.
Definition mkdir_all (p : list string) : IO unit :=
  step OpMkdir (λ n fs, make_dirs (take n (prefixes p)) fs)
    (λ fs, if forallb (λ q, match fs !! q with None | Some EDir => true | Some _ => false end) (prefixes p)
           then (Ok tt, make_dirs (prefixes p) fs) else (Err (EFs "not a directory"), fs)).

(** [os.MkdirTemp]: a new directory whose name starts with the prefix. *)
Definition mkdir_temp (parent : list string) (prefix : string) : IO (list string) := λ w,
  let p := parent ++ [temp_name (w_tick w) (w_fs w) parent prefix] in
  step OpMkdir nothing (λ fs,
    match fs !! parent, fs !! p with
    | Some EDir, None => (Ok p, <[p := EDir]> fs)
    | _, _ => (Err ENotExist, fs)
    end) w.

(** [os.RemoveAll] removes what is below the path, then the path. *)
Definition drop_paths (l : list (list string)) (fs : Fs) : Fs :=
  foldl (λ fs p, delete p fs) fs l.
Definition paths_below (p : list string) (fs : Fs) : list (list string) :=
  filter (λ q, below p q = true) (map_to_list fs).*1.
Definition remove_all (p : list string) : IO unit :=
  step OpRemoveAll
    (λ n fs, drop_paths (take n (filter (λ q, q ≠ p) (paths_below p fs))) fs)
    (λ fs, (Ok tt, drop_paths (paths_below p fs) fs)).

Definition new_random_id : IO string := λ w, step OpRandom nothing (λ fs, (Ok (random_id (w_tick w)), fs)) w.
End os.

(** ** Methods: a state that survives errors, over the file system

    A Go method with a pointer receiver changes its receiver whether or not it
    returns an error; a crash ends everything. *)
Definition Op (E S A : Type) : Type := S → IO (result E A * S).

Section op.
Context {E S : Type}.
#[export] Instance op_ret : MRet (Op E S) := λ A a s, mret (Ok a, s).
#[export] Instance op_bind : MBind (Op E S) := λ A B k m s,
  m s ≫= λ '(r, s), match r with Ok a => k a s | Err e => mret (Err e, s) end.
Definition raise {A : Type} (e : E) : Op E S A := λ s, mret (Err e, s).
Definition get_state : Op E S S := λ s, mret (Ok s, s).
Definition put_state (s : S) : Op E S unit := λ _, mret (Ok tt, s).
(** File operations; [f] is what the method makes of their error. *)
Definition io_as {A : Type} (f : fs_error → E) (m : IO A) : Op E S A := λ s,
  r ← attempt m; mret (match r with Ok a => Ok a | Err e => Err (f e) end, s).
(** The error as a value. *)
Definition attempt_op {A : Type} (m : Op E S A) : Op E S (result E A) := λ s,
  m s ≫= λ '(r, s), mret (Ok r, s).
Fixpoint op_each {A T : Type} (body : T → A → Op E S T) (t : T) (l : list A) : Op E S T :=
  match l with
  | [] => mret t
  | x :: l => body t x ≫= λ t, op_each body t l
  end.
End op.
