(* ===== verification/Download.v ===== *)
(** * download/client.go: bounded downloads

    [Fetch] over an HTTP transport: requests and their headers, redirects,
    validators scoped to the original origin, bounded bodies and the printable
    excerpt of an error response.  The transport, the server and the context are
    the environment: what they answer is a function of the requests made so far.
    Every request that leaves is recorded. *)
From Stdlib Require Import Ascii.
From S2P Require Import Prelude GoStrings GoNet GoJson ConfigValidate.
Open Scope Z_scope.
Open Scope go_scope.

Definition maxRedirects : Z := 5.
Definition maxErrorResponseBytes : Z := 4096.

Record Request := mkRequest {
  rq_URL : string;
  rq_Route : string;
  rq_ETag : string;
  rq_LastModified : string;
  rq_MaxBytes : Z;
  rq_AllowHTTP : bool;
  rq_UserAgent : string;
  rq_CaptureErrorBody : bool
}.
Record Response := mkResponse {
  rs_StatusCode : Z;
  rs_Body : list ascii;
  rs_DiagnosticBody : string;
  rs_ETag : string;
  rs_LastModified : string;
  rs_SubscriptionUserInfo : string
}.
Record StatusError := mkStatusError { se_Code : Z; se_ResponseBody : string }.

(** Errors of [Fetch]; [errors.Join] of the size limit and a status is one of them. *)
Inductive fetch_error :=
| FetchCancelled
| FetchTooLarge
| FetchTooLargeStatus (s : StatusError)
| FetchStatus (s : StatusError)
| FetchError (message : string).

Definition status_valid (s : StatusError) : bool := (400 <=? se_Code s) && (se_Code s <=? 599).
Definition HTTPResponseFrom (e : fetch_error) : option StatusError :=
  match e with
  | FetchStatus s | FetchTooLargeStatus s => if (100 <=? se_Code s) && (se_Code s <=? 599) then Some s else None
  | _ => None
  end.
Definition StatusErrorFrom (e : fetch_error) : option StatusError :=
  match HTTPResponseFrom e with Some s => if status_valid s then Some s else None | None => None end.

Definition ParseStatus (message : string) : option StatusError :=
  if negb (slen message =? 8) || negb (has_prefix message "HTTP ") then None else
  match atoi (of_bytes (drop 5 (bytes_of message))) with
  | Some code => if status_valid (mkStatusError code "") then Some (mkStatusError code "") else None
  | None => None
  end.

(** [StatusError.Error]. *)
Definition status_text (s : StatusError) : string := "HTTP " +:+ itoa (se_Code s).

(** ** Text of a response *)
(** The first rune of a text in bytes, and the rest; [None] at an invalid byte. *)
Definition next_rune (l : list ascii) : option (list ascii * list ascii) :=
  match l with
  | [] => None
  | c :: l' =>
      if code c <? 128 then Some ([c], l')
      else match utf8_shape c, l' with
           | Some (lo, hi, n), d :: l'' =>
               if cont_byte lo hi d && (length (take n l'') =? n)%nat && forallb (cont_byte 128 191) (take n l'')
               then Some (c :: d :: take n l'', drop n l'') else None
           | _, _ => None
           end
  end.

(** U+FFFD *)
Definition replacement_rune : list ascii := [byte 239; byte 191; byte 189].

(** [strings.ToValidUTF8(s, U+FFFD)] as a list of runes: one replacement for each
    run of invalid bytes.  Each step consumes a byte, so the length is enough. *)
Fixpoint valid_runes (fuel : nat) (in_bad : bool) (l : list ascii) : list (list ascii) :=
  match fuel, l with
  | S fuel, _ :: l' =>
      match next_rune l with
      | Some (r, rest) => r :: valid_runes fuel false rest
      | None => (if in_bad then [] else [replacement_rune]) ++ valid_runes fuel true l'
      end
  | _, _ => []
  end.

(** Bytes are dropped from the end until the text is valid. *)
Fixpoint drop_partial (fuel : nat) (l : list ascii) : list ascii :=
  match fuel with
  | O => l
  | S fuel => if utf8_scan None l then l else drop_partial fuel (removelast l)
  end.
Definition truncateUTF8 (text : list ascii) (limit : Z) : list ascii :=
  if len text <=? limit then text else
  let text := take (Z.to_nat limit) text in drop_partial (length text) text.

Definition truncated_suffix : list ascii := byte 10 :: bytes_of "[response truncated]".

(** ** The environment *)
(** What [Body.Read] returns: some bytes, then possibly an error; the list's end
    is the end of the body. *)
Inductive read_event := Chunk (data : list ascii) | ReadFails (data : list ascii).

Record httpRequest := mkHttpRequest {
  hq_Target : URL;
  hq_Route : string;
  hq_UserAgent : string;
  hq_IfNoneMatch : string;      (** "" when the header is not set *)
  hq_IfModifiedSince : string
}.
Record httpResponse := mkHttpResponse {
  hr_StatusCode : Z;
  hr_Header : string → string;
  hr_Body : list read_event;
  (** the timer closes the body while an error response is captured *)
  hr_TimedOut : bool
}.

Class GoHttp := {
  (** the configured transport factory: none, or a verdict per route *)
  transport_factory : option (string → result string bool);
  capture_errors : bool;
  (** client.Do after these earlier requests *)
  http_do : list httpRequest → httpRequest → option httpResponse;
  (** ctx.Err() is not nil at its n-th inspection *)
  ctx_done : nat → bool;
  (** http.NewRequest accepts the text of a URL *)
  request_ok : URL → bool;
  (** u.ResolveReference *)
  url_resolve : URL → URL → URL;
  (** strings.ToLower on any text *)
  lower_text : string → string;
  (** unicode.IsPrint of a rune in bytes *)
  is_print : list ascii → bool
}.

Record Net := mkNet { nt_sent : list httpRequest; nt_checks : nat }.
Definition NetM (A : Type) : Type := Net → result fetch_error A * Net.
#[export] Instance net_ret : MRet NetM := λ A a w, (Ok a, w).
#[export] Instance net_bind : MBind NetM := λ A B k m w,
  match m w with (Ok a, w) => k a w | (Err e, w) => (Err e, w) end.
Definition net_err {A} (e : fetch_error) : NetM A := λ w, (Err e, w).
Definition net_lift {A} (r : result string A) : NetM A := λ w,
  (match r with Ok a => Ok a | Err e => Err (FetchError e) end, w).

Section client.
Context `{GoNet} `{GoHttp}.

(** Inspecting the context. *)
Definition ctx_err : NetM unit := λ w,
  (if ctx_done (nt_checks w) then Err FetchCancelled else Ok tt, mkNet (nt_sent w) (S (nt_checks w))).

Definition printableResponseBody (data : list ascii) (truncated : bool) : list ascii :=
  let '(data, truncated) :=
    if maxErrorResponseBytes <? len data then (take (Z.to_nat maxErrorResponseBytes) data, true) else (data, truncated) in
  let result := concat (filter (λ r, (bool_decide (r = [byte 10]) || bool_decide (r = [byte 9]) || is_print r) = true)
                          (valid_runes (length data) false data)) in
  let truncated := truncated || (maxErrorResponseBytes <? len result) in
  if truncated then truncateUTF8 result (maxErrorResponseBytes - len truncated_suffix) ++ truncated_suffix else result.

(** [io.ReadAll] of at most [limit] bytes, its error dropped. *)
Fixpoint read_all (limit : Z) (body : list read_event) : list ascii :=
  match body with
  | [] => []
  | Chunk data :: body =>
      if limit <=? len data then take (Z.to_nat limit) data else data ++ read_all (limit - len data) body
  | ReadFails data :: _ => take (Z.to_nat limit) data
  end.

Definition captureErrorResponse (body : list read_event) (timedOut : bool) : string :=
  let data := read_all (maxErrorResponseBytes + 1) body in
  of_bytes (printableResponseBody data ((maxErrorResponseBytes <? len data) || timedOut)).

Definition boundedUsageHeader (value : string) : string := if 1024 <? slen value then "" else value.

(** What one [Body.Read] of a 32 KiB chunk contributes, with its error: [None]
    for a read that succeeds. *)
Definition readBody_error : string := "download: read body".

(** The loop of [readBody]: [buf] is what was kept, [size] what arrived. *)
Fixpoint readBody_loop (maxBytes : Z) (buf : list ascii) (size : Z) (body : list read_event)
    : NetM (list ascii * option fetch_error) :=
  ctx_err ≫= λ _, ctx_err ≫= λ _,
  match body with
  | [] => mret (buf, None)
  | e :: body =>
      let data := match e with Chunk data | ReadFails data => data end in
      let remaining := maxBytes - size in
      let size := size + len data in
      if (0 <? len data) && (maxBytes <? size)
      then mret (buf ++ take (Z.to_nat (Z.min (len data) (Z.max remaining 0))) data, Some FetchTooLarge)
      else match e with
           | Chunk _ => readBody_loop maxBytes (buf ++ data) size body
           | ReadFails _ => mret (buf ++ data, Some (FetchError readBody_error))
           end
  end.
Definition readBody (body : list read_event) (maxBytes : Z) : NetM (list ascii * option fetch_error) :=
  if maxBytes <=? 0 then net_err (FetchError "download: max bytes must be positive")
  else readBody_loop maxBytes [] 0 body.

(** ** URLs *)
Record originKey := mkOrigin { ok_Scheme : string; ok_Host : string; ok_Port : string }.
#[export] Instance originKey_eq_dec : EqDecision originKey.
Proof. solve_decision. Defined.

Definition effectivePort (u : URL) : string :=
  if negb (streq (url_port u) "") then url_port u
  else if streq (lower_text (u_Scheme u)) "http" then "80"
  else if streq (lower_text (u_Scheme u)) "https" then "443"
  else "".
Definition originOf (u : URL) : originKey :=
  mkOrigin (lower_text (u_Scheme u)) (lower_text (url_hostname u)) (effectivePort u).
Definition sameOrigin (u : URL) (origin : originKey) : bool := bool_decide (origin = originOf u).

Definition validateURL (u : URL) (allowHTTP : bool) : result string URL :=
  fail_if u_User u with "download: userinfo not allowed";
  if streq (u_Scheme u) "https" then
    fail_if streq (u_Host u) "" || negb (streq (u_Opaque u) "") with "download: invalid https url";
    Ok u
  else if allowHTTP && streq (u_Scheme u) "http" then
    fail_if streq (u_Host u) "" || negb (streq (u_Opaque u) "") with "download: invalid http url";
    Ok u
  else Err "download: must use https".

Definition parseURL (raw : string) (allowHTTP : bool) : result string URL :=
  let raw := trim_space raw in
  fail_if streq raw "" with "download: empty url";
  let raw := if has_prefix raw "//" then "https:" +:+ raw
             else if negb (contains raw "://") then "https://" +:+ raw else raw in
  match url_parse raw with
  | None => Err "download: invalid url"
  | Some u => validateURL u allowHTTP
  end.

Definition resolveRedirect (base : URL) (location : string) (allowHTTP : bool) : result string URL :=
  match url_parse location with
  | None => Err "download: invalid redirect url"
  | Some next => validateURL (if streq (u_Scheme next) "" then url_resolve base next else next) allowHTTP
  end.

Definition isRedirect (status : Z) : bool := bool_decide (status ∈ [301; 302; 303; 307; 308]).

Definition scopedValidators (header : string → string) (final : URL) (original : originKey) : string * string :=
  if negb (sameOrigin final original) then ("", "") else (header "ETag", header "Last-Modified").

(** ** Requests *)
Definition transport (route : string) : result string unit :=
  match transport_factory with
  | None => Err "download: missing transport factory"
  | Some factory =>
      fail_if negb (ValidRoute route) with "download: invalid route";
      match factory route with
      | Err e => Err e
      | Ok false => Err "download: missing transport"
      | Ok true => Ok tt
      end
  end.

Definition http_request (target : URL) (req : Request) (origin : originKey) : httpRequest :=
  let same := sameOrigin target origin in
  mkHttpRequest target (rq_Route req)
    (if same && negb (streq (rq_UserAgent req) "") then rq_UserAgent req else "clash-pulse")
    (if same then rq_ETag req else "") (if same then rq_LastModified req else "").

Definition client_do (target : URL) (req : Request) (origin : originKey) : NetM httpResponse :=
  if negb (request_ok target) then net_err (FetchError "download: invalid request") else λ w,
  let sent := http_request target req origin in
  let w' := mkNet (nt_sent w ++ [sent]) (nt_checks w) in
  match http_do (nt_sent w) sent with
  | Some response => (Ok response, w')
  | None => (ctx_err ≫= λ _, net_err (FetchError "download: request failed")) w'
  end.

(** What [Fetch] makes of a response that is no redirect. *)
Definition fetch_response (req : Request) (response : httpResponse) (current : URL) (origin : originKey) : NetM Response :=
  let capture := rq_CaptureErrorBody req || capture_errors in
  let info := boundedUsageHeader (hr_Header response "Subscription-Userinfo") in
  let '(etag, lastModified) := scopedValidators (hr_Header response) current origin in
  if hr_StatusCode response =? 304 then mret (mkResponse 304 [] "" etag lastModified info)
  else if (hr_StatusCode response <? 200) || (300 <=? hr_StatusCode response) then
    net_err (FetchStatus (mkStatusError (hr_StatusCode response)
      (if capture then captureErrorResponse (hr_Body response) (hr_TimedOut response) else "")))
  else
    '(body, failure) ← readBody (hr_Body response) (rq_MaxBytes req);
    match failure with
    | Some FetchTooLarge =>
        if capture then net_err (FetchTooLargeStatus (mkStatusError (hr_StatusCode response) (of_bytes (printableResponseBody body true))))
        else net_err FetchTooLarge
    | Some e => net_err e
    | None =>
        mret (mkResponse (hr_StatusCode response) body
          (if capture then captureErrorResponse [Chunk body] false else "") etag lastModified info)
    end.

(** The redirect loop: at most [more] requests are made. *)
Fixpoint fetch_loop (more : nat) (req : Request) (current : URL) (origin : originKey) : NetM Response :=
  match more with
  | O => net_err (FetchError "download: too many redirects")
  | S more =>
      ctx_err ≫= λ _,
      response ← client_do current req origin;
      if isRedirect (hr_StatusCode response) then
        let location := hr_Header response "Location" in
        if streq location "" then net_err (FetchError "download: redirect missing location") else
        next ← net_lift (resolveRedirect current location (rq_AllowHTTP req));
        fetch_loop more req next origin
      else fetch_response req response current origin
  end.

Definition agent_byte_ok (c : ascii) : bool := negb (code c <? 32) && negb (126 <? code c).

Definition Fetch (req : Request) : NetM Response :=
  ctx_err ≫= λ _,
  if rq_MaxBytes req <=? 0 then net_err (FetchError "download: max bytes must be positive")
  else if 256 <? slen (rq_UserAgent req) then net_err (FetchError "download: invalid user agent")
  else if negb (forallb agent_byte_ok (bytes_of (rq_UserAgent req))) then net_err (FetchError "download: invalid user agent")
  else
    net_lift (transport (rq_Route req)) ≫= λ _,
    current ← net_lift (parseURL (rq_URL req) (rq_AllowHTTP req));
    fetch_loop (Z.to_nat (maxRedirects + 1)) req current (originOf current).
End client.
