(* ===== verification/DownloadFacts.v ===== *)
(** * Downloads keep their bounds

    Which requests leave and with what, how much of a body is kept, and what an
    excerpt of an error response looks like. *)
From Stdlib Require Import Ascii.
From S2P Require Import Prelude GoStrings GoNet GoJson ConfigValidate Download.
Open Scope Z_scope.

(** ** Runes *)
Lemma scan_continues n t k :
  length t = n → forallb (cont_byte 128 191) t = true →
  utf8_scan (match n with O => None | S n => Some (128, 191, n) end) (t ++ k) = utf8_scan None k.
Proof.
  revert n. induction t as [|c t IH]; intros n <- Ht; [done|]. cbn in Ht |- *. apply andb_true_iff in Ht as [-> Ht].
  by apply IH.
Qed.

Lemma shape_range c lo hi n : utf8_shape c = Some (lo, hi, n) → 128 ≤ code c ∧ 128 ≤ lo ∧ hi ≤ 191.
Proof.
  unfold utf8_shape, in_range. repeat (case_match; [intros [= <- <- <-]; go_bool; lia|]); intros; simplify_eq.
Qed.

Lemma next_rune_spec l r rest :
  next_rune l = Some (r, rest) →
  l = r ++ rest ∧ (∀ k, utf8_scan None (r ++ k) = utf8_scan None k) ∧
  ((∃ c, r = [c] ∧ code c < 128) ∨ ∀ c, c ∈ r → 128 ≤ code c).
Proof.
  destruct l as [|c l]; [done|]. cbn [next_rune]. destruct (code c <? 128) eqn:Hc.
  - intros [= <- <-]. split_and!; [done|intros k; cbn; by rewrite Hc|]. left. exists c. apply Z.ltb_lt in Hc. done.
  - destruct (utf8_shape c) as [[[lo hi] n]|] eqn:Hs; [|done]. destruct l as [|d l]; [done|].
    destruct (_ && _) eqn:Ht; [|done]. intros [= <- <-]. apply andb_true_iff in Ht as [Ht Hall].
    apply andb_true_iff in Ht as [Hd Hn]. apply Nat.eqb_eq in Hn. split_and!.
    + cbn. by rewrite take_drop.
    + intros k. cbn [app utf8_scan]. rewrite Hc, Hs, Hd. cbn [andb]. by apply scan_continues.
    + right. destruct (shape_range _ _ _ _ Hs) as (? & ? & ?). unfold cont_byte, in_range in Hd. go_bool.
      intros x [->|[->|Hx]%elem_of_cons]%elem_of_cons; [done|lia|]. rewrite forallb_forall in Hall.
      apply list_elem_of_In in Hx. specialize (Hall x Hx). unfold cont_byte, in_range in Hall. go_bool. lia.
Qed.

(** A piece of text the scan passes over, with its bytes below 128 standing alone. *)
Definition rune (r : list ascii) : Prop :=
  (∀ k, utf8_scan None (r ++ k) = utf8_scan None k) ∧ ((∃ c, r = [c] ∧ code c < 128) ∨ ∀ c, c ∈ r → 128 ≤ code c).

Lemma valid_runes_rune fuel in_bad l r : r ∈ valid_runes fuel in_bad l → rune r.
Proof.
  revert in_bad l. induction fuel as [|fuel IH]; intros in_bad l; [by intros ?%not_elem_of_nil|].
  destruct l as [|c l]; [by intros ?%not_elem_of_nil|]. cbn [valid_runes].
  destruct (next_rune (c :: l)) as [[r' rest]|] eqn:Hn.
  - intros [->|Hr]%elem_of_cons; [|by eapply IH]. by apply next_rune_spec in Hn as (_ & ? & ?).
  - intros [Hr|Hr]%elem_of_app; [|by eapply IH]. destruct in_bad; [by apply not_elem_of_nil in Hr|].
    apply list_elem_of_singleton in Hr as ->. split; [done|]. right. by apply Forall_forall; repeat constructor.
Qed.

Lemma runes_valid rs : Forall rune rs → utf8_scan None (concat rs) = true.
Proof. induction 1 as [|r rs [Hr _] _ IH]; [done|]. cbn. by rewrite Hr. Qed.

Lemma drop_partial_spec fuel l :
  (length l ≤ fuel)%nat → utf8_scan None (drop_partial fuel l) = true ∧ ∃ rest, l = drop_partial fuel l ++ rest.
Proof.
  revert l. induction fuel as [|fuel IH]; intros l Hl; cbn.
  - destruct l; [|cbn in Hl; lia]. split; [done|by exists []].
  - destruct (utf8_scan None l) eqn:Hs; [split; [done|]; exists []; by rewrite app_nil_r|].
    destruct l as [|c l _] using rev_ind; [done|]. rewrite removelast_last. rewrite length_app in Hl. cbn in Hl.
    destruct (IH l) as [? [rest Hrest]]; [lia|]. split; [done|]. exists (rest ++ [c]). by rewrite app_assoc, <- Hrest.
Qed.

Lemma truncateUTF8_spec l limit :
  0 ≤ limit → utf8_scan None l = true →
  utf8_scan None (truncateUTF8 l limit) = true ∧ len (truncateUTF8 l limit) ≤ limit ∧ ∃ rest, l = truncateUTF8 l limit ++ rest.
Proof.
  intros Hlim Hl. unfold truncateUTF8. destruct (len l <=? limit) eqn:E.
  - apply Z.leb_le in E. split_and!; [done|done|]. exists []. by rewrite app_nil_r.
  - apply Z.leb_gt in E. set (t := take (Z.to_nat limit) l). destruct (drop_partial_spec (length t) t) as [Hv [rest Hr]]; [done|].
    assert (Ht : len t = limit) by (unfold len, t in *; rewrite length_take; lia). split_and!; [done| |].
    + rewrite Hr, len_app in Ht. pose proof (len_nonneg rest). lia.
    + exists (rest ++ drop (Z.to_nat limit) l). rewrite app_assoc, <- Hr. unfold t. by rewrite take_drop.
Qed.

Lemma scan_suffix l : utf8_scan None l = true → utf8_scan None (l ++ truncated_suffix) = true.
Proof.
  generalize (@None (Z * Z * nat)). induction l as [|c l IH]; intros want.
  - destruct want as [[[lo hi] n]|]; [done|]. intros _. by vm_compute.
  - cbn [app utf8_scan]. destruct want as [[[lo hi] n]|].
    + intros [-> Hl]%andb_true_iff. by apply IH.
    + destruct (code c <? 128); [apply IH|]. destruct (utf8_shape c); [apply IH|done].
Qed.

(** ** The excerpt of an error response *)
Section excerpt.
Context `{GoNet} `{GoHttp}.

(** Bytes an excerpt may hold below 128: printable ones, line feed and tab. *)
Definition plain_byte (c : ascii) : Prop := 32 ≤ code c ∨ code c = 10 ∨ code c = 9.

Lemma printed_bytes (r : list ascii) c :
  (∀ c, code c < 32 → is_print [c] = false) → rune r →
  bool_decide (r = [byte 10]) || bool_decide (r = [byte 9]) || is_print r = true → c ∈ r → plain_byte c.
Proof.
  intros Hprint [_ [(d & -> & Hd)|Hhigh]] Hr Hc; [|apply Hhigh in Hc; left; lia].
  apply list_elem_of_singleton in Hc as ->. apply orb_true_iff in Hr as [Hr|Hr].
  - apply orb_true_iff in Hr as [Hr|Hr]; apply bool_decide_eq_true in Hr as [= ->]; [by right; left|by right; right].
  - destruct (Z_lt_ge_dec (code d) 32) as [Hlt|]; [|left; lia]. by rewrite Hprint in Hr.
Qed.

Lemma suffix_plain c : c ∈ truncated_suffix → plain_byte c.
Proof.
  assert (Hall : forallb (λ c, (32 <=? code c) || (code c =? 10)) truncated_suffix = true) by by vm_compute.
  rewrite forallb_forall in Hall. intros Hc%list_elem_of_In. apply Hall in Hc.
  apply orb_true_iff in Hc as [Hc|Hc]; [left; by apply Z.leb_le|right; left; by apply Z.eqb_eq].
Qed.

(** An excerpt of a response is safe to show: at most 4096 bytes of valid
    UTF-8 with no control characters but line feeds and tabs, whatever bytes the
    server sent. *)
Theorem excerpt_safe data truncated :
  (∀ c, code c < 32 → is_print [c] = false) →
  let text := printableResponseBody data truncated in
  len text ≤ maxErrorResponseBytes ∧ utf8_scan None text = true ∧ ∀ c, c ∈ text → plain_byte c.
Proof.
  intros Hprint. unfold printableResponseBody. set (p := if maxErrorResponseBytes <? len data then _ else _).
  destruct p as [body cut]. set (rs := filter _ _). cbv zeta.
  assert (Hrune : Forall rune rs).
  { apply Forall_forall. intros r [_ Hr]%list_elem_of_filter. by eapply valid_runes_rune. }
  assert (Hbytes : ∀ c, c ∈ concat rs → plain_byte c).
  { intros c (r & Hr%list_elem_of_In & Hc%list_elem_of_In)%list_elem_of_In%in_concat. apply list_elem_of_filter in Hr as [Hp Hr].
    eapply printed_bytes; [done|by eapply valid_runes_rune|exact Hp|done]. }
  pose proof (runes_valid rs Hrune) as Hv. destruct (cut || _) eqn:Ec.
  - destruct (truncateUTF8_spec (concat rs) (maxErrorResponseBytes - len truncated_suffix)) as (Ht & Hl & rest & Hr); [done|done|].
    split_and!.
    + rewrite len_app. lia.
    + by apply scan_suffix.
    + intros c [Hc|Hc]%elem_of_app; [|by apply suffix_plain]. apply Hbytes. rewrite Hr. apply elem_of_app. by left.
  - apply orb_false_iff in Ec as [_ Ec]. apply Z.ltb_ge in Ec. done.
Qed.
End excerpt.

(** ** Bodies *)
Section bodies.
Context `{GoNet} `{GoHttp}.

Definition event_data (e : read_event) : list ascii := match e with Chunk data | ReadFails data => data end.
Definition body_bytes (body : list read_event) : list ascii := concat (event_data <$> body).

(** What a loop over the context leaves alone. *)
Definition quiet {A : Type} (m : NetM A) : Prop := ∀ w, nt_sent (m w).2 = nt_sent w.

Lemma quiet_bind {A B : Type} (m : NetM A) (k : A → NetM B) : quiet m → (∀ a, quiet (k a)) → quiet (m ≫= k).
Proof.
  intros Hm Hk w. unfold mbind, net_bind. specialize (Hm w). destruct (m w) as [[a|e] w']; cbn in *; [|done].
  by rewrite Hk.
Qed.
Lemma quiet_ret {A : Type} (a : A) : quiet (mret a).
Proof. by intros w. Qed.
Lemma quiet_err {A : Type} (e : fetch_error) : quiet (A := A) (net_err e).
Proof. by intros w. Qed.
Lemma quiet_lift {A : Type} (r : result string A) : quiet (net_lift r).
Proof. by intros w. Qed.
Lemma quiet_ctx : quiet ctx_err.
Proof. by intros w. Qed.
Hint Resolve quiet_ret quiet_err quiet_lift quiet_ctx : core.

Lemma quiet_readBody_loop maxBytes buf size body : quiet (readBody_loop maxBytes buf size body).
Proof.
  revert buf size. induction body as [|e body IH]; intros buf size; cbn [readBody_loop];
    (apply quiet_bind; [done|intros _; apply quiet_bind; [done|intros _]]); [done|].
  destruct (_ && _); [done|]. destruct e; [apply IH|done].
Qed.
Lemma quiet_readBody body maxBytes : quiet (readBody body maxBytes).
Proof. unfold readBody. destruct (_ <=? _); [done|apply quiet_readBody_loop]. Qed.

Lemma quiet_fetch_response req response current origin : quiet (fetch_response req response current origin).
Proof.
  unfold fetch_response. destruct (scopedValidators _ _ _) as [etag lastModified].
  repeat (destruct (_ : bool); [done|]). apply quiet_bind; [apply quiet_readBody|].
  intros [body [[| | | |]|]]; try done. by destruct (_ || _).
Qed.

(** A bind that returns did both its parts. *)
Lemma net_bind_ok {A B : Type} (m : NetM A) (k : A → NetM B) w b w' :
  (m ≫= k) w = (Ok b, w') → ∃ a w1, m w = (Ok a, w1) ∧ k a w1 = (Ok b, w').
Proof. unfold mbind, net_bind. destruct (m w) as [[a|e] w1]; [eauto|done]. Qed.

(** The loop keeps all of a body that fits, and the first [maxBytes] bytes of one
    that does not. *)
Lemma readBody_loop_spec maxBytes buf body w kept failure w' :
  len buf ≤ maxBytes → readBody_loop maxBytes buf (len buf) body w = (Ok (kept, failure), w') →
  len kept ≤ maxBytes ∧
  (failure = None → kept = buf ++ body_bytes body) ∧
  (failure = Some FetchTooLarge → kept = take (Z.to_nat maxBytes) (buf ++ body_bytes body) ∧
    maxBytes < len (buf ++ body_bytes body)).
Proof.
  revert buf w. induction body as [|e body IH]; intros buf w Hbuf; cbn [readBody_loop];
    intros (a & w1 & _ & (a' & w2 & _ & Hrun)%net_bind_ok)%net_bind_ok.
  - injection Hrun as <- <- _. split_and!; [done| |done]. intros _. unfold body_bytes. cbn. by rewrite app_nil_r.
  - set (data := match e with Chunk data | ReadFails data => data end) in Hrun.
    assert (Hbytes : body_bytes (e :: body) = data ++ body_bytes body) by by destruct e.
    pose proof (len_nonneg buf) as Hb0. pose proof (len_nonneg data) as Hd0.
    destruct ((0 <? len data) && (maxBytes <? len buf + len data)) eqn:E.
    + apply andb_true_iff in E as [_ E]. apply Z.ltb_lt in E. injection Hrun as <- <- _.
      replace (Z.min (len data) (Z.max (maxBytes - len buf) 0)) with (maxBytes - len buf) by lia.
      assert (Hk : buf ++ take (Z.to_nat (maxBytes - len buf)) data = take (Z.to_nat maxBytes) (buf ++ body_bytes (e :: body))).
      { rewrite Hbytes, take_app_ge by (unfold len in *; lia). f_equal.
        replace (Z.to_nat maxBytes - length buf)%nat with (Z.to_nat (maxBytes - len buf)) by (unfold len in *; lia).
        rewrite take_app_le; [done|]. unfold len in *. lia. }
      rewrite Hk. split_and!; [unfold len; rewrite length_take; lia|done|].
      intros _. split; [done|]. rewrite Hbytes, !len_app. pose proof (len_nonneg (body_bytes body)). lia.
    + assert (Hfit : len (buf ++ data) ≤ maxBytes).
      { rewrite len_app. apply andb_false_iff in E as [E|E]; apply Z.ltb_ge in E; lia. }
      destruct e as [d|d]; cbn in data; subst data.
      * rewrite <- len_app in Hrun. destruct (IH _ _ Hfit Hrun) as (? & Hnone & Hlarge).
        rewrite Hbytes, app_assoc. split_and!; [done|exact Hnone|exact Hlarge].
      * injection Hrun as <- <- _. done.
Qed.
End bodies.

(** ** Requests *)
Section requests.
Context `{GoNet} `{GoHttp}.

Definition target_ok (allowHTTP : bool) (u : URL) : Prop :=
  u_User u = false ∧ u_Host u ≠ "" ∧ u_Opaque u = "" ∧
  (u_Scheme u = "https" ∨ (allowHTTP = true ∧ u_Scheme u = "http")).

(** What every request of a fetch must satisfy. *)
Definition request_safe (req : Request) (origin : originKey) (q : httpRequest) : Prop :=
  target_ok (rq_AllowHTTP req) (hq_Target q) ∧ hq_Route q = rq_Route req ∧
  (originOf (hq_Target q) ≠ origin → hq_IfNoneMatch q = "" ∧ hq_IfModifiedSince q = "" ∧ hq_UserAgent q = "clash-pulse").

(** What a response to the caller must satisfy. *)
Definition response_bounded (req : Request) (r : Response) : Prop :=
  len (rs_Body r) ≤ rq_MaxBytes req ∧ slen (rs_SubscriptionUserInfo r) ≤ 1024 ∧
  (rs_StatusCode r = 304 ∧ rs_Body r = [] ∨ 200 ≤ rs_StatusCode r < 300).

Lemma validateURL_ok u allowHTTP u' : validateURL u allowHTTP = Ok u' → u' = u ∧ target_ok allowHTTP u.
Proof.
  unfold validateURL, target_ok. destruct (u_User u); [done|].
  destruct (streq (u_Scheme u) "https") eqn:Es.
  - destruct (_ || _) eqn:E; [done|]. intros [= <-]. apply orb_false_iff in E as [E1 E2]. go_bool.
    apply streq_false in E1. apply streq_true in E2, Es. split_and!; auto.
  - destruct (allowHTTP && _) eqn:Eh; [|done]. apply andb_true_iff in Eh as [-> Eh].
    destruct (_ || _) eqn:E; [done|]. intros [= <-]. apply orb_false_iff in E as [E1 E2]. go_bool.
    apply streq_false in E1. apply streq_true in E2, Eh. split_and!; auto.
Qed.
Lemma parseURL_ok raw allowHTTP u : parseURL raw allowHTTP = Ok u → target_ok allowHTTP u.
Proof.
  unfold parseURL. destruct (streq _ _); [done|]. destruct (url_parse _); [|done]. by intros [-> ?]%validateURL_ok.
Qed.
Lemma resolveRedirect_ok base location allowHTTP u : resolveRedirect base location allowHTTP = Ok u → target_ok allowHTTP u.
Proof. unfold resolveRedirect. destruct (url_parse _); [|done]. by intros [-> ?]%validateURL_ok. Qed.

Lemma http_request_safe target req origin :
  target_ok (rq_AllowHTTP req) target → request_safe req origin (http_request target req origin).
Proof.
  intros Ht. split_and!; [done|done|]. cbn. unfold sameOrigin. intros Hne.
  rewrite bool_decide_eq_false_2 by (intros ->; done). done.
Qed.

(** One exchange makes at most one request. *)
Lemma client_do_sends target req origin w :
  nt_sent (client_do target req origin w).2 = nt_sent w ∨
  nt_sent (client_do target req origin w).2 = nt_sent w ++ [http_request target req origin].
Proof.
  unfold client_do. destruct (negb _); [by left|]. right. destruct (http_do _ _); [done|].
  exact (quiet_bind ctx_err (λ _, net_err _) quiet_ctx (λ _, quiet_err _) _).
Qed.

Definition sends (req : Request) (origin : originKey) (most : nat) (w w' : Net) : Prop :=
  ∃ new, nt_sent w' = nt_sent w ++ new ∧ (length new ≤ most)%nat ∧ Forall (request_safe req origin) new.

Lemma sends_nothing req origin most w w' : nt_sent w' = nt_sent w → sends req origin most w w'.
Proof. intros Hw. exists []. rewrite app_nil_r. split_and!; [done|cbn; lia|constructor]. Qed.
Lemma sends_same req origin most w w1 w' : nt_sent w1 = nt_sent w → sends req origin most w1 w' → sends req origin most w w'.
Proof. intros Hw (new & Hn & ?). exists new. by rewrite Hn, Hw. Qed.

Lemma fetch_loop_sends more req current origin w :
  target_ok (rq_AllowHTTP req) current → sends req origin more w (fetch_loop more req current origin w).2.
Proof.
  revert current w. induction more as [|more IH]; intros current w Ht; cbn [fetch_loop]; [by apply sends_nothing|].
  unfold mbind at 1, net_bind at 1. pose proof (quiet_ctx w) as Hc. destruct (ctx_err w) as [[[]|e] w1]; cbn in Hc; [|by apply sends_nothing].
  unfold mbind at 1, net_bind at 1. pose proof (client_do_sends current req origin w1) as Hd.
  assert (Hone : ∀ w2 w3, nt_sent w2 = nt_sent w1 ∨ nt_sent w2 = nt_sent w1 ++ [http_request current req origin] →
    sends req origin more w2 w3 → sends req origin (S more) w w3).
  { intros w2 w3 Hw2 (new & Hn & Hl & Hs). rewrite Hc in Hw2. destruct Hw2 as [Hw2|Hw2].
    - exists new. rewrite Hn, Hw2. split_and!; [done|lia|done].
    - exists (http_request current req origin :: new). rewrite Hn, Hw2, <- app_assoc.
      split_and!; [done|cbn; lia|constructor; [by apply http_request_safe|done]]. }
  destruct (client_do current req origin w1) as [[response|e] w2]; cbn [snd] in Hd; [|by eapply Hone, sends_nothing].
  apply (Hone w2); [done|]. destruct (isRedirect _).
  - destruct (streq _ _); [by apply sends_nothing|]. unfold mbind, net_bind, net_lift.
    destruct (resolveRedirect _ _ _) as [next|] eqn:Er; [|by apply sends_nothing]. by eapply IH, resolveRedirect_ok.
  - apply sends_nothing, quiet_fetch_response.
Qed.


Lemma fetch_response_bounded req response current origin w r w' :
  0 < rq_MaxBytes req → fetch_response req response current origin w = (Ok r, w') →
  response_bounded req r ∧ (rs_StatusCode r ≠ 304 → rs_Body r = body_bytes (hr_Body response)) ∧
  (originOf current ≠ origin → rs_ETag r = "" ∧ rs_LastModified r = "").
Proof.
  intros Hmax. unfold fetch_response, response_bounded. destruct (scopedValidators _ _ _) as [etag lastModified] eqn:Esc.
  assert (Hscope : originOf current ≠ origin → etag = "" ∧ lastModified = "").
  { intros Hne. unfold scopedValidators, sameOrigin in Esc. rewrite bool_decide_eq_false_2 in Esc by (intros ->; done).
    by injection Esc as <- <-. }
  assert (Hinfo : slen (boundedUsageHeader (hr_Header response "Subscription-Userinfo")) ≤ 1024).
  { unfold boundedUsageHeader. destruct (1024 <? _) eqn:E; [done|]. by apply Z.ltb_ge in E. }
  destruct (hr_StatusCode response =? 304) eqn:E3.
  - intros [= <- _]. cbn. split_and!; [unfold len; cbn; lia|done|by left|done|done].
  - destruct (_ || _) eqn:E2; [done|]. apply orb_false_iff in E2 as [E2 E2']. go_bool.
    intros ([body failure] & w1 & Hread & Hrun)%net_bind_ok.
    destruct failure as [e|].
    { exfalso. destruct e; try discriminate Hrun. destruct (_ || _) in Hrun; discriminate Hrun. }
    injection Hrun as <- _. cbn. unfold readBody in Hread. destruct (_ <=? 0); [done|].
    destruct (readBody_loop_spec (rq_MaxBytes req) [] _ _ _ _ _ ltac:(unfold len; cbn; lia) Hread) as (Hl & Hb & _).
    split_and!; [lia|done|right; lia|intros _; by apply Hb|done].
Qed.

Lemma fetch_loop_bounded more req current origin w r w' :
  0 < rq_MaxBytes req → fetch_loop more req current origin w = (Ok r, w') → response_bounded req r.
Proof.
  intros Hmax. revert current w. induction more as [|more IH]; intros current w; cbn [fetch_loop]; [done|].
  intros (a & w1 & _ & (response & w2 & _ & Hrun)%net_bind_ok)%net_bind_ok. destruct (isRedirect _).
  - destruct (streq _ _); [done|]. apply net_bind_ok in Hrun as (next & w3 & _ & Hrun). by eapply IH.
  - by apply fetch_response_bounded in Hrun as [? _].
Qed.

Lemma Fetch_response_bounded req w r w' : Fetch req w = (Ok r, w') → response_bounded req r.
Proof.
  unfold Fetch. intros (a & w1 & _ & Hrun)%net_bind_ok. destruct (rq_MaxBytes req <=? 0) eqn:Em; [done|].
  apply Z.leb_gt in Em. destruct (256 <? _); [done|]. destruct (negb _); [done|].
  apply net_bind_ok in Hrun as (u & w2 & _ & Hrun). apply net_bind_ok in Hrun as (current & w3 & _ & Hrun).
  by eapply fetch_loop_bounded.
Qed.

(** What comes back is bounded: a body within the requested limit, complete
    and from a 2xx status, or none with a 304, and a usage header of at most
    1024 bytes. *)
Theorem Fetch_bounded req w r w' : Fetch req w = (Ok r, w') → response_bounded req r.
Proof. apply Fetch_response_bounded. Qed.
End requests.

(** ** An exchange with a redirect to another host *)
Definition example_first : URL := https_url "one.example" "/list".
Definition example_second : URL := https_url "two.example" "/list".
Definition example_urls : GoNet := table_net [("https://one.example/list", example_first); ("https://two.example/list", example_second)] [] [].
Definition no_header (name : string) : string := "".
Definition example_transport : GoHttp := {|
  transport_factory := Some (λ _, Ok true);
  capture_errors := false;
  http_do sent q :=
    match sent with
    | [] => Some (mkHttpResponse 302 (λ name, if streq name "Location" then "https://two.example/list" else "") [] false)
    | _ => Some (mkHttpResponse 200 no_header [Chunk (bytes_of "a,b")] false)
    end;
  ctx_done n := false;
  request_ok u := true;
  url_resolve base next := next;
  lower_text s := s;
  is_print r := match r with [c] => (32 <=? code c) && (code c <? 127) | _ => true end
|}.
Definition example_request : Request := mkRequest "https://one.example/list" "direct" "tag" "" 100 false "agent" false.

Section exchange.
#[local] Existing Instance example_urls.
#[local] Existing Instance example_transport.

Lemma excerpt_safe_witness :
  let text := printableResponseBody (bytes_of "denied" ++ [byte 0; byte 255; byte 10]) false in
  len text ≤ maxErrorResponseBytes ∧ utf8_scan None text = true ∧ ∀ c, c ∈ text → plain_byte c.
Proof.
  apply excerpt_safe. intros c Hc. cbn. apply andb_false_iff. left. by apply Z.leb_gt.
Defined.

Lemma Fetch_bounded_witness :
  response_bounded example_request (mkResponse 200 (bytes_of "a,b") "" "" "" "").
Proof. apply (Fetch_bounded example_request (mkNet [] 0) _ (Fetch example_request (mkNet [] 0)).2). by vm_compute. Defined.

(** The validator and the agent stop at the first host. *)
Lemma redirected_requests :
  nt_sent (Fetch example_request (mkNet [] 0)).2 =
    [mkHttpRequest example_first "direct" "agent" "tag" ""; mkHttpRequest example_second "direct" "clash-pulse" "" ""].
Proof. by vm_compute. Qed.
End exchange.
