(* ===== verification/ResourceStore.v ===== *)
(** * resources/registry.go: the committed resource store

    The manifest of committed resources, its file and its atomic replacement,
    managed file names, and reading and verifying managed files.  Paths are
    relative to the managed home, which is the root of the tree. *)
From Stdlib Require Import Ascii.
From S2P Require Import Prelude GoStrings GoSort GoJson GoFs ConfigTypes ResourceValidate.
Open Scope Z_scope.
Open Scope go_scope.

Definition DefaultMaxBytes : Z := Z.shiftl 64 20.
Definition stateFileName : string := ".resources.json".
Definition legacyDirName : string := "generations".
Definition transactionFileName : string := ".resources.txn".
Definition maxStateBytes : Z := Z.shiftl 1 20.

(** SHA-256 in hexadecimal. *)
Class GoHash := {
  digest : list ascii → string;
  digest_hex : ∀ body, slen (digest body) = 64 ∧ hex_decodes (digest body) = true
}.

Record resourceState := mkResourceState {
  rst_SHA256 : string;
  rst_SourceHash : string;
  rst_ETag : string;
  rst_LastModified : string;
  rst_Kind : string;
  rst_Format : string;
  rst_RuleType : string;
  rst_LastCheckedUnix : Z;
  rst_LastSuccessUnix : Z
}.
#[export] Instance resourceState_eq_dec : EqDecision resourceState.
Proof. solve_decision. Defined.

(** [Resources == nil] is [None]. *)
Record stateDocument := mkStateDocument {
  sd_Version : Z;
  sd_Generation : string;
  sd_CommitID : string;
  sd_Resources : option (gmap string resourceState)
}.
#[export] Instance stateDocument_eq_dec : EqDecision stateDocument.
Proof. solve_decision. Defined.

Definition resources_of (d : stateDocument) : gmap string resourceState := default ∅ (sd_Resources d).
Definition empty_state : stateDocument := mkStateDocument 2 "" "" (Some ∅).

(** [cloneState] allocates a map for a nil one. *)
Definition cloneState (d : stateDocument) : stateDocument :=
  mkStateDocument (sd_Version d) (sd_Generation d) (sd_CommitID d) (Some (resources_of d)).

Definition sameResourceState (l r : resourceState) : bool :=
  streq (rst_Kind l) (rst_Kind r) && streq (rst_Format l) (rst_Format r) && streq (rst_RuleType l) (rst_RuleType r).
Definition declared_state (r : Resource) : resourceState :=
  mkResourceState "" "" "" "" (r_Kind r) (r_Format r) (r_RuleType r) 0 0.
Definition resourceStateMatches (r : Resource) (s : resourceState) : bool := sameResourceState (declared_state r) s.

(** [config.Resource{ID: id, Kind: ..., Enabled: true}] *)
Definition resource_at (id : string) (s : resourceState) : Resource :=
  mkResource id (rst_Kind s) (rst_Format s) (rst_RuleType s) "" true 0 "".

Definition formatExtension (format : string) : string :=
  if streq format FormatDAT then ".dat" else if streq format FormatMMDB then ".mmdb"
  else if streq format FormatYAML then ".yaml" else if streq format FormatText then ".txt"
  else if streq format FormatMRS then ".mrs" else ".invalid".

(** Hexadecimal text of a fixed width. *)
Definition hex_of_width (n : Z) (s : string) : bool := (slen s =? n) && hex_decodes s.

Definition validGeneration (value : string) : bool :=
  has_prefix value "gen-" && (slen value =? 36) && hex_decodes (trim_prefix value "gen-").

Definition transactionDirPrefix : string := ".resources-txn-".
Definition stageDirPrefix : string := ".resource-stage-".

Definition validPrivateDir (name : string) : bool :=
  if has_prefix name transactionDirPrefix && (slen name =? slen transactionDirPrefix + 32)
  then hex_decodes (trim_prefix name transactionDirPrefix)
  else if has_prefix name stageDirPrefix && (slen name =? slen stageDirPrefix + 32)
  then hex_decodes (trim_prefix name stageDirPrefix)
  else false.

Section store.
Context `{GoOs} `{GoHash} `{RuleParsers} `{JsonCodec stateDocument}.

Definition ManagedFilename (r : Resource) : string :=
  digest (bytes_of (r_ID r)) +:+
  (if str_in (r_Format r) [FormatYAML; FormatText; FormatMRS] then formatExtension (r_Format r) else ".invalid").

Definition filename (r : Resource) : string :=
  if streq (r_Kind r) ResourceGeoIP then "geoip.dat"
  else if streq (r_Kind r) ResourceGeoSite then "geosite.dat"
  else if streq (r_Kind r) ResourceMMDB then "Country.mmdb"
  else ManagedFilename r.

Definition resourceFilename (id : string) (s : resourceState) : string := filename (resource_at id s).

(** The managed name of every entry, and the entry of every name. *)
Definition add_name (names : gmap string string) (entry : string * resourceState) : result string (gmap string string) :=
  match ValidateDeclaration (resource_at entry.1 entry.2) with
  | Err _ => Err "resources: invalid manifest resource"
  | Ok _ =>
      let name := resourceFilename entry.1 entry.2 in
      fail_if bool_decide (is_Some (names !! name)) with "resources: duplicate manifest destination";
      Ok (<[name := entry.1]> names)
  end.
Definition manifestNames (d : stateDocument) : result string (gmap string string) :=
  fold_each add_name ∅ (map_to_list (resources_of d)).

Definition check_state_entry (entry : string * resourceState) : result string unit :=
  let '(id, s) := entry in
  fail_if negb (ValidStableID id) || negb (slen (rst_SHA256 s) =? 64) ||
          (negb (streq (rst_SourceHash s) "") && negb (slen (rst_SourceHash s) =? 64)) ||
          (4096 <? slen (rst_ETag s)) || (4096 <? slen (rst_LastModified s))
    with "resources: invalid metadata entry";
  fail_if negb (hex_decodes (rst_SHA256 s)) with "resources: invalid metadata hash";
  fail_if negb (streq (rst_SourceHash s) "") && negb (hex_decodes (rst_SourceHash s))
    with "resources: invalid source identity";
  match ValidateDeclaration (resource_at id s) with
  | Err _ => Err "resources: invalid metadata declaration"
  | Ok _ => Ok tt
  end.

Definition validateStateDocument (d : stateDocument) : result string unit :=
  fail_if (negb (sd_Version d =? 1) && negb (sd_Version d =? 2)) || negb (bool_decide (is_Some (sd_Resources d)))
    with "resources: unsupported metadata version";
  fail_if (sd_Version d =? 1) && negb (streq (sd_Generation d) "") && negb (validGeneration (sd_Generation d))
    with "resources: invalid legacy generation";
  fail_if (sd_Version d =? 2) && negb (streq (sd_Generation d) "")
    with "resources: v2 metadata cannot reference a generation";
  fail_if (sd_Version d =? 2) && negb (bool_decide (resources_of d = ∅)) && streq (sd_CommitID d) ""
    with "resources: committed metadata has no identity";
  fail_if negb (streq (sd_CommitID d) "") && negb (hex_of_width 32 (sd_CommitID d))
    with "resources: invalid metadata commit identity";
  each check_state_entry (map_to_list (resources_of d)) ≫= λ _,
  match manifestNames d with Err e => Err e | Ok _ => Ok tt end.

(** ** Files *)
Definition home : list string := [].
Definition state_path : list string := home ++ [stateFileName].
Definition journal_path : list string := home ++ [transactionFileName].

(** A whole document: one value and nothing behind it. *)
Definition json_document {A} `{JsonCodec A} (data : list ascii) : result string A :=
  match json_decode data with
  | Err _ => Err "resources: decode"
  | Ok (v, rest) =>
      match json_next_value rest with NextEOF => Ok v | _ => Err "resources: invalid trailing data" end
  end.

Definition loadStateFile (path : list string) : IO stateDocument :=
  info ← attempt (lstat path);
  match info with
  | Err e => if os_IsNotExist e then mret empty_state else throw (EFs "resources: inspect metadata")
  | Ok (EFile body) =>
      refuse (maxStateBytes <? len body) "resources: unsafe metadata file" ≫= λ _,
      wrap "resources: secure metadata file" (chmod path) ≫= λ _,
      wrap "resources: read metadata" (read_limited path maxStateBytes) ≫= λ data,
      lift (json_document data) ≫= λ document,
      lift (validateStateDocument document) ≫= λ _,
      mret document
  | Ok _ => throw (EFs "resources: unsafe metadata file")
  end.

(** The destination of an atomic replacement must be absent or a regular file. *)
Definition check_destination (path : list string) (unsafe : string) : IO unit :=
  info ← attempt (lstat path);
  match info with
  | Ok (EFile _) => mret tt
  | Ok _ => throw (EFs unsafe)
  | Err e => if os_IsNotExist e then mret tt else throw e
  end.

(** The temporary file both atomic writers fill, close and rename. *)
Definition replace_through_temp (path parent : list string) (prefix : string) (body : list ascii) : IO unit :=
  name ← create_temp parent prefix;
  deferred (remove name)
    (chmod name ≫= λ _, write name body ≫= λ _, sync name ≫= λ _, close name ≫= λ _, rename name path).

Definition writeStateAtomic (path parent : list string) (d : stateDocument) : IO unit :=
  data ← lift (json_marshal d);
  refuse (maxStateBytes <? len data) "resources: metadata exceeds size limit" ≫= λ _,
  check_destination path "resources: refusing unsafe metadata destination" ≫= λ _,
  name ← create_temp parent ".resource-state-";
  deferred (remove name)
    (chmod name ≫= λ _, write name data ≫= λ _, sync name ≫= λ _, close name ≫= λ _, rename name path ≫= λ _,
     attempt (sync parent) ≫= λ _, mret tt).

Definition verifyRealDirectory (path parent : list string) : IO unit :=
  refuse (negb (bool_decide (dir_of path = parent))) "invalid generation path" ≫= λ _,
  info ← lstat path;
  match info with EDir => mret tt | _ => throw (EFs "generation path is not a real directory") end.

Definition readManaged (path : list string) (maxBytes : Z) : IO (list ascii) :=
  info ← lstat path;
  match info with
  | EFile body =>
      refuse ((len body <=? 0) || (maxBytes <? len body)) "managed file is empty or exceeds size limit" ≫= λ _,
      read_limited path (maxBytes + 1) ≫= λ data,
      refuse (maxBytes <? len data) "managed file exceeds size limit" ≫= λ _,
      mret data
  | _ => throw (EFs "managed destination is not a regular non-symlink file")
  end.

Definition writeStaged (path parent : list string) (body : list ascii) : IO unit :=
  refuse (negb (bool_decide (dir_of path = parent))) "resources: invalid staged destination" ≫= λ _,
  info ← attempt (lstat path);
  match info with
  | Ok (EFile _) => throw (EFs "resources: staged destination already exists")
  | Ok _ => throw (EFs "resources: refusing unsafe staged destination")
  | Err e => if os_IsNotExist e then mret tt else throw (EFs "resources: inspect staged destination")
  end ≫= λ _,
  wrap "resources: stage resource" (replace_through_temp path parent ".resource-" body).

Definition writeManagedAtomic (path parent : list string) (body : list ascii) : IO unit :=
  refuse (negb (bool_decide (dir_of path = parent))) "resources: invalid managed destination" ≫= λ _,
  check_destination path "resources: refusing unsafe managed destination" ≫= λ _,
  name ← create_temp parent ".resource-promote-";
  deferred (remove name)
    (chmod name ≫= λ _, write name body ≫= λ _, sync name ≫= λ _, close name ≫= λ _, rename name path ≫= λ _,
     sync parent).

Definition removeManaged (path parent : list string) : IO unit :=
  refuse (negb (bool_decide (dir_of path = parent))) "resources: invalid managed removal" ≫= λ _,
  info ← attempt (lstat path);
  match info with
  | Err e => if os_IsNotExist e then mret tt else throw e
  | Ok (EFile _) => remove path ≫= λ _, sync parent
  | Ok _ => throw (EFs "resources: refusing unsafe managed removal")
  end.

(** The bytes of one entry, if they are what the manifest says. *)
Definition verify_entry (maxBytes : Z) (entry : string * resourceState) : IO unit :=
  let '(id, s) := entry in
  data ← attempt (readManaged (home ++ [resourceFilename id s]) maxBytes);
  match data with
  | Ok body =>
      refuse (negb (streq (digest body) (rst_SHA256 s)) || negb (is_ok (ValidateResource (resource_at id s) body)))
        "resources: promoted resource is invalid or changed"
  | Err _ => throw (EFs "resources: promoted resource is invalid or changed")
  end.
Definition verifyManifestFiles (d : stateDocument) (maxBytes : Z) : IO unit :=
  for_each (λ _ entry, verify_entry maxBytes entry) tt (map_to_list (resources_of d)).

Definition ensureRoot : IO unit :=
  info ← attempt (lstat home);
  match info with Ok EDir => mret tt | _ => throw (EFs "resources: managed root is unsafe") end.

Definition makePrivateDir (parent : list string) (prefix : string) : IO (list string) :=
  id ← new_random_id;
  let path := parent ++ [prefix +:+ id] in
  mkdir path ≫= λ _, mret path.
End store.
