(* ===== verification/ResourceTransaction.v ===== *)
(** * resources/transaction.go: promotion under a recovery journal

    [promote] and [promoteMetadata] replace the committed files and manifest
    behind a journal; [finalizeTransaction] accepts the result, [restoreTransaction]
    undoes it, and [recoverTransaction] does one or the other after a restart. *)
From Stdlib Require Import Ascii.
From S2P Require Import Prelude GoStrings GoSort GoJson GoFs ConfigTypes ResourceValidate ResourceStore.
Open Scope Z_scope.
Open Scope go_scope.

Record transactionFile := mkTransactionFile {
  tf_Name : string;
  tf_Backup : string;
  tf_HadPrevious : bool;
  tf_PreviousSHA256 : string;
  tf_CandidateSHA256 : string
}.
Record transactionJournal := mkTransactionJournal {
  tj_Version : Z;
  tj_Phase : string;
  tj_BackupDir : string;
  tj_MaxBytes : Z;
  tj_Previous : stateDocument;
  tj_Candidate : stateDocument;
  tj_MetadataOnly : bool;
  tj_Files : list transactionFile
}.

#[export] Instance transactionFile_eq_dec : EqDecision transactionFile.
Proof. solve_decision. Defined.
#[export] Instance transactionJournal_eq_dec : EqDecision transactionJournal.
Proof. solve_decision. Defined.

Definition with_phase (j : transactionJournal) (phase : string) : transactionJournal :=
  mkTransactionJournal (tj_Version j) phase (tj_BackupDir j) (tj_MaxBytes j) (tj_Previous j) (tj_Candidate j)
    (tj_MetadataOnly j) (tj_Files j).

(** [fmt.Sprintf("%08x", index)] for an index below 2^32. *)
Definition hex_digit (n : Z) : ascii := byte (if n <? 10 then 48 + n else 87 + n).
Definition hex8 (n : Z) : string :=
  of_bytes ((λ i, hex_digit (Z.land (Z.shiftr n i) 15)) <$> [28; 24; 20; 16; 12; 8; 4; 0]).
Definition backup_name (index : Z) : string := "file-" +:+ hex8 index +:+ ".bak".

Definition validBackupName (name : string) : bool :=
  (slen name =? 17) && has_prefix name "file-" && has_suffix name ".bak" &&
  negb (contains_any name "/") && hex_decodes (of_bytes (take 8 (drop 5 (bytes_of name)))).

(** What the scan of a journal's files has seen. *)
Record Seen := mkSeen { sn_names : gset string; sn_backups : gset string }.

Section transaction.
Context `{GoOs} `{GoHash} `{RuleParsers} `{JsonCodec stateDocument} `{JsonCodec transactionJournal}.

Definition resource_sha (d : stateDocument) (id : string) : string :=
  match resources_of d !! id with Some s => rst_SHA256 s | None => "" end.

(** A metadata-only transaction keeps every name, owner, hash and declaration. *)
Definition check_unchanged (j : transactionJournal) (candidate : gmap string string) (entry : string * string)
    : result string unit :=
  let '(name, priorID) := entry in
  match candidate !! name with
  | None => Err "resources: metadata-only transaction changes resource bytes or declaration"
  | Some candidateID =>
      match resources_of (tj_Previous j) !! priorID, resources_of (tj_Candidate j) !! candidateID with
      | Some before, Some after =>
          fail_if negb (streq priorID candidateID) || negb (streq (rst_SHA256 before) (rst_SHA256 after)) ||
                  negb (sameResourceState before after)
            with "resources: metadata-only transaction changes resource bytes or declaration";
          Ok tt
      | _, _ => Err "resources: metadata-only transaction changes resource bytes or declaration"
      end
  end.

Definition check_file (j : transactionJournal) (previous candidate : gmap string string) (seen : Seen)
    (file : transactionFile) : result string Seen :=
  fail_if negb (bool_decide (is_Some (previous !! tf_Name file))) && negb (bool_decide (is_Some (candidate !! tf_Name file)))
    with "resources: transaction contains unmanaged destination";
  fail_if bool_decide (tf_Name file ∈ sn_names seen) with "resources: duplicate transaction destination";
  let names := {[tf_Name file]} ∪ sn_names seen in
  let expectPrevious := bool_decide (is_Some (previous !! tf_Name file)) && (sd_Version (tj_Previous j) =? 2) in
  fail_if negb (Bool.eqb (tf_HadPrevious file) expectPrevious) with "resources: transaction prior-file identity mismatch";
  (if expectPrevious then
     fail_if negb (streq (tf_PreviousSHA256 file) (resource_sha (tj_Previous j) (default "" (previous !! tf_Name file)))) ||
             negb (validBackupName (tf_Backup file))
       with "resources: invalid transaction backup entry";
     fail_if bool_decide (tf_Backup file ∈ sn_backups seen) with "resources: duplicate transaction backup";
     Ok ({[tf_Backup file]} ∪ sn_backups seen)
   else
     fail_if negb (streq (tf_Backup file) "") || negb (streq (tf_PreviousSHA256 file) "")
       with "resources: unexpected transaction backup";
     Ok (sn_backups seen)) ≫= λ backups,
  match candidate !! tf_Name file with
  | Some candidateID =>
      fail_if negb (streq (tf_CandidateSHA256 file) (resource_sha (tj_Candidate j) candidateID))
        with "resources: transaction candidate identity mismatch";
      Ok (mkSeen names backups)
  | None =>
      fail_if negb (streq (tf_CandidateSHA256 file) "") with "resources: unexpected candidate transaction hash";
      Ok (mkSeen names backups)
  end.

Definition names_or_empty (d : stateDocument) : gmap string string :=
  match manifestNames d with Ok names => names | Err _ => ∅ end.

Definition validateJournal (j : transactionJournal) : result string unit :=
  fail_if negb (tj_Version j =? 1) || negb (str_in (tj_Phase j) ["promoting"; "accepted"]) || (tj_MaxBytes j <=? 0) ||
          negb (validPrivateDir (tj_BackupDir j)) || negb (has_prefix (tj_BackupDir j) transactionDirPrefix)
    with "resources: invalid transaction journal";
  validateStateDocument (tj_Previous j) ≫= λ _,
  fail_if negb (is_ok (validateStateDocument (tj_Candidate j))) || negb (sd_Version (tj_Candidate j) =? 2)
    with "resources: invalid candidate transaction manifest";
  let previous := names_or_empty (tj_Previous j) in
  let candidate := names_or_empty (tj_Candidate j) in
  if tj_MetadataOnly j then
    fail_if negb (sd_Version (tj_Previous j) =? 2) || negb (bool_decide (tj_Files j = [])) ||
            negb (bool_decide (size previous = size candidate))
      with "resources: invalid metadata-only transaction";
    each (check_unchanged j candidate) (map_to_list previous)
  else
    fold_each (check_file j previous candidate) (mkSeen ∅ ∅) (tj_Files j) ≫= λ seen,
    fail_if negb (bool_decide (size (sn_names seen) = size (dom previous ∪ dom candidate)))
      with "resources: incomplete transaction journal";
    Ok tt.

Definition writeJSONAtomic (path parent : list string) (j : transactionJournal) : IO unit :=
  data ← lift (json_marshal j);
  refuse (maxStateBytes <? len data) "resources: transaction journal exceeds size limit" ≫= λ _,
  writeManagedAtomic path parent data.

Definition readTransaction (path : list string) : IO (transactionJournal * list string) :=
  info ← lstat path;
  match info with
  | EFile body =>
      refuse (maxStateBytes <? len body) "resources: unsafe transaction journal" ≫= λ _,
      chmod path ≫= λ _,
      read_limited path (len body) ≫= λ data,
      lift (json_document data) ≫= λ journal,
      lift (validateJournal journal) ≫= λ _,
      let dir := home ++ [tj_BackupDir journal] in
      r ← attempt (verifyRealDirectory dir home);
      match r with
      | Ok _ => mret (journal, dir)
      | Err e => if streq (tj_Phase journal) "accepted" && os_IsNotExist e then mret (journal, dir)
                 else throw (EFs "resources: transaction backup directory is unsafe")
      end
  | _ => throw (EFs "resources: unsafe transaction journal")
  end.

(** One journalled destination back to what it held before. *)
Definition restore_file (backupDir : list string) (maxBytes : Z) (file : transactionFile) : IO unit :=
  let path := home ++ [tf_Name file] in
  if tf_HadPrevious file then
    body ← attempt (readManaged (backupDir ++ [tf_Backup file]) maxBytes);
    match body with
    | Ok body =>
        refuse (negb (streq (digest body) (tf_PreviousSHA256 file))) "resources: transaction backup is missing or changed" ≫= λ _,
        writeManagedAtomic path home body
    | Err _ => throw (EFs "resources: transaction backup is missing or changed")
    end
  else
    info ← attempt (lstat path);
    match info with
    | Err e => if os_IsNotExist e then mret tt else throw e
    | Ok _ =>
        body ← attempt (readManaged path maxBytes);
        match body with
        | Ok body =>
            refuse (streq (tf_CandidateSHA256 file) "" || negb (streq (digest body) (tf_CandidateSHA256 file)))
              "resources: refusing to remove changed transaction destination" ≫= λ _,
            remove path
        | Err _ => throw (EFs "resources: refusing to remove changed transaction destination")
        end
    end.

(** [os.Remove], content with an absent file. *)
Definition remove_if_present (path : list string) : IO unit :=
  r ← attempt (remove path);
  match r with Ok _ => mret tt | Err e => if os_IsNotExist e then mret tt else throw e end.

Definition restoreTransaction (path backupDir : list string) (j : transactionJournal) : IO unit :=
  for_each (λ _ file, restore_file backupDir (tj_MaxBytes j) file) tt (tj_Files j) ≫= λ _,
  sync home ≫= λ _,
  writeStateAtomic state_path home (tj_Previous j) ≫= λ _,
  remove_if_present path ≫= λ _,
  sync home ≫= λ _,
  remove_all backupDir.

Definition removeTransaction (dir : list string) : IO unit :=
  remove_if_present journal_path ≫= λ _,
  attempt (sync home) ≫= λ _,
  real ← attempt (verifyRealDirectory dir home);
  match real with Ok _ => attempt (remove_all dir) ≫= λ _, mret tt | Err _ => mret tt end.

Definition finalizeTransaction (transactionDir : list string) : IO unit :=
  '(journal, dir) ← readTransaction journal_path;
  refuse (negb (bool_decide (dir = transactionDir))) "resources: transaction directory changed" ≫= λ _,
  (if streq (tj_Phase journal) "accepted" then mret tt
   else writeJSONAtomic journal_path home (with_phase journal "accepted")) ≫= λ _,
  removeTransaction transactionDir.

(** Rolls back what the journal on disk describes and fails with the cause. *)
Definition failPromotion {A : Type} (path transactionDir : list string) (cause : fs_error) : IO A :=
  r ← attempt (readTransaction path);
  r ← match r with
      | Ok (journal, dir) => attempt (restoreTransaction path dir journal)
      | Err e => mret (Err e)
      end;
  match r with
  | Err _ => throw (EFs "resource rollback failed")
  | Ok _ => attempt (remove_all transactionDir) ≫= λ _, throw cause
  end.

(** Destinations of the staged files. *)
Definition add_staged (candidate : stateDocument) (paths : gmap string (list string)) (entry : string * list string)
    : result string (gmap string (list string)) :=
  match resources_of candidate !! entry.1 with
  | None => Err "resources: staged unknown resource"
  | Some s =>
      let name := resourceFilename entry.1 s in
      fail_if bool_decide (is_Some (paths !! name)) with "resources: duplicate managed destination";
      Ok (<[name := entry.2]> paths)
  end.

(** The backup of what a destination holds: whether there is one, its hash and
    its name. *)
Definition backup_previous (maxBytes : Z) (transactionDir : list string) (previous : stateDocument)
    (previousNames : gmap string string) (index : Z) (name : string) : IO (bool * string * string) :=
  match previousNames !! name with
  | Some id =>
      if sd_Version previous =? 2 then
        body ← attempt (readManaged (home ++ [name]) maxBytes);
        match body with
        | Ok body =>
            refuse (negb (streq (digest body) (resource_sha previous id)))
              "resources: previous resource is missing or changed" ≫= λ _,
            writeStaged (transactionDir ++ [backup_name index]) transactionDir body ≫= λ _,
            mret (true, resource_sha previous id, backup_name index)
        | Err _ => throw (EFs "resources: previous resource is missing or changed")
        end
      else mret (false, "", "")
  | None => mret (false, "", "")
  end.

(** A destination the store does not manage yet must not exist. *)
Definition check_unmanaged (name : string) : IO unit :=
  info ← attempt (lstat (home ++ [name]));
  match info with
  | Ok _ => throw (EFs "resources: unmanaged destination already exists")
  | Err e => if os_IsNotExist e then mret tt else throw e
  end.

(** The hash of the staged candidate, once its bytes are what the manifest says. *)
Definition check_candidate (maxBytes : Z) (candidate : stateDocument) (candidateNames : gmap string string)
    (nameToPath : gmap string (list string)) (name : string) : IO string :=
  match nameToPath !! name with
  | Some path =>
      let id := default "" (candidateNames !! name) in
      body ← attempt (readManaged path maxBytes);
      match body, resources_of candidate !! id with
      | Ok body, Some s =>
          refuse (negb (streq (digest body) (rst_SHA256 s)) || negb (is_ok (ValidateResource (resource_at id s) body)))
            "resources: staged candidate is invalid or changed" ≫= λ _,
          mret (rst_SHA256 s)
      | _, _ => throw (EFs "resources: staged candidate is invalid or changed")
      end
  | None => mret ""
  end.

(** One file of the journal: the backup of what is there, and what will be. *)
Definition journal_file (maxBytes : Z) (transactionDir : list string) (previous candidate : stateDocument)
    (previousNames candidateNames : gmap string string) (nameToPath : gmap string (list string))
    (index : Z) (name : string) : IO transactionFile :=
  '(had, sha, backup) ← backup_previous maxBytes transactionDir previous previousNames index name;
  (if had then mret tt else check_unmanaged name) ≫= λ _,
  candidateSHA ← check_candidate maxBytes candidate candidateNames nameToPath name;
  mret (mkTransactionFile name backup had sha candidateSHA).

(** One destination to its candidate bytes, or removed. *)
Definition promote_file (maxBytes : Z) (nameToPath : gmap string (list string)) (file : transactionFile) : IO unit :=
  let path := home ++ [tf_Name file] in
  match nameToPath !! tf_Name file with
  | Some staged => readManaged staged maxBytes ≫= λ body, writeManagedAtomic path home body
  | None => if tf_HadPrevious file then removeManaged path home else mret tt
  end.

Definition ordered_names (previousNames candidateNames : gmap string string) : list string :=
  insertion_sort string_ltb (elements (dom previousNames ∪ dom candidateNames)).

Definition build_journal (maxBytes : Z) (transactionDir : list string) (previous candidate : stateDocument)
    (previousNames candidateNames : gmap string string) (nameToPath : gmap string (list string)) : IO transactionJournal :=
  files ← for_each (λ files name,
    file ← journal_file maxBytes transactionDir previous candidate previousNames candidateNames nameToPath (len files) name;
    mret (files ++ [file])) [] (ordered_names previousNames candidateNames);
  mret (mkTransactionJournal 1 "promoting" (base_of transactionDir) maxBytes (cloneState previous) (cloneState candidate)
          false files).

(** [promote] from the creation of its directory on. *)
Definition promote_in (maxBytes : Z) (previous candidate : stateDocument) (previousNames candidateNames : gmap string string)
    (nameToPath : gmap string (list string)) (transactionDir : list string) : IO (list string) :=
  journal ← on_failure (remove_all transactionDir)
    (journal ← build_journal maxBytes transactionDir previous candidate previousNames candidateNames nameToPath;
     sync transactionDir ≫= λ _,
     pending ← attempt (lstat journal_path);
     match pending with
     | Ok _ => throw (EFs "resources: another resource transaction is pending")
     | Err e => if os_IsNotExist e then mret journal else throw e
     end);
  written ← attempt (writeJSONAtomic journal_path home journal);
  match written with
  | Err cause =>
      there ← attempt (lstat journal_path);
      match there with
      | Ok _ => failPromotion journal_path transactionDir cause
      | Err _ => attempt (remove_all transactionDir) ≫= λ _, throw cause
      end
  | Ok _ =>
      done ← attempt
        (for_each (λ _ file, promote_file maxBytes nameToPath file) tt (tj_Files journal) ≫= λ _,
         sync home ≫= λ _,
         verifyManifestFiles candidate maxBytes ≫= λ _,
         writeStateAtomic state_path home candidate);
      match done with
      | Err cause => failPromotion journal_path transactionDir cause
      | Ok _ => mret transactionDir
      end
  end.

Definition promote (maxBytes : Z) (previous candidate : stateDocument) (staged : gmap string (list string))
    : IO (list string) :=
  ensureRoot ≫= λ _,
  refuse ((negb (sd_Version previous =? 1) && negb (sd_Version previous =? 2)) || negb (sd_Version candidate =? 2) ||
          negb (bool_decide (is_Some (sd_Resources candidate))) || streq (sd_CommitID candidate) "")
    "resources: invalid promotion manifest" ≫= λ _,
  lift (manifestNames previous) ≫= λ previousNames,
  lift (manifestNames candidate) ≫= λ candidateNames,
  lift (fold_each (add_staged candidate) ∅ (map_to_list staged)) ≫= λ nameToPath,
  refuse (negb (bool_decide (dom candidateNames ⊆ dom nameToPath))) "resources: candidate resource has no staged file" ≫= λ _,
  transactionDir ← wrap "resources: create transaction directory" (makePrivateDir home transactionDirPrefix);
  promote_in maxBytes previous candidate previousNames candidateNames nameToPath transactionDir.

Definition promoteMetadata (maxBytes : Z) (previous candidate : stateDocument) : IO (list string) :=
  verifyManifestFiles previous maxBytes ≫= λ _,
  transactionDir ← makePrivateDir home transactionDirPrefix;
  let journal := mkTransactionJournal 1 "promoting" (base_of transactionDir) maxBytes (cloneState previous)
                   (cloneState candidate) true [] in
  match validateJournal journal with
  | Err e => attempt (remove_all transactionDir) ≫= λ _, throw (EFs e)
  | Ok _ =>
      written ← attempt (writeJSONAtomic journal_path home journal);
      match written with
      | Err cause =>
          there ← attempt (lstat journal_path);
          (match there with
           | Err e => if os_IsNotExist e then attempt (remove_all transactionDir) ≫= λ _, mret tt else mret tt
           | Ok _ => mret tt
           end) ≫= λ _, throw cause
      | Ok _ =>
          done ← attempt (writeStateAtomic state_path home candidate);
          match done with
          | Err cause => failPromotion journal_path transactionDir cause
          | Ok _ => mret transactionDir
          end
      end
  end.

Definition recoverTransaction : IO unit :=
  r ← attempt (readTransaction journal_path);
  match r with
  | Err e => if os_IsNotExist e then mret tt else throw e
  | Ok (journal, dir) =>
      if streq (tj_Phase journal) "accepted" then
        current ← attempt (loadStateFile state_path);
        match current with
        | Ok current =>
            refuse (negb (sd_Version current =? 2) || negb (streq (sd_CommitID current) (sd_CommitID (tj_Candidate journal))))
              "resources: accepted transaction has no matching committed manifest" ≫= λ _,
            verifyManifestFiles (tj_Candidate journal) (tj_MaxBytes journal) ≫= λ _,
            removeTransaction dir
        | Err _ => throw (EFs "resources: accepted transaction has no matching committed manifest")
        end
      else wrap "resources: recover interrupted promotion" (restoreTransaction journal_path dir journal)
  end.

(** Staging and transaction directories no journal refers to any more. *)
Definition remove_orphan (entry : string * bool) : IO unit :=
  let '(name, isDir) := entry in
  if negb (has_prefix name transactionDirPrefix) && negb (has_prefix name stageDirPrefix) then mret tt else
  refuse (negb (validPrivateDir name) || negb isDir) "resources: unsafe transaction directory" ≫= λ _,
  wrap "resources: unsafe transaction directory" (verifyRealDirectory (home ++ [name]) home) ≫= λ _,
  wrap "resources: remove orphan transaction directory" (remove_all (home ++ [name])).
Definition removeOrphanTransactions : IO unit :=
  entries ← wrap "resources: list managed home" (read_dir home);
  for_each (λ _ entry, remove_orphan entry) tt entries.
End transaction.
