(* ===== verification/ResourceRegistry.v ===== *)
(** * resources/registry.go and status.go: the registry

    Opening the store with its recovery and migration, the registry's methods
    and the status report.  The registry's mutex makes each method one step. *)
From Stdlib Require Import Ascii.
From S2P Require Import Prelude GoTime GoStrings GoNet GoSort GoJson GoFs ConfigTypes ConfigValidate Download ResourceValidate ResourceStore ResourceTransaction.
Open Scope Z_scope.
Open Scope go_scope.

(** ** Errors of a refresh, as far as the registry looks at them *)
Record refresh_error := mkRefreshError {
  re_status : option StatusError;   (** a status anywhere in the error's tree *)
  re_pin : bool;                    (** it is ErrPinMismatch *)
  re_text : string
}.
Definition plain_error (text : string) : refresh_error := mkRefreshError None false text.
Definition ErrPinMismatch : refresh_error := mkRefreshError None true "resource SHA-256 pin mismatch".
(** [errors.Join(err, StatusError{...})] when there is a response to show. *)
Definition join_status (e : refresh_error) (code : Z) (body : string) : refresh_error :=
  if streq body "" then e
  else mkRefreshError (match re_status e with Some s => Some s | None => Some (mkStatusError code body) end) (re_pin e) (re_text e).
Definition refresh_status (e : refresh_error) : option StatusError :=
  match re_status e with
  | Some s => if (100 <=? se_Code s) && (se_Code s <=? 599) && status_valid s then Some s else None
  | None => None
  end.

Record ResourceFailure := mkResourceFailure { rf_ResourceID : string; rf_Err : refresh_error }.

Record Registry := mkRegistry {
  rg_maxBytes : Z;
  rg_active : stateDocument;
  rg_failures : gmap string string
}.
Definition with_active (r : Registry) (active : stateDocument) : Registry :=
  mkRegistry (rg_maxBytes r) active (rg_failures r).

Definition SetMaxBytes (r : Registry) (maxBytes : Z) : result string Registry :=
  fail_if maxBytes <=? 0 with "resources: max bytes must be positive";
  Ok (mkRegistry maxBytes (rg_active r) (rg_failures r)).
Definition CommitID (r : Registry) : string := sd_CommitID (rg_active r).

Definition clearFailure (r : Registry) (id : string) : Registry :=
  mkRegistry (rg_maxBytes r) (rg_active r) (delete id (rg_failures r)).
Definition recordFailure (r : Registry) (id : string) (e : refresh_error) : Registry * ResourceFailure :=
  let message :=
    match refresh_status e with
    | Some s => status_text s
    | None => if re_pin e then re_text ErrPinMismatch else "resource refresh or validation failed"
    end in
  (mkRegistry (rg_maxBytes r) (rg_active r) (<[id := message]> (rg_failures r)), mkResourceFailure id e).

Definition hasEnabledResources (resources : list Resource) : bool := existsb r_Enabled resources.
Definition isRemote (source : string) : bool := contains source "://".
Definition boundedValidator (value : string) : string := if 4096 <? slen value then "" else value.

(** The pin an entry may carry. *)
Definition pin_mismatch (r : Resource) (sum : string) : bool :=
  negb (streq (r_SHA256 r) "") && negb (equal_fold sum (r_SHA256 r)).

(** ** [validateSnapshot] *)
Section snapshot.
Context `{GoNet} `{GoHash}.

Record Accepted := mkAccepted { ac_seen : gset string; ac_destinations : gset string }.

Definition check_snapshot_source (r : Resource) : result string unit :=
  match url_parse (r_URL r) with
  | None => Err "resource has invalid source"
  | Some u =>
      if negb (streq (u_Scheme u) "") then
        fail_if negb (streq (u_Scheme u) "https") || streq (u_Host u) "" || u_User u || negb (streq (u_Opaque u) "")
          with "resource source must be an HTTPS URL without credentials";
        Ok tt
      else
        fail_if contains (r_URL r) (of_bytes [byte 0]) || streq (trim_space (r_URL r)) ""
          with "resource has invalid local source path";
        Ok tt
  end.

Definition check_snapshot_resource (acc : Accepted) (r : Resource) : result string Accepted :=
  fail_if bool_decide (r_ID r ∈ ac_seen acc) with "resources: duplicate ID";
  let seen := {[r_ID r]} ∪ ac_seen acc in
  ValidateDeclaration r ≫= λ _,
  fail_if streq (r_URL r) "" with "resource has no source";
  fail_if r_Interval r <? 0 with "resource has invalid interval";
  fail_if negb (streq (r_SHA256 r) "") && (negb (hex_decodes (r_SHA256 r)) || negb (slen (r_SHA256 r) =? 64))
    with "resource has invalid SHA-256 pin";
  check_snapshot_source r ≫= λ _,
  if str_in (r_Kind r) [ResourceGeoIP; ResourceGeoSite; ResourceMMDB] then
    fail_if bool_decide (filename r ∈ ac_destinations acc) with "resources share managed destination";
    Ok (mkAccepted seen ({[filename r]} ∪ ac_destinations acc))
  else Ok (mkAccepted seen (ac_destinations acc)).

Definition registry_validateSnapshot (resources : list Resource) : result string unit :=
  fold_each check_snapshot_resource (mkAccepted ∅ ∅) resources ≫= λ _, Ok tt.
End snapshot.

(** ** Opening the store *)
Section registry.
Context `{GoOs} `{GoHash} `{RuleParsers} `{JsonCodec stateDocument} `{JsonCodec transactionJournal}.

(** The old layout keeps each generation in a directory below this root. *)
Definition removeLegacyGenerations (root : list string) : IO unit :=
  there ← attempt (lstat root);
  if match there with Err e => os_IsNotExist e | Ok _ => false end then mret tt else
  verifyRealDirectory root (dir_of root) ≫= λ _,
  entries ← read_dir root;
  for_each (λ _ '(name, isDir), if isDir && validGeneration name then remove_all (root ++ [name]) else mret tt) tt entries.

(** One legacy resource into the staging directory of the migration. *)
Definition migrate_entry (maxBytes : Z) (oldDir stageDir : list string) (paths : gmap string (list string))
    (entry : string * resourceState) : IO (gmap string (list string)) :=
  let '(id, s) := entry in
  let r := resource_at id s in
  refuse (negb (is_ok (ValidateDeclaration r))) "resources: invalid legacy resource declaration" ≫= λ _,
  body ← attempt (readManaged (oldDir ++ [filename r]) maxBytes);
  match body with
  | Ok body =>
      refuse (negb (streq (digest body) (rst_SHA256 s)) || negb (is_ok (ValidateResource r body)))
        "resources: legacy resource is invalid or changed" ≫= λ _,
      let path := stageDir ++ [filename r] in
      writeStaged path stageDir body ≫= λ _, mret (<[id := path]> paths)
  | Err _ => throw (EFs "resources: legacy resource is invalid or changed")
  end.

Definition migrateV1 (maxBytes : Z) (previous : stateDocument) : IO stateDocument :=
  commitID ← new_random_id;
  let candidate := mkStateDocument 2 "" commitID (Some (resources_of previous)) in
  if streq (sd_Generation previous) "" then
    refuse (negb (bool_decide (resources_of previous = ∅))) "resources: v1 resources have no generation" ≫= λ _,
    writeStateAtomic state_path home candidate ≫= λ _, mret candidate
  else
    let legacyRoot := home ++ [legacyDirName] in
    let oldDir := legacyRoot ++ [sd_Generation previous] in
    refuse (negb (validGeneration (sd_Generation previous))) "resources: invalid legacy generation" ≫= λ _,
    wrap "resources: legacy generation root is unsafe" (verifyRealDirectory legacyRoot home) ≫= λ _,
    wrap "resources: legacy generation is unsafe" (verifyRealDirectory oldDir legacyRoot) ≫= λ _,
    stageDir ← wrap "resources: create migration staging directory" (makePrivateDir home stageDirPrefix);
    deferred (remove_all stageDir)
      (paths ← for_each (migrate_entry maxBytes oldDir stageDir) ∅ (map_to_list (resources_of previous));
       transactionDir ← promote maxBytes previous candidate paths;
       finalizeTransaction transactionDir ≫= λ _,
       removeLegacyGenerations legacyRoot ≫= λ _,
       mret candidate).

(** The home is named and resolves to itself: [homeGiven], [homeReal]. *)
Definition NewRegistry (hasClient homeGiven homeReal : bool) : IO Registry :=
  refuse (negb hasClient) "resources: bounded downloader is required" ≫= λ _,
  refuse (negb homeGiven) "resources: managed home is required" ≫= λ _,
  wrap "resources: create managed home" (mkdir_root home) ≫= λ _,
  refuse (negb homeReal) "resources: managed home must not contain symlinks" ≫= λ _,
  info ← attempt (lstat home);
  refuse (match info with Ok EDir => false | _ => true end) "resources: managed home must be a real directory" ≫= λ _,
  wrap "resources: secure managed home" (chmod home) ≫= λ _,
  recoverTransaction ≫= λ _,
  removeOrphanTransactions ≫= λ _,
  loaded ← loadStateFile state_path;
  active ← (if sd_Version loaded =? 1 then migrateV1 DefaultMaxBytes loaded else mret loaded);
  (if (sd_Version active =? 2) && negb (streq (sd_CommitID active) "") then
     verified ← attempt (verifyManifestFiles active DefaultMaxBytes);
     match verified with
     | Ok _ => wrap "resources: remove migrated generations" (removeLegacyGenerations (home ++ [legacyDirName]))
     | Err _ => mret tt
     end
   else mret tt) ≫= λ _,
  mret (mkRegistry DefaultMaxBytes active ∅).

(** ** Reading the committed set *)
(** The manifest on disk is still the registry's. *)
Definition current_manifest (r : Registry) : IO stateDocument :=
  current ← loadStateFile state_path;
  refuse (negb (sd_Version current =? sd_Version (rg_active r)) || negb (streq (sd_CommitID current) (sd_CommitID (rg_active r))))
    "resources: active manifest changed outside registry" ≫= λ _,
  mret current.

(** A managed file is what its declaration and the committed entry say. *)
Definition check_path (r : Registry) (paths : gmap string (list string)) (resource : Resource) : IO (gmap string (list string)) :=
  if negb (r_Enabled resource) then mret paths else
  let path := home ++ [filename resource] in
  data ← wrap "resource has no safe managed file" (readManaged path (rg_maxBytes r));
  refuse (negb (is_ok (ValidateResource resource data))) "resource is invalid" ≫= λ _,
  refuse (pin_mismatch resource (digest data)) "resource SHA-256 pin mismatch" ≫= λ _,
  match resources_of (rg_active r) !! r_ID resource with
  | None => throw (EFs "resource managed bytes differ from committed state")
  | Some cached =>
      refuse (negb (streq (rst_SHA256 cached) (digest data)) ||
              negb (streq (rst_SourceHash cached) (digest (bytes_of (r_URL resource)))) ||
              negb (resourceStateMatches resource cached))
        "resource managed bytes differ from committed state" ≫= λ _,
      mret (<[r_ID resource := path]> paths)
  end.

Definition pathsLocked (r : Registry) (resources : list Resource) : IO (gmap string (list string)) :=
  ensureRoot ≫= λ _,
  if bool_decide (resources_of (rg_active r) = ∅) then
    refuse (hasEnabledResources resources) "resources: no committed resource files" ≫= λ _, mret ∅
  else for_each (check_path r) ∅ resources.

Definition PathsWithHome `{GoNet} (r : Registry) (resources : list Resource) : IO (list string * gmap string (list string)) :=
  lift (registry_validateSnapshot resources) ≫= λ _,
  current_manifest r ≫= λ _,
  paths ← pathsLocked r resources;
  mret (home, paths).
Definition ActiveHome (r : Registry) : IO (list string) :=
  current_manifest r ≫= λ _, ensureRoot ≫= λ _, mret home.

(** ** Status *)
Record ResourceStatus := mkResourceStatus {
  rs_ID : string;
  rs_Kind : string;
  rs_Format : string;
  rs_RuleType : string;
  rs_SourceHost : string;
  rs_SHA256 : string;
  rs_LastCheck : Z;           (** Unix seconds, 0 for never *)
  rs_LastSuccess : Z;
  rs_LastFailure : string;
  rs_Enabled : bool;
  rs_Validated : bool;
  rs_Destination : option (list string)
}.

Definition sourceHost `{GoNet} (source : string) : string :=
  match url_parse source with
  | None => "local"
  | Some u => if streq (u_Scheme u) "" || streq (u_Host u) "" then "local" else url_hostname u
  end.

(** Whether the managed file of an enabled resource is the committed one. *)
Definition validated_now (r : Registry) (resource : Resource) (state : option resourceState) : IO bool :=
  data ← attempt (readManaged (home ++ [filename resource]) (rg_maxBytes r));
  mret match data, state with
       | Ok body, Some s =>
           is_ok (ValidateResource resource body) && negb (pin_mismatch resource (digest body)) &&
           streq (rst_SHA256 s) (digest body) && streq (rst_SourceHash s) (digest (bytes_of (r_URL resource))) &&
           resourceStateMatches resource s
       | _, _ => false
       end.

Definition resource_status `{GoNet} (r : Registry) (current : stateDocument) (resource : Resource) : IO ResourceStatus :=
  let state := resources_of current !! r_ID resource in
  validated ← (if r_Enabled resource then validated_now r resource state else mret false);
  let failure := default "" (rg_failures r !! r_ID resource) in
  mret (mkResourceStatus (r_ID resource) (r_Kind resource) (r_Format resource) (r_RuleType resource)
    (sourceHost (r_URL resource)) (default "" (rst_SHA256 <$> state)) (default 0 (rst_LastCheckedUnix <$> state))
    (default 0 (rst_LastSuccessUnix <$> state))
    (if r_Enabled resource && negb validated && streq failure "" then
       match state with Some _ => "committed resource is unavailable or invalid" | None => "no committed resource version" end
     else failure)
    (r_Enabled resource) validated (if r_Enabled resource then Some (home ++ [filename resource]) else None)).

Definition Status `{GoNet} (r : Registry) (resources : list Resource) : IO (list ResourceStatus) :=
  current ← current_manifest r;
  for_each (λ statuses resource, s ← resource_status r current resource; mret (statuses ++ [s])) [] resources.
End registry.
