(* ===== verification/ResourcePlan.v ===== *)
(** * resources/plan.go: staging, committing and rolling back a generation

    A plan stages candidate bytes beside the committed files; its methods
    validate, promote, accept, undo or discard them.  The locks of the plan and
    of the registry make each method one step.  A method changes its plan and
    its registry whether or not it fails, so both are threaded through success
    and failure alike. *)
From Stdlib Require Import Ascii.
From S2P Require Import Prelude GoStrings GoNet GoSort GoJson GoFs ConfigTypes Download ResourceValidate ResourceStore ResourceTransaction ResourceRegistry.
Open Scope Z_scope.
Open Scope go_scope.

Inductive plan_error :=
| PlanError (message : string)
| PlanFs (e : fs_error)
| PlanUnvalidated                       (** ErrPlanUnvalidated *)
| PlanCancelled                         (** the context's error *)
| PlanResource (f : ResourceFailure)
| PlanFailures (l : list ResourceFailure).

(** ** Errors of the methods *)
Section op.
Context {S : Type}.
Definition demand (b : bool) (message : string) : Op plan_error S unit := if b then raise (PlanError message) else mret tt.
Definition io {A : Type} (m : IO A) : Op plan_error S A := io_as PlanFs m.
Definition pure_op {A : Type} (r : result string A) : Op plan_error S A :=
  match r with Ok a => mret a | Err e => raise (PlanError e) end.
End op.

(** ** The environment of a refresh *)
(** What staging needs of a downloader with private state [N]: [ctx.Err()],
    [client.Fetch], and the promise on what [Fetch] returns. *)
Class Downloader (N : Type) := {
  dl_cancelled : N → bool * N;
  dl_fetch : Request → N → result fetch_error Response * N;
  dl_bounded : ∀ req n response n', dl_fetch req n = (Ok response, n') →
    len (rs_Body response) ≤ rq_MaxBytes req
}.

(** Files outside the managed home, and the clock; both may differ at every look. *)
Class LocalFiles := {
  local_lstat : nat → string → result fs_error entry;
  local_content : nat → string → result fs_error (list ascii);
  unix_now : nat → Z
}.
Definition at_tick {A : Type} (look : nat → A) : IO A := λ w, (Done (look (w_tick w)), mkWorld (S (w_tick w)) (w_fs w)).
Definition io_result {A : Type} (r : result fs_error A) : IO A := match r with Ok a => mret a | Err e => throw e end.

Record Plan := mkPlan {
  pl_stageID : string;                          (** "" when nothing was staged *)
  pl_directory : list string;
  pl_transactionDir : option (list string);     (** "" is [None] *)
  pl_maxBytes : Z;
  pl_paths : gmap string (list string);
  pl_resources : gmap string resourceState;
  pl_base : stateDocument;
  pl_changed : bool;
  pl_validated : bool;
  pl_committed : bool;
  pl_commitID : string;
  pl_rolledBack : bool;
  pl_finalized : bool;
  pl_closed : bool
}.

Record preparedResource := mkPrepared {
  pp_resource : Resource;
  pp_state : resourceState;
  pp_body : option (list ascii);
  pp_sourcePath : list string
}.

Section plan.
Context `{GoOs} `{GoHash} `{RuleParsers} `{GoNet} `{JsonCodec stateDocument} `{JsonCodec transactionJournal}.

(** ** Staging *)
Definition readLocal `{LocalFiles} (path : string) (maxBytes : Z) : IO (list ascii) :=
  info ← at_tick (λ t, local_lstat t path);
  match info with
  | Err _ => throw (EFs "read local resource")
  | Ok (EFile body) =>
      refuse ((len body <=? 0) || (maxBytes <? len body)) "local resource exceeds size limit or is empty" ≫= λ _,
      read ← at_tick (λ t, local_content t path);
      match read with
      | Err _ => throw (EFs "open local resource")
      | Ok content =>
          let data := take (Z.to_nat (maxBytes + 1)) content in
          refuse (maxBytes <? len data) "local resource exceeds size limit" ≫= λ _,
          mret data
      end
  | Ok _ => throw (EFs "local resource source must be a regular non-symlink file")
  end.

Definition stageSnapshot (r : Registry) (resources : list Resource) : IO (Z * stateDocument) :=
  lift (registry_validateSnapshot resources) ≫= λ _,
  base ← current_manifest r;
  refuse (negb (sd_Version base =? 2)) "resources: legacy manifest requires migration" ≫= λ _,
  ensureRoot ≫= λ _,
  mret (rg_maxBytes r, base).

(** The committed entry of a resource; a missing key is Go's zero value. *)
Definition zero_state : resourceState := mkResourceState "" "" "" "" "" "" "" 0 0.
Definition entry_of (base : stateDocument) (r : Resource) : resourceState := default zero_state (resources_of base !! r_ID r).
Definition source_hash (r : Resource) : string := digest (bytes_of (r_URL r)).

Definition prepareCommittedResource (r : Resource) (s : resourceState) (hasPrevious : bool) (maxBytes : Z)
    : IO (result refresh_error preparedResource) :=
  if negb hasPrevious || streq (rst_SHA256 s) "" || negb (streq (rst_SourceHash s) (source_hash r)) || negb (resourceStateMatches r s)
  then mret (Err (plain_error "no committed source-compatible version")) else
  let path := home ++ [filename r] in
  data ← attempt (readManaged path maxBytes);
  mret match data with
       | Ok body =>
           fail_if negb (streq (digest body) (rst_SHA256 s)) with plain_error "committed version is missing or changed";
           fail_if negb (is_ok (ValidateResource r body)) with plain_error "committed version is invalid";
           fail_if pin_mismatch r (rst_SHA256 s) with ErrPinMismatch;
           Ok (mkPrepared r s None path)
       | Err _ => Err (plain_error "committed version is missing or changed")
       end.

Definition refresh_of_fetch (e : fetch_error) : refresh_error :=
  mkRefreshError (match e with FetchStatus s | FetchTooLargeStatus s => Some s | _ => None end) false "download".

(** The validators of the committed entry, if its file is still what they are of. *)
Definition cache_usable (r : Resource) (old : resourceState) (hasPrevious : bool) (maxBytes : Z) : IO bool :=
  if hasPrevious && streq (rst_SourceHash old) (source_hash r) && negb (streq (rst_SHA256 old) "") && resourceStateMatches r old then
    cached ← attempt (readManaged (home ++ [filename r]) maxBytes);
    mret match cached with
         | Ok body => streq (digest body) (rst_SHA256 old) && is_ok (ValidateResource r body) && negb (pin_mismatch r (rst_SHA256 old))
         | Err _ => false
         end
  else mret false.

(** Bytes with their validators, and the response's code and text for diagnostics. *)
Record Staged := mkStaged {
  sg_body : list ascii;
  sg_etag : string;
  sg_lastModified : string;
  sg_code : Z;
  sg_response : string
}.

(** What a 304 stands for: the committed bytes, if they are still there. *)
Definition staged_unmodified (r : Resource) (old : resourceState) (etag lastModified : string) (hasPrevious : bool)
    (maxBytes : Z) (response : Response) : IO (result refresh_error Staged) :=
  let missing := plain_error "conditional response has no verified cached resource" in
  if negb hasPrevious || negb (streq (rst_SourceHash old) (source_hash r)) || streq (rst_SHA256 old) "" then mret (Err missing) else
  cached ← attempt (readManaged (home ++ [filename r]) maxBytes);
  mret match cached with
       | Ok body =>
           fail_if negb (streq (digest body) (rst_SHA256 old)) with missing;
           fail_if pin_mismatch r (rst_SHA256 old) with ErrPinMismatch;
           Ok (mkStaged body (if streq (rs_ETag response) "" then etag else rs_ETag response)
                 (if streq (rs_LastModified response) "" then lastModified else rs_LastModified response)
                 (rs_StatusCode response) (rs_DiagnosticBody response))
       | Err _ => Err missing
       end.

Section staging.
Context {N : Type} `{LocalFiles} `{Downloader N}.

(** A refresh in progress: the registry it records failures in, and the network. *)
Record Staging := mkStaging { st_registry : Registry; st_net : N }.

Definition check_context : Op plan_error Staging unit := λ s,
  let '(cancelled, n) := dl_cancelled (st_net s) in
  mret (if cancelled then Err PlanCancelled else Ok tt, mkStaging (st_registry s) n).
Definition fetch (req : Request) : Op plan_error Staging (result fetch_error Response) := λ s,
  let '(response, n) := dl_fetch req (st_net s) in mret (Ok response, mkStaging (st_registry s) n).

Definition stagedBody (r : Resource) (route : string) (maxBytes : Z) (base : stateDocument) (hasPrevious : bool)
    : Op plan_error Staging (result refresh_error Staged) :=
  if negb (isRemote (r_URL r)) then
    data ← io (attempt (readLocal (r_URL r) maxBytes));
    mret match data with Ok body => Ok (mkStaged body "" "" 0 "") | Err _ => Err (plain_error "read local resource") end
  else
    let old := entry_of base r in
    io (cache_usable r old hasPrevious maxBytes) ≫= λ usable : bool,
    let etag := if usable then rst_ETag old else "" in
    let lastModified := if usable then rst_LastModified old else "" in
    response ← fetch (mkRequest (r_URL r) route etag lastModified maxBytes false "" false);
    match response with
    | Err e => mret (Err (refresh_of_fetch e))
    | Ok response =>
        if rs_StatusCode response =? 304
        then io (staged_unmodified r old etag lastModified hasPrevious maxBytes response)
        else mret (Ok (mkStaged (rs_Body response) (rs_ETag response) (rs_LastModified response)
               (rs_StatusCode response) (rs_DiagnosticBody response)))
    end.

(** What the loop of [prepareResources] has gathered. *)
Record Preparing := mkPreparing {
  pg_prepared : gmap string preparedResource;
  pg_failures : list ResourceFailure
}.

Definition refresh_failed (acc : Preparing) (r : Resource) (e : refresh_error) : Op plan_error Staging Preparing := λ s,
  let '(registry, failure) := recordFailure (st_registry s) (r_ID r) e in
  mret (Ok (mkPreparing (pg_prepared acc) (pg_failures acc ++ [failure])), mkStaging registry (st_net s)).
Definition clear_failure (r : Resource) : Op plan_error Staging unit := λ s,
  mret (Ok tt, mkStaging (clearFailure (st_registry s) (r_ID r)) (st_net s)).

(** What is wrong with refreshed bytes, or their hash. *)
Definition refreshed_sum (r : Resource) (staged : Staged) : result refresh_error string :=
  if negb (is_ok (ValidateResource r (sg_body staged)))
  then Err (join_status (plain_error "resource is invalid") (sg_code staged) (sg_response staged)) else
  let sum := digest (sg_body staged) in
  if pin_mismatch r sum then Err (join_status ErrPinMismatch (sg_code staged) (sg_response staged)) else Ok sum.

(** The bytes to stage: those on disk when they are the same. *)
Definition prepared_bytes (r : Resource) (base : stateDocument) (hasPrevious : bool) (maxBytes : Z)
    (state : resourceState) (body : list ascii) : IO preparedResource :=
  let previous := entry_of base r in
  if hasPrevious && streq (rst_SHA256 previous) (rst_SHA256 state) && resourceStateMatches r previous then
    let oldPath := home ++ [filename r] in
    cached ← attempt (readManaged oldPath maxBytes);
    mret match cached with
         | Ok old => if streq (digest old) (rst_SHA256 state) then mkPrepared r state None oldPath
                     else mkPrepared r state (Some body) []
         | Err _ => mkPrepared r state (Some body) []
         end
  else mret (mkPrepared r state (Some body) []).

Definition prepare_refreshed (route : string) (maxBytes : Z) (base : stateDocument) (hasPrevious : bool)
    (acc : Preparing) (r : Resource) : Op plan_error Staging Preparing :=
  staged ← stagedBody r route maxBytes base hasPrevious;
  match staged with
  | Err e => refresh_failed acc r e
  | Ok staged =>
      match refreshed_sum r staged with
      | Err e => refresh_failed acc r e
      | Ok sum =>
          checkedAt ← io (at_tick unix_now);
          let state := mkResourceState sum (source_hash r) (boundedValidator (sg_etag staged))
            (boundedValidator (sg_lastModified staged)) (r_Kind r) (r_Format r) (r_RuleType r) checkedAt checkedAt in
          item ← io (prepared_bytes r base hasPrevious maxBytes state (sg_body staged));
          clear_failure r ≫= λ _,
          mret (mkPreparing (<[r_ID r := item]> (pg_prepared acc)) (pg_failures acc))
      end
  end.

Definition prepare_resource (route : string) (maxBytes : Z) (base : stateDocument) (hasPrevious : bool) (due : gset string)
    (acc : Preparing) (r : Resource) : Op plan_error Staging Preparing :=
  if negb (r_Enabled r) then mret acc else
  check_context ≫= λ _,
  if bool_decide (r_ID r ∈ due) then prepare_refreshed route maxBytes base hasPrevious acc r
  else
    item ← io (prepareCommittedResource r (entry_of base r) hasPrevious maxBytes);
    match item with
    | Err e => raise (PlanResource (mkResourceFailure (r_ID r)
                 (mkRefreshError (re_status e) (re_pin e) "is not due and has no verified active version")))
    | Ok item => mret (mkPreparing (<[r_ID r := item]> (pg_prepared acc)) (pg_failures acc))
    end.

Definition prepareResources (resources : list Resource) (route : string) (maxBytes : Z) (base : stateDocument)
    (hasPrevious : bool) (due : gset string) : Op plan_error Staging (gmap string preparedResource) :=
  acc ← op_each (prepare_resource route maxBytes base hasPrevious due) (mkPreparing ∅ []) resources;
  match pg_failures acc with
  | [] => mret (pg_prepared acc)
  | failures => raise (PlanFailures failures)
  end.

Definition sameResourceGeneration (next : gmap string preparedResource) (active : gmap string resourceState) : bool :=
  bool_decide (size next = size active) &&
  forallb (λ '(id, item),
    match active !! id with
    | Some previous => streq (rst_SHA256 previous) (rst_SHA256 (pp_state item)) && sameResourceState previous (pp_state item)
    | None => false
    end) (map_to_list next).

(** One prepared resource into the staging directory. *)
Definition stage_item (maxBytes : Z) (stageDir : list string) (paths : gmap string (list string))
    (item : string * preparedResource) : IO (gmap string (list string)) :=
  let '(id, item) := item in
  body ← match pp_body item with
         | Some body => mret body
         | None =>
             data ← attempt (readManaged (pp_sourcePath item) maxBytes);
             match data with
             | Ok body =>
                 refuse (negb (streq (digest body) (rst_SHA256 (pp_state item)))) "committed copy changed while staging" ≫= λ _,
                 mret body
             | Err _ => throw (EFs "committed copy changed while staging")
             end
         end;
  let path := stageDir ++ [filename (pp_resource item)] in
  wrap "resource cannot be staged" (writeStaged path stageDir body) ≫= λ _,
  mret (<[id := path]> paths).

Definition new_plan (directory : list string) (stageID : string) (maxBytes : Z) (base : stateDocument) (changed : bool)
    (paths : gmap string (list string)) (prepared : gmap string preparedResource) : Plan :=
  mkPlan stageID directory None maxBytes paths (pp_state <$> prepared) (cloneState base) changed false false "" false false false.

Definition stageDue (resources : list Resource) (route : string) (due : gset string) : Op plan_error Staging Plan :=
  check_context ≫= λ _,
  s ← get_state;
  '(maxBytes, base) ← io (stageSnapshot (st_registry s) resources);
  let hasPrevious := negb (bool_decide (resources_of base = ∅)) in
  prepared ← prepareResources resources route maxBytes base hasPrevious due;
  if sameResourceGeneration prepared (resources_of base) then
    mret (new_plan home "" maxBytes base false ((λ item, home ++ [filename (pp_resource item)]) <$> prepared) prepared)
  else
    stageDir ← io (wrap "resources: create staged resource directory" (makePrivateDir home stageDirPrefix));
    paths ← io (on_failure (remove_all stageDir) (for_each (stage_item maxBytes stageDir) ∅ (map_to_list prepared)));
    mret (new_plan stageDir (base_of stageDir) maxBytes base true paths prepared).

Definition StageDue (resources : list Resource) (route : string) (dueIDs : list string) : Op plan_error Staging Plan :=
  pure_op (each (λ id, fail_if negb (ValidStableID id) with "resources: invalid due resource ID"; Ok tt) dueIDs) ≫= λ _,
  let due : gset string := list_to_set dueIDs in
  let known : gmap string Resource := foldl (λ m r, <[r_ID r := r]> m) ∅ resources in
  pure_op (each (λ id, fail_if match known !! id with Some r => negb (r_Enabled r) | None => true end
                         with "resources: due resource is not enabled in snapshot"; Ok tt) (elements due)) ≫= λ _,
  stageDue resources route due.

Definition Stage (resources : list Resource) (route : string) : Op plan_error Staging Plan :=
  StageDue resources route (r_ID <$> filter (λ r, r_Enabled r = true) resources).
End staging.

(** ** A plan's methods *)
Definition verify_staged (p : Plan) (entry : string * list string) : IO unit :=
  let '(id, path) := entry in
  refuse (negb (bool_decide (path = pl_directory p ++ [base_of path]))) "resources: invalid staged path" ≫= λ _,
  data ← wrap "resource staged file is unsafe" (readManaged path (pl_maxBytes p));
  refuse (match pl_resources p !! id with Some s => negb (streq (digest data) (rst_SHA256 s)) | None => true end)
    "resource changed after staging".

(** A plan of [stageDue] always has a directory. *)
Definition verifyStagedFiles (p : Plan) : IO unit :=
  refuse (negb (bool_decide (size (pl_paths p) = size (pl_resources p)))) "resources: staged generation is incomplete" ≫= λ _,
  (if bool_decide (pl_directory p = home) then wrap "resources: managed root is unsafe" ensureRoot
   else wrap "resources: staged resource directory is unsafe" (verifyRealDirectory (pl_directory p) home)) ≫= λ _,
  for_each (λ _ entry, verify_staged p entry) tt (map_to_list (pl_paths p)).

(** A registry and a plan made by it; [None] is a nil plan. *)
Record Session := mkSession { ss_registry : Registry; ss_plan : option Plan }.

Definition the_plan : Op plan_error Session Plan :=
  s ← get_state;
  match ss_plan s with Some p => mret p | None => raise (PlanError "resources: nil plan") end.
Definition the_registry : Op plan_error Session Registry := s ← get_state; mret (ss_registry s).
Definition put_plan (p : Plan) : Op plan_error Session unit :=
  s ← get_state; put_state (mkSession (ss_registry s) (Some p)).
Definition put_active (d : stateDocument) : Op plan_error Session unit :=
  s ← get_state; put_state (mkSession (with_active (ss_registry s) d) (ss_plan s)).

Definition set_validated (p : Plan) (b : bool) : Plan :=
  mkPlan (pl_stageID p) (pl_directory p) (pl_transactionDir p) (pl_maxBytes p) (pl_paths p) (pl_resources p) (pl_base p)
    (pl_changed p) b (pl_committed p) (pl_commitID p) (pl_rolledBack p) (pl_finalized p) (pl_closed p).
Definition set_committed (p : Plan) (transactionDir : list string) (commitID : string) (paths : gmap string (list string)) : Plan :=
  mkPlan (pl_stageID p) (pl_directory p) (Some transactionDir) (pl_maxBytes p) paths (pl_resources p) (pl_base p)
    (pl_changed p) (pl_validated p) true commitID (pl_rolledBack p) (pl_finalized p) (pl_closed p).
Definition set_rolledBack (p : Plan) : Plan :=
  mkPlan (pl_stageID p) (pl_directory p) (pl_transactionDir p) (pl_maxBytes p) (pl_paths p) (pl_resources p) (pl_base p)
    (pl_changed p) (pl_validated p) (pl_committed p) (pl_commitID p) true (pl_finalized p) (pl_closed p).
Definition set_closed (p : Plan) (finalized : bool) : Plan :=
  mkPlan (pl_stageID p) (pl_directory p) (pl_transactionDir p) (pl_maxBytes p) (pl_paths p) (pl_resources p) (pl_base p)
    (pl_changed p) (pl_validated p) (pl_committed p) (pl_commitID p) (pl_rolledBack p) finalized true.

Definition Changed (p : option Plan) : bool := match p with Some p => pl_changed p | None => false end.
Definition Home (p : option Plan) : option (list string) :=
  p ← p; Some (if pl_committed p then home else pl_directory p).
Definition Paths (p : option Plan) : gmap string (list string) := match p with Some p => pl_paths p | None => ∅ end.

(** The callback that validates the candidate configuration. *)
Definition CandidateValidator : Type := list string → gmap string (list string) → IO unit.

(** What [Validate] checks of a plan that is pending. *)
Definition candidate_valid (p : Plan) (validator : CandidateValidator) : IO unit :=
  verifyStagedFiles p ≫= λ _,
  wrap "resources: candidate Mihomo configuration validation failed" (validator (pl_directory p) (pl_paths p)) ≫= λ _,
  verifyStagedFiles p.

Definition ValidatePlan (validator : option CandidateValidator) : Op plan_error Session unit :=
  p ← the_plan;
  match validator with
  | None => raise (PlanError "resources: candidate configuration validator is required")
  | Some validator =>
      demand (pl_closed p || pl_committed p || pl_rolledBack p) "resources: plan is no longer pending validation" ≫= λ _,
      valid ← io (attempt (candidate_valid p validator));
      match valid with
      | Err e => put_plan (set_validated p false) ≫= λ _, raise (PlanFs e)
      | Ok _ => put_plan (set_validated p true)
      end
  end.
Definition ValidateResources : Op plan_error Session unit := ValidatePlan (Some (λ _ _, mret tt)).

(** No transaction awaits its end. *)
Definition check_idle : IO unit :=
  pending ← attempt (lstat journal_path);
  match pending with
  | Ok _ => throw (EFs "resources: another resource transaction awaits finalization")
  | Err e => if os_IsNotExist e then mret tt else throw (EFs "resources: inspect pending transaction")
  end.

Definition same_manifest (d e : stateDocument) : bool :=
  (sd_Version d =? sd_Version e) && streq (sd_CommitID d) (sd_CommitID e).

(** The document [Commit] promotes, and its promotion. *)
Definition commit_document (p : Plan) (commitID : string) : stateDocument :=
  mkStateDocument 2 "" commitID (Some (pl_resources p)).
Definition commit_files (r : Registry) (p : Plan) : IO (string * list string) :=
  verifyStagedFiles p ≫= λ _,
  check_idle ≫= λ _,
  current ← loadStateFile state_path;
  refuse (negb (same_manifest current (pl_base p)))
    "resources: active manifest changed while candidate was being validated" ≫= λ _,
  commitID ← wrap "resources: create commit identity" new_random_id;
  let document := commit_document p commitID in
  transactionDir ← (if pl_changed p then promote (rg_maxBytes r) current document (pl_paths p)
                    else promoteMetadata (rg_maxBytes r) current document);
  mret (commitID, transactionDir).
Definition stable_paths (resources : gmap string resourceState) : gmap string (list string) :=
  map_imap (λ id s, Some (home ++ [resourceFilename id s])) resources.

Definition Commit : Op plan_error Session (gmap string (list string)) :=
  p ← the_plan;
  demand (pl_closed p || pl_committed p || pl_rolledBack p) "resources: plan is no longer pending commit" ≫= λ _,
  if negb (pl_validated p) then raise PlanUnvalidated else
  r ← the_registry;
  '(commitID, transactionDir) ← io (commit_files r p);
  put_active (commit_document p commitID) ≫= λ _,
  put_plan (set_committed p transactionDir commitID (stable_paths (pl_resources p))) ≫= λ _,
  mret (stable_paths (pl_resources p)).

(** The manifest on disk is the one this plan committed. *)
Definition check_own_manifest (p : Plan) (message : string) : IO unit :=
  current ← loadStateFile state_path;
  refuse (negb (sd_Version current =? 2) || negb (streq (sd_CommitID current) (pl_commitID p))) message.
(** The journal on disk is this plan's. *)
Definition own_transaction (p : Plan) (dir : list string) : IO transactionJournal :=
  '(journal, transactionDir) ← readTransaction journal_path;
  refuse (negb (streq (sd_CommitID (tj_Candidate journal)) (pl_commitID p)) || negb (bool_decide (transactionDir = dir)))
    "resources: transaction does not belong to this plan" ≫= λ _,
  mret journal.
Definition stage_unsafe (p : Plan) : bool :=
  negb (streq (base_of (pl_directory p)) (pl_stageID p)) || negb (validPrivateDir (pl_stageID p)) ||
  negb (bool_decide (dir_of (pl_directory p) = home)).

Definition finalize_files (p : Plan) : IO unit :=
  check_own_manifest p "resources: cannot finalize after another manifest was committed" ≫= λ _,
  (if streq (pl_stageID p) "" then mret tt else
   refuse (stage_unsafe p) "resources: staged directory is unsafe" ≫= λ _,
   wrap "resources: staged directory is unsafe" (verifyRealDirectory (pl_directory p) home) ≫= λ _,
   wrap "resources: remove staged resources" (remove_all (pl_directory p))) ≫= λ _,
  match pl_transactionDir p with
  | None => mret tt
  | Some dir => own_transaction p dir ≫= λ _, finalizeTransaction dir
  end.

Definition Finalize : Op plan_error Session unit :=
  p ← the_plan;
  if pl_finalized p then mret tt else
  demand (negb (pl_committed p) || pl_rolledBack p) "resources: plan is not an unrolled committed plan" ≫= λ _,
  io (finalize_files p) ≫= λ _,
  put_plan (set_closed p true).

Definition rollback_files (p : Plan) : IO unit :=
  check_own_manifest p "resources: cannot roll back after another manifest was committed" ≫= λ _,
  match pl_transactionDir p with
  | None => mret tt
  | Some dir => journal ← own_transaction p dir; restoreTransaction journal_path dir journal
  end.

Definition Rollback : Op plan_error Session unit :=
  p ← the_plan;
  demand (negb (pl_committed p) || pl_rolledBack p || pl_finalized p) "resources: plan is not an unfinalized committed plan" ≫= λ _,
  io (rollback_files p) ≫= λ _,
  put_active (cloneState (pl_base p)) ≫= λ _,
  put_plan (set_rolledBack p).

Definition abort_files (p : Plan) : IO unit :=
  if streq (pl_stageID p) "" then mret tt else
  refuse (stage_unsafe p) "resources: staged directory is unsafe" ≫= λ _,
  real ← attempt (verifyRealDirectory (pl_directory p) home);
  match real with
  | Ok _ => wrap "resources: remove staged resources" (remove_all (pl_directory p))
  | Err e => if os_IsNotExist e then mret tt else throw (EFs "resources: staged directory is unsafe")
  end.

Definition AbortPlan : Op plan_error Session unit :=
  s ← get_state;
  match ss_plan s with
  | None => mret tt
  | Some p =>
      if pl_closed p then mret tt else
      demand (pl_committed p && negb (pl_rolledBack p)) "resources: committed plan must be finalized or rolled back" ≫= λ _,
      io (abort_files p) ≫= λ _,
      put_plan (set_closed p (pl_finalized p))
  end.
End plan.
