(* ===== verification/ResourcePlanLife.v ===== *)
(** * The life of a plan

    The flags of a plan implement a small state machine: [ResourcePlan]'s methods
    refine it, whatever happens to the files and the registry between the calls. *)
From Stdlib Require Import Ascii.
From S2P Require Import Prelude GoStrings GoNet GoSort GoJson GoFs ConfigTypes Download ResourceValidate ResourceStore ResourceTransaction ResourceRegistry ResourcePlan.
Open Scope Z_scope.

(** ** What a method can end in, wherever it starts *)
Section outcomes.
Context {S : Type}.

Definition outcomes {A : Type} (m : Op plan_error S A) (s : S) (Q : result plan_error A → S → Prop) : Prop :=
  ∀ w r s' w', m s w = (Done (r, s'), w') → Q r s'.

Lemma outcomes_ret {A : Type} (a : A) s (Q : result plan_error A → S → Prop) : Q (Ok a) s → outcomes (mret a) s Q.
Proof. intros HQ w r s' w' [= <- <- <-]. exact HQ. Qed.
Lemma outcomes_raise {A : Type} e s (Q : result plan_error A → S → Prop) : Q (Err e) s → outcomes (raise e) s Q.
Proof. intros HQ w r s' w' [= <- <- <-]. exact HQ. Qed.
Lemma outcomes_bind {A B : Type} (m : Op plan_error S A) (k : A → Op plan_error S B) s Q :
  outcomes m s (λ r s1, match r with Ok a => outcomes (k a) s1 Q | Err e => Q (Err e) s1 end) → outcomes (m ≫= k) s Q.
Proof.
  intros Hm w r s' w'. unfold mbind, op_bind, mbind, io_bind. specialize (Hm w).
  destruct (m s w) as [[[r1 s1]|e|] w1]; [|done|done]. specialize (Hm _ _ _ eq_refl).
  destruct r1 as [a|e]; [apply Hm|]. intros [= <- <- <-]. exact Hm.
Qed.
Lemma outcomes_io {A : Type} (m : IO A) s Q :
  (∀ a, Q (Ok a) s) → (∀ e, Q (Err (PlanFs e)) s) → outcomes (io m) s Q.
Proof.
  intros Ha He w r s' w'. unfold io, io_as, mbind, io_bind, attempt. destruct (m w) as [[a|e|] w1]; cbn; intros [= <- <- <-]; auto.
Qed.
Lemma outcomes_try {A : Type} (m : IO A) s Q : (∀ r, Q (Ok r) s) → outcomes (io (attempt m)) s Q.
Proof.
  intros Hr w r s' w'. unfold io, io_as, mbind, io_bind, attempt. destruct (m w) as [[a|e|] w1]; cbn; intros [= <- <- <-]; auto.
Qed.
Lemma outcomes_demand b msg s Q :
  (b = false → Q (Ok tt) s) → (b = true → Q (Err (PlanError msg)) s) → outcomes (demand b msg) s Q.
Proof. unfold demand. destruct b; intros Hf Ht; [by apply outcomes_raise, Ht|by apply outcomes_ret, Hf]. Qed.
Lemma outcomes_get s (Q : result plan_error S → S → Prop) : Q (Ok s) s → outcomes get_state s Q.
Proof. intros HQ w r s' w' [= <- <- <-]. exact HQ. Qed.
Lemma outcomes_put s s1 (Q : result plan_error unit → S → Prop) : Q (Ok tt) s1 → outcomes (put_state s1) s Q.
Proof. intros HQ w r s' w' [= <- <- <-]. exact HQ. Qed.

(** A demand that is not met is all that happens. *)
Lemma demand_refused {A : Type} msg (k : unit → Op plan_error S A) s w :
  (demand true msg ≫= k) s w = (Done (Err (PlanError msg), s), w).
Proof. done. Qed.
Lemma demand_met {A : Type} msg (k : unit → Op plan_error S A) s w : (demand false msg ≫= k) s w = k tt s w.
Proof. done. Qed.
End outcomes.

(** ** The machine *)
Inductive phase := Pending (validated : bool) | Committed | Finalized | RolledBack | Discarded | Aborted.

Definition phase_of (p : Plan) : phase :=
  if pl_committed p then
    if pl_finalized p then Finalized
    else if pl_rolledBack p then (if pl_closed p then Discarded else RolledBack)
    else Committed
  else if pl_closed p then Aborted else Pending (pl_validated p).

(** What the flags never show. *)
Record coherent (p : Plan) : Prop := {
  co_finalized : pl_finalized p = true → pl_committed p = true ∧ pl_rolledBack p = false ∧ pl_closed p = true;
  co_rolledBack : pl_rolledBack p = true → pl_committed p = true;
  co_closed : pl_closed p = true → pl_committed p = true → pl_finalized p = true ∨ pl_rolledBack p = true;
  co_validated : pl_committed p = true → pl_validated p = true
}.

Inductive plan_call :=
| CallValidate (validator : option CandidateValidator)
| CallCommit
| CallFinalize
| CallRollback
| CallAbort.

(** Where a call leads when it succeeds; [None] when it cannot succeed. *)
Definition life (f : phase) (c : plan_call) : option phase :=
  match c, f with
  | CallValidate (Some _), Pending _ => Some (Pending true)
  | CallCommit, Pending true => Some Committed
  | CallFinalize, (Committed | Finalized) => Some Finalized
  | CallRollback, Committed => Some RolledBack
  | CallAbort, (Pending _ | Aborted) => Some Aborted
  | CallAbort, (RolledBack | Discarded) => Some Discarded
  | CallAbort, Finalized => Some Finalized
  | _, _ => None
  end.

(** A failed validation takes an earlier one back; other failures change nothing. *)
Definition life_step (f : phase) (c : plan_call) (ok : bool) (f' : phase) : Prop :=
  if ok then life f c = Some f'
  else match c, f with
       | CallValidate (Some _), Pending _ => f' = Pending false
       | _, _ => f' = f
       end.

Section life.
Context `{GoOs} `{GoHash} `{RuleParsers} `{GoNet} `{JsonCodec stateDocument} `{JsonCodec transactionJournal}.

Definition call (c : plan_call) : Op plan_error Session unit :=
  match c with
  | CallValidate v => ValidatePlan v
  | CallCommit => Commit ≫= λ _, mret tt
  | CallFinalize => Finalize
  | CallRollback => Rollback
  | CallAbort => AbortPlan
  end.

(** What no call changes. *)
Definition same_generation (p p' : Plan) : Prop :=
  pl_stageID p' = pl_stageID p ∧ pl_directory p' = pl_directory p ∧ pl_maxBytes p' = pl_maxBytes p ∧
  pl_resources p' = pl_resources p ∧ pl_base p' = pl_base p ∧ pl_changed p' = pl_changed p.

Definition call_ok (p : Plan) (c : plan_call) (r : result plan_error unit) (s' : Session) : Prop :=
  ∃ p', ss_plan s' = Some p' ∧ coherent p' ∧ same_generation p p' ∧ life_step (phase_of p) c (is_ok r) (phase_of p').

Lemma call_ok_same p c e registry : coherent p →
  match c, phase_of p with CallValidate (Some _), Pending _ => False | _, _ => True end →
  call_ok p c (Err e) (mkSession registry (Some p)).
Proof.
  intros Hc Hm. exists p. split_and!; [done|done|done|]. cbn. by destruct c as [[v|]| | | |], (phase_of p).
Qed.

Lemma outcomes_the_plan {A : Type} (k : Plan → Op plan_error Session A) registry p Q :
  outcomes (k p) (mkSession registry (Some p)) Q → outcomes (the_plan ≫= k) (mkSession registry (Some p)) Q.
Proof. intros Hk. apply outcomes_bind, outcomes_bind, outcomes_get. cbn. by apply outcomes_ret. Qed.

Lemma outcomes_put_plan {A : Type} (k : unit → Op plan_error Session A) s p Q :
  outcomes (k tt) (mkSession (ss_registry s) (Some p)) Q → outcomes (put_plan p ≫= k) s Q.
Proof. intros Hk. apply outcomes_bind, outcomes_bind, outcomes_get. by apply outcomes_put. Qed.
Lemma outcomes_put_active {A : Type} (k : unit → Op plan_error Session A) s d Q :
  outcomes (k tt) (mkSession (with_active (ss_registry s) d) (ss_plan s)) Q → outcomes (put_active d ≫= k) s Q.
Proof. intros Hk. apply outcomes_bind, outcomes_bind, outcomes_get. by apply outcomes_put. Qed.
Lemma outcomes_set_plan s p (Q : result plan_error unit → Session → Prop) :
  Q (Ok tt) (mkSession (ss_registry s) (Some p)) → outcomes (put_plan p) s Q.
Proof. intros HQ. apply outcomes_bind, outcomes_get. by apply outcomes_put. Qed.

(** The flags of a plan, from its phase. *)
Ltac flags p := destruct p as [? ? ? ? ? ? ? ? val com ? rol fin clo]; destruct val, com, rol, fin, clo.
(** Flags that are not coherent, or not of the phase at hand. *)
Ltac by_flags := cbn in *; repeat match goal with Hf : ?x = ?x → _ |- _ => specialize (Hf eq_refl) end; intuition congruence.
Ltac incoherent := match goal with Hc : coherent _ |- _ => destruct Hc; by_flags end.
Ltac new_flags := match goal with Hc : coherent _ |- _ => destruct Hc; split; by_flags end.

Lemma pending_flags p : coherent p →
  pl_closed p || pl_committed p || pl_rolledBack p = match phase_of p with Pending _ => false | _ => true end.
Proof. intros Hc. flags p; cbn; try done; incoherent. Qed.
Lemma committed_flags p : coherent p →
  negb (pl_committed p) || pl_rolledBack p || pl_finalized p = match phase_of p with Committed => false | _ => true end.
Proof. intros Hc. flags p; cbn; try done; incoherent. Qed.

Lemma call_ok_validated p registry b :
  coherent p → (∃ v, phase_of p = Pending v) →
  ∃ p', ss_plan (mkSession registry (Some (set_validated p b))) = Some p' ∧ coherent p' ∧ same_generation p p' ∧ phase_of p' = Pending b.
Proof.
  intros Hc [v Hv]. eexists. split; [done|]. split; [|split; [done|]].
  - flags p; cbn in *; try done; new_flags.
  - destruct Hc. flags p; by_flags.
Qed.

Lemma validate_ok v p registry :
  coherent p → outcomes (ValidatePlan v) (mkSession registry (Some p)) (call_ok p (CallValidate v)).
Proof.
  intros Hc. apply outcomes_the_plan. destruct v as [v|]; [|by apply outcomes_raise, call_ok_same].
  apply outcomes_bind. rewrite pending_flags by done. apply outcomes_demand; intros Hp.
  2: { apply call_ok_same; [done|]. by destruct (phase_of p). }
  destruct (phase_of p) as [b| | | | |] eqn:Ep; try done. apply outcomes_bind, outcomes_try. intros [[]|e].
  - apply outcomes_set_plan. destruct (call_ok_validated p registry true Hc) as (p' & Hp' & Hc' & Hs & Hph); [eauto|].
    exists p'. split_and!; [done..|]. unfold life_step. rewrite Ep. cbn. by f_equal.
  - apply outcomes_put_plan, outcomes_raise.
    destruct (call_ok_validated p registry false Hc) as (p' & Hp' & Hc' & Hs & Hph); [eauto|].
    exists p'. split_and!; [done..|]. unfold life_step. by rewrite Ep.
Qed.

Lemma commit_ok p registry :
  coherent p → outcomes (call CallCommit) (mkSession registry (Some p)) (call_ok p CallCommit).
Proof.
  intros Hc. cbn [call]. apply outcomes_bind, outcomes_the_plan, outcomes_bind.
  rewrite pending_flags by done. apply outcomes_demand; intros Hp; [|by apply call_ok_same].
  destruct (negb (pl_validated p)) eqn:Ev; [by apply outcomes_raise, call_ok_same|].
  apply outcomes_bind, outcomes_bind, outcomes_get. cbn. apply outcomes_ret. cbn.
  apply outcomes_bind, outcomes_io; [|intros e; by apply call_ok_same].
  intros [commitID dir]. apply outcomes_put_active, outcomes_put_plan, outcomes_ret, outcomes_ret.
  eexists. split; [done|]. split; [|split; [done|]].
  - flags p; cbn in *; try done; new_flags.
  - flags p; cbn in *; try done; incoherent.
Qed.

Lemma finalize_ok p registry :
  coherent p → outcomes (call CallFinalize) (mkSession registry (Some p)) (call_ok p CallFinalize).
Proof.
  intros Hc. cbn [call]. apply outcomes_the_plan. destruct (pl_finalized p) eqn:Ef.
  { apply outcomes_ret. exists p. split_and!; [done..|]. flags p; cbn in *; try done; incoherent. }
  apply outcomes_bind, outcomes_demand; intros Hp; [|by apply call_ok_same].
  apply outcomes_bind, outcomes_io; [|intros e; by apply call_ok_same]. intros [].
  apply outcomes_set_plan. eexists. split; [done|]. split; [|split; [done|]].
  - flags p; cbn in *; try done; new_flags.
  - flags p; cbn in *; try done; incoherent.
Qed.

Lemma rollback_ok p registry :
  coherent p → outcomes (call CallRollback) (mkSession registry (Some p)) (call_ok p CallRollback).
Proof.
  intros Hc. cbn [call]. apply outcomes_the_plan, outcomes_bind. rewrite committed_flags by done.
  apply outcomes_demand; intros Hp; [|by apply call_ok_same]. destruct (phase_of p) eqn:Ep; try done.
  apply outcomes_bind, outcomes_io; [|intros e; apply call_ok_same; [done|by destruct (phase_of p)]]. intros [].
  apply outcomes_put_active, outcomes_set_plan. eexists. split; [done|]. split; [|split; [done|]].
  - flags p; cbn in *; try done; try incoherent; new_flags.
  - rewrite Ep. flags p; cbn in *; try done; incoherent.
Qed.

Lemma abort_ok p registry :
  coherent p → outcomes (call CallAbort) (mkSession registry (Some p)) (call_ok p CallAbort).
Proof.
  intros Hc. cbn [call]. apply outcomes_bind, outcomes_get. cbn. destruct (pl_closed p) eqn:Ecl.
  { apply outcomes_ret. exists p. split_and!; [done..|]. flags p; cbn in *; try done; incoherent. }
  apply outcomes_bind, outcomes_demand; intros Hp; [|by apply call_ok_same].
  apply outcomes_bind, outcomes_io; [|intros e; by apply call_ok_same]. intros [].
  apply outcomes_set_plan. eexists. split; [done|]. split; [|split; [done|]].
  - flags p; cbn in *; try done; try incoherent; new_flags.
  - flags p; cbn in *; try done; incoherent.
Qed.

Lemma call_outcomes c p registry :
  coherent p → outcomes (call c) (mkSession registry (Some p)) (call_ok p c).
Proof.
  destruct c; [by apply validate_ok|by apply commit_ok|by apply finalize_ok|by apply rollback_ok|by apply abort_ok].
Qed.

(** A call the machine forbids is refused before it does anything. *)
Lemma call_refused c p registry w :
  coherent p → life (phase_of p) c = None →
  ∃ e, call c (mkSession registry (Some p)) w = (Done (Err e, mkSession registry (Some p)), w).
Proof.
  intros Hc Hl. destruct c as [[v|]| | | |]; cbn in Hl; [|by eexists| | | |];
    flags p; cbn in Hl; try done; try (by eexists); incoherent.
Qed.

(** ** Whole lives *)
(** Calls with whether they succeeded.  Between two calls anything may happen to
    the files and to the registry; a crash ends the list. *)
Inductive lives : Plan → list (plan_call * bool) → Plan → Prop :=
| lives_nil p : lives p [] p
| lives_call p c registry w r registry' p1 w' l p2 :
    call c (mkSession registry (Some p)) w = (Done (r, mkSession registry' (Some p1)), w') →
    lives p1 l p2 → lives p ((c, is_ok r) :: l) p2.

Inductive machine : phase → list (plan_call * bool) → phase → Prop :=
| machine_nil f : machine f [] f
| machine_call f c ok f1 l f2 : life_step f c ok f1 → machine f1 l f2 → machine f ((c, ok) :: l) f2.

Lemma new_plan_fresh directory stageID maxBytes base changed paths prepared :
  let p := new_plan directory stageID maxBytes base changed paths prepared in coherent p ∧ phase_of p = Pending false.
Proof. by split; [split|]. Qed.

Lemma lives_machine p l p' : lives p l p' → coherent p → machine (phase_of p) l (phase_of p').
Proof.
  induction 1 as [p|p c registry w r registry' p1 w' l p2 Hcall _ IH]; intros Hc; [constructor|].
  destruct (call_outcomes c p registry Hc _ _ _ _ Hcall) as (q & [= <-] & Hq & _ & Hs). econstructor; [exact Hs|]. by apply IH.
Qed.

(** A call of the given shape succeeded. *)
Definition committing (e : plan_call * bool) : bool := match e with (CallCommit, ok) => ok | _ => false end.
Definition finalizing_call (e : plan_call * bool) : bool := match e with (CallFinalize, ok) => ok | _ => false end.
Definition rolling_back (e : plan_call * bool) : bool := match e with (CallRollback, ok) => ok | _ => false end.
(** A validation with a callback, and how it ended. *)
Definition validating (e : plan_call * bool) : option bool := match e with (CallValidate (Some _), ok) => Some ok | _ => None end.

(** What the last validation of a list said. *)
Definition last_verdict (l : list (plan_call * bool)) (before : bool) : bool := List.last (omap validating l) before.

Definition is_pending (f : phase) : bool := match f with Pending _ => true | _ => false end.

(** Once it is past commitment, a life never comes back. *)
Lemma machine_past f l f' :
  machine f l f' → is_pending f = false →
  existsb committing l = false ∧ is_pending f' = false ∧
  match f with
  | Committed => ¬ (existsb finalizing_call l = true ∧ existsb rolling_back l = true)
  | Finalized => existsb rolling_back l = false
  | _ => existsb finalizing_call l = false ∧ existsb rolling_back l = false
  end.
Proof.
  induction 1 as [f|f c ok f1 l f2 Hs Hm IH]; intros Hf; [destruct f; cbn in *; intuition congruence|].
  assert (is_pending f1 = false) as Hf1.
  { destruct c as [[v|]| | | |], ok, f; cbn in Hs, Hf; try discriminate; (injection Hs as <- || subst f1); done. }
  specialize (IH Hf1) as (IH1 & IH2 & IH3).
  destruct c as [[v|]| | | |], ok, f; cbn in Hs, Hf; try discriminate; (injection Hs as <- || subst f1);
    cbn in *; rewrite ?IH1; intuition congruence.
Qed.

Lemma last_verdict_cons e l b : last_verdict (e :: l) b = last_verdict l (default b (validating e)).
Proof.
  unfold last_verdict. cbn. destruct (validating e) as [v|]; [|done]. cbn [default]. generalize (omap validating l) as m.
  intros m. destruct m as [|x m]; [done|]. cbn [List.last]. revert x. induction m as [|y m IH]; intros x; [done|]. apply IH.
Qed.

(** What a life looks like around each of its successful calls. *)
Definition committed_once (b : bool) (l : list (plan_call * bool)) : Prop :=
  ∀ a e z, l = a ++ e :: z → committing e = true → last_verdict a b = true ∧ existsb committing (a ++ z) = false.
Definition ended_after_commit (l : list (plan_call * bool)) : Prop :=
  ∀ a e z, l = a ++ e :: z → finalizing_call e || rolling_back e = true → existsb committing a = true.
Definition one_end (l : list (plan_call * bool)) : Prop :=
  ¬ (existsb finalizing_call l = true ∧ existsb rolling_back l = true).

Lemma existsb_elem {A} (f : A → bool) a e z : f e = true → existsb f (a ++ e :: z) = true.
Proof. intros He. rewrite existsb_app. cbn. rewrite He. by rewrite orb_true_r. Qed.

(** A list with no commits in it. *)
Lemma committed_never b l : existsb committing l = false → committed_once b l.
Proof. intros Hl a e z -> He. by rewrite (existsb_elem _ _ _ _ He) in Hl. Qed.
Lemma ended_never l : existsb finalizing_call l = false → existsb rolling_back l = false → ended_after_commit l.
Proof.
  intros Hf Hr a e z -> [He|He]%orb_true_iff; [by rewrite (existsb_elem _ _ _ _ He) in Hf|by rewrite (existsb_elem _ _ _ _ He) in Hr].
Qed.

Lemma machine_life b l f' :
  machine (Pending b) l f' → committed_once b l ∧ ended_after_commit l ∧ one_end l.
Proof.
  remember (Pending b) as f eqn:Hf. intros Hm. revert b Hf. induction Hm as [f|f c ok f1 l f2 Hs Hm IH]; intros b ->.
  { split_and!; [by apply committed_never|by apply ended_never|by intros [? _]]. }
  destruct (is_pending f1) eqn:Hp.
  - destruct f1 as [b1| | | | |]; try done. destruct (IH b1 eq_refl) as (IH1 & IH2 & IH3).
    assert (b1 = default b (validating (c, ok)) ∧ committing (c, ok) = false ∧ finalizing_call (c, ok) = false ∧
      rolling_back (c, ok) = false) as (Hb1 & Hc & Hfi & Hr).
    { destruct c as [[v|]| | | |], ok, b; cbn in Hs; simplify_eq; done. }
    split_and!.
    + intros [|x a] e z [= <- Hl] He; [congruence|]. destruct (IH1 a e z Hl He) as [Hv Hn].
      rewrite last_verdict_cons, <- Hb1. split; [done|]. cbn [existsb app]. by rewrite Hc.
    + intros [|x a] e z [= <- Hl] He; [by rewrite Hfi, Hr in He|]. cbn [existsb]. rewrite (IH2 a e z Hl He). by rewrite orb_true_r.
    + intros Hend. apply IH3. cbn [existsb] in Hend. by rewrite Hfi, Hr in Hend.
  - destruct (machine_past _ _ _ Hm Hp) as (Hnc & _ & Hend).
    assert ((c = CallCommit ∧ ok = true ∧ b = true ∧ f1 = Committed) ∨ (c = CallAbort ∧ ok = true ∧ f1 = Aborted)) as [(-> & -> & -> & ->)|(-> & -> & ->)].
    { destruct c as [[v|]| | | |], ok, b; cbn in Hs; simplify_eq; auto. }
    + split_and!.
      * intros [|x a] e z [= <- Hl] He; [by subst z|]. by rewrite Hl, (existsb_elem _ _ _ _ He) in Hnc.
      * intros [|x a] e z [= <- Hl] He; [done|]. done.
      * intros [? ?]. by apply Hend.
    + destruct Hend as [Hf Hr]. split_and!; [by apply committed_never|by apply ended_never|]. intros [Hx _]. cbn in Hx. congruence.
Qed.

(** C7: the methods of a plan implement its life cycle.  On every plan whose flags
    are coherent each method keeps them so, leaves what the plan stages alone, and
    moves to the phase the machine prescribes for its success or failure; a call
    the phase does not allow fails without touching the plan, the registry or any
    file. *)
Theorem plan_refines_life c p registry w :
  coherent p →
  (∀ r s' w', call c (mkSession registry (Some p)) w = (Done (r, s'), w') → call_ok p c r s') ∧
  (life (phase_of p) c = None →
     ∃ e, call c (mkSession registry (Some p)) w = (Done (Err e, mkSession registry (Some p)), w)).
Proof.
  intros Hc. split; [intros r s' w'; by apply call_outcomes|by apply call_refused].
Qed.

(** C8: whatever is called on a plan fresh from staging, in whatever order and
    with whatever happening to the store in between: it is committed at most once
    and only when the last validation by a callback succeeded; it is finalized or
    rolled back only after that commit, and never both. *)
Theorem plan_life_safe p l p' :
  lives p l p' → coherent p → phase_of p = Pending false → committed_once false l ∧ ended_after_commit l ∧ one_end l.
Proof.
  intros Hl Hc Hp. apply (machine_life _ _ (phase_of p')). rewrite <- Hp. by apply lives_machine.
Qed.
End life.
