(* ===== verification/FsLogic.v ===== *)
(** * A crash logic for the file operations

    [triple P m Q X]: started where [P] holds, [m] ends normally in [Q], and
    whatever fails or kills it leaves [X].  A failure or crash must also be to
    blame on something: on a fault of the environment, or on what a section's
    [blame] admits besides; without such an excuse the program ends normally. *)
From Stdlib Require Import Ascii.
From S2P Require Import Prelude GoStrings GoSort GoFs.
Open Scope Z_scope.

Abbreviation Assert := (Fs → Prop) (only parsing).

(** [P] does not look at the paths of [T]. *)
Definition stable (T : list string → Prop) (P : Fs → Prop) : Prop :=
  ∀ fs p, T p → P fs → P (delete p fs) ∧ ∀ e, P (<[p := e]> fs).

Lemma stable_insert T P fs p e : stable T P → T p → P fs → P (<[p := e]> fs).
Proof. intros Hs Hp HP. by apply (Hs fs p Hp HP). Qed.
Lemma stable_delete T P fs p : stable T P → T p → P fs → P (delete p fs).
Proof. intros Hs Hp HP. by apply (Hs fs p Hp HP). Qed.
Lemma stable_and T P Q : stable T P → stable T Q → stable T (λ fs, P fs ∧ Q fs).
Proof.
  intros HP HQ fs p Hp [H1 H2]. specialize (HP fs p Hp H1) as [? ?]. specialize (HQ fs p Hp H2) as [? ?]. auto.
Qed.
Lemma stable_or T P Q : stable T P → stable T Q → stable T (λ fs, P fs ∨ Q fs).
Proof.
  intros HP HQ fs p Hp [H1|H1].
  - specialize (HP fs p Hp H1) as [? ?]. auto.
  - specialize (HQ fs p Hp H1) as [? ?]. auto.
Qed.

(** Names a temporary file of [parent] may take. *)
Definition temp_of (parent : list string) (prefix : string) (p : list string) : Prop :=
  ∃ name, p = parent ++ [name] ∧ has_prefix name prefix = true.

Lemma drop_paths_lookup (l : list (list string)) (fs : Fs) (p : list string) : drop_paths l fs !! p = if bool_decide (p ∈ l) then None else fs !! p.
Proof.
  unfold drop_paths. revert fs. induction l as [|q l IH]; intros fs; cbn; [done|]. rewrite IH.
  destruct (decide (p = q)) as [->|Hne].
  - rewrite lookup_delete_eq. by rewrite (bool_decide_eq_true_2 (q ∈ q :: l)) by set_solver; case_bool_decide.
  - rewrite lookup_delete_ne by done. do 2 case_bool_decide; set_solver.
Qed.

Section logic.
Context `{GoOs} (blame : Prop) (fault_blame : ∀ t k, faults t k ≠ Fine → blame).

Definition triple {A : Type} (P : Fs → Prop) (m : IO A)
    (Q : A → Fs → Prop) (X : Fs → Prop) : Prop :=
  ∀ w, P (w_fs w) →
    match m w with
    | (Done a, w') => Q a (w_fs w')
    | (Failed _, w') | (Crashed, w') => X (w_fs w') ∧ blame
    end.

(** ** Control *)
Lemma triple_weaken {A : Type} (P P' : Assert) (m : IO A) (Q Q' : A → Assert) (X X' : Assert) :
  triple P' m Q' X' → (∀ fs, P fs → P' fs) → (∀ a fs, Q' a fs → Q a fs) → (∀ fs, X' fs → X fs) → triple P m Q X.
Proof.
  intros Hm HP HQ HX w Hw. specialize (Hm w (HP _ Hw)). destruct (m w) as [[a|e|] w']; [auto| |];
    destruct Hm; auto.
Qed.
Lemma triple_pre {A : Type} (P P' : Assert) (m : IO A) (Q : A → Assert) (X : Assert) : triple P' m Q X → (∀ fs, P fs → P' fs) → triple P m Q X.
Proof. intros Hm HP. eapply triple_weaken; [exact Hm|exact HP|auto|auto]. Qed.
Lemma triple_post {A : Type} (P : Assert) (m : IO A) (Q Q' : A → Assert) (X : Assert) :
  triple P m Q' X → (∀ a fs, Q' a fs → Q a fs) → triple P m Q X.
Proof. intros Hm HQ. eapply triple_weaken; [exact Hm|auto|exact HQ|auto]. Qed.
Lemma triple_pure {A : Type} (F : Prop) (P : Assert) (m : IO A) (Q : A → Assert) (X : Assert) : (F → triple P m Q X) → triple (λ fs, F ∧ P fs) m Q X.
Proof. intros Hm w [HF HP]. by apply Hm. Qed.
Lemma triple_exists {A B : Type} (P : B → Assert) (m : IO A) (Q : A → Assert) (X : Assert) : (∀ b, triple (P b) m Q X) → triple (λ fs, ∃ b, P b fs) m Q X.
Proof. intros Hm w [b HP]. by apply (Hm b). Qed.

Lemma triple_or {A : Type} (P P' : Assert) (m : IO A) (Q : A → Assert) (X : Assert) :
  triple P m Q X → triple P' m Q X → triple (λ fs, P fs ∨ P' fs) m Q X.
Proof. intros Hm Hm' w [HP|HP]; [by apply Hm|by apply Hm']. Qed.

Lemma triple_ret {A : Type} (a : A) (P : Assert) (Q : A → Assert) (X : Assert) : (∀ fs, P fs → Q a fs) → triple P (mret a) Q X.
Proof. intros HP w Hw. by apply HP. Qed.

Lemma triple_throw {A : Type} (e : fs_error) (P : Assert) (Q : A → Assert) (X : Assert) : (∀ fs, P fs → X fs ∧ blame) → triple P (throw e) Q X.
Proof. intros HP w Hw. by apply HP. Qed.

Lemma triple_bind {A B : Type} (m : IO A) (k : A → IO B) (P : Assert) (Q : A → Assert) (R : B → Assert) (X : Assert) :
  triple P m Q X → (∀ a, triple (Q a) (k a) R X) → triple P (m ≫= k) R X.
Proof.
  intros Hm Hk w Hw. specialize (Hm w Hw). unfold mbind, io_bind.
  destruct (m w) as [[a|e|] w']; [|done|done]. exact (Hk a w' Hm).
Qed.

Lemma triple_bind_ret {A B : Type} (a : A) (k : A → IO B) (P : Assert) (R : B → Assert) (X : Assert) :
  triple P (k a) R X → triple P (mret a ≫= k) R X.
Proof. done. Qed.

Lemma triple_refuse (b : bool) (msg : string) (P : Assert) (Q : unit → Assert) (X : Assert) :
  (∀ fs, P fs → b = false → Q tt fs) → (b = true → ∀ fs, P fs → X fs ∧ blame) → triple P (refuse b msg) Q X.
Proof. unfold refuse. destruct b; intros HQ HX; [by apply triple_throw, HX|apply triple_ret; auto]. Qed.

Lemma triple_lift {A : Type} (r : result string A) (P : Assert) (Q : A → Assert) (X : Assert) :
  (∀ a fs, r = Ok a → P fs → Q a fs) → (∀ e, r = Err e → ∀ fs, P fs → X fs ∧ blame) → triple P (lift r) Q X.
Proof. destruct r as [a|e]; intros HQ HX; [apply triple_ret; auto|apply triple_throw; by apply (HX e)]. Qed.

Lemma triple_attempt {A : Type} (m : IO A) (P : Assert) (Q : A → Assert) (X : Assert) :
  triple P m Q X → triple P (attempt m) (λ r fs, match r with Ok a => Q a fs | Err _ => X fs ∧ blame end) X.
Proof. intros Hm w Hw. specialize (Hm w Hw). unfold attempt. destruct (m w) as [[a|e|] w']; done. Qed.

(** Knowing besides which errors there can be. *)
Lemma triple_attempt_error {A : Type} (E : fs_error → Prop) (m : IO A) (P : Assert) (Q : A → Assert) (X : Assert) :
  triple P m Q X → (∀ w e w', P (w_fs w) → m w = (Failed e, w') → E e) →
  triple P (attempt m) (λ r fs, match r with Ok a => Q a fs | Err e => E e ∧ X fs ∧ blame end) X.
Proof.
  intros Hm HE w Hw. specialize (Hm w Hw). unfold attempt. specialize (HE w).
  destruct (m w) as [[a|e|] w']; cbn; [done| |done]. split; [by eapply HE|done].
Qed.

(** An operation whose error is dropped. *)
Lemma triple_ignore {A B : Type} (m : IO A) (k : result fs_error A → IO B) (P X : Assert) (R : B → Assert) :
  triple P m (λ _, P) P → (∀ fs, P fs → X fs) → (∀ r, triple P (k r) R X) → triple P (attempt m ≫= k) R X.
Proof.
  intros Hm HX Hk. eapply (triple_bind _ _ _ (λ _, P)); [|done].
  eapply triple_weaken; [apply triple_attempt, Hm|done| |done]. intros [a|e] fs; [done|by intros [? _]].
Qed.

Lemma triple_wrap {A : Type} (msg : string) (m : IO A) (P : Assert) (Q : A → Assert) (X : Assert) : triple P m Q X → triple P (wrap msg m) Q X.
Proof. intros Hm w Hw. specialize (Hm w Hw). unfold wrap. destruct (m w) as [[a|e|] w']; done. Qed.

(** A cleanup that keeps what the body established; its own outcome is dropped. *)
Definition preserves (Y : Assert) (cleanup : IO unit) : Prop :=
  ∀ w, Y (w_fs w) → Y (w_fs (cleanup w).2) ∧ ((cleanup w).1 = Crashed → blame).

Lemma triple_deferred {A : Type} (cleanup : IO unit) (m : IO A) (P : Assert) (Q : A → Assert) (X : Assert) :
  triple P m Q X → (∀ a, preserves (Q a) cleanup) → preserves X cleanup → (∀ a fs, Q a fs → X fs) →
  triple P (deferred cleanup m) Q X.
Proof.
  intros Hm Hc Hx HQX w Hw. specialize (Hm w Hw). unfold deferred.
  destruct (m w) as [[a|e|] w'].
  - destruct (Hc a w' Hm) as [Hc1 Hc2]. destruct (cleanup w') as [[u|e|] w'']; [done|done|].
    split; [by apply (HQX a)|by apply Hc2].
  - destruct Hm as [Hm Hb]. destruct (Hx w' Hm) as [Hx1 Hx2]. by destruct (cleanup w') as [[u|e'|] w''].
  - done.
Qed.

Lemma triple_on_failure {A : Type} (cleanup : IO unit) (m : IO A) (P : Assert) (Q : A → Assert) (X Y : Assert) :
  triple P m Q X → triple X cleanup (λ _, X) X → (∀ fs, X fs → Y fs) → triple P (on_failure cleanup m) Q Y.
Proof.
  intros Hm Hc HXY. unfold on_failure. eapply triple_bind.
  { eapply triple_weaken; [apply triple_attempt, Hm|done| |done]. intros r fs Hr. exact Hr. }
  intros [a|e]; [by apply triple_ret|].
  apply (triple_pre _ (λ fs, blame ∧ X fs)); [|by intros fs [? ?]]. apply triple_pure. intros Hb.
  eapply triple_weaken; [apply triple_ignore with (P := X) (X := X)|done| |exact HXY]; [done|done| |].
  - intros r. apply triple_throw. auto.
  - done.
Qed.

Lemma triple_for_each {A S : Type} (body : S → A → IO S) (I : list A → S → Assert) (X : Assert) (l : list A) (s : S) :
  (∀ don x rest s, l = don ++ x :: rest → triple (I don s) (body s x) (λ s', I (don ++ [x]) s') X) →
  triple (I [] s) (for_each body s l) (λ s', I l s') X.
Proof.
  intros Hbody. assert (∀ rest don s, l = don ++ rest → triple (I don s) (for_each body s rest) (λ s', I l s') X) as Hgen.
  { induction rest as [|x rest IH]; intros don s' Hl; cbn [for_each].
    - apply triple_ret. intros fs. by rewrite Hl, app_nil_r.
    - eapply triple_bind; [by apply (Hbody don x rest)|]. intros s''. apply IH. by rewrite Hl, <- app_assoc. }
  by apply Hgen.
Qed.

(** ** Operations *)
Lemma triple_step {A : Type} (kind : op_kind) (partial : nat → Fs → Fs)
    (run : Fs → result fs_error A * Fs) (P : Assert) (Q : A → Assert) (X : Assert) :
  (∀ fs, P fs → match run fs with (Ok a, fs') => Q a fs' | (Err _, fs') => X fs' ∧ blame end) →
  (∀ fs n, P fs → X (partial n fs)) → triple P (step kind partial run) Q X.
Proof.
  intros Hrun Hpart w Hw. unfold step. pose proof (fault_blame (w_tick w) kind) as Hf.
  destruct (faults (w_tick w) kind) as [|m n|n]; cbn.
  - specialize (Hrun _ Hw). destruct (run (w_fs w)) as [[a|e] fs']; done.
  - split; [by apply Hpart|by apply Hf].
  - split; [by apply Hpart|by apply Hf].
Qed.

(** A program that first looks at the clock or the tree. *)
Lemma triple_at {A : Type} (m : World → IO A) (P : Assert) (Q : A → Assert) (X : Assert) :
  (∀ w0, triple P (m w0) Q X) → triple P (λ w, m w w) Q X.
Proof. intros Hm w Hw. exact (Hm w w Hw). Qed.

(** Looking at a path: what is there, that nothing is, or a fault. *)
Lemma triple_lstat (p : list string) (P X : Assert) :
  (∀ fs, P fs → X fs) →
  triple P (attempt (lstat p))
    (λ r fs, P fs ∧ match r with
                    | Ok e => fs !! p = Some e
                    | Err e => (fs !! p = None ∧ e = ENotExist) ∨ (blame ∧ os_IsNotExist e = false)
                    end) X.
Proof.
  intros HX w Hw. unfold attempt, lstat, step, nothing. pose proof (fault_blame (w_tick w) OpLstat) as Hf.
  destruct (faults (w_tick w) OpLstat) as [|m n|n]; cbn.
  - destruct (w_fs w !! p) eqn:E; cbn; auto.
  - split; [done|]. right. split; [by apply Hf|done].
  - split; [auto|by apply Hf].
Qed.

(** Looking that never fails for another reason than absence. *)
Lemma triple_lstat_sure (p : list string) (P X : Assert) :
  (∀ t m n, faults t OpLstat ≠ Fails m n) → (∀ fs, P fs → X fs) →
  triple P (attempt (lstat p)) (λ r fs, P fs ∧ match r with Ok e => fs !! p = Some e | Err _ => fs !! p = None end) X.
Proof.
  intros Hsure HX w Hw. unfold attempt, lstat, step, nothing. pose proof (fault_blame (w_tick w) OpLstat) as Hf.
  destruct (faults (w_tick w) OpLstat) as [|m n|n] eqn:Ef; cbn.
  - destruct (w_fs w !! p) eqn:E; cbn; auto.
  - by apply Hsure in Ef.
  - split; [auto|by apply Hf].
Qed.

Lemma triple_lstat_found (p : list string) (P X : Assert) :
  (∀ fs, P fs → X fs) → (∀ fs, P fs → is_Some (fs !! p) ∨ blame) → triple P (lstat p) (λ e fs, P fs ∧ fs !! p = Some e) X.
Proof.
  intros HX Hp. apply triple_step; [|auto]. intros fs HP. destruct (fs !! p) eqn:E; [done|].
  destruct (Hp fs HP) as [Hs|]; [|auto]. rewrite E in Hs. by destruct Hs.
Qed.

Lemma triple_read (p : list string) (limit : Z) (P X : Assert) :
  (∀ fs, P fs → X fs) → (∀ fs, P fs → ∃ body, fs !! p = Some (EFile body) ∧ len body ≤ limit) →
  triple P (read_limited p limit) (λ body fs, P fs ∧ fs !! p = Some (EFile body)) X.
Proof.
  intros HX Hp. apply triple_step; [|auto]. intros fs HP. destruct (Hp fs HP) as (body & -> & Hl).
  rewrite take_ge by (unfold len in Hl; lia). done.
Qed.

Lemma triple_chmod (p : list string) (P X : Assert) :
  (∀ fs, P fs → X fs) → (∀ fs, P fs → is_Some (fs !! p)) → triple P (chmod p) (λ _, P) X.
Proof.
  intros HX Hp. apply triple_step; [|auto]. intros fs HP. destruct (Hp fs HP) as [e ->]. done.
Qed.

Lemma triple_sync (p : list string) (P X : Assert) : (∀ fs, P fs → X fs) → triple P (sync p) (λ _, P) X.
Proof. intros HX. apply triple_step; auto. Qed.

Lemma triple_close (p : list string) (P X : Assert) : (∀ fs, P fs → X fs) → triple P (close p) (λ _, P) X.
Proof. intros HX. apply triple_step; auto. Qed.

Lemma triple_random (P X : Assert) :
  (∀ fs, P fs → X fs) → triple P new_random_id (λ id fs, P fs ∧ ∃ t, id = random_id t) X.
Proof.
  intros HX. refine (triple_at (λ w0, step OpRandom nothing (λ fs, (Ok (random_id (w_tick w0)), fs))) _ _ _ _).
  intros w0. apply triple_step; [|auto]. intros fs HP. eauto.
Qed.

Lemma triple_mkdir (p : list string) (P Q X : Assert) :
  (∀ fs, P fs → X fs) → (∀ fs, P fs → fs !! dir_of p = Some EDir) →
  (∀ fs, P fs → is_Some (fs !! p) → blame) → (∀ fs, P fs → fs !! p = None → Q (<[p := EDir]> fs)) →
  triple P (mkdir p) (λ _, Q) X.
Proof.
  intros HX Hdir Hnone HQ. apply triple_step; [|auto]. intros fs HP. rewrite (Hdir fs HP).
  destruct (fs !! p) eqn:E; [|auto]. split; [auto|]. eapply Hnone; [done|by rewrite E].
Qed.

Lemma triple_remove (p : list string) (P Q X : Assert) :
  (∀ fs, P fs → X fs) → (∀ fs, P fs → ∃ e, fs !! p = Some e ∧ e ≠ EDir) → (∀ fs, P fs → Q (delete p fs)) →
  triple P (remove p) (λ _, Q) X.
Proof.
  intros HX Hp HQ. apply triple_step; [|auto]. intros fs HP. destruct (Hp fs HP) as (e & -> & He).
  destruct e; [auto|done|auto].
Qed.


(** Whatever it finds, a removal only concerns its path. *)
Lemma remove_preserves (p : list string) (Y : Assert) :
  (∀ fs, Y fs → Y (delete p fs)) → preserves Y (remove p).
Proof.
  intros HY w Hw. unfold remove, step, nothing. pose proof (fault_blame (w_tick w) OpRemove) as Hf.
  destruct (faults _ _); cbn; [|done|by split; [|intros _; apply Hf]].
  destruct (w_fs w !! p) as [[body| |]|]; cbn; auto. case_bool_decide; cbn; auto.
Qed.

(** Removing a tree changes nothing outside it, wherever it stops. *)
Lemma triple_remove_all (p : list string) (P : Assert) :
  stable (λ q, below p q = true) P → triple P (remove_all p) (λ _, P) P.
Proof.
  intros Hs. assert (∀ l fs, (∀ q, q ∈ l → below p q = true) → P fs → P (drop_paths l fs)) as Hdrop.
  { intros l. unfold drop_paths. induction l as [|q l IH]; intros fs Hl HP; cbn; [done|].
    apply IH; [set_solver|]. eapply stable_delete; [done| |done]. set_solver. }
  apply triple_step.
  - intros fs HP. apply Hdrop; [|done]. intros q Hq. unfold paths_below in Hq. by apply list_elem_of_filter in Hq as [? _].
  - intros fs n HP. apply Hdrop; [|done]. intros q Hq. apply subseteq_take in Hq.
    apply list_elem_of_filter in Hq as [_ Hq]. unfold paths_below in Hq. by apply list_elem_of_filter in Hq as [? _].
Qed.

(** A removal that returns has removed it all. *)
Lemma triple_remove_all_gone (p : list string) (P : Assert) :
  stable (λ q, below p q = true) P →
  triple P (remove_all p) (λ _ fs, P fs ∧ ∀ q, below p q = true → fs !! q = None) P.
Proof.
  intros Hs w Hw. pose proof (triple_remove_all p P Hs w Hw) as Hall. unfold remove_all, step in *.
  destruct (faults _ _); cbn in *; [|done..]. split; [done|]. intros q Hq. rewrite drop_paths_lookup.
  case_bool_decide as Hin; [done|]. destruct (w_fs w !! q) as [e|] eqn:He; [|done]. destruct Hin.
  unfold paths_below. apply list_elem_of_filter. split; [done|]. apply list_elem_of_fmap. exists (q, e). split; [done|].
  by apply elem_of_map_to_list.
Qed.

(** A temporary file leaves whatever does not look at temporary files. *)
Lemma triple_create_temp (parent : list string) (prefix : string) (P X : Assert) :
  stable (temp_of parent prefix) P → (∀ fs, P fs → X fs) → (∀ fs, P fs → fs !! parent = Some EDir) →
  triple P (create_temp parent prefix) (λ p fs, temp_of parent prefix p ∧ P fs ∧ fs !! p = Some (EFile [])) X.
Proof.
  intros Hs HX Hdir. unfold create_temp. refine (triple_at (λ w0, step OpCreateTemp nothing (λ fs, _)) _ _ _ _).
  intros w0. set (p := parent ++ _).
  assert (temp_of parent prefix p) as Hp by (eexists; split; [done|apply temp_name_prefix]).
  apply triple_step; [|auto]. intros fs HP. rewrite (Hdir fs HP).
  split_and!; [done| |apply lookup_insert_eq]. by eapply stable_insert.
Qed.
End logic.

(** ** Programs that only look *)
Section read_only.
Context `{GoOs}.

Definition read_only {A : Type} (m : IO A) : Prop := ∀ w, w_fs (m w).2 = w_fs w.

Lemma read_only_ret {A : Type} (a : A) : read_only (mret a).
Proof. done. Qed.
Lemma read_only_throw {A : Type} e : read_only (throw (A := A) e).
Proof. done. Qed.
Lemma read_only_bind {A B : Type} (m : IO A) (k : A → IO B) : read_only m → (∀ a, read_only (k a)) → read_only (m ≫= k).
Proof.
  intros Hm Hk w. specialize (Hm w). unfold mbind, io_bind. destruct (m w) as [[a|e|] w']; cbn in *; [|exact Hm..].
  rewrite <- Hm. apply (Hk a w').
Qed.
Lemma read_only_attempt {A : Type} (m : IO A) : read_only m → read_only (attempt m).
Proof. intros Hm w. specialize (Hm w). unfold attempt. by destruct (m w) as [[a|e|] w']. Qed.
Lemma read_only_wrap {A : Type} msg (m : IO A) : read_only m → read_only (wrap msg m).
Proof. intros Hm w. specialize (Hm w). unfold wrap. by destruct (m w) as [[a|e|] w']. Qed.
Lemma read_only_refuse b msg : read_only (refuse b msg).
Proof. by destruct b. Qed.
Lemma read_only_lift {A : Type} (r : result string A) : read_only (lift r).
Proof. by destruct r. Qed.
Lemma read_only_for_each {A S : Type} (body : S → A → IO S) s l : (∀ s x, read_only (body s x)) → read_only (for_each body s l).
Proof.
  intros Hb. revert s. induction l as [|x l IH]; intros s; cbn [for_each]; [apply read_only_ret|].
  by apply read_only_bind; [|intros s'].
Qed.
Lemma read_only_step {A : Type} kind (run : Fs → result fs_error A * Fs) :
  (∀ fs, (run fs).2 = fs) → read_only (step kind nothing run).
Proof.
  intros Hr w. unfold step, nothing. destruct (faults _ _); [|done..]. specialize (Hr (w_fs w)).
  by destruct (run (w_fs w)) as [[a|e] fs].
Qed.
Lemma read_only_lstat p : read_only (lstat p).
Proof. apply read_only_step. intros fs. by destruct (fs !! p). Qed.
Lemma read_only_read p limit : read_only (read_limited p limit).
Proof. apply read_only_step. intros fs. by destruct (fs !! p) as [[]|]. Qed.
Lemma read_only_chmod p : read_only (chmod p).
Proof. apply read_only_step. intros fs. by destruct (fs !! p). Qed.
Lemma read_only_sync p : read_only (sync p).
Proof. by apply read_only_step. Qed.
Lemma read_only_random : read_only new_random_id.
Proof. intros w. unfold new_random_id. by apply (read_only_step OpRandom (λ fs, (Ok _, fs))). Qed.

(** Whatever holds goes on holding. *)
Lemma triple_read_only {A : Type} (m : IO A) (P X : Fs → Prop) :
  read_only m → (∀ fs, P fs → X fs) → triple True P m (λ _, P) X.
Proof.
  intros Hm HX w Hw. specialize (Hm w). destruct (m w) as [[a|e|] w']; cbn in Hm; rewrite Hm; auto.
Qed.
End read_only.

Create HintDb read_only.
#[export] Hint Resolve read_only_ret read_only_throw read_only_attempt read_only_wrap read_only_refuse read_only_lift
  read_only_for_each read_only_lstat read_only_read read_only_chmod read_only_sync read_only_random : read_only.
(** Follows the program; only its conditions are taken apart. *)
Ltac looks :=
  repeat first
    [ progress intros
    | solve [eauto with read_only]
    | apply read_only_bind
    | apply read_only_attempt
    | apply read_only_wrap
    | apply read_only_for_each
    | match goal with
      | |- read_only (match ?x with _ => _ end) => destruct x
      | |- read_only (if ?b then _ else _) => destruct b
      end ].
