(* ===== verification/ResourceStoreFacts.v ===== *)
(** * The store's file operations in the crash logic

    Triples of reading, verifying and atomically replacing managed files, the
    manifest's meaning as a function of the tree, and what its names look like. *)
From Stdlib Require Import Ascii.
From S2P Require Import Prelude GoStrings GoSort GoJson GoFs ConfigTypes ResourceValidate ResourceStore FsLogic.
Open Scope Z_scope.

Lemma json_document_plain `{JsonCodec A} (v : A) body :
  json_plain v = true → json_marshal v = Ok body → json_document body = Ok v.
Proof. intros Hp Hm. unfold json_document. by destruct (json_round_trip v body Hp Hm) as (rest & -> & ->). Qed.

(** ** Managed names *)
(** A name that does not start with a dot. *)
Definition plain_name (n : string) : Prop := has_prefix n "." = false.

Lemma plain_hex s t : s ≠ "" → hex_decodes s = true → plain_name (s +:+ t).
Proof.
  intros Hs Hh. unfold plain_name. apply not_true_is_false. intros [r Hr]%has_prefix_spec.
  apply (f_equal bytes_of) in Hr. rewrite !bytes_of_app in Hr. unfold hex_decodes in Hh.
  destruct (bytes_of s) as [|c l] eqn:E.
  - apply Hs, slen_0. rewrite slen_bytes, E. done.
  - injection Hr as -> _. by destruct l.
Qed.

Lemma resourceFilename_plain `{GoHash} id s : plain_name (resourceFilename id s).
Proof.
  unfold resourceFilename, filename. repeat (destruct (streq _ _); [done|]). unfold ManagedFilename.
  destruct (digest_hex (bytes_of (r_ID (resource_at id s)))) as [Hl Hh]. apply plain_hex; [|done]. by intros Hd; rewrite Hd in Hl.
Qed.

Section facts.
Context `{GoOs} `{GoHash} `{RuleParsers} `{JsonCodec stateDocument}.
Context (blame : Prop) (fault_blame : ∀ t k, faults t k ≠ Fine → blame).
Local Abbreviation triple := (triple blame).

(** The manifest a tree holds; [None] when its file cannot be used. *)
Definition state_of (fs : Fs) : option stateDocument :=
  match fs !! state_path with
  | None => Some empty_state
  | Some (EFile body) =>
      if maxStateBytes <? len body then None else
      match json_document body with
      | Ok d => if is_ok (validateStateDocument d) then Some d else None
      | Err _ => None
      end
  | Some _ => None
  end.

(** What the manifest promises about the managed files. *)
Definition entry_ok (maxBytes : Z) (fs : Fs) (id : string) (s : resourceState) : Prop :=
  ∃ body, fs !! (home ++ [resourceFilename id s]) = Some (EFile body) ∧ 0 < len body ≤ maxBytes ∧
    digest body = rst_SHA256 s ∧ is_ok (ValidateResource (resource_at id s) body) = true.
Definition files_ok (maxBytes : Z) (d : stateDocument) (fs : Fs) : Prop :=
  ∀ id s, resources_of d !! id = Some s → entry_ok maxBytes fs id s.

(** Documents the store can write and read back. *)
Definition storable (d : stateDocument) : Prop :=
  json_plain d = true ∧ validateStateDocument d = Ok tt ∧
  ∃ body, json_marshal d = Ok body ∧ len body ≤ maxStateBytes.

Lemma triple_check_destination path msg (P X : Assert) :
  (∀ fs, P fs → X fs) → (∀ fs, P fs → fs !! path = None ∨ ∃ body, fs !! path = Some (EFile body)) →
  triple P (check_destination path msg) (λ _, P) X.
Proof.
  intros HX Hp. unfold check_destination. eapply triple_bind; [by apply triple_lstat|].
  intros [[body| |]|e]; cbn.
  - apply triple_ret. by intros fs [? _].
  - apply triple_throw. intros fs [HP He]. exfalso. destruct (Hp fs HP) as [|[? ?]]; congruence.
  - apply triple_throw. intros fs [HP He]. exfalso. destruct (Hp fs HP) as [|[? ?]]; congruence.
  - destruct (os_IsNotExist e) eqn:Ee; [apply triple_ret; by intros fs [? _]|]. apply triple_throw.
    intros fs [HP [[_ ->]|[? _]]]; [done|auto].
Qed.

(** Filling a temporary file, up to the rename. *)
Lemma triple_fill {A : Type} name body (tail : IO A) (P X : Assert) (R : A → Assert) :
  (∀ fs e, P fs → P (<[name := e]> fs)) → (∀ fs, P fs → X fs) →
  triple (λ fs, P fs ∧ fs !! name = Some (EFile body)) tail R X →
  triple (λ fs, P fs ∧ is_Some (fs !! name))
    (chmod name ≫= λ _, write name body ≫= λ _, sync name ≫= λ _, close name ≫= λ _, tail) R X.
Proof.
  intros Hins HX Htail. eapply triple_bind.
  { apply triple_chmod; [done| |]; intros fs [? ?]; auto. }
  intros []. eapply (triple_bind _ _ _ _ (λ _ fs, P fs ∧ fs !! name = Some (EFile body))).
  { apply triple_step; [done| |].
    - intros fs [HP _]. split; [auto|apply lookup_insert_eq].
    - intros fs n [HP _]. auto. }
  intros []. eapply triple_bind; [apply triple_sync; [done|intros fs [? _]; auto]|].
  intros []. eapply triple_bind; [apply triple_close; [done|intros fs [? _]; auto]|].
  intros []. exact Htail.
Qed.

Lemma triple_rename name path body (P Q X : Assert) :
  (∀ fs, P fs → P (delete name fs)) → (∀ fs, P fs → fs !! path ≠ Some EDir) →
  (∀ fs, P fs → Q (<[path := EFile body]> fs)) → (∀ fs, P fs → X fs) →
  triple (λ fs, P fs ∧ fs !! name = Some (EFile body)) (rename name path) (λ _, Q) X.
Proof.
  intros Hdel Hfile HQ HX. apply triple_step; [done| |intros fs n [? _]; auto].
  intros fs [HP ->]. destruct (fs !! path) as [[b| |]|] eqn:E; [|by destruct (Hfile fs HP)| |]; by apply HQ, Hdel.
Qed.

(** What the two atomic writers share: whatever happens to the temporary file,
    [path] changes from one moment to the next. *)
Lemma triple_replace {parent : list string} {prefix : string} {body : list ascii} (tail : list string → IO unit) (P Q X : Assert) :
  stable (temp_of parent prefix) P → stable (temp_of parent prefix) Q → stable (temp_of parent prefix) X →
  (∀ fs, P fs → fs !! parent = Some EDir) → (∀ fs, P fs → X fs) → (∀ fs, Q fs → X fs) →
  (∀ name, temp_of parent prefix name → triple (λ fs, P fs ∧ fs !! name = Some (EFile body)) (tail name) (λ _, Q) X) →
  triple P
    (name ← create_temp parent prefix;
     deferred (remove name)
       (chmod name ≫= λ _, write name body ≫= λ _, sync name ≫= λ _, close name ≫= λ _, tail name)) (λ _, Q) X.
Proof.
  intros HsP HsQ HsX Hdir HPX HQX Htail. eapply triple_bind.
  { by apply (triple_create_temp _ fault_blame). }
  intros name. apply triple_pure. intros Hname. apply triple_deferred.
  - eapply triple_pre; [apply triple_fill with (P := P); [|done|by apply Htail]|intros fs [? ->]; eauto].
    intros fs e. exact (stable_insert _ _ _ _ e HsP Hname).
  - intros _. apply (remove_preserves _ fault_blame). intros fs. exact (stable_delete _ _ _ _ HsQ Hname).
  - apply (remove_preserves _ fault_blame). intros fs. exact (stable_delete _ _ _ _ HsX Hname).
  - auto.
Qed.

Lemma triple_writeManagedAtomic path parent body (P Q X : Assert) :
  let T := temp_of parent ".resource-promote-" in
  stable T P → stable T Q → stable T X → dir_of path = parent → (∀ fs, P fs → fs !! parent = Some EDir) →
  (∀ fs, P fs → fs !! path = None ∨ ∃ body, fs !! path = Some (EFile body)) →
  (∀ fs, P fs → Q (<[path := EFile body]> fs)) → (∀ fs, P fs → X fs) → (∀ fs, Q fs → X fs) →
  triple P (writeManagedAtomic path parent body) (λ _, Q) X.
Proof.
  intros T HsP HsQ HsX Hpath Hdir Hfile HQ HPX HQX. unfold writeManagedAtomic. eapply triple_bind.
  { apply (triple_refuse _ _ _ P (λ _, P)); [done|]. intros Hb. by rewrite bool_decide_eq_true_2 in Hb. }
  intros []. eapply triple_bind; [by apply triple_check_destination|]. intros [].
  apply (triple_replace (λ name, rename name path ≫= λ _, sync parent) P); try done.
  intros name Hname. eapply triple_bind.
  - apply (triple_rename _ _ _ P Q); [|intros fs HP; destruct (Hfile fs HP) as [->|[b ->]]; done|done|done].
    intros fs. exact (stable_delete _ _ _ _ HsP Hname).
  - intros []. by apply triple_sync.
Qed.

Lemma triple_writeStateAtomic d (P Q X : Assert) :
  let T := temp_of home ".resource-state-" in
  stable T P → stable T Q → stable T X → (∀ fs, P fs → fs !! home = Some EDir) →
  (∀ fs, P fs → fs !! state_path = None ∨ ∃ body, fs !! state_path = Some (EFile body)) →
  blame ∨ (∃ body, json_marshal d = Ok body ∧ len body ≤ maxStateBytes) →
  (∀ fs body, P fs → json_marshal d = Ok body → len body ≤ maxStateBytes → Q (<[state_path := EFile body]> fs)) →
  (∀ fs, P fs → X fs) → (∀ fs, Q fs → X fs) →
  triple P (writeStateAtomic state_path home d) (λ _, Q) X.
Proof.
  intros T HsP HsQ HsX Hdir Hfile Hd HQ HPX HQX. unfold writeStateAtomic. eapply triple_bind.
  { apply (triple_lift _ _ P (λ body fs, json_marshal d = Ok body ∧ P fs)); [done|]. intros e He fs HP.
    split; [auto|]. destruct Hd as [|(body & Hb & _)]; [done|congruence]. }
  intros data. apply triple_pure. intros Hdata. eapply triple_bind.
  { apply (triple_refuse _ _ _ P (λ _ fs, len data ≤ maxStateBytes ∧ P fs)); [intros fs HP Hl; by apply Z.ltb_ge in Hl|].
    intros Hl fs HP. apply Z.ltb_lt in Hl. split; [auto|]. destruct Hd as [|(body & Hb & ?)]; [done|].
    rewrite Hdata in Hb. injection Hb as <-. lia. }
  intros []. apply triple_pure. intros Hl. eapply triple_bind; [by apply triple_check_destination|]. intros [].
  apply (triple_replace (λ name, rename name state_path ≫= λ _, attempt (sync home) ≫= λ _, mret tt) P); try done.
  intros name Hname. eapply triple_bind.
  - apply (triple_rename _ _ _ P Q); [|intros fs HP; destruct (Hfile fs HP) as [->|[b ->]]; done|auto|done].
    intros fs. exact (stable_delete _ _ _ _ HsP Hname).
  - intros []. apply triple_ignore; [by apply triple_sync|done|]. intros r. by apply triple_ret.
Qed.

(** A staged file is new. *)
Lemma triple_writeStaged path parent body (P Q X : Assert) :
  let T := temp_of parent ".resource-" in
  stable T P → stable T Q → stable T X → dir_of path = parent → (∀ fs, P fs → fs !! parent = Some EDir) →
  (∀ fs, P fs → fs !! path = None) →
  (∀ fs, P fs → Q (<[path := EFile body]> fs)) → (∀ fs, P fs → X fs) → (∀ fs, Q fs → X fs) →
  triple P (writeStaged path parent body) (λ _, Q) X.
Proof.
  intros T HsP HsQ HsX Hpath Hdir Hnone HQ HPX HQX. unfold writeStaged. rewrite bool_decide_eq_true_2 by done.
  cbn [negb]. apply triple_bind_ret. eapply triple_bind; [by apply triple_lstat|]. intros [e|e].
  - eapply (triple_bind _ _ _ _ (λ _ _, False)); [|by intros ? ? ?]. intros w [HP He].
    rewrite (Hnone _ HP) in He. done.
  - apply (triple_bind _ _ _ _ (λ _, P)).
    + destruct (os_IsNotExist e) eqn:Ee; [apply triple_ret; by intros fs [? _]|]. apply triple_throw.
      intros fs [HP [[_ ->]|[? _]]]; [done|auto].
    + intros _. apply triple_wrap. unfold replace_through_temp.
      apply (triple_replace (λ name, rename name path) P); try done.
      intros name Hname. apply (triple_rename _ _ _ P Q); [|by intros fs HP; rewrite (Hnone fs HP)|done|done].
      intros fs. exact (stable_delete _ _ _ _ HsP Hname).
Qed.

(** ** Reading *)
Definition managed_file (maxBytes : Z) (path : list string) (fs : Fs) : Prop :=
  ∃ body, fs !! path = Some (EFile body) ∧ 0 < len body ≤ maxBytes.

Lemma triple_readManaged path maxBytes (P X : Assert) :
  (∀ fs, P fs → X fs) → (∀ fs, P fs → blame ∨ managed_file maxBytes path fs) →
  triple P (readManaged path maxBytes)
    (λ body fs, P fs ∧ fs !! path = Some (EFile body) ∧ 0 < len body ≤ maxBytes) X.
Proof.
  intros HX Hp. unfold readManaged. eapply triple_bind.
  { apply triple_lstat_found; [done|exact HX|]. intros fs HP. destruct (Hp fs HP) as [|(b & -> & _)]; eauto. }
  assert (Hother : ∀ e msg, (∀ body, e ≠ EFile body) →
    triple (λ fs, P fs ∧ fs !! path = Some e) (throw (A := list ascii) (EFs msg))
      (λ body fs, P fs ∧ fs !! path = Some (EFile body) ∧ 0 < len body ≤ maxBytes) X).
  { intros e msg Hne. apply triple_throw. intros fs [HP He]. split; [auto|].
    destruct (Hp fs HP) as [|(b & Hb & _)]; [done|]. rewrite He in Hb. injection Hb as ->. by destruct (Hne b). }
  intros [body| |]; [|by apply Hother|by apply Hother]. eapply triple_bind.
  { apply (triple_refuse _ _ _ _ (λ _ fs, 0 < len body ≤ maxBytes ∧ P fs ∧ fs !! path = Some (EFile body))).
    - intros fs HP Hb. go_bool. done.
    - intros Hb fs [HP He]. split; [auto|]. destruct (Hp fs HP) as [|(b & Hb' & Hl)]; [done|].
      rewrite He in Hb'. injection Hb' as <-. apply orb_true_iff in Hb as [Hb|Hb]; go_bool; lia. }
  intros []. apply triple_pure. intros Hl. eapply triple_bind.
  { apply (triple_read _ fault_blame _ _ (λ fs, P fs ∧ fs !! path = Some (EFile body)) X).
    - intros fs [? _]. auto.
    - intros fs [_ ->]. exists body. split; [done|lia]. }
  intros data. eapply triple_pre with (P' := λ fs, data = body ∧ P fs ∧ fs !! path = Some (EFile body)).
  2: { intros fs [[HP Hs1] Hs2]. rewrite Hs1 in Hs2. by injection Hs2 as ->. }
  apply triple_pure. intros ->. eapply triple_bind.
  { apply (triple_refuse _ _ _ _ (λ _ fs, P fs ∧ fs !! path = Some (EFile body))); [done|].
    intros Hb. apply Z.ltb_lt in Hb. lia. }
  intros []. apply triple_ret. by intros fs [? ?].
Qed.

Lemma triple_verifyManifestFiles d maxBytes (P : Assert) :
  (∀ fs, P fs → blame ∨ files_ok maxBytes d fs) →
  triple P (verifyManifestFiles d maxBytes) (λ _ fs, P fs ∧ files_ok maxBytes d fs) P.
Proof.
  intros Hok. unfold verifyManifestFiles. eapply triple_weaken;
    [apply (triple_for_each _ _ (λ don _ fs, P fs ∧ ∀ id s, (id, s) ∈ don → entry_ok maxBytes fs id s) P)| | |done].
  - intros don [id s] rest [] Hl. unfold verify_entry.
    assert (Hin : resources_of d !! id = Some s).
    { apply elem_of_map_to_list. rewrite Hl. set_solver. }
    set (I := λ fs, P fs ∧ _). eapply triple_bind.
    { apply triple_attempt, (triple_readManaged _ _ I P); [by intros fs [? _]|]. intros fs [HP _].
      destruct (Hok fs HP) as [|Hf]; [auto|]. right. destruct (Hf id s Hin) as (body & ? & ? & _). by exists body. }
    intros [body|e]; cbn.
    + apply triple_refuse.
      * intros fs [[HP Hdon] [Hb Hlen]] Hc. apply orb_false_iff in Hc as [Hc1 Hc2]. go_bool. apply streq_true in Hc1.
        split; [done|]. intros id' s' [Hin'|Hin']%elem_of_app; [auto|]. apply list_elem_of_singleton in Hin' as [= -> ->].
        by exists body.
      * intros Hc fs [[HP Hdon] [Hb Hlen]]. split; [done|]. destruct (Hok fs HP) as [|Hf]; [done|].
        destruct (Hf id s Hin) as (b & Hb' & _ & Hd & Hv). pose proof (eq_trans (eq_sym Hb) Hb') as [= <-].
        rewrite Hv in Hc. apply orb_true_iff in Hc as [Hc|Hc]; [|done]. apply negb_true_iff, streq_false in Hc. by destruct Hc.
    + apply triple_throw. done.
  - intros fs HP. split; [done|]. intros id s Hn. by apply not_elem_of_nil in Hn.
  - intros [] fs [HP Hf]. split; [done|]. intros id s Hin. apply Hf. by apply elem_of_map_to_list.
Qed.

Lemma triple_loadStateFile d (P : Assert) :
  (∀ fs, P fs → state_of fs = Some d) → triple P (loadStateFile state_path) (λ d' fs, d' = d ∧ P fs) P.
Proof.
  intros Hd. unfold loadStateFile. eapply triple_bind; [by apply triple_lstat|]. unfold state_of in Hd.
  intros [[body| |]|e]; cbn [os_IsNotExist].
  - apply (triple_pre _ _ (λ fs, ((maxStateBytes <? len body) = false ∧ json_document body = Ok d ∧
      validateStateDocument d = Ok tt) ∧ P fs ∧ fs !! state_path = Some (EFile body))).
    2: { intros fs [HP He]. specialize (Hd fs HP). rewrite He in Hd. destruct (_ <? _); [done|].
         destruct (json_document body) as [d'|]; [|done]. destruct (validateStateDocument d') as [[]|] eqn:Hv; [|done].
         injection Hd as ->. done. }
    apply triple_pure. intros (Hl & Hj & Hv). rewrite Hl. apply triple_bind_ret.
    eapply triple_bind; [apply triple_wrap, triple_chmod; [done|by intros fs [? _]|intros fs [_ ->]; eauto]|].
    intros []. eapply triple_bind.
    { apply triple_wrap, (triple_read _ fault_blame _ _ _ P); [by intros fs [? _]|]. intros fs [_ ->].
      exists body. split; [done|]. by apply Z.ltb_ge. }
    intros data. eapply triple_pre with (P' := λ fs, data = body ∧ P fs).
    2: { intros fs [[HP Hs1] Hs2]. rewrite Hs1 in Hs2. by injection Hs2 as ->. }
    apply triple_pure. intros ->. rewrite Hj. apply triple_bind_ret. rewrite Hv. apply triple_bind_ret. by apply triple_ret.
  - apply triple_throw. intros fs [HP He]. specialize (Hd fs HP). by rewrite He in Hd.
  - apply triple_throw. intros fs [HP He]. specialize (Hd fs HP). by rewrite He in Hd.
  - destruct (os_IsNotExist e) eqn:Ee.
    + apply triple_ret. intros fs [HP [[He _]|[_ ?]]]; [|congruence]. specialize (Hd fs HP). rewrite He in Hd. by injection Hd.
    + apply triple_throw. intros fs [HP [[_ ->]|[? _]]]; done.
Qed.

Lemma triple_verifyRealDirectory path parent (P : Assert) :
  dir_of path = parent → (∀ fs, P fs → blame ∨ fs !! path = Some EDir) →
  triple P (verifyRealDirectory path parent) (λ _ fs, P fs ∧ fs !! path = Some EDir) P.
Proof.
  intros Hdir Hp. unfold verifyRealDirectory. rewrite bool_decide_eq_true_2 by done. cbn [negb]. apply triple_bind_ret.
  eapply triple_bind.
  { apply (triple_lstat_found _ fault_blame _ P P); [done|]. intros fs HP. destruct (Hp fs HP) as [?| ->]; eauto. }
  intros [body| |]; [|by apply triple_ret|]; apply triple_throw; intros fs [HP He];
    (split; [done|]); destruct (Hp fs HP) as [Hb|Hd]; [exact Hb|congruence|exact Hb|congruence].
Qed.
End facts.

(** ** What only looks *)
Section looking.
Context `{GoOs} `{GoHash} `{RuleParsers} `{JsonCodec stateDocument}.
Lemma read_only_readManaged path maxBytes : read_only (readManaged path maxBytes).
Proof. unfold readManaged. looks. Qed.
Lemma read_only_loadStateFile path : read_only (loadStateFile path).
Proof. unfold loadStateFile. looks. Qed.
Lemma read_only_verifyRealDirectory path parent : read_only (verifyRealDirectory path parent).
Proof. unfold verifyRealDirectory. looks. Qed.
Lemma read_only_ensureRoot : read_only ensureRoot.
Proof. unfold ensureRoot. looks. Qed.
Lemma read_only_verifyManifestFiles d maxBytes : read_only (verifyManifestFiles d maxBytes).
Proof.
  unfold verifyManifestFiles. apply read_only_for_each. intros _ [id s]. unfold verify_entry. apply read_only_bind; [|looks].
  apply read_only_attempt, read_only_readManaged.
Qed.
End looking.
#[export] Hint Resolve read_only_readManaged read_only_loadStateFile read_only_verifyRealDirectory read_only_ensureRoot
  read_only_verifyManifestFiles : read_only.
