(* ===== verification/ResourceJournal.v ===== *)
(** * The journal a promotion writes

    Backup names, the maps between managed names and entries, and the journal
    [promote] builds as a function of its arguments: it is one [validateJournal]
    accepts. *)
From Stdlib Require Import Ascii.
From S2P Require Import Prelude GoStrings GoSort GoJson GoFs ConfigTypes ResourceValidate ResourceStore ResourceTransaction ResourceStoreFacts.
Open Scope Z_scope.

(** ** Backup names *)
Definition nibble (n i : Z) : Z := Z.land (Z.shiftr n i) 15.

Lemma nibble_mod n i : 0 ≤ i → nibble n i = (n / 2 ^ i) mod 16.
Proof. intros Hi. unfold nibble. rewrite Z.shiftr_div_pow2 by lia. change 15 with (Z.ones 4). by rewrite Z.land_ones. Qed.
Lemma nibble_range n i : 0 ≤ i → 0 ≤ nibble n i < 16.
Proof. intros Hi. rewrite nibble_mod by done. by apply Z.mod_pos_bound. Qed.

Lemma hex_digit_cases (P : Z → Prop) :
  (∀ d, d ∈ [0; 1; 2; 3; 4; 5; 6; 7; 8; 9; 10; 11; 12; 13; 14; 15] → P d) → ∀ d, 0 ≤ d < 16 → P d.
Proof.
  intros HP d Hd. apply HP. assert (d = 0 ∨ d = 1 ∨ d = 2 ∨ d = 3 ∨ d = 4 ∨ d = 5 ∨ d = 6 ∨ d = 7 ∨ d = 8 ∨ d = 9 ∨
    d = 10 ∨ d = 11 ∨ d = 12 ∨ d = 13 ∨ d = 14 ∨ d = 15) as Hc by lia.
  set_solver.
Qed.
Lemma hex_digit_is_hex d : 0 ≤ d < 16 → is_hex_digit (hex_digit d) = true.
Proof. revert d. apply hex_digit_cases. apply Forall_forall. repeat constructor. Qed.
Lemma hex_digit_no_slash d : 0 ≤ d < 16 → Ascii.eqb (hex_digit d) "/" = false.
Proof. revert d. apply hex_digit_cases. apply Forall_forall. repeat constructor. Qed.
Lemma hex_digit_code d : 0 ≤ d < 16 → code (hex_digit d) = if d <? 10 then 48 + d else 87 + d.
Proof. revert d. apply hex_digit_cases. apply Forall_forall. repeat constructor. Qed.
Lemma hex_digit_inj c d : 0 ≤ c < 16 → 0 ≤ d < 16 → hex_digit c = hex_digit d → c = d.
Proof.
  intros Hc Hd Heq%(f_equal code). rewrite !hex_digit_code in Heq by done.
  destruct (c <? 10) eqn:E; destruct (d <? 10) eqn:F; go_bool; lia.
Qed.

(** Eight hexadecimal digits determine a 32-bit number. *)
Lemma nibbles_inj n m :
  0 ≤ n < 2 ^ 32 → 0 ≤ m < 2 ^ 32 → (∀ i, i ∈ [28; 24; 20; 16; 12; 8; 4; 0] → nibble n i = nibble m i) → n = m.
Proof.
  intros Hn Hm Hi. assert (Hall : ∀ k, 0 ≤ k < 32 → Z.testbit n k = Z.testbit m k).
  { intros k Hk. assert (Hb : ∀ v i, 0 ≤ i → i ≤ k < i + 4 → Z.testbit v k = Z.testbit (nibble v i) (k - i)).
    { intros v i Hi0 Hik. unfold nibble. rewrite Z.land_spec, Z.shiftr_spec by lia. change 15 with (Z.ones 4).
      rewrite Z.ones_spec_low by lia. rewrite andb_true_r. f_equal. lia. }
    assert (Hc : ∃ i, i ∈ [28; 24; 20; 16; 12; 8; 4; 0] ∧ 0 ≤ i ∧ i ≤ k < i + 4).
    { exists (4 * (k / 4)). assert (0 ≤ k / 4 < 8 ∧ 4 * (k / 4) ≤ k < 4 * (k / 4) + 4) as [Hr Hq].
      { pose proof (Z.div_mod k 4 ltac:(lia)). pose proof (Z.mod_pos_bound k 4 ltac:(lia)). lia. }
      split; [|lia]. assert (k / 4 = 0 ∨ k / 4 = 1 ∨ k / 4 = 2 ∨ k / 4 = 3 ∨ k / 4 = 4 ∨ k / 4 = 5 ∨ k / 4 = 6 ∨ k / 4 = 7)
        as Hcs by lia.
      destruct Hcs as [-> |[-> |[-> |[-> |[-> |[-> |[-> | ->]]]]]]]; set_solver. }
    destruct Hc as (i & Hin & Hi0 & Hik). by rewrite (Hb n i), (Hb m i), (Hi i). }
  apply Z.bits_inj'. intros k Hk. destruct (Z_lt_ge_dec k 32) as [Hlt|Hge]; [by apply Hall|].
  assert (Hhigh : ∀ v, 0 ≤ v < 2 ^ 32 → Z.testbit v k = false).
  { intros v [Hv0 Hv]. destruct (Z.eq_dec v 0) as [->|Hne]; [apply Z.testbit_0_l|].
    apply Z.bits_above_log2; [done|]. apply Z.log2_lt_pow2; [lia|].
    eapply Z.lt_le_trans; [exact Hv|]. apply Z.pow_le_mono_r; lia. }
  by rewrite !Hhigh.
Qed.

Lemma backup_name_bytes n :
  bytes_of (backup_name n) = bytes_of "file-" ++ ((λ i, hex_digit (nibble n i)) <$> [28; 24; 20; 16; 12; 8; 4; 0]) ++ bytes_of ".bak".
Proof. unfold backup_name, hex8. by rewrite !bytes_of_app, bytes_of_bytes. Qed.

Lemma backup_name_inj n m : 0 ≤ n < 2 ^ 32 → 0 ≤ m < 2 ^ 32 → backup_name n = backup_name m → n = m.
Proof.
  intros Hn Hm Heq%(f_equal bytes_of). rewrite !backup_name_bytes in Heq. apply nibbles_inj; [done..|].
  apply app_inv_head, app_inv_tail in Heq. intros i Hi.
  apply hex_digit_inj; [apply nibble_range; set_solver by lia..|].
  revert i Hi. apply Forall_forall. cbn [fmap list_fmap] in Heq. injection Heq as Heq. by repeat constructor.
Qed.

Lemma backup_name_valid n : validBackupName (backup_name n) = true.
Proof.
  assert (Hd : ∀ i, i ∈ [28; 24; 20; 16; 12; 8; 4; 0] → 0 ≤ nibble n i < 16).
  { intros i Hi. apply nibble_range. set_solver by lia. }
  assert (Hx : ∀ i, i ∈ [28; 24; 20; 16; 12; 8; 4; 0] → is_hex_digit (hex_digit (nibble n i)) = true).
  { intros i Hi. by apply hex_digit_is_hex, Hd. }
  unfold validBackupName. rewrite !andb_true_iff. repeat match goal with |- _ ∧ _ => split end.
  - rewrite slen_bytes, backup_name_bytes. done.
  - apply has_prefix_spec. by exists (hex8 n +:+ ".bak").
  - unfold has_suffix. apply bool_decide_eq_true_2. rewrite backup_name_bytes, !rev_app_distr.
    rewrite <- app_assoc. eexists. by apply strip_prefix_Some.
  - apply negb_true_iff. unfold contains_any. rewrite backup_name_bytes, !existsb_app. apply orb_false_iff. split; [done|].
    apply orb_false_iff. split; [|done]. cbn [fmap list_fmap existsb bytes_of String.list_ascii_of_string].
    by rewrite !(hex_digit_no_slash (nibble n _)) by (apply Hd; set_solver).
  - rewrite backup_name_bytes. unfold hex_decodes. rewrite bytes_of_bytes.
    change (hex_pairs ((λ i, hex_digit (nibble n i)) <$> [28; 24; 20; 16; 12; 8; 4; 0]) = true).
    cbn [fmap list_fmap hex_pairs]. by rewrite !Hx by set_solver.
Qed.

Lemma backup_name_not_temp n : has_prefix (backup_name n) ".resource-" = false.
Proof. done. Qed.

(** ** Loops that accept *)
Lemma fold_each_total {E A S} (I : list A → S → Prop) (f : S → A → result E S) l s :
  I [] s → (∀ don x rest s, l = don ++ x :: rest → I don s → ∃ s', f s x = Ok s' ∧ I (don ++ [x]) s') →
  ∃ s', fold_each f s l = Ok s' ∧ I l s'.
Proof.
  intros H0 Hstep. assert (∀ rest don s, l = don ++ rest → I don s → ∃ s', fold_each f s rest = Ok s' ∧ I l s') as Hgen.
  { induction rest as [|x rest IH]; intros don s' Hl Hs; cbn.
    - exists s'. split; [done|]. by rewrite Hl, app_nil_r.
    - destruct (Hstep don x rest s' Hl Hs) as (s1 & -> & H1). apply (IH (don ++ [x])); [|done]. by rewrite Hl, <- app_assoc. }
  by apply (Hgen l []).
Qed.

(** ** Names *)
Section names.
Context `{GoHash} `{RuleParsers}.

Definition names_exact (d : stateDocument) (names : gmap string string) : Prop :=
  ∀ name id, names !! name = Some id ↔ ∃ s, resources_of d !! id = Some s ∧ name = resourceFilename id s.

Lemma manifestNames_exact d names : manifestNames d = Ok names → names_exact d names.
Proof.
  intros Hn name id. unfold manifestNames in Hn.
  eapply (fold_each_inv (λ don (m : gmap string string), ∀ name id, m !! name = Some id ↔
    ∃ s, (id, s) ∈ don ∧ name = resourceFilename id s)) with (done := []) in Hn.
  - rewrite Hn. setoid_rewrite (elem_of_map_to_list (resources_of d)). done.
  - clear name id Hn. intros don [xid xs] m m' Hm _ Hadd name id. unfold add_name in Hadd.
    destruct (ValidateDeclaration _) as [[]|]; [|done]. case_bool_decide as Hnew; [done|]. injection Hadd as <-. cbn in *.
    setoid_rewrite elem_of_app. setoid_rewrite list_elem_of_singleton.
    destruct (decide (resourceFilename xid xs = name)) as [<-|Hne].
    + rewrite lookup_insert_eq. split.
      * intros [= <-]. eauto.
      * intros (s & [Hin|[= -> ->]] & Heq); [|done]. destruct Hnew. exists id. apply Hm. eauto.
    + rewrite lookup_insert_ne by done. rewrite Hm. split; intros (s & Hs & ->); [eauto|].
      destruct Hs as [Hs|[= -> ->]]; [eauto|done].
  - intros name' id'. rewrite lookup_empty. split; [done|]. intros (s & Hin & _). by apply not_elem_of_nil in Hin.
Qed.

(** Two entries never share a name. *)
Lemma names_exact_unique d names id id' s s' :
  names_exact d names → resources_of d !! id = Some s → resources_of d !! id' = Some s' →
  resourceFilename id s = resourceFilename id' s' → id = id'.
Proof.
  intros Hn Hs Hs' Heq. assert (names !! resourceFilename id s = Some id) as H1 by (apply Hn; eauto).
  assert (names !! resourceFilename id s = Some id') as H2 by (apply Hn; eauto). congruence.
Qed.

Lemma names_plain d names name : names_exact d names → is_Some (names !! name) → plain_name name.
Proof. intros Hn [id (s & _ & ->)%Hn]. apply resourceFilename_plain. Qed.

Lemma valid_sha d :
  validateStateDocument d = Ok tt → ∀ id s, resources_of d !! id = Some s → slen (rst_SHA256 s) = 64.
Proof.
  intros Hv id s Hs. unfold validateStateDocument in Hv. repeat (destruct (_ : bool); [done|]).
  apply bind_ok in Hv as ([] & He & _). rewrite each_ok in He.
  assert ((id, s) ∈ map_to_list (resources_of d)) as Hin by by apply elem_of_map_to_list.
  apply He in Hin. unfold check_state_entry in Hin. destruct (negb (ValidStableID id) || _ || _ || _ || _) eqn:E; [done|].
  repeat (apply orb_false_iff in E as [E ?]). go_bool. done.
Qed.

Lemma valid_resources d : validateStateDocument d = Ok tt → is_Some (sd_Resources d).
Proof.
  unfold validateStateDocument. destruct (_ || negb (bool_decide _)) eqn:E; [done|]. intros _.
  apply orb_false_iff in E as [_ E]. go_bool. done.
Qed.
Lemma valid_clone d : validateStateDocument d = Ok tt → cloneState d = d.
Proof. intros [r Hr]%valid_resources. destruct d as [? ? ? res]. cbn in Hr. by rewrite Hr. Qed.

Lemma valid_names d : validateStateDocument d = Ok tt → ∃ names, manifestNames d = Ok names.
Proof.
  unfold validateStateDocument. repeat (destruct (_ : bool); [done|]). intros ([] & _ & Hn)%bind_ok.
  destruct (manifestNames d); [eauto|done].
Qed.
End names.

(** ** Staged paths by managed name *)
Section staged.
Context `{GoHash} `{RuleParsers} (cand : stateDocument).

Definition paths_exact (l : list (string * list string)) (np : gmap string (list string)) : Prop :=
  ∀ name path, np !! name = Some path ↔
    ∃ id s, (id, path) ∈ l ∧ resources_of cand !! id = Some s ∧ name = resourceFilename id s.

Lemma add_staged_exact don np id path np' :
  paths_exact don np → add_staged cand np (id, path) = Ok np' → paths_exact (don ++ [(id, path)]) np'.
Proof.
  intros Hm Hadd name q. unfold add_staged in Hadd. cbn [fst snd] in Hadd.
  destruct (resources_of cand !! id) as [s|] eqn:Es; [|done]. case_bool_decide as Hnew; [done|]. injection Hadd as <-.
  setoid_rewrite elem_of_app. setoid_rewrite list_elem_of_singleton.
  destruct (decide (resourceFilename id s = name)) as [<-|Hne].
  - rewrite lookup_insert_eq. split.
    + intros [= <-]. eauto 7.
    + intros (id' & s' & [Hin|[= -> ->]] & Hs' & Heq); [|done].
      destruct Hnew. exists q. apply Hm. eauto.
  - rewrite lookup_insert_ne by done. rewrite (Hm name q). split.
    + intros (id' & s' & ? & ? & ?). eauto 7.
    + intros (id' & s' & [Hin|[= -> ->]] & Hs' & Heq); [eauto|]. congruence.
Qed.

Lemma staged_paths_exact (staged : gmap string (list string)) np :
  fold_each (add_staged cand) ∅ (map_to_list staged) = Ok np → paths_exact (map_to_list staged) np.
Proof.
  intros Hn. eapply (fold_each_inv paths_exact) with (done := []) in Hn; [exact Hn| |].
  - intros don [id path] m m' Hm _. by apply add_staged_exact.
  - intros name path. rewrite lookup_empty. split; [done|]. intros (? & ? & Hin & _). by apply not_elem_of_nil in Hin.
Qed.

Lemma staged_paths_total (staged : gmap string (list string)) cn :
  names_exact cand cn → (∀ id, is_Some (staged !! id) → is_Some (resources_of cand !! id)) →
  ∃ np, fold_each (add_staged cand) ∅ (map_to_list staged) = Ok np.
Proof.
  intros Hcn Hdom. pose proof (NoDup_fst_map_to_list staged) as Hnd.
  destruct (fold_each_total paths_exact (add_staged cand) (map_to_list staged) ∅) as (np & Hnp & _); [| |by exists np].
  - intros name path. rewrite lookup_empty. split; [done|]. intros (? & ? & Hin & _). by apply not_elem_of_nil in Hin.
  - intros don [id path] rest np Hl Hnp.
    assert (staged !! id = Some path) as Hid by (apply elem_of_map_to_list; rewrite Hl; set_solver).
    destruct (Hdom id) as [s Hs]; [eauto|].
    assert (∃ np', add_staged cand np (id, path) = Ok np') as [np' Hadd]; [|exists np'; split; [done|by eapply add_staged_exact]].
    unfold add_staged. cbn [fst snd]. rewrite Hs, bool_decide_eq_false_2; [eauto|].
    intros [q (id' & s' & Hin & Hs' & Heq)%Hnp]. pose proof (names_exact_unique _ _ _ _ _ _ Hcn Hs Hs' Heq) as <-.
    rewrite Hl, fmap_app in Hnd. apply NoDup_app in Hnd as (_ & Hnd & _). apply (Hnd id); [|set_solver].
    apply list_elem_of_fmap. by exists (id, q).
Qed.
End staged.

(** ** The journal as a function *)
Section journal.
Context `{GoOs} `{GoHash} `{RuleParsers}.
Context (maxBytes : Z) (prev cand : stateDocument) (pn cn : gmap string string).

(** The [index]-th file of the journal. *)
Definition file_of (index : Z) (name : string) : transactionFile :=
  let sha := match cn !! name with Some id => resource_sha cand id | None => "" end in
  match pn !! name with
  | Some id =>
      if sd_Version prev =? 2 then mkTransactionFile name (backup_name index) true (resource_sha prev id) sha
      else mkTransactionFile name "" false "" sha
  | None => mkTransactionFile name "" false "" sha
  end.
Definition files_of (names : list string) : list transactionFile := imap (λ i name, file_of (Z.of_nat i) name) names.
Definition journal_of (B : string) : transactionJournal :=
  mkTransactionJournal 1 "promoting" B maxBytes prev cand false (files_of (ordered_names pn cn)).

Lemma file_of_name index name : tf_Name (file_of index name) = name.
Proof. unfold file_of. destruct (pn !! name); [destruct (_ =? _)|]; done. Qed.
Lemma files_of_names names : tf_Name <$> files_of names = names.
Proof.
  unfold files_of. rewrite fmap_imap. rewrite <- (list_fmap_id names) at 2.
  rewrite <- imap_const. apply imap_ext. intros i x _. apply file_of_name.
Qed.
Lemma files_of_snoc names name : files_of (names ++ [name]) = files_of names ++ [file_of (len names) name].
Proof. unfold files_of. rewrite imap_app. cbn. by rewrite Nat.add_0_r. Qed.
Lemma files_of_split names don f rest :
  files_of names = don ++ f :: rest →
  ∃ dn name rn, names = dn ++ name :: rn ∧ don = files_of dn ∧ f = file_of (len dn) name.
Proof.
  intros Hl. exists (take (length don) names).
  assert (Hlook : files_of names !! length don = Some f) by by rewrite Hl, list_lookup_middle.
  unfold files_of in Hlook. rewrite list_lookup_imap in Hlook.
  destruct (names !! length don) as [name|] eqn:Hname; [|done]. cbn in Hlook. injection Hlook as <-.
  assert (Hlt : (length don < length names)%nat) by by apply lookup_lt_is_Some; eauto.
  assert (Hlen : length (take (length don) names) = length don) by (rewrite length_take; lia).
  exists name, (drop (S (length don)) names). split_and!.
  - by rewrite take_drop_middle.
  - pose proof (take_drop_middle _ _ _ Hname) as Hn. unfold files_of in *.
    apply (f_equal (imap (λ i name, file_of (Z.of_nat i) name))) in Hn. rewrite imap_app, Hl in Hn.
    apply app_inj_1 in Hn as [Hn _]; [done|]. by rewrite length_imap.
  - f_equal. unfold len. by rewrite Hlen.
Qed.
Lemma elem_of_files names f : f ∈ files_of names → ∃ i name, names !! i = Some name ∧ f = file_of (Z.of_nat i) name.
Proof. unfold files_of. intros (i & name & -> & Hn)%elem_of_lookup_imap. eauto. Qed.

Lemma elem_of_ordered name : name ∈ ordered_names pn cn ↔ is_Some (pn !! name) ∨ is_Some (cn !! name).
Proof. unfold ordered_names. by rewrite elem_of_insertion_sort, elem_of_elements, elem_of_union, !elem_of_dom. Qed.
Lemma ordered_NoDup : NoDup (ordered_names pn cn).
Proof. unfold ordered_names. rewrite insertion_sort_perm. apply NoDup_elements. Qed.

(** *** It validates *)
Context (Hpn : manifestNames prev = Ok pn) (Hcn : manifestNames cand = Ok cn).
Context (Hprev : validateStateDocument prev = Ok tt) (Hcand : validateStateDocument cand = Ok tt).
Context (Hsize : len (ordered_names pn cn) ≤ 2 ^ 32).

Lemma check_file_of B dn name rn seen :
  ordered_names pn cn = dn ++ name :: rn →
  sn_names seen = list_to_set dn → (∀ b, b ∈ sn_backups seen → ∃ i, 0 ≤ i < len dn ∧ b = backup_name i) →
  ∃ seen', check_file (journal_of B) pn cn seen (file_of (len dn) name) = Ok seen' ∧
    sn_names seen' = list_to_set (dn ++ [name]) ∧
    ∀ b, b ∈ sn_backups seen' → ∃ i, 0 ≤ i < len (dn ++ [name]) ∧ b = backup_name i.
Proof.
  intros Hl Hn Hb. pose proof ordered_NoDup as Hnd. rewrite Hl in Hnd. apply NoDup_app in Hnd as (_ & Hnd & _).
  assert (Hin : name ∈ ordered_names pn cn) by (rewrite Hl; set_solver). apply elem_of_ordered in Hin.
  assert (Hlen : 0 ≤ len dn < 2 ^ 32).
  { rewrite Hl, len_app, len_cons in Hsize. pose proof (len_nonneg dn). pose proof (len_nonneg rn). lia. }
  unfold check_file. rewrite !file_of_name.
  assert (negb (bool_decide (is_Some (pn !! name))) && negb (bool_decide (is_Some (cn !! name))) = false) as ->.
  { by destruct Hin as [Hs|Hs]; rewrite (bool_decide_eq_true_2 _ Hs), ?andb_false_r. }
  rewrite (bool_decide_eq_false_2 (name ∈ sn_names seen)).
  2: { rewrite Hn, elem_of_list_to_set. set_solver. }
  assert (Hlist : {[name]} ∪ sn_names seen = list_to_set (dn ++ [name]) :> gset string) by (rewrite Hn, list_to_set_app_L; set_solver).
  assert (Hend : ∀ b, b ∈ sn_backups seen → ∃ i, 0 ≤ i < len (dn ++ [name]) ∧ b = backup_name i).
  { intros b Hin'. destruct (Hb b Hin') as (i & ? & ->). exists i. rewrite len_snoc. split; [lia|done]. }
  assert (Hfresh : bool_decide (backup_name (len dn) ∈ sn_backups seen) = false).
  { apply bool_decide_eq_false. intros (i & Hi & Heq)%Hb. apply backup_name_inj in Heq; lia. }
  assert (Hnew : ∀ b, b ∈ {[backup_name (len dn)]} ∪ sn_backups seen → ∃ i, 0 ≤ i < len (dn ++ [name]) ∧ b = backup_name i).
  { intros b [->%elem_of_singleton|?]%elem_of_union; [|auto]. exists (len dn). rewrite len_snoc. split; [lia|done]. }
  unfold file_of. cbn [tj_Previous tj_Candidate journal_of].
  destruct (pn !! name) as [id|]; [destruct (sd_Version prev =? 2)|]; cbn;
    rewrite ?streq_refl, ?backup_name_valid, ?Hfresh; cbn;
    destruct (cn !! name); cbn; rewrite ?streq_refl; cbn; eexists; (split; [reflexivity|]); by split.
Qed.

Lemma journal_validates B :
  0 < maxBytes → sd_Version cand = 2 → validPrivateDir B = true → has_prefix B transactionDirPrefix = true →
  validateJournal (journal_of B) = Ok tt.
Proof.
  intros Hmax Hv HB HB'. unfold validateJournal. cbn [journal_of tj_Version tj_Phase tj_MaxBytes tj_BackupDir].
  rewrite HB, HB', (proj2 (Z.leb_gt _ _) Hmax). cbn. rewrite Hprev, Hcand, Hv. cbn.
  unfold names_or_empty. rewrite Hpn, Hcn.
  destruct (fold_each_total (λ don seen, ∃ dn, don = files_of dn ∧ sn_names seen = list_to_set dn ∧
    ∀ b, b ∈ sn_backups seen → ∃ i, 0 ≤ i < len dn ∧ b = backup_name i)
    (check_file (journal_of B) pn cn) (files_of (ordered_names pn cn)) (mkSeen ∅ ∅)) as (seen & Hfold & dn & Hdn & Hnames & _).
  - exists []. split_and!; [done|done|]. intros b Hb. by apply not_elem_of_empty in Hb.
  - intros don f rest s Hl (dn & -> & Hn & Hb). destruct (files_of_split _ _ _ _ Hl) as (dn' & name & rn & Hsplit & Heq & ->).
    apply (f_equal (fmap tf_Name)) in Heq. rewrite !files_of_names in Heq. subst dn'.
    destruct (check_file_of B dn name rn s Hsplit Hn Hb) as (s' & Hs' & ?). exists s'. split; [done|].
    exists (dn ++ [name]). by rewrite files_of_snoc.
  - rewrite Hfold. cbn. apply (f_equal (fmap tf_Name)) in Hdn. rewrite !files_of_names in Hdn. subst dn.
    rewrite Hnames. assert (list_to_set (ordered_names pn cn) = dom pn ∪ dom cn :> gset string) as ->.
    { apply set_eq. intros name. by rewrite elem_of_list_to_set, elem_of_ordered, elem_of_union, !elem_of_dom. }
    by rewrite bool_decide_eq_true_2.
Qed.
End journal.

(** ** What an accepted journal says *)
Section accepted.
Context `{GoHash} `{RuleParsers}.

(** One accepted file. *)
Definition file_agrees (j : transactionJournal) (f : transactionFile) : Prop :=
  let pn := names_or_empty (tj_Previous j) in
  let cn := names_or_empty (tj_Candidate j) in
  (is_Some (pn !! tf_Name f) ∨ is_Some (cn !! tf_Name f)) ∧
  (tf_HadPrevious f = true ↔ is_Some (pn !! tf_Name f) ∧ sd_Version (tj_Previous j) = 2) ∧
  (tf_HadPrevious f = true → validBackupName (tf_Backup f) = true ∧
    tf_PreviousSHA256 f = resource_sha (tj_Previous j) (default "" (pn !! tf_Name f))) ∧
  tf_CandidateSHA256 f = match cn !! tf_Name f with Some id => resource_sha (tj_Candidate j) id | None => "" end.

Definition backups (l : list transactionFile) : list string := tf_Backup <$> filter (λ f, tf_HadPrevious f = true) l.

Lemma check_file_accepts j s f s' :
  check_file j (names_or_empty (tj_Previous j)) (names_or_empty (tj_Candidate j)) s f = Ok s' →
  (tf_Name f ∉ sn_names s) ∧ sn_names s' = {[tf_Name f]} ∪ sn_names s ∧ file_agrees j f ∧
  (if tf_HadPrevious f then (tf_Backup f ∉ sn_backups s) ∧ sn_backups s' = {[tf_Backup f]} ∪ sn_backups s
   else sn_backups s' = sn_backups s).
Proof.
  unfold check_file, file_agrees. set (pn := names_or_empty (tj_Previous j)). set (cn := names_or_empty (tj_Candidate j)).
  destruct (negb (bool_decide (is_Some (pn !! tf_Name f))) && _) eqn:Hmanaged; [done|].
  destruct (bool_decide (tf_Name f ∈ sn_names s)) eqn:Hseen; [done|]. apply bool_decide_eq_false in Hseen.
  set (expect := bool_decide (is_Some (pn !! tf_Name f)) && (sd_Version (tj_Previous j) =? 2)).
  destruct (negb (Bool.eqb (tf_HadPrevious f) expect)) eqn:Hhad; [done|]. apply negb_false_iff, eqb_prop in Hhad.
  assert (Hiff : tf_HadPrevious f = true ↔ is_Some (pn !! tf_Name f) ∧ sd_Version (tj_Previous j) = 2).
  { rewrite Hhad. unfold expect. by rewrite andb_true_iff, bool_decide_eq_true, Z.eqb_eq. }
  assert (Hor : is_Some (pn !! tf_Name f) ∨ is_Some (cn !! tf_Name f)).
  { apply andb_false_iff in Hmanaged as [Hm|Hm]; apply negb_false_iff, bool_decide_eq_true in Hm; auto. }
  intros (bs & Hbs & Htail)%bind_ok.
  assert (Hsha : sn_names s' = {[tf_Name f]} ∪ sn_names s ∧ sn_backups s' = bs ∧
    tf_CandidateSHA256 f = match cn !! tf_Name f with Some id => resource_sha (tj_Candidate j) id | None => "" end).
  { destruct (cn !! tf_Name f) as [id|]; destruct (negb _) eqn:E in Htail; try done; injection Htail as <-;
      apply negb_false_iff, streq_true in E; done. }
  destruct Hsha as (Hn & Hb & Hc). rewrite <- Hhad in Hbs. destruct (tf_HadPrevious f).
  - destruct (negb (streq _ _) || negb (validBackupName _)) eqn:E in Hbs; [done|]. apply orb_false_iff in E as [E1 E2].
    apply negb_false_iff in E1, E2. apply streq_true in E1.
    destruct (bool_decide _) eqn:Hnew in Hbs; [done|]. apply bool_decide_eq_false in Hnew. injection Hbs as <-.
    by split_and!.
  - destruct (_ || _) in Hbs; [done|]. injection Hbs as <-. by split_and!.
Qed.

(** A journal the validator accepts is complete and unambiguous: it names
    every file the previous or the candidate manifest manages, each exactly
    once, with the hashes of these manifests and, for each file there was, a
    backup of its own. *)
Theorem validateJournal_complete j :
  validateJournal j = Ok tt → tj_MetadataOnly j = false →
  NoDup (tf_Name <$> tj_Files j) ∧ NoDup (backups (tj_Files j)) ∧
  (∀ name, name ∈ tf_Name <$> tj_Files j ↔
    is_Some (names_or_empty (tj_Previous j) !! name) ∨ is_Some (names_or_empty (tj_Candidate j) !! name)) ∧
  ∀ f, f ∈ tj_Files j → file_agrees j f.
Proof.
  intros Hv Hmeta. unfold validateJournal in Hv. destruct (_ || _) in Hv; [done|].
  apply bind_ok in Hv as ([] & _ & Hv). destruct (_ || _) in Hv; [done|]. rewrite Hmeta in Hv.
  apply bind_ok in Hv as (seen & Hfold & Hsize). destruct (negb _) eqn:E in Hsize; [done|].
  apply negb_false_iff, bool_decide_eq_true in E.
  pose proof Hfold as Hb. eapply (fold_each_inv (λ don s, NoDup (backups don) ∧ ∀ b, b ∈ sn_backups s ↔ b ∈ backups don))
    with (done := []) in Hb as [Hbs _].
  2: { intros don f s s' [Hnd Hin] _ (_ & _ & _ & Hbk)%check_file_accepts. unfold backups in *. rewrite filter_app, fmap_app.
       cbn. destruct (tf_HadPrevious f); cbn; [|by rewrite Hbk, app_nil_r]. destruct Hbk as [Hnew ->]. split.
       - apply NoDup_app. split_and!; [done| |apply NoDup_singleton]. intros b Hb' ->%list_elem_of_singleton.
         by apply Hnew, Hin.
       - intros b. specialize (Hin b). set_solver. }
  2: { split; [constructor|]. intros b. cbn. set_solver. }
  apply (fold_each_unique sn_names tf_Name (file_agrees j)) in Hfold as (Hnd & Hall & Hseen).
  2: { intros s f s' (? & ? & ? & _)%check_file_accepts. done. }
  cbn [sn_names] in Hseen. rewrite union_empty_r_L in Hseen. split_and!; [done|done| |intros f Hf; by apply Hall].
  intros name. rewrite <- !elem_of_dom, <- elem_of_union.
  assert (Heq : sn_names seen = dom (names_or_empty (tj_Previous j)) ∪ dom (names_or_empty (tj_Candidate j))).
  { apply set_subseteq_size_eq; [|by rewrite E]. rewrite Hseen. intros n (f & -> & Hf)%elem_of_list_to_set%list_elem_of_fmap.
    destruct (Hall f Hf) as [_ [Hor _]]. by rewrite elem_of_union, !elem_of_dom. }
  by rewrite <- Heq, Hseen, elem_of_list_to_set.
Qed.
End accepted.
