(* ===== verification/ResourceStates.v ===== *)
(** * The states of a home around one transaction

    Predicates over the tree, relative to the tree [fs0] the transaction started
    from: none of them looks at temporary files. *)
From Stdlib Require Import Ascii.
From S2P Require Import Prelude GoStrings GoSort GoJson GoFs ConfigTypes ResourceValidate ResourceStore ResourceTransaction FsLogic ResourceStoreFacts.
Open Scope Z_scope.

(** ** Names *)
Definition at_home (n : string) : list string := home ++ [n].

Definition temp (p : list string) : Prop :=
  temp_of home ".resource-promote-" p ∨ temp_of home ".resource-state-" p.

Lemma has_prefix_trans s p q : has_prefix s p = true → has_prefix p q = true → has_prefix s q = true.
Proof.
  intros [r ->]%has_prefix_spec [t ->]%has_prefix_spec. apply has_prefix_spec. exists (t +:+ r).
  apply bytes_of_inj. by rewrite !bytes_of_app, <- app_assoc.
Qed.

Lemma temp_home n : temp (at_home n) → has_prefix n ".resource-promote-" = true ∨ has_prefix n ".resource-state-" = true.
Proof. by intros [(m & [= ->] & Hm)|(m & [= ->] & Hm)]; [left|right]. Qed.
Lemma temp_shape p : temp p → ∃ n, p = at_home n.
Proof. intros [(n & -> & _)|(n & -> & _)]; by exists n. Qed.

Lemma plain_not_temp n : plain_name n → ¬ temp (at_home n).
Proof.
  intros Hp [Hn|Hn]%temp_home; unfold plain_name in Hp;
    apply (has_prefix_trans _ _ ".") in Hn; [congruence|done|congruence|done].
Qed.
Lemma home_not_temp : ¬ temp home.
Proof. intros [n [=]]%temp_shape. Qed.
Lemma state_not_temp : ¬ temp state_path.
Proof. intros [Hn|Hn]%(temp_home stateFileName); by vm_compute in Hn. Qed.
Lemma journal_not_temp : ¬ temp journal_path.
Proof. intros [Hn|Hn]%(temp_home transactionFileName); by vm_compute in Hn. Qed.

(** Two prefixes of one name agree as far as both go. *)
Lemma strip_prefix_clash p q l r r' :
  strip_prefix p l = Some r → strip_prefix q l = Some r' → take (length q) p = take (length p) q.
Proof.
  revert q l r r'. induction p as [|a p IH]; intros [|b q] [|c l] r r'; cbn; try done.
  destruct (ascii_dec a c) as [->|]; [|done]. destruct (ascii_dec b c) as [->|]; [|done]. intros Hp Hq.
  f_equal. by eapply IH.
Qed.
Lemma prefix_clash s p q :
  has_prefix s p = true → has_prefix s q = true →
  take (length (bytes_of q)) (bytes_of p) = take (length (bytes_of p)) (bytes_of q).
Proof.
  unfold has_prefix. rewrite !bool_decide_eq_true. intros [r Hr] [r' Hr']. by eapply strip_prefix_clash.
Qed.
Lemma txn_not_temp B : has_prefix B transactionDirPrefix = true → ¬ temp (at_home B).
Proof. intros HB [Hn|Hn]%temp_home; pose proof (prefix_clash _ _ _ HB Hn) as Hc; by vm_compute in Hc. Qed.
Lemma below_not_temp B p : below (at_home B) p = true → has_prefix B transactionDirPrefix = true → ¬ temp p.
Proof.
  unfold below, at_home, home. cbn. intros Hp HB Ht. apply bool_decide_eq_true in Hp.
  destruct (temp_shape _ Ht) as [n ->]. injection Hp as ->. by apply (txn_not_temp B).
Qed.
Lemma txn_not_plain B n : has_prefix B transactionDirPrefix = true → plain_name n → B ≠ n.
Proof. intros HB Hn ->. unfold plain_name in Hn. by rewrite (has_prefix_trans _ _ "." HB eq_refl) in Hn. Qed.
Lemma plain_below B n : has_prefix B transactionDirPrefix = true → plain_name n → below (at_home B) (at_home n) = false.
Proof.
  intros HB Hn. unfold below, at_home, home. cbn. apply bool_decide_eq_false. intros [= ->]. by apply (txn_not_plain B B).
Qed.

(** Assertions that do not look at temporary files. *)
Definition blind (P : Assert) : Prop := ∀ fs fs', (∀ p, ¬ temp p → fs' !! p = fs !! p) → P fs → P fs'.
Lemma blind_stable P prefix : blind P → (∀ p, temp_of home prefix p → temp p) → stable (temp_of home prefix) P.
Proof.
  intros HP Ht fs p Hp Hfs. apply Ht in Hp. split; [|intros e]; eapply HP; try exact Hfs; intros q Hq.
  - rewrite lookup_delete_ne; [done|]. by intros <-.
  - rewrite lookup_insert_ne; [done|]. by intros <-.
Qed.
Lemma blind_or P Q : blind P → blind Q → blind (λ fs, P fs ∨ Q fs).
Proof. intros HP HQ fs fs' Hsame [Hp|Hq]; [left; by eapply HP|right; by eapply HQ]. Qed.
Lemma blind_and P Q : blind P → blind Q → blind (λ fs, P fs ∧ Q fs).
Proof. intros HP HQ fs fs' Hsame [Hp Hq]. split; [by eapply HP|by eapply HQ]. Qed.

(** Setting or clearing a path. *)
Definition put (p : list string) (e : option entry) (fs : Fs) : Fs := partial_alter (λ _, e) p fs.
Lemma put_eq p e fs : put p e fs !! p = e.
Proof. apply lookup_partial_alter_eq. Qed.
Lemma put_ne p q e fs : p ≠ q → put p e fs !! q = fs !! q.
Proof. intros Hne. by apply lookup_partial_alter_ne. Qed.
Lemma put_insert p e fs : <[p := e]> fs = put p (Some e) fs.
Proof. done. Qed.
Lemma put_delete p fs : delete p fs = put p None fs.
Proof. done. Qed.

(** Where a loop over a journal's files has got to. *)
Lemma in_files (l don : list transactionFile) f rest :
  l = don ++ f :: rest → f ∈ l ∧ (∀ g, g ∈ don → g ∈ l) ∧ ∀ g, g ∈ don ++ [f] → g ∈ l.
Proof. intros ->. split_and!; [set_solver..|]. intros g. rewrite !elem_of_app. set_solver. Qed.

(** ** One transaction *)
Section transaction.
Context `{GoOs} `{GoHash} `{RuleParsers} `{JsonCodec stateDocument} `{JsonCodec transactionJournal}.
Context (fs0 : Fs) (prev cand : stateDocument) (maxBytes : Z) (new : string → option entry).

(** Bytes the store accepts for an entry with hash [sha]. *)
Definition good_bytes (sha : string) (body : list ascii) : Prop :=
  0 < len body ≤ maxBytes ∧ digest body = sha.

(** What a journal says about one destination, and that it is so in [fs0]. *)
Definition file_recorded (f : transactionFile) : Prop :=
  plain_name (tf_Name f) ∧
  (if tf_HadPrevious f then
     ∃ body, fs0 !! at_home (tf_Name f) = Some (EFile body) ∧ good_bytes (tf_PreviousSHA256 f) body
   else fs0 !! at_home (tf_Name f) = None) ∧
  ∀ e, new (tf_Name f) = Some e →
    ∃ body, e = EFile body ∧ tf_CandidateSHA256 f ≠ "" ∧ good_bytes (tf_CandidateSHA256 f) body.

Record recorded (B : string) (J : transactionJournal) : Prop := {
  rc_dir : has_prefix B transactionDirPrefix = true;
  rc_backup_dir : tj_BackupDir J = B;
  rc_previous : tj_Previous J = prev;
  rc_candidate : tj_Candidate J = cand;
  rc_max : tj_MaxBytes J = maxBytes;
  rc_files : ∀ f, f ∈ tj_Files J → file_recorded f
}.

(** A journal that can be written and read back. *)
Definition legible (J : transactionJournal) : Prop :=
  json_plain J = true ∧ validateJournal J = Ok tt ∧ ∃ body, json_marshal J = Ok body ∧ len body ≤ maxStateBytes.

Definition is_destination (J : transactionJournal) (p : list string) : Prop := ∃ f, f ∈ tj_Files J ∧ p = at_home (tf_Name f).

(** Everything else is as it was. *)
Definition untouched (B : string) (J : transactionJournal) (fs : Fs) : Prop :=
  ∀ p, ¬ temp p → below (at_home B) p = false → p ≠ journal_path → p ≠ state_path → ¬ is_destination J p →
    fs !! p = fs0 !! p.

Definition journal_is (J : transactionJournal) (fs : Fs) : Prop :=
  ∃ body, fs !! journal_path = Some (EFile body) ∧ json_marshal J = Ok body ∧ len body ≤ maxStateBytes.

Definition backed_up (B : string) (J : transactionJournal) (fs : Fs) : Prop :=
  fs !! at_home B = Some EDir ∧
  ∀ f, f ∈ tj_Files J → tf_HadPrevious f = true →
    fs !! (at_home B ++ [tf_Backup f]) = fs0 !! at_home (tf_Name f).

Definition holds_old (fs : Fs) (f : transactionFile) : Prop := fs !! at_home (tf_Name f) = fs0 !! at_home (tf_Name f).
Definition holds_new (fs : Fs) (f : transactionFile) : Prop := fs !! at_home (tf_Name f) = new (tf_Name f).

(** While the journal says "promoting". *)
Record pending (B : string) (J : transactionJournal) (fs : Fs) : Prop := {
  pe_untouched : untouched B J fs;
  pe_journal : journal_is J fs;
  pe_backup : backed_up B J fs;
  pe_files : ∀ f, f ∈ tj_Files J → holds_old fs f ∨ holds_new fs f;
  pe_state : state_of fs = Some prev ∨ state_of fs = Some cand
}.

(** As before the transaction: the same bytes everywhere but in temporary files,
    the transaction's own directory and the manifest, which reads the same. *)
Definition settled (B : string) (fs : Fs) : Prop :=
  (∀ p, ¬ temp p → below (at_home B) p = false → p ≠ state_path → fs !! p = fs0 !! p) ∧ state_of fs = Some prev.

(** All the candidate's files, as its manifest says, and that manifest. *)
Definition promoted (B : string) (J : transactionJournal) (fs : Fs) : Prop :=
  untouched B J fs ∧ (∀ f, f ∈ tj_Files J → holds_new fs f) ∧ files_ok maxBytes cand fs ∧ state_of fs = Some cand.
(** Promoted, and not yet accepted. *)
Definition committed (B : string) (J : transactionJournal) (fs : Fs) : Prop :=
  pending B J fs ∧ promoted B J fs.
Definition accepted (B : string) (J : transactionJournal) (fs : Fs) : Prop :=
  promoted B J fs ∧ journal_is (with_phase J "accepted") fs ∧ fs !! at_home B = Some EDir.
Definition finished (B : string) (J : transactionJournal) (fs : Fs) : Prop :=
  promoted B J fs ∧ fs !! journal_path = None.

(** *** These do not look at temporary files *)
Lemma state_of_same fs fs' : fs' !! state_path = fs !! state_path → state_of fs' = state_of fs.
Proof. unfold state_of. by intros ->. Qed.

Lemma untouched_blind B J : blind (untouched B J).
Proof. intros fs fs' Hsame Hu p Ht. intros. rewrite Hsame by done. by apply Hu. Qed.
Lemma journal_is_blind J : blind (journal_is J).
Proof. intros fs fs' Hsame (body & Hb & ?). exists body. by rewrite (Hsame _ journal_not_temp). Qed.
Lemma backed_up_blind B J : has_prefix B transactionDirPrefix = true → blind (backed_up B J).
Proof.
  intros HB fs fs' Hsame [Hd Hf].
  assert (Hb : ∀ p, below (at_home B) p = true → fs' !! p = fs !! p).
  { intros p Hp. apply Hsame. by apply (below_not_temp B). }
  split; [rewrite Hb; [done|]|intros f Hin Hh; rewrite Hb; [by apply Hf|]]; unfold below; cbn; by rewrite bool_decide_eq_true_2.
Qed.
Lemma state_blind d : blind (λ fs, state_of fs = Some d).
Proof. intros fs fs' Hsame. by rewrite (state_of_same fs fs') by (by apply Hsame, state_not_temp). Qed.

Lemma files_ok_blind d : blind (files_ok maxBytes d).
Proof.
  intros fs fs' Hsame Hok id s Hs. destruct (Hok id s Hs) as (body & Hb & ?). exists body.
  split; [|done]. refine (eq_trans (Hsame (at_home _) _) Hb). apply plain_not_temp, resourceFilename_plain.
Qed.

Section recorded.
Context (B : string) (J : transactionJournal) (Hrec : recorded B J).

Lemma destination_plain f : f ∈ tj_Files J → plain_name (tf_Name f).
Proof. intros Hf. by apply (rc_files _ _ Hrec) in Hf as [? _]. Qed.

Lemma holds_blind (fs fs' : Fs) f :
  (∀ p, ¬ temp p → fs' !! p = fs !! p) → f ∈ tj_Files J →
  fs' !! at_home (tf_Name f) = fs !! at_home (tf_Name f).
Proof. intros Hsame Hf. by apply Hsame, plain_not_temp, destination_plain. Qed.

Lemma pending_blind : blind (pending B J).
Proof.
  intros fs fs' Hsame [Hu Hj Hb Hf Hs]. split.
  - by eapply untouched_blind.
  - by eapply journal_is_blind.
  - by eapply backed_up_blind; [apply (rc_dir _ _ Hrec)| |].
  - intros f Hin. unfold holds_old, holds_new. rewrite (holds_blind _ _ _ Hsame Hin). by apply Hf.
  - by rewrite (state_of_same fs fs') by (by apply Hsame, state_not_temp).
Qed.
Lemma settled_blind : blind (settled B).
Proof.
  intros fs fs' Hsame [Hu Hs]. split; [intros; rewrite Hsame by done; by apply Hu|by eapply state_blind].
Qed.
Lemma promoted_blind : blind (promoted B J).
Proof.
  intros fs fs' Hsame (Hu & Hf & Hok & Hs).
  split_and!; [by eapply untouched_blind| |by eapply files_ok_blind|by eapply state_blind].
  intros f Hin. unfold holds_new. rewrite (holds_blind _ _ _ Hsame Hin). by apply Hf.
Qed.
Lemma committed_blind : blind (committed B J).
Proof. apply blind_and; [apply pending_blind|apply promoted_blind]. Qed.
Lemma finished_blind : blind (finished B J).
Proof. apply blind_and; [apply promoted_blind|]. intros fs fs' Hsame. by rewrite (Hsame _ journal_not_temp). Qed.
Lemma accepted_blind : blind (accepted B J).
Proof.
  intros fs fs' Hsame (Hp & Hj & Hd). split_and!; [by eapply promoted_blind|by eapply journal_is_blind|].
  rewrite Hsame; [done|]. by apply txn_not_temp, (rc_dir _ _ Hrec).
Qed.

(** *** Moving between them *)
Lemma home_dir_untouched fs : fs0 !! home = Some EDir → untouched B J fs → fs !! home = Some EDir.
Proof.
  intros Hh Hu. rewrite Hu; [done|apply home_not_temp|done|done|done|]. intros (f & _ & [=]).
Qed.

(** Writing an old or new value at a destination. *)
Lemma pending_put fs f e :
  pending B J fs → f ∈ tj_Files J → e = fs0 !! at_home (tf_Name f) ∨ e = new (tf_Name f) →
  pending B J (put (at_home (tf_Name f)) e fs).
Proof.
  intros [Hu Hj [Hd Hb] Hf Hs] Hin He. pose proof (destination_plain f Hin) as Hpl. pose proof (rc_dir _ _ Hrec) as HB. split.
  - intros p Ht Hbel Hpj Hps Hnd. rewrite put_ne; [by apply Hu|]. intros <-. apply Hnd. by exists f.
  - destruct Hj as (body & Hb' & ?). exists body. rewrite put_ne; [done|]. intros [= Heq]. unfold plain_name in Hpl. by rewrite Heq in Hpl.
  - split; [|intros g Hg Hh]; rewrite put_ne; [done| |by apply Hb|done].
    intros [= Heq]. by apply (txn_not_plain B _ HB Hpl).
  - intros g Hg. unfold holds_old, holds_new. destruct (decide (tf_Name f = tf_Name g)) as [Heq|Hne].
    + rewrite <- Heq, put_eq. destruct He; auto.
    + rewrite put_ne by (by intros [= ?]). by apply Hf.
  - rewrite (state_of_same fs); [done|]. rewrite put_ne; [done|]. intros [= Heq]. unfold plain_name in Hpl. by rewrite Heq in Hpl.
Qed.

Lemma holds_old_put fs f g :
  holds_old fs g ∨ f = g → holds_old (put (at_home (tf_Name f)) (fs0 !! at_home (tf_Name f)) fs) g.
Proof.
  unfold holds_old. destruct (decide (tf_Name f = tf_Name g)) as [Heq|Hne].
  - intros _. by rewrite <- Heq, put_eq.
  - intros [Hg| ->]; [|done]. rewrite put_ne; [done|]. by intros [= ?].
Qed.
End recorded.
End transaction.
