(* ===== verification/ResourceRecovery.v ===== *)
(** * Undoing, accepting and recovering a transaction

    Triples of transaction.go's readers and of everything that ends a
    transaction, between the states of ResourceStates. *)
From Stdlib Require Import Ascii.
From S2P Require Import Prelude GoStrings GoSort GoJson GoFs ConfigTypes ResourceValidate ResourceStore ResourceTransaction FsLogic ResourceStoreFacts ResourceStates.
Open Scope Z_scope.

Section recovery.
Context `{GoOs} `{GoHash} `{RuleParsers} `{JsonCodec stateDocument} `{JsonCodec transactionJournal}.
Context (blame : Prop) (fault_blame : ∀ t k, faults t k ≠ Fine → blame).
Local Abbreviation triple := (triple blame).

(** ** Reading the journal *)
Lemma triple_readTransaction J B (P : Assert) :
  legible J → tj_BackupDir J = B →
  (∀ fs, P fs → journal_is J fs ∧ fs !! at_home B = Some EDir) →
  triple P (readTransaction journal_path) (λ r fs, r = (J, at_home B) ∧ P fs) P.
Proof.
  intros (Hplain & Hvalid & _) HB HP. unfold readTransaction. eapply triple_bind.
  { apply (triple_lstat_found _ fault_blame _ P P); [done|]. intros fs Hfs. destruct (HP fs Hfs) as [(b & -> & _) _]. eauto. }
  intros e. apply (triple_pre _ _ (λ fs, (∃ body, e = EFile body ∧ json_marshal J = Ok body ∧ len body ≤ maxStateBytes) ∧
    P fs ∧ fs !! journal_path = Some e)).
  2: { intros fs [Hfs He]. split; [|done]. destruct (HP fs Hfs) as [(b & Hb & ?) _]. exists b. split; [congruence|done]. }
  apply triple_pure. intros (body & -> & Hm & Hl). eapply triple_bind.
  { apply (triple_refuse _ _ _ _ (λ _ fs, P fs ∧ fs !! journal_path = Some (EFile body))); [done|].
    intros Hc. apply Z.ltb_lt in Hc. lia. }
  intros []. eapply triple_bind.
  { apply (triple_chmod _ fault_blame _ _ P); [by intros fs [? _]|]. intros fs [_ ->]. eauto. }
  intros []. eapply triple_bind.
  { apply (triple_read _ fault_blame _ _ _ P); [by intros fs [? _]|]. intros fs [_ ->]. by exists body. }
  intros data. apply (triple_pre _ _ (λ fs, data = body ∧ P fs)).
  2: { intros fs [[Hfs Hs1] Hs2]. rewrite Hs1 in Hs2. by injection Hs2 as ->. }
  apply triple_pure. intros ->. rewrite (json_document_plain J) by done. apply triple_bind_ret.
  rewrite Hvalid. apply triple_bind_ret. rewrite HB. fold (at_home B). eapply triple_bind.
  { apply triple_attempt, (triple_verifyRealDirectory _ fault_blame _ _ P); [done|].
    intros fs Hfs. destruct (HP fs Hfs) as [_ ?]. auto. }
  intros [u|e]; cbn; [apply triple_ret; by intros fs [? _]|].
  destruct (_ && _); [by apply triple_ret; intros fs [? _]|by apply triple_throw].
Qed.
(** An error other than the absence of the journal itself. *)
Lemma readTransaction_found path w e w' :
  is_Some (w_fs w !! path) → readTransaction path w = (Failed e, w') → os_IsNotExist e = false.
Proof.
  intros [f Hf]. unfold readTransaction, mbind, io_bind, lstat, step at 1. destruct (faults _ OpLstat); [|by intros [= <- _]|done].
  cbn. rewrite Hf. destruct f as [body| |]; [|by intros [= <- _]..]. unfold refuse.
  destruct (_ <? _); [by intros [= <- _]|]. cbn. unfold chmod, step at 1. destruct (faults _ OpChmod); [|by intros [= <- _]|done].
  cbn. rewrite Hf. unfold read_limited, step at 1. destruct (faults _ OpRead); [|by intros [= <- _]|done].
  cbn. rewrite Hf. unfold lift. destruct (json_document _) as [j|]; [|by intros [= <- _]]. cbn.
  destruct (validateJournal j) as [[]|]; [|by intros [= <- _]]. cbn.
  unfold attempt. destruct (verifyRealDirectory _ _ _) as [[[]|e'|] w'']; cbn; [done| |done].
  destruct (_ && _); cbn; [done|by intros [= <- _]].
Qed.

(** Nothing to read, or a fault. *)
Lemma triple_readTransaction_absent (P : Assert) :
  (∀ fs, P fs → fs !! journal_path = None) →
  triple P (attempt (readTransaction journal_path))
    (λ r fs, P fs ∧ match r with Ok _ => False | Err e => os_IsNotExist e = true ∨ blame end) P.
Proof.
  intros Hnone w Hw. unfold attempt, readTransaction, mbind, io_bind, lstat, step, nothing.
  pose proof (fault_blame (w_tick w) OpLstat) as Hf. pose proof (Hnone _ Hw) as Hn.
  destruct (faults (w_tick w) OpLstat) as [|m n|n].
  - generalize dependent journal_path. intros path _ ->. cbn. auto.
  - cbn. split; [done|]. right. by apply Hf.
  - cbn. split; [done|by apply Hf].
Qed.

(** ** Undoing *)
Section undo.
Context (fs0 : Fs) (prev cand : stateDocument) (maxBytes : Z) (new : string → option entry).
Context (B : string) (J : transactionJournal) (Hrec : recorded fs0 prev cand maxBytes new B J).
Context (Hhome : fs0 !! home = Some EDir) (Hjournal : fs0 !! journal_path = None).
Local Abbreviation pending := (pending fs0 prev cand new B J).
Local Abbreviation settled := (settled fs0 prev B).
Local Abbreviation holds_old := (holds_old fs0).

Lemma promote_temp p : temp_of home ".resource-promote-" p → temp p.
Proof. by left. Qed.
Lemma state_temp p : temp_of home ".resource-state-" p → temp p.
Proof. by right. Qed.

Definition undone (don : list transactionFile) (fs : Fs) : Prop := pending fs ∧ ∀ g, g ∈ don → holds_old fs g.

Lemma undone_blind don : (∀ f, f ∈ don → f ∈ tj_Files J) → blind (undone don).
Proof.
  intros Hdon. apply blind_and; [by apply pending_blind with (maxBytes := maxBytes)|].
  intros fs fs' Hsame Hf f Hin. unfold holds_old. rewrite (holds_blind _ _ _ _ _ _ _ Hrec _ _ _ Hsame (Hdon f Hin)). by apply Hf.
Qed.

(** Restoring one destination. *)
Lemma undone_put don f fs :
  f ∈ tj_Files J → undone don fs → undone (don ++ [f]) (put (at_home (tf_Name f)) (fs0 !! at_home (tf_Name f)) fs).
Proof.
  intros Hin [Hp Hd]. split; [apply (pending_put _ _ _ maxBytes); auto|]. intros g Hg. apply holds_old_put.
  apply elem_of_app in Hg as [Hg|Hg]; [auto|]. apply list_elem_of_singleton in Hg. auto.
Qed.
Lemma undone_same don f fs : undone don fs → holds_old fs f → undone (don ++ [f]) fs.
Proof.
  intros [Hp Hd] Hf. split; [done|]. intros g Hg. apply elem_of_app in Hg as [Hg|Hg]; [auto|].
  apply list_elem_of_singleton in Hg as ->. done.
Qed.
(** What is at a destination, whichever of the two it holds. *)
Lemma destination_file f fs :
  f ∈ tj_Files J → pending fs →
  fs !! at_home (tf_Name f) = None ∨ ∃ body, fs !! at_home (tf_Name f) = Some (EFile body).
Proof.
  intros Hin Hp. destruct (rc_files _ _ _ _ _ _ _ Hrec f Hin) as (_ & Hold & Hnew).
  destruct (pe_files _ _ _ _ _ _ _ Hp f Hin) as [He|He]; unfold ResourceStates.holds_old, holds_new in He; rewrite He.
  - destruct (tf_HadPrevious f); [|auto]. destruct Hold as (body & -> & _). eauto.
  - destruct (new (tf_Name f)) as [e|] eqn:En; [|auto]. destruct (Hnew e eq_refl) as (body & -> & _). eauto.
Qed.

Lemma home_dir fs : pending fs → fs !! home = Some EDir.
Proof. intros Hp. eapply home_dir_untouched; [done|]. apply Hp. Qed.

Lemma undone_pending don fs : undone don fs → pending fs.
Proof. by intros [? _]. Qed.

(** One destination from its backup. *)
Lemma triple_restore_backup don f rest :
  tj_Files J = don ++ f :: rest → tf_HadPrevious f = true →
  triple (undone don) (restore_file (at_home B) maxBytes f) (λ _, undone (don ++ [f])) pending.
Proof.
  intros (Hin & Hdon & Hdon')%in_files Hhad. destruct (rc_files _ _ _ _ _ _ _ Hrec f Hin) as (_ & Hold & _).
  unfold restore_file. fold (at_home (tf_Name f)). rewrite Hhad in *. destruct Hold as (body & Hbody & Hlen & Hdig).
  assert (Hb : ∀ fs, undone don fs → fs !! (at_home B ++ [tf_Backup f]) = Some (EFile body)).
  { intros fs [Hp _]. destruct (pe_backup _ _ _ _ _ _ _ Hp) as [_ Hb]. exact (eq_trans (Hb f Hin Hhad) Hbody). }
  eapply triple_bind.
  { apply triple_attempt, (triple_readManaged _ fault_blame _ _ _ pending); [by apply undone_pending|].
    intros fs Hu. right. exists body. auto. }
  intros [data|e]; cbn; [|by apply triple_throw]. eapply triple_pre with (P' := λ fs, data = body ∧ undone don fs).
  2: { intros fs (Hu & Hd & _). split; [|done]. by pose proof (eq_trans (eq_sym Hd) (Hb fs Hu)) as [= ->]. }
  apply triple_pure. intros ->. rewrite Hdig, streq_refl. apply triple_bind_ret.
  apply (triple_writeManagedAtomic _ fault_blame); try done.
  - apply blind_stable; [by apply undone_blind|apply promote_temp].
  - apply blind_stable; [by apply undone_blind|apply promote_temp].
  - apply blind_stable; [by apply pending_blind with (maxBytes := maxBytes)|apply promote_temp].
  - intros fs Hu. by eapply home_dir, undone_pending.
  - intros fs Hu. by eapply destination_file, undone_pending.
  - intros fs Hu. pose proof (undone_put don f fs Hin Hu) as Hput. rewrite Hbody in Hput. exact Hput.
  - apply undone_pending.
  - intros fs. apply undone_pending.
Qed.

(** One destination that was not there. *)
Lemma triple_restore_absent don f rest :
  tj_Files J = don ++ f :: rest → tf_HadPrevious f = false →
  triple (undone don) (restore_file (at_home B) maxBytes f) (λ _, undone (don ++ [f])) pending.
Proof.
  intros (Hin & _ & _)%in_files Hhad. destruct (rc_files _ _ _ _ _ _ _ Hrec f Hin) as (_ & Hold & Hnew).
  unfold restore_file. fold (at_home (tf_Name f)). rewrite Hhad in *.
  eapply triple_bind; [by apply (triple_lstat _ fault_blame _ _ pending), undone_pending|].
  intros [e|e].
  2: { destruct (os_IsNotExist e) eqn:Ee.
       - apply triple_ret. intros fs [Hu [[Hn _]|[_ ?]]]; [|congruence]. apply undone_same; [done|].
         unfold ResourceStates.holds_old. by rewrite Hold.
       - apply triple_throw. intros fs [Hu [[_ ->]|[? _]]]; [done|]. split; [by eapply undone_pending|done]. }
  eapply triple_pre with (P' := λ fs, (∃ body, e = EFile body ∧ tf_CandidateSHA256 f ≠ "" ∧
    good_bytes maxBytes (tf_CandidateSHA256 f) body) ∧ undone don fs ∧ fs !! at_home (tf_Name f) = Some e).
  2: { intros fs [Hu He]. split; [|done]. apply Hnew.
       destruct (pe_files _ _ _ _ _ _ _ (undone_pending _ _ Hu) f Hin) as [Ho|Hn].
       - unfold ResourceStates.holds_old in Ho. congruence.
       - unfold holds_new in Hn. congruence. }
  apply triple_pure. intros (body & -> & Hne & Hlen & Hdig). eapply triple_bind.
  { apply triple_attempt, (triple_readManaged _ fault_blame _ _ _ pending); [by intros fs [[? _] _]|].
    intros fs [_ He]. right. by exists body. }
  intros [data|e]; cbn; [|by apply triple_throw].
  eapply triple_pre with (P' := λ fs, data = body ∧ undone don fs ∧ fs !! at_home (tf_Name f) = Some (EFile body)).
  2: { intros fs ([Hu Hs1] & Hs2 & _). split; [|done]. by pose proof (eq_trans (eq_sym Hs1) Hs2) as [= ->]. }
  apply triple_pure. intros ->. rewrite Hdig, streq_refl, (proj2 (streq_false _ _) Hne).
  apply triple_bind_ret. apply (triple_remove _ fault_blame).
  - by intros fs [[? _] _].
  - intros fs [_ He]. by exists (EFile body).
  - intros fs [Hu _]. pose proof (undone_put don f fs Hin Hu) as Hput. rewrite Hold in Hput. exact Hput.
Qed.

Lemma triple_restore_file don f rest :
  tj_Files J = don ++ f :: rest →
  triple (undone don) (restore_file (at_home B) maxBytes f) (λ _, undone (don ++ [f])) pending.
Proof.
  intros Hl. destruct (tf_HadPrevious f) eqn:Hhad; [by eapply triple_restore_backup|by eapply triple_restore_absent].
Qed.

(** *** The manifest and the journal *)
Lemma state_of_file fs d : state_of fs = Some d → fs !! state_path = None ∨ ∃ body, fs !! state_path = Some (EFile body).
Proof. unfold state_of. destruct (fs !! state_path) as [[body| |]|]; [eauto|done|done|auto]. Qed.

(** Writing a manifest that can be read back. *)
Lemma state_of_written fs d body :
  storable d → json_marshal d = Ok body → len body ≤ maxStateBytes →
  state_of (put state_path (Some (EFile body)) fs) = Some d.
Proof.
  intros (Hp & Hv & _) Hm Hl. unfold state_of. rewrite put_eq.
  destruct (maxStateBytes <? len body) eqn:E; [apply Z.ltb_lt in E; lia|].
  by rewrite (json_document_plain d body Hp Hm), Hv.
Qed.

(** A manifest of this transaction may be written at any time. *)
Lemma pending_put_state fs body d :
  pending fs → (d = prev ∨ d = cand) → storable d → json_marshal d = Ok body → len body ≤ maxStateBytes →
  pending (put state_path (Some (EFile body)) fs).
Proof.
  intros [Hu Hj Hb Hf Hs] Hd Hst Hm Hl. pose proof (rc_dir _ _ _ _ _ _ _ Hrec) as HB. split.
  - intros p Ht Hbel Hpj Hps Hnd. rewrite put_ne by done. by apply Hu.
  - destruct Hj as (b & Hb' & ?). exists b. by rewrite put_ne.
  - destruct Hb as [Hd1 Hd2]. split; [|intros g Hg Hh]; rewrite put_ne; [done| |by apply Hd2|done].
    intros [= Heq]. by rewrite <- Heq in HB.
  - intros g Hg. unfold ResourceStates.holds_old, holds_new. rewrite put_ne; [by apply Hf|].
    intros [= Heq]. pose proof (destination_plain _ _ _ _ _ _ _ Hrec g Hg) as Hpl. unfold plain_name in Hpl. by rewrite <- Heq in Hpl.
  - rewrite (state_of_written _ d) by done. destruct Hd as [->| ->]; auto.
Qed.

Lemma undone_put_state fs body :
  undone (tj_Files J) fs → storable prev → json_marshal prev = Ok body → len body ≤ maxStateBytes →
  undone (tj_Files J) (put state_path (Some (EFile body)) fs) ∧
  state_of (put state_path (Some (EFile body)) fs) = Some prev.
Proof.
  intros [Hp Ho] Hst Hm Hl. split; [split|by apply state_of_written].
  - apply (pending_put_state _ _ prev); auto.
  - intros g Hg. unfold ResourceStates.holds_old. rewrite put_ne; [by apply Ho|].
    intros [= Heq]. pose proof (destination_plain _ _ _ _ _ _ _ Hrec g Hg) as Hpl. unfold plain_name in Hpl. by rewrite <- Heq in Hpl.
Qed.

(** With everything back, removing the journal ends the transaction. *)
Lemma settled_delete_journal fs :
  undone (tj_Files J) fs → state_of fs = Some prev → settled (put journal_path None fs).
Proof.
  intros [Hp Ho] Hs. split.
  - intros p Ht Hbel Hps. destruct (decide (p = journal_path)) as [->|Hne]; [by rewrite put_eq|].
    rewrite put_ne by done. destruct (decide (p ∈ (λ f, at_home (tf_Name f)) <$> tj_Files J)) as [Hd|Hd].
    + apply list_elem_of_fmap in Hd as (f & -> & Hf). by apply Ho.
    + apply (pe_untouched _ _ _ _ _ _ _ Hp); try done. intros (f & Hf & ->). apply Hd, list_elem_of_fmap. by exists f.
  - by rewrite (state_of_same fs) by (by rewrite put_ne).
Qed.

Lemma settled_stable : stable (λ q, below (at_home B) q = true) settled.
Proof.
  intros fs p Hp [Hs Hst]. assert (Hsp : p ≠ state_path).
  { intros ->. unfold below in Hp. cbn in Hp. apply bool_decide_eq_true in Hp. injection Hp as Hp.
    pose proof (rc_dir _ _ _ _ _ _ _ Hrec) as HB. by rewrite <- Hp in HB. }
  split; [|intros e]; (split; [intros q Ht Hq Hqs|]).
  - rewrite lookup_delete_ne by congruence. by apply Hs.
  - by rewrite (state_of_same fs) by (by rewrite lookup_delete_ne).
  - rewrite lookup_insert_ne by congruence. by apply Hs.
  - by rewrite (state_of_same fs) by (by rewrite lookup_insert_ne).
Qed.

(** Undone, or still to be undone. *)
Definition undoing (fs : Fs) : Prop := pending fs ∨ settled fs.

Lemma triple_remove_if_present path (P Q X : Assert) :
  (∀ fs, P fs → X fs) → (∀ fs, P fs → ∃ e, fs !! path = Some e ∧ e ≠ EDir) → (∀ fs, P fs → Q (delete path fs)) →
  triple P (remove_if_present path) (λ _, Q) X.
Proof.
  intros HX Hp HQ. unfold remove_if_present. eapply triple_bind.
  - apply (triple_attempt_error _ (λ e, os_IsNotExist e = false)); [by apply (triple_remove _ fault_blame _ _ Q)|].
    intros w e w' HP. destruct (Hp _ HP) as (f & Hf & Hne). unfold remove, step.
    destruct (faults _ OpRemove); [|by intros [= <- _]|done]. rewrite Hf. by destruct f.
  - intros [[]|e]; [by apply triple_ret|]. destruct (os_IsNotExist e) eqn:Ee.
    + apply triple_ret. intros fs [? _]. congruence.
    + apply triple_throw. by intros fs (_ & ? & ?).
Qed.

Lemma triple_restoreTransaction :
  storable prev → triple pending (restoreTransaction journal_path (at_home B) J) (λ _, settled) undoing.
Proof.
  intros Hst. unfold restoreTransaction. rewrite (rc_max _ _ _ _ _ _ _ Hrec), (rc_previous _ _ _ _ _ _ _ Hrec).
  assert (Hund : ∀ fs, undone (tj_Files J) fs → undoing fs) by (intros fs [? _]; by left).
  assert (Hblind : blind (undone (tj_Files J))) by by apply undone_blind.
  assert (HblindX : blind undoing).
  { apply blind_or; [by apply pending_blind with (maxBytes := maxBytes)|by apply settled_blind]. }
  eapply triple_bind.
  { eapply triple_weaken; [apply (triple_for_each _ _ (λ don _, undone don) pending)| | |].
    - intros don f rest [] Hl. by eapply triple_restore_file.
    - intros fs Hp. split; [done|]. intros g Hg. by apply not_elem_of_nil in Hg.
    - intros a fs Hu. exact Hu.
    - by left. }
  intros []. eapply triple_bind; [by apply triple_sync|]. intros [].
  eapply triple_bind.
  { apply (triple_writeStateAtomic _ fault_blame _ _ (λ fs, undone (tj_Files J) fs ∧ state_of fs = Some prev)).
    - by apply blind_stable; [|apply state_temp].
    - apply blind_stable; [|apply state_temp]. by apply blind_and; [|apply state_blind].
    - by apply blind_stable; [|apply state_temp].
    - intros fs Hu. by eapply home_dir, undone_pending.
    - intros fs [Hp _]. destruct (pe_state _ _ _ _ _ _ _ Hp) as [Hs|Hs]; by eapply state_of_file.
    - right. apply Hst.
    - intros fs body Hu Hm Hl. by apply undone_put_state.
    - done.
    - intros fs [Hu _]. by apply Hund. }
  intros []. eapply triple_bind.
  { apply (triple_remove_if_present _ _ settled).
    - intros fs [Hu _]. by apply Hund.
    - intros fs [[Hp _] _]. destruct (pe_journal _ _ _ _ _ _ _ Hp) as (body & Hb & _). by exists (EFile body).
    - intros fs [Hu Hs]. by apply settled_delete_journal. }
  intros []. eapply triple_bind; [apply triple_sync; [done|by right]|]. intros [].
  eapply triple_weaken; [apply (triple_remove_all _ fault_blame _ settled), settled_stable|done|done|by right].
Qed.

(** ** Accepting *)
Local Abbreviation promoted := (promoted fs0 cand maxBytes new B J).
Local Abbreviation committed := (committed fs0 prev cand maxBytes new B J).
Local Abbreviation accepted := (accepted fs0 cand maxBytes new B J).
Local Abbreviation finished := (finished fs0 cand maxBytes new B J).
Definition accepting (fs : Fs) : Prop := accepted fs ∨ finished fs.

(** The journal and the transaction's directory are no part of the result. *)
Lemma promoted_put_journal fs e : promoted fs → promoted (put journal_path e fs).
Proof.
  intros (Hu & Hf & Hok & Hs). split_and!.
  - intros p Ht Hbel Hpj Hps Hnd. rewrite put_ne by done. by apply Hu.
  - intros f Hin. unfold holds_new. rewrite put_ne; [by apply Hf|].
    intros [= Heq]. pose proof (destination_plain _ _ _ _ _ _ _ Hrec f Hin) as Hpl. unfold plain_name in Hpl. by rewrite <- Heq in Hpl.
  - intros id s Hs'. destruct (Hok id s Hs') as (body & Hb & ?). exists body. split; [|done].
    refine (eq_trans (put_ne _ _ _ _ _) Hb). intros [= Heq].
    pose proof (resourceFilename_plain id s) as Hpl. unfold plain_name in Hpl. by rewrite <- Heq in Hpl.
  - by rewrite (state_of_same fs) by (by rewrite put_ne).
Qed.
Lemma promoted_put_below fs p e : below (at_home B) p = true → promoted fs → promoted (put p e fs).
Proof.
  intros Hp (Hu & Hf & Hok & Hs). pose proof (rc_dir _ _ _ _ _ _ _ Hrec) as HB.
  assert (Hpl : ∀ n, plain_name n → p ≠ at_home n).
  { intros n Hn ->. by rewrite (plain_below B n HB Hn) in Hp. }
  split_and!.
  - intros q Ht Hbel Hpj Hps Hnd. rewrite put_ne by congruence. by apply Hu.
  - intros f Hin. unfold holds_new. rewrite put_ne; [by apply Hf|]. by eapply Hpl, destination_plain.
  - intros id s Hs'. destruct (Hok id s Hs') as (body & Hb & ?). exists body. split; [|done].
    refine (eq_trans (put_ne _ _ _ _ _) Hb). apply Hpl, resourceFilename_plain.
  - rewrite (state_of_same fs); [done|]. rewrite put_ne; [done|]. intros ->.
    unfold below in Hp. cbn in Hp. apply bool_decide_eq_true in Hp. injection Hp as Hp. by rewrite <- Hp in HB.
Qed.
Lemma finished_stable : stable (λ q, below (at_home B) q = true) finished.
Proof.
  intros fs p Hp [Hpr Hj]. assert (Hne : p ≠ journal_path).
  { intros ->. unfold below in Hp. cbn in Hp. apply bool_decide_eq_true in Hp. injection Hp as Hp.
    pose proof (rc_dir _ _ _ _ _ _ _ Hrec) as HB. by rewrite <- Hp in HB. }
  split; [|intros e]; split; [by apply promoted_put_below| |by apply promoted_put_below|].
  - by rewrite lookup_delete_ne.
  - by rewrite lookup_insert_ne.
Qed.

Lemma triple_removeTransaction : triple accepted (removeTransaction (at_home B)) (λ _, finished) accepting.
Proof.
  unfold removeTransaction. pose proof (rc_dir _ _ _ _ _ _ _ Hrec) as HB. eapply triple_bind.
  { apply (triple_remove_if_present _ _ (λ fs, finished fs ∧ fs !! at_home B = Some EDir)); [by left| |].
    - intros fs (_ & (body & Hb & _) & _). by exists (EFile body).
    - intros fs (Hp & _ & Hd). split; [split; [by apply promoted_put_journal|apply lookup_delete_eq]|].
      rewrite lookup_delete_ne; [done|]. intros [= Heq]. by rewrite <- Heq in HB. }
  assert (HX : ∀ fs, finished fs ∧ fs !! at_home B = Some EDir → accepting fs) by (intros fs [? _]; by right).
  intros []. apply triple_ignore; [by apply triple_sync|done|]. intros _. apply triple_ignore; [|done|].
  { eapply triple_post; [apply (triple_verifyRealDirectory _ fault_blame); [done|]|].
    - intros fs [_ ?]. by right.
    - by intros a fs [? _]. }
  intros [[]|e]; (eapply triple_pre; [|by intros fs [Hfin _]; exact Hfin]).
  - apply triple_ignore; [|by right|intros _; by apply triple_ret].
    apply (triple_remove_all _ fault_blame), finished_stable.
  - by apply triple_ret.
Qed.

Lemma accepted_legible_dir fs : accepted fs → journal_is (with_phase J "accepted") fs ∧ fs !! at_home B = Some EDir.
Proof. by intros (_ & ? & ?). Qed.

(** *** finalizeTransaction *)
(** Promoted and on its way to be accepted. *)
Definition finalizing (fs : Fs) : Prop := committed fs ∨ accepting fs.

Lemma triple_write_accepted :
  legible (with_phase J "accepted") →
  triple committed (writeJSONAtomic journal_path home (with_phase J "accepted")) (λ _, accepted) finalizing.
Proof.
  intros (_ & _ & body & Hm & Hl). unfold writeJSONAtomic. rewrite Hm. apply triple_bind_ret.
  replace (maxStateBytes <? len body) with false by (symmetry; by apply Z.ltb_ge). apply triple_bind_ret.
  assert (Hcb : blind committed) by by apply committed_blind.
  assert (Hab : blind accepted) by by eapply accepted_blind.
  assert (Hfb : blind finished) by by eapply finished_blind.
  apply (triple_writeManagedAtomic _ fault_blame).
  - by apply blind_stable; [|apply promote_temp].
  - by apply blind_stable; [|apply promote_temp].
  - apply blind_stable; [|apply promote_temp]. apply blind_or; [done|by apply blind_or].
  - done.
  - intros fs [Hp _]. by apply home_dir.
  - intros fs [Hp _]. destruct (pe_journal _ _ _ _ _ _ _ Hp) as (b & Hb & _). eauto.
  - intros fs [Hp Hpr]. split_and!; [by apply promoted_put_journal| |].
    + exists body. split; [apply lookup_insert_eq|done].
    + destruct (pe_backup _ _ _ _ _ _ _ Hp) as [Hd _]. rewrite lookup_insert_ne; [done|].
      intros [= Heq]. pose proof (rc_dir _ _ _ _ _ _ _ Hrec) as HB. by rewrite <- Heq in HB.
  - by left.
  - right. by left.
Qed.

Lemma triple_finalizeTransaction :
  legible J → tj_Phase J = "promoting" → legible (with_phase J "accepted") →
  triple committed (finalizeTransaction (at_home B)) (λ _, finished) finalizing.
Proof.
  intros Hl Hph Hla. unfold finalizeTransaction. eapply triple_bind.
  { eapply triple_weaken; [apply (triple_readTransaction J B committed)|done| |by left]; [done|apply Hrec| |].
    - intros fs [Hp _]. split; [apply Hp|apply Hp].
    - intros r fs Hr. exact Hr. }
  intros [J' dir]. apply triple_pure. intros [= -> ->]. rewrite bool_decide_eq_true_2 by done. apply triple_bind_ret.
  rewrite Hph. eapply triple_bind; [by apply triple_write_accepted|]. intros [].
  eapply triple_weaken; [apply triple_removeTransaction|done|done|by right].
Qed.

(** ** Recovery *)
Lemma triple_attempt_read J' (P : Assert) :
  legible J' → tj_BackupDir J' = B → (∀ fs, P fs → journal_is J' fs ∧ fs !! at_home B = Some EDir) →
  triple P (attempt (readTransaction journal_path))
    (λ r fs, match r with
             | Ok v => v = (J', at_home B) ∧ P fs
             | Err e => os_IsNotExist e = false ∧ P fs ∧ blame
             end) P.
Proof.
  intros Hl HB HP. apply triple_attempt_error; [by apply triple_readTransaction|].
  intros w e w' Hw. apply readTransaction_found. destruct (HP _ Hw) as [(b & -> & _) _]. eauto.
Qed.

(** Nothing is pending once the journal is gone. *)
Lemma triple_recover_absent (P : Assert) :
  (∀ fs, P fs → fs !! journal_path = None) → triple P recoverTransaction (λ _, P) P.
Proof.
  intros Hnone. unfold recoverTransaction. eapply triple_bind; [by apply triple_readTransaction_absent|].
  intros [v|e]; [intros w [_ []]|]. destruct (os_IsNotExist e) eqn:Ee.
  - apply triple_ret. by intros fs [? _].
  - apply triple_throw. intros fs [? [?|?]]; [congruence|done].
Qed.

Lemma triple_recover_promoting :
  legible J → tj_Phase J = "promoting" → storable prev →
  triple undoing recoverTransaction (λ _, settled) undoing.
Proof.
  intros Hl Hph Hst. apply triple_or.
  - unfold recoverTransaction. eapply triple_bind.
    { eapply triple_weaken; [apply (triple_attempt_read J pending); [done|apply Hrec|]|done| |by left].
      - intros fs Hp. split; apply Hp.
      - intros r fs Hr. exact Hr. }
    intros [v|e].
    + apply triple_pure. intros ->. rewrite Hph. by apply triple_wrap, triple_restoreTransaction.
    + destruct (os_IsNotExist e); apply triple_throw || apply triple_ret; intros fs (? & ? & ?); [done|]. split; [by left|done].
  - eapply triple_weaken; [apply (triple_recover_absent settled)|done|done|by right].
    intros fs [Hs _]. rewrite Hs; [done|apply journal_not_temp| |done].
    unfold below. cbn. apply bool_decide_eq_false. intros [= Heq].
    pose proof (rc_dir _ _ _ _ _ _ _ Hrec) as HB. by rewrite <- Heq in HB.
Qed.

Lemma triple_recover_accepted :
  legible (with_phase J "accepted") → sd_Version cand = 2 →
  triple accepting recoverTransaction (λ _, finished) accepting.
Proof.
  intros Hl Hv. apply triple_or.
  - unfold recoverTransaction. eapply triple_bind.
    { eapply triple_weaken; [apply (triple_attempt_read (with_phase J "accepted") accepted); [done|apply Hrec|]|done| |by left].
      - apply accepted_legible_dir.
      - intros r fs Hr. exact Hr. }
    intros [v|e].
    2: { destruct (os_IsNotExist e); apply triple_throw || apply triple_ret; intros fs (? & ? & ?); [done|]. split; [by left|done]. }
    apply triple_pure. intros ->. cbn. rewrite (rc_candidate _ _ _ _ _ _ _ Hrec), (rc_max _ _ _ _ _ _ _ Hrec).
    eapply triple_bind.
    { eapply triple_weaken; [apply triple_attempt, (triple_loadStateFile _ fault_blame cand accepted)|done| |by left].
      - by intros fs ((_ & _ & _ & ?) & _).
      - intros r fs Hr. exact Hr. }
    intros [d|e]; [|apply triple_throw; intros fs [? ?]; split; [by left|done]].
    apply triple_pure. intros ->. rewrite Hv, Z.eqb_refl, streq_refl. apply triple_bind_ret.
    eapply triple_bind.
    { eapply triple_weaken; [apply (triple_verifyManifestFiles _ fault_blame cand maxBytes accepted)|done| |by left].
      - intros fs ((_ & _ & ? & _) & _). by right.
      - intros a fs [Ha _]. exact Ha. }
    intros []. apply triple_removeTransaction.
  - eapply triple_weaken; [apply (triple_recover_absent finished)|done|done|by right]. by intros fs [_ ?].
Qed.

(** Everything a transaction can leave behind. *)
Definition recoverable (fs : Fs) : Prop := undoing fs ∨ accepting fs.
Definition concluded (fs : Fs) : Prop := settled fs ∨ finished fs.

Lemma triple_recover :
  legible J → tj_Phase J = "promoting" → legible (with_phase J "accepted") → storable prev → sd_Version cand = 2 →
  triple recoverable recoverTransaction (λ _, concluded) recoverable.
Proof.
  intros Hl Hph Hla Hst Hv. apply triple_or.
  - eapply triple_weaken; [by apply triple_recover_promoting|done|by left|by left].
  - eapply triple_weaken; [by apply triple_recover_accepted|done|by right|by right].
Qed.
End undo.
End recovery.
