(* ===== verification/ResourcePromote.v ===== *)
(** * Promotion: building the journal, replacing the files, rolling back

    Triples of [promote]'s stages and of [promote] as a whole, from a tree with
    no transaction pending to the states of ResourceStates. *)
From Stdlib Require Import Ascii.
From S2P Require Import Prelude GoStrings GoSort GoJson GoFs ConfigTypes ResourceValidate ResourceStore ResourceTransaction FsLogic ResourceStoreFacts ResourceJournal ResourceStates ResourceRecovery.
Open Scope Z_scope.

Section promote.
Context `{GoOs} `{GoHash} `{RuleParsers} `{JsonCodec stateDocument} `{JsonCodec transactionJournal}.
Context (blame : Prop) (fault_blame : ∀ t k, faults t k ≠ Fine → blame).
Local Abbreviation triple := (triple blame).
Context (fs0 : Fs) (prev cand : stateDocument) (maxBytes : Z) (staged : gmap string (list string)).
Context (pn cn : gmap string string) (np : gmap string (list string)).

(** What a promotion may count on: a home with no transaction pending, manifests
    the store can write and read, staged files in a staging directory of their
    own, and journals that survive JSON when their manifests do. *)
Record promotable : Prop := {
  pm_home : fs0 !! home = Some EDir;
  pm_idle : fs0 !! journal_path = None;
  pm_tree : ∀ p q, fs0 !! p = None → below p q = true → fs0 !! q = None;
  pm_state : state_of fs0 = Some prev;
  pm_prev : storable prev;
  pm_cand : storable cand;
  pm_max : 0 < maxBytes;
  pm_size : len (ordered_names pn cn) ≤ 2 ^ 32;
  pm_staged : ∀ id path, staged !! id = Some path → ∃ dir name, path = at_home dir ++ [name] ∧ has_prefix dir stageDirPrefix = true;
  pm_plain : ∀ J : transactionJournal,
    validateJournal J = Ok tt → json_plain (tj_Previous J) = true → json_plain (tj_Candidate J) = true → json_plain J = true;
  (** "accepted" is shorter than "promoting" *)
  pm_accepted : ∀ (J : transactionJournal) body, tj_Phase J = "promoting" → json_marshal J = Ok body → len body ≤ maxStateBytes →
    ∃ body', json_marshal (with_phase J "accepted") = Ok body' ∧ len body' ≤ maxStateBytes
}.

(** What makes it go through when nothing fails. *)
Record promising : Prop := {
  pr_version : sd_Version cand = 2;
  pr_identity : sd_CommitID cand ≠ "";
  pr_fresh : ∀ t, fs0 !! at_home (transactionDirPrefix +:+ random_id t) = None;
  pr_previous : sd_Version prev = 2 → files_ok maxBytes prev fs0;
  pr_unmanaged : ∀ name, name ∈ ordered_names pn cn → (sd_Version prev = 2 → pn !! name = None) → fs0 !! at_home name = None;
  pr_staged_ids : ∀ id, is_Some (staged !! id) ↔ is_Some (resources_of cand !! id);
  pr_staged : ∀ id s path, resources_of cand !! id = Some s → staged !! id = Some path →
    ∃ body, fs0 !! path = Some (EFile body) ∧ good_bytes maxBytes (rst_SHA256 s) body ∧
      is_ok (ValidateResource (resource_at id s) body) = true;
  pr_journal : ∀ t, ∃ body, json_marshal (journal_of maxBytes prev cand pn cn (transactionDirPrefix +:+ random_id t)) = Ok body ∧
    len body ≤ maxStateBytes
}.

Context (Hpm : promotable) (Hready : blame ∨ promising).
Context (Hpn : manifestNames prev = Ok pn) (Hcn : manifestNames cand = Ok cn).

(** What a destination will hold. *)
Definition new_of (name : string) : option entry := np !! name ≫= λ path, fs0 !! path.
Local Abbreviation journal_of := (journal_of maxBytes prev cand pn cn).
Local Abbreviation file_of := (file_of prev cand pn cn).
Local Abbreviation files_of := (files_of prev cand pn cn).

Lemma prev_valid : validateStateDocument prev = Ok tt.
Proof. apply Hpm. Qed.
Lemma Hsize : len (ordered_names pn cn) ≤ 2 ^ 32.
Proof. apply Hpm. Qed.
Lemma cand_valid : validateStateDocument cand = Ok tt.
Proof. apply Hpm. Qed.

(** ** A fresh transaction directory *)
Section fresh.
Context (B : string) (HB : validPrivateDir B = true) (HBp : has_prefix B transactionDirPrefix = true).
Context (HBt : ∃ t, B = transactionDirPrefix +:+ random_id t).

(** Nothing changed but temporary files and what is below the directory. *)
Definition clean (fs : Fs) : Prop := ∀ p, ¬ temp p → below (at_home B) p = false → fs !! p = fs0 !! p.

Lemma outside_home : below (at_home B) home = false.
Proof. done. Qed.
Lemma outside_plain n : plain_name n → below (at_home B) (at_home n) = false.
Proof. by apply plain_below. Qed.
Lemma outside_named n : has_prefix n transactionDirPrefix = false → below (at_home B) (at_home n) = false.
Proof. intros Hn. unfold below. cbn. apply bool_decide_eq_false. intros [= ->]. congruence. Qed.
Lemma inside name : below (at_home B) (at_home B ++ [name]) = true.
Proof. unfold below. cbn. by apply bool_decide_eq_true. Qed.
Lemma inside_dir : below (at_home B) (at_home B) = true.
Proof. unfold below. cbn. by apply bool_decide_eq_true. Qed.

Lemma clean_home fs : clean fs → fs !! home = Some EDir.
Proof. intros Hc. rewrite Hc; [apply Hpm|apply home_not_temp|done]. Qed.
Lemma clean_plain fs n : clean fs → plain_name n → fs !! at_home n = fs0 !! at_home n.
Proof. intros Hc Hn. apply Hc; [by apply plain_not_temp|by apply outside_plain]. Qed.
Lemma clean_journal fs : clean fs → fs !! journal_path = None.
Proof. intros Hc. rewrite Hc; [apply Hpm|apply journal_not_temp|]. by apply outside_named. Qed.
Lemma clean_state fs : clean fs → state_of fs = Some prev.
Proof.
  intros Hc. rewrite (state_of_same fs0 fs); [apply Hpm|]. apply Hc; [apply state_not_temp|]. by apply outside_named.
Qed.
Lemma clean_settled fs : clean fs → settled fs0 prev B fs.
Proof. intros Hc. split; [intros p Ht Hbel _; by apply Hc|by apply clean_state]. Qed.

Lemma clean_stable T : (∀ p, T p → below (at_home B) p = true) → stable T clean.
Proof.
  intros HT fs p Hp Hc. apply HT in Hp. split; [|intros e]; intros q Ht Hq.
  - rewrite lookup_delete_ne by congruence. by apply Hc.
  - rewrite lookup_insert_ne by congruence. by apply Hc.
Qed.
Lemma clean_blind : blind clean.
Proof. intros fs fs' Hsame Hc p Ht Hbel. rewrite Hsame by done. by apply Hc. Qed.

(** Staged files are out of the way. *)
Lemma staged_shape name path :
  np !! name = Some path → paths_exact cand (map_to_list staged) np →
  ∃ dir n, path = at_home dir ++ [n] ∧ has_prefix dir stageDirPrefix = true.
Proof.
  intros Hnp Hex. apply Hex in Hnp as (id & s & Hin & _ & _). apply elem_of_map_to_list in Hin. by eapply pm_staged.
Qed.
Lemma staged_outside dir n :
  has_prefix dir stageDirPrefix = true → ¬ temp (at_home dir ++ [n]) ∧ below (at_home B) (at_home dir ++ [n]) = false.
Proof.
  intros Hd. split; [by intros [m [=]]%temp_shape|]. unfold below. cbn. apply bool_decide_eq_false. intros [= ->].
  pose proof (prefix_clash _ _ _ Hd HBp) as Hc. by vm_compute in Hc.
Qed.
Lemma clean_staged fs name path :
  clean fs → np !! name = Some path → paths_exact cand (map_to_list staged) np → fs !! path = fs0 !! path.
Proof.
  intros Hc Hnp Hex. destruct (staged_shape _ _ Hnp Hex) as (dir & n & -> & Hd).
  destruct (staged_outside dir n Hd). by apply Hc.
Qed.

Lemma entry_inj x y : at_home B ++ [x] = at_home B ++ [y] → x = y.
Proof. by intros [= ?]. Qed.

(** *** Building the journal *)
Context (Hex : paths_exact cand (map_to_list staged) np).

Definition prepared (dn : list string) (fs : Fs) : Prop :=
  clean fs ∧ fs !! at_home B = Some EDir ∧
  (∀ i name, dn !! i = Some name → tf_HadPrevious (file_of (Z.of_nat i) name) = true →
    fs !! (at_home B ++ [backup_name (Z.of_nat i)]) = fs0 !! at_home name) ∧
  ∀ i, len dn ≤ i < 2 ^ 32 → fs !! (at_home B ++ [backup_name i]) = None.

Lemma prepared_clean dn fs : prepared dn fs → clean fs.
Proof. by intros [? _]. Qed.

(** Temporary files of the directory are not backups. *)
Lemma prepared_stable dn : stable (temp_of (at_home B) ".resource-") (prepared dn).
Proof.
  intros fs p (name & -> & Hname) (Hc & Hd & Hb & Hn).
  assert (Hne : ∀ i, at_home B ++ [name] ≠ at_home B ++ [backup_name i]).
  { intros i [= ->]. by rewrite backup_name_not_temp in Hname. }
  assert (Hdir : at_home B ++ [name] ≠ at_home B) by (intros [=]).
  pose proof (clean_stable (λ p, p = at_home B ++ [name])) as Hs.
  destruct (Hs ltac:(intros ? ->; apply inside) fs _ eq_refl Hc) as [Hc1 Hc2].
  split; [|intros e]; (split_and!; [done| | |]); intros; rewrite ?lookup_delete_ne, ?lookup_insert_ne by done; auto.
Qed.

(** A backup written under the next name. *)
Lemma prepared_backup dn name fs e :
  len dn < 2 ^ 32 → prepared dn fs → fs0 !! at_home name = Some e →
  prepared (dn ++ [name]) (<[at_home B ++ [backup_name (len dn)] := e]> fs).
Proof.
  intros Hlen (Hc & Hd & Hb & Hn) He.
  assert (Hne : ∀ i, 0 ≤ i < 2 ^ 32 → i ≠ len dn → at_home B ++ [backup_name (len dn)] ≠ at_home B ++ [backup_name i]).
  { intros i Hi Hne Heq%entry_inj. apply backup_name_inj in Heq; [by symmetry in Heq|split; [apply len_nonneg|done]|done]. }
  split_and!.
  - apply (clean_stable (λ p, below (at_home B) p = true)); [done|apply inside|done].
  - rewrite lookup_insert_ne; [done|]. by intros [=].
  - intros i name' Hi Hh. apply lookup_app_Some in Hi as [Hi|[Hge Hi]].
    + apply lookup_lt_Some in Hi as Hlt. rewrite lookup_insert_ne; [by apply Hb|]. apply Hne; unfold len in *; lia.
    + apply list_lookup_singleton_Some in Hi as [Hi <-]. replace (Z.of_nat i) with (len dn) by (unfold len; lia).
      rewrite lookup_insert_eq. by symmetry.
  - intros i Hi. rewrite len_snoc in Hi. rewrite lookup_insert_ne; [apply Hn; lia|].
    apply Hne; [|lia]. pose proof (len_nonneg dn). lia.
Qed.

(** Nothing to back up. *)
Lemma prepared_skip dn name fs :
  tf_HadPrevious (file_of (len dn) name) = false → prepared dn fs → prepared (dn ++ [name]) fs.
Proof.
  intros Hh (Hc & Hd & Hb & Hn). split_and!; [done|done| |].
  - intros i name' Hi Hh'. apply lookup_app_Some in Hi as [Hi|[Hge Hi]]; [by apply Hb|].
    apply list_lookup_singleton_Some in Hi as [Hi <-]. replace (Z.of_nat i) with (len dn) in Hh' by (unfold len; lia). congruence.
  - intros i Hi. rewrite len_snoc in Hi. apply Hn. lia.
Qed.

(** What the journal says of a name is so. *)
Definition had_recorded (f : transactionFile) : Prop :=
  if tf_HadPrevious f then
    ∃ body, fs0 !! at_home (tf_Name f) = Some (EFile body) ∧ good_bytes maxBytes (tf_PreviousSHA256 f) body
  else fs0 !! at_home (tf_Name f) = None.

Lemma name_of_previous name id :
  pn !! name = Some id → ∃ s, resources_of prev !! id = Some s ∧ name = resourceFilename id s ∧ resource_sha prev id = rst_SHA256 s.
Proof.
  intros (s & Hs & ->)%(manifestNames_exact _ _ Hpn). exists s. unfold resource_sha. by rewrite Hs.
Qed.

Lemma triple_backup_previous dn name rn :
  ordered_names pn cn = dn ++ name :: rn →
  triple (prepared dn) (backup_previous maxBytes (at_home B) prev pn (len dn) name)
    (λ r fs, (r = (tf_HadPrevious (file_of (len dn) name), tf_PreviousSHA256 (file_of (len dn) name), tf_Backup (file_of (len dn) name)) ∧
      (tf_HadPrevious (file_of (len dn) name) = true → had_recorded (file_of (len dn) name))) ∧
      prepared (dn ++ [name]) fs) clean.
Proof.
  intros Hl. assert (Hskip : tf_HadPrevious (file_of (len dn) name) = false →
    tf_PreviousSHA256 (file_of (len dn) name) = "" → tf_Backup (file_of (len dn) name) = "" →
    triple (prepared dn) (mret (false, "", ""))
    (λ r fs, (r = (tf_HadPrevious (file_of (len dn) name), tf_PreviousSHA256 (file_of (len dn) name), tf_Backup (file_of (len dn) name)) ∧
      (tf_HadPrevious (file_of (len dn) name) = true → had_recorded (file_of (len dn) name))) ∧
      prepared (dn ++ [name]) fs) clean).
  { intros Hh Hs Hb. apply triple_ret. intros fs Hp. rewrite Hh, Hs, Hb. split; [done|]. by apply prepared_skip. }
  unfold backup_previous. unfold ResourceJournal.file_of in *.
  destruct (pn !! name) as [id|] eqn:Epn; [|by apply Hskip].
  destruct (sd_Version prev =? 2) eqn:Ev; [|by apply Hskip]. clear Hskip. apply Z.eqb_eq in Ev.
  destruct (name_of_previous name id Epn) as (s & Hs & Hname & Hsha).
  assert (Hlen : len dn < 2 ^ 32).
  { pose proof Hsize as Hsize'. rewrite Hl, len_app, len_cons in Hsize'. pose proof (len_nonneg rn). lia. }
  assert (Hpl : plain_name name) by (rewrite Hname; apply resourceFilename_plain).
  assert (Hfile : blame ∨ entry_ok maxBytes fs0 id s).
  { destruct Hready as [|Hr]; [by left|]. right. by apply (pr_previous Hr). }
  cbn [tf_HadPrevious tf_PreviousSHA256 tf_Backup]. eapply triple_bind.
  { apply triple_attempt, (triple_readManaged _ fault_blame _ _ _ clean); [apply prepared_clean|].
    intros fs Hp. destruct Hfile as [|(body & Hb & ? & _)]; [by left|]. right. exists body. split; [|done].
    rewrite <- Hname in Hb. exact (eq_trans (clean_plain _ _ (prepared_clean _ _ Hp) Hpl) Hb). }
  intros [body|e]; [|by apply triple_throw].
  eapply triple_pre with (P' := λ fs, (0 < len body ≤ maxBytes ∧ fs0 !! at_home name = Some (EFile body)) ∧ prepared dn fs).
  2: { intros fs (Hp & Hb & Hlb). split; [|done]. split; [done|].
       exact (eq_trans (eq_sym (clean_plain _ _ (prepared_clean _ _ Hp) Hpl)) Hb). }
  apply triple_pure. intros [Hlb Hb0]. eapply triple_bind.
  { apply (triple_refuse _ _ _ _ (λ _ fs, digest body = resource_sha prev id ∧ prepared dn fs)).
    - intros fs Hp Hd. apply negb_false_iff, streq_true in Hd. done.
    - intros Hd fs Hp. split; [by eapply prepared_clean|]. destruct Hfile as [|(b & Hb & _ & Hdig & _)]; [done|].
      rewrite <- Hname in Hb. pose proof (eq_trans (eq_sym Hb) Hb0) as [= ->].
      apply negb_true_iff, streq_false in Hd. by rewrite Hsha in Hd. }
  intros []. apply triple_pure. intros Hd. eapply (triple_bind _ _ _ _ (λ _, prepared (dn ++ [name]))).
  { apply (triple_writeStaged _ fault_blame _ _ _ (prepared dn)).
    - apply prepared_stable.
    - apply prepared_stable.
    - apply clean_stable. intros p (n & -> & _). apply inside.
    - done.
    - by intros fs (_ & ? & _).
    - intros fs (_ & _ & _ & Hn). apply Hn. pose proof (len_nonneg dn). lia.
    - intros fs Hp. by apply prepared_backup.
    - apply prepared_clean.
    - apply prepared_clean. }
  intros []. apply triple_ret. intros fs Hp. split; [|done]. split; [done|]. intros _. exists body. by split.
Qed.

Context (Hcover : dom cn ⊆ dom np).

Lemma ordered_plain name : name ∈ ordered_names pn cn → plain_name name.
Proof.
  intros [Hs|Hs]%elem_of_ordered.
  - by apply (names_plain prev pn); [apply manifestNames_exact|].
  - by apply (names_plain cand cn); [apply manifestNames_exact|].
Qed.

Lemma path_of_candidate name path :
  np !! name = Some path →
  ∃ id s, cn !! name = Some id ∧ resources_of cand !! id = Some s ∧ resource_sha cand id = rst_SHA256 s ∧ staged !! id = Some path.
Proof.
  intros (id & s & Hin & Hs & ->)%Hex. exists id, s. unfold resource_sha. rewrite Hs. split_and!; [|done|done|].
  - apply (manifestNames_exact _ _ Hcn). eauto.
  - by apply elem_of_map_to_list.
Qed.
Lemma no_path name : np !! name = None → cn !! name = None.
Proof. rewrite <- !not_elem_of_dom. set_solver. Qed.

Lemma triple_check_unmanaged dn name :
  name ∈ ordered_names pn cn → (sd_Version prev = 2 → pn !! name = None) →
  triple (prepared dn) (check_unmanaged name) (λ _ fs, fs0 !! at_home name = None ∧ prepared dn fs) clean.
Proof.
  intros Hin Hun. unfold check_unmanaged. pose proof (ordered_plain _ Hin) as Hpl.
  eapply triple_bind; [apply (triple_lstat _ fault_blame _ _ clean); apply prepared_clean|].
  intros [e|e].
  - apply triple_throw. intros fs [Hp He]. split; [by eapply prepared_clean|].
    destruct Hready as [|Hr]; [done|]. pose proof (clean_plain _ _ (prepared_clean _ _ Hp) Hpl) as Hc.
    pose proof (pr_unmanaged Hr name Hin Hun) as Hnone. pose proof (eq_trans (eq_sym He) (eq_trans Hc Hnone)) as [=].
  - destruct (os_IsNotExist e) eqn:Ee.
    + apply triple_ret. intros fs [Hp [[Hn _]|[_ ?]]]; [|congruence]. split; [|done].
      exact (eq_trans (eq_sym (clean_plain _ _ (prepared_clean _ _ Hp) Hpl)) Hn).
    + apply triple_throw. intros fs [Hp [[_ ->]|[? _]]]; [done|]. split; [by eapply prepared_clean|done].
Qed.

(** What is staged for a name, if anything, has the hash the journal gives. *)
Definition candidate_recorded (name sha : string) : Prop :=
  ∀ e, new_of name = Some e → ∃ body, e = EFile body ∧ sha ≠ "" ∧ good_bytes maxBytes sha body.

Lemma new_of_path name : new_of name = match np !! name with Some path => fs0 !! path | None => None end.
Proof. unfold new_of. by destruct (np !! name). Qed.
Lemma file_of_sha i name :
  tf_CandidateSHA256 (file_of i name) = match cn !! name with Some id => resource_sha cand id | None => "" end.
Proof. unfold ResourceJournal.file_of. destruct (pn !! name); [destruct (_ =? _)|]; done. Qed.

Lemma triple_check_candidate dn i name :
  triple (prepared dn) (check_candidate maxBytes cand cn np name)
    (λ r fs, (r = tf_CandidateSHA256 (file_of i name) ∧ candidate_recorded name r) ∧ prepared dn fs) clean.
Proof.
  unfold check_candidate. rewrite file_of_sha. pose proof (new_of_path name) as Hnew.
  destruct (np !! name) as [path|] eqn:Enp.
  2: { rewrite (no_path name Enp). apply triple_ret. intros fs Hp. split; [|done]. split; [done|]. intros e. by rewrite Hnew. }
  destruct (path_of_candidate _ _ Enp) as (id & s & Hid & Hs & Hsha & Hst). rewrite Hid.
  assert (Hsame : ∀ fs, prepared dn fs → fs !! path = fs0 !! path).
  { intros fs Hp. by eapply clean_staged; [eapply prepared_clean| |]. }
  assert (Hfile : blame ∨ ∃ body, fs0 !! path = Some (EFile body) ∧ good_bytes maxBytes (rst_SHA256 s) body ∧
    is_ok (ValidateResource (resource_at id s) body) = true).
  { destruct Hready as [|Hr]; [by left|]. right. by apply (pr_staged Hr id s path). }
  eapply triple_bind.
  { apply triple_attempt, (triple_readManaged _ fault_blame _ _ _ clean); [apply prepared_clean|].
    intros fs Hp. destruct Hfile as [|(body & Hb & [? _] & _)]; [by left|]. right. exists body. by rewrite (Hsame fs Hp). }
  intros [body|e]; [change (default "" (Some id)) with id; rewrite Hs|by apply triple_throw].
  eapply triple_pre with (P' := λ fs, (0 < len body ≤ maxBytes ∧ fs0 !! path = Some (EFile body)) ∧ prepared dn fs).
  2: { intros fs (Hp & Hb & Hlb). split; [|done]. split; [done|]. exact (eq_trans (eq_sym (Hsame fs Hp)) Hb). }
  apply triple_pure. intros [Hlb Hb0]. eapply triple_bind.
  { apply (triple_refuse _ _ _ _ (λ _ fs, digest body = rst_SHA256 s ∧ prepared dn fs)).
    - intros fs Hp [Hd _]%orb_false_iff. apply negb_false_iff, streq_true in Hd. done.
    - intros Hd fs Hp. split; [by eapply prepared_clean|]. destruct Hfile as [|(b & Hb & [_ Hdig] & Hv)]; [done|].
      pose proof (eq_trans (eq_sym Hb) Hb0) as [= ->]. by rewrite Hdig, streq_refl, Hv in Hd. }
  intros []. apply triple_pure. intros Hd. apply triple_ret. intros fs Hp. split; [|done]. split; [done|].
  intros e He. rewrite Hnew, Hb0 in He. injection He as <-. exists body. split_and!; [done| |split; done].
  intros Hempty. pose proof (valid_sha cand cand_valid id s Hs) as Hl. by rewrite Hempty in Hl.
Qed.

Lemma file_of_eta i name :
  mkTransactionFile name (tf_Backup (file_of i name)) (tf_HadPrevious (file_of i name)) (tf_PreviousSHA256 (file_of i name))
    (tf_CandidateSHA256 (file_of i name)) = file_of i name.
Proof. unfold ResourceJournal.file_of. destruct (pn !! name); [destruct (_ =? _)|]; done. Qed.
Lemma file_of_had i name : tf_HadPrevious (file_of i name) = false → sd_Version prev = 2 → pn !! name = None.
Proof. unfold ResourceJournal.file_of. destruct (pn !! name); [|done]. intros Hh Hv. by rewrite Hv in Hh. Qed.

Local Abbreviation recorded_file := (file_recorded fs0 maxBytes new_of).

Lemma triple_journal_file dn name rn :
  ordered_names pn cn = dn ++ name :: rn →
  triple (prepared dn) (journal_file maxBytes (at_home B) prev cand pn cn np (len dn) name)
    (λ f fs, (f = file_of (len dn) name ∧ recorded_file f) ∧ prepared (dn ++ [name]) fs) clean.
Proof.
  intros Hl. assert (Hin : name ∈ ordered_names pn cn) by (rewrite Hl; set_solver).
  unfold journal_file. eapply triple_bind; [by eapply triple_backup_previous|].
  intros r. apply triple_pure. intros [-> Hhad]. set (f := file_of (len dn) name) in *.
  eapply (triple_bind _ _ _ _ (λ _ fs, had_recorded f ∧ prepared (dn ++ [name]) fs)).
  { destruct (tf_HadPrevious f) eqn:Hh; [apply triple_ret; auto|].
    eapply triple_post; [apply triple_check_unmanaged; [done|by apply file_of_had with (i := len dn)]|].
    intros _ fs [Hn Hp]. split; [|done]. unfold had_recorded. rewrite Hh. subst f. by rewrite file_of_name. }
  intros []. apply triple_pure. intros Hrec. eapply triple_bind; [apply (triple_check_candidate _ (len dn))|].
  intros sha. apply triple_pure. intros [-> Hcand]. apply triple_ret. intros fs Hp. split; [|done].
  subst f. rewrite file_of_eta. split; [done|]. unfold file_recorded. split_and!; [|exact Hrec|]; rewrite file_of_name; [by apply ordered_plain|done].
Qed.

Local Abbreviation J := (journal_of B).

(** The journal tells the truth, and the backups it names are there. *)
Lemma triple_build_journal :
  triple (prepared []) (build_journal maxBytes (at_home B) prev cand pn cn np)
    (λ j fs, (j = J ∧ recorded fs0 prev cand maxBytes new_of B J) ∧ clean fs ∧ backed_up fs0 B J fs) clean.
Proof.
  unfold build_journal. eapply triple_bind.
  { eapply triple_weaken; [apply (triple_for_each _ _
      (λ dn files fs, (files = files_of dn ∧ ∀ f, f ∈ files → recorded_file f) ∧ prepared dn fs) clean)| | |done].
    - intros dn name rn files Hl. apply triple_pure. intros [-> Hall].
      assert (Hlen : len (files_of dn) = len dn) by (unfold len, ResourceJournal.files_of; by rewrite length_imap).
      rewrite Hlen. eapply triple_bind; [by eapply triple_journal_file|].
      intros f. apply triple_pure. intros [-> Hf]. apply triple_ret. intros fs Hp. split; [|done].
      rewrite files_of_snoc. split; [done|]. intros g [Hg| ->%list_elem_of_singleton]%elem_of_app; auto.
    - intros fs Hp. split; [|exact Hp]. split; [done|]. intros f Hf. by apply not_elem_of_nil in Hf.
    - intros a fs Ha. exact Ha. }
  intros files. apply triple_pure. intros [-> Hall]. apply triple_ret. intros fs (Hc & Hd & Hb & _).
  rewrite (valid_clone prev) by apply prev_valid. rewrite (valid_clone cand) by apply cand_valid.
  split; [split; [done|by split]|]. split; [done|]. split; [done|].
  intros f (i & name & Hi & ->)%elem_of_files Hh. rewrite file_of_name, <- (Hb i name Hi Hh). f_equal.
  f_equal. f_equal. unfold ResourceJournal.file_of in *. destruct (pn !! name); [destruct (_ =? _)|]; done.
Qed.

(** *** Its start *)
(** Whatever the journal is: one of files, or one of the manifest only. *)
Section any_journal.
Context (K : transactionJournal) (new : string → option entry).
Context (Hrec : recorded fs0 prev cand maxBytes new B K) (Hphase : tj_Phase K = "promoting") (Hvalid : validateJournal K = Ok tt).
Context (Hwritten : blame ∨ ∃ body, json_marshal K = Ok body ∧ len body ≤ maxStateBytes).
Local Abbreviation pending := (pending fs0 prev cand new B K).
Local Abbreviation settled := (settled fs0 prev B).
Local Abbreviation undoing := (undoing fs0 prev cand new B K).

Definition started (fs : Fs) : Prop := clean fs ∧ backed_up fs0 B K fs.

Lemma journal_legible fs : journal_is K fs → legible K.
Proof.
  intros (body & _ & Hm & Hl). split_and!; [|done|by exists body].
  apply (pm_plain Hpm); [done|rewrite (rc_previous _ _ _ _ _ _ _ Hrec); apply Hpm|rewrite (rc_candidate _ _ _ _ _ _ _ Hrec); apply Hpm].
Qed.
Lemma accepted_legible : legible K → legible (with_phase K "accepted").
Proof.
  intros (Hp & Hv & body & Hm & Hl). destruct (pm_accepted Hpm K body) as (b' & Hm' & Hl'); [done..|].
  assert (Hv' : validateJournal (with_phase K "accepted") = Ok tt).
  { rewrite <- Hv. unfold validateJournal, with_phase. cbn [tj_Version tj_Phase tj_BackupDir tj_MaxBytes tj_Previous tj_Candidate tj_MetadataOnly tj_Files].
    by rewrite Hphase. }
  split_and!; [|done|by exists b']. apply (pm_plain Hpm); [done| |]; cbn.
  - rewrite (rc_previous _ _ _ _ _ _ _ Hrec). apply Hpm.
  - rewrite (rc_candidate _ _ _ _ _ _ _ Hrec). apply Hpm.
Qed.
Lemma pending_legible fs : pending fs → legible K.
Proof. intros Hp. eapply journal_legible, Hp. Qed.

Lemma started_pending fs body :
  started fs → json_marshal K = Ok body → len body ≤ maxStateBytes → pending (put journal_path (Some (EFile body)) fs).
Proof.
  intros [Hc [Hd Hb]] Hm Hl.
  assert (Hj : ∀ n, at_home B ++ n ≠ journal_path).
  { intros n Heq. assert (below (at_home B) journal_path = true) as Hbel.
    { rewrite <- Heq. unfold below. by rewrite take_app_length, bool_decide_eq_true_2. }
    by pose proof (eq_trans (eq_sym Hbel) (outside_named transactionFileName eq_refl)). }
  split.
  - intros p Ht Hbel Hpj Hps Hnd. rewrite put_ne by done. by apply Hc.
  - exists body. by rewrite put_eq.
  - split; [|intros f Hf Hh]; (rewrite put_ne; [auto|intros Heq]).
    + exact (Hj [] (eq_trans (app_nil_r _) (eq_sym Heq))).
    + exact (Hj _ (eq_sym Heq)).
  - intros f Hf. left. unfold holds_old. pose proof (destination_plain _ _ _ _ _ _ _ Hrec f Hf) as Hpl.
    rewrite put_ne; [by apply clean_plain|]. intros [= Heq]. unfold plain_name in Hpl. by rewrite <- Heq in Hpl.
  - left. rewrite (state_of_same fs); [by apply clean_state|]. by rewrite put_ne.
Qed.

Lemma started_blind : blind started.
Proof. apply blind_and; [apply clean_blind|by apply backed_up_blind]. Qed.

Lemma triple_write_journal :
  triple started (writeJSONAtomic journal_path home K) (λ _, pending) (λ fs, clean fs ∨ pending fs).
Proof.
  unfold writeJSONAtomic. eapply triple_bind.
  { apply (triple_lift _ _ started (λ body fs, json_marshal K = Ok body ∧ started fs)); [done|].
    intros e He fs [Hc _]. split; [by left|]. destruct Hwritten as [|(b & Hb & _)]; [done|congruence]. }
  intros data. apply triple_pure. intros Hm. eapply triple_bind.
  { apply (triple_refuse _ _ _ started (λ _ fs, len data ≤ maxStateBytes ∧ started fs)).
    - intros fs Hs Hl. apply Z.ltb_ge in Hl. done.
    - intros Hl fs [Hc _]. split; [by left|]. destruct Hwritten as [|(b & Hb & ?)]; [done|].
      rewrite Hm in Hb. injection Hb as <-. apply Z.ltb_lt in Hl. lia. }
  intros []. apply triple_pure. intros Hl.
  assert (Hpb : blind pending) by by apply pending_blind with (maxBytes := maxBytes).
  apply (triple_writeManagedAtomic _ fault_blame).
  - apply blind_stable; [apply started_blind|apply promote_temp].
  - by apply blind_stable; [|apply promote_temp].
  - apply blind_stable; [|apply promote_temp]. by apply blind_or; [apply clean_blind|].
  - done.
  - intros fs [Hc _]. by apply clean_home.
  - intros fs [Hc _]. left. by apply clean_journal.
  - intros fs Hs. by apply started_pending.
  - intros fs [Hc _]. by left.
  - by right.
Qed.

(** *** Rolling back *)
Lemma triple_failPromotion {A : Type} (cause : fs_error) (Q : A → Assert) :
  triple (λ fs, blame ∧ pending fs) (failPromotion journal_path (at_home B) cause) Q undoing.
Proof.
  apply triple_pure. intros Hblame. unfold failPromotion.
  eapply triple_pre with (P' := λ fs, legible K ∧ pending fs); [|intros fs Hp; split; [by eapply pending_legible|done]].
  apply triple_pure. intros Hl. eapply triple_bind.
  { eapply triple_weaken; [apply triple_attempt, (triple_readTransaction _ fault_blame K B pending); [done|apply Hrec|]|done| |by left].
    - intros fs Hp. split; apply Hp.
    - intros r fs Hr. exact Hr. }
  intros r. eapply (triple_bind _ _ _ _ (λ r fs, match r with Ok _ => settled fs | Err _ => undoing fs end)).
  { destruct r as [v|e].
    - apply triple_pure. intros ->. eapply triple_weaken; [apply triple_attempt|done| |done].
      + apply (triple_restoreTransaction _ fault_blame _ _ _ _ _ _ _ Hrec); [apply Hpm|apply Hpm|apply Hpm].
      + intros [[]|e] fs Hr; [exact Hr|by destruct Hr].
    - apply triple_ret. intros fs [Hp _]. by left. }
  intros [[]|e]; [|by apply triple_throw].
  apply triple_ignore; [|by right|intros _; apply triple_throw; intros fs Hs; split; [by right|done]].
  apply (triple_remove_all _ fault_blame). by eapply settled_stable.
Qed.

End any_journal.

(** *** The journal of files on disk *)
Section journalled.
Context (Hrec : recorded fs0 prev cand maxBytes new_of B J) (Hversion : sd_Version cand = 2).
Local Abbreviation pending := (pending fs0 prev cand new_of B J).
Local Abbreviation settled := (settled fs0 prev B).
Local Abbreviation undoing := (undoing fs0 prev cand new_of B J).
Lemma journal_valid : validateJournal J = Ok tt.
Proof. apply journal_validates; try done; [apply prev_valid|apply cand_valid|apply Hpm|apply Hpm]. Qed.
Lemma journal_written : blame ∨ ∃ body, json_marshal J = Ok body ∧ len body ≤ maxStateBytes.
Proof.
  destruct Hready as [|Hr]; [by left|right]. destruct HBt as [t Ht]. destruct (pr_journal Hr t) as (b & Hb & ?).
  rewrite <- Ht in Hb. by exists b.
Qed.

(** *** Replacing the files *)
Local Abbreviation holds_new := (holds_new new_of).
Definition advanced (don : list transactionFile) (fs : Fs) : Prop := pending fs ∧ ∀ g, g ∈ don → holds_new fs g.

Lemma advanced_pending don fs : advanced don fs → pending fs.
Proof. by intros [? _]. Qed.
Lemma advanced_blind don : (∀ f, f ∈ don → f ∈ tj_Files J) → blind (advanced don).
Proof.
  intros Hdon. apply blind_and; [by apply pending_blind with (maxBytes := maxBytes)|].
  intros fs fs' Hsame Hf f Hin. unfold ResourceStates.holds_new.
  rewrite (holds_blind _ _ _ _ _ _ _ Hrec _ _ _ Hsame (Hdon f Hin)). by apply Hf.
Qed.
Lemma advanced_same don f fs : advanced don fs → holds_new fs f → advanced (don ++ [f]) fs.
Proof.
  intros [Hp Hd] Hf. split; [done|]. intros g Hg. apply elem_of_app in Hg as [Hg|Hg]; [auto|].
  apply list_elem_of_singleton in Hg as ->. done.
Qed.
Lemma advanced_put don f fs :
  f ∈ tj_Files J → advanced don fs → advanced (don ++ [f]) (put (at_home (tf_Name f)) (new_of (tf_Name f)) fs).
Proof.
  intros Hin [Hp Hd]. split; [apply (pending_put _ _ _ maxBytes); auto|]. intros g Hg.
  unfold ResourceStates.holds_new. destruct (decide (tf_Name f = tf_Name g)) as [Heq|Hne].
  - by rewrite <- Heq, put_eq.
  - rewrite put_ne by (by intros [= ?]). apply elem_of_app in Hg as [Hg|Hg]; [by apply Hd|].
    apply list_elem_of_singleton in Hg as ->. done.
Qed.

Lemma pending_staged fs name path : pending fs → np !! name = Some path → fs !! path = fs0 !! path.
Proof.
  intros Hp Hnp. destruct (staged_shape _ _ Hnp Hex) as (dir & n & -> & Hd). destruct (staged_outside dir n Hd) as [Ht Hb].
  apply (pe_untouched _ _ _ _ _ _ _ Hp); [done|done|by intros [=]|by intros [=]|]. by intros (f & _ & [=]).
Qed.

(** The candidate's bytes to their destination. *)
Lemma triple_promote_staged don f rest path :
  tj_Files J = don ++ f :: rest → np !! tf_Name f = Some path →
  triple (advanced don) (promote_file maxBytes np f) (λ _, advanced (don ++ [f])) pending.
Proof.
  intros (Hin & Hdon & Hdon')%in_files Hnp. unfold promote_file. rewrite Hnp. fold (at_home (tf_Name f)).
  destruct (path_of_candidate _ _ Hnp) as (id & s & _ & Hs & _ & Hst). pose proof (new_of_path (tf_Name f)) as Hnew.
  rewrite Hnp in Hnew. eapply triple_bind.
  { apply (triple_readManaged _ fault_blame _ _ _ pending); [apply advanced_pending|].
    intros fs [Hp _]. destruct Hready as [|Hr]; [by left|]. right.
    destruct (pr_staged Hr id s path Hs Hst) as (body & Hb & [? _] & _). exists body. by rewrite (pending_staged _ _ _ Hp Hnp). }
  intros body. eapply triple_pre with (P' := λ fs, fs0 !! path = Some (EFile body) ∧ advanced don fs).
  2: { intros fs (Ha & Hb & _). split; [|done].
       exact (eq_trans (eq_sym (pending_staged _ _ _ (advanced_pending _ _ Ha) Hnp)) Hb). }
  apply triple_pure. intros Hb0. apply (triple_writeManagedAtomic _ fault_blame).
  - apply blind_stable; [by apply advanced_blind|apply promote_temp].
  - apply blind_stable; [by apply advanced_blind|apply promote_temp].
  - apply blind_stable; [by apply pending_blind with (maxBytes := maxBytes)|apply promote_temp].
  - done.
  - intros fs Ha. eapply home_dir; [apply Hpm|]. by eapply advanced_pending.
  - intros fs Ha. eapply destination_file; [done|done|]. by eapply advanced_pending.
  - intros fs Ha. pose proof (advanced_put don f fs Hin Ha) as Hput. rewrite Hnew, Hb0 in Hput. exact Hput.
  - apply advanced_pending.
  - intros fs. apply advanced_pending.
Qed.

(** A destination the candidate does not have is removed. *)
Lemma triple_promote_removed don f rest :
  tj_Files J = don ++ f :: rest → np !! tf_Name f = None →
  triple (advanced don) (promote_file maxBytes np f) (λ _, advanced (don ++ [f])) pending.
Proof.
  intros (Hin & Hdon & Hdon')%in_files Hnp. unfold promote_file. rewrite Hnp. fold (at_home (tf_Name f)).
  pose proof (new_of_path (tf_Name f)) as Hnew. rewrite Hnp in Hnew.
  assert (Habsent : ∀ fs, advanced don fs → fs !! at_home (tf_Name f) = None → advanced (don ++ [f]) fs).
  { intros fs Ha Hn. apply advanced_same; [done|]. unfold ResourceStates.holds_new. by rewrite Hnew. }
  destruct (tf_HadPrevious f) eqn:Hhad.
  - unfold removeManaged. rewrite bool_decide_eq_true_2 by done. apply triple_bind_ret.
    eapply triple_bind; [apply (triple_lstat _ fault_blame _ _ pending); apply advanced_pending|].
    assert (Hno : ∀ e msg, e ≠ EFile [] → (∀ body, e ≠ EFile body) →
      triple (λ fs, advanced don fs ∧ fs !! at_home (tf_Name f) = Some e) (throw (A := unit) (EFs msg)) (λ _, advanced (don ++ [f])) pending).
    { intros e msg _ Hne. apply triple_throw. intros fs [Ha He]. exfalso.
      destruct (destination_file _ _ _ _ _ _ _ Hrec f fs Hin (advanced_pending _ _ Ha)) as [Hd|[b Hd]].
      - pose proof (eq_trans (eq_sym He) Hd) as [=].
      - pose proof (eq_trans (eq_sym He) Hd) as [= ->]. by destruct (Hne b). }
    intros [[body| |]|e]; [|by apply Hno|by apply Hno|].
    + apply (triple_bind _ _ _ _ (λ _, advanced (don ++ [f]))); [|intros []; by apply triple_sync; [|apply advanced_pending]].
      apply (triple_remove _ fault_blame).
      * intros fs [Ha _]. by eapply advanced_pending.
      * intros fs [_ He]. by exists (EFile body).
      * intros fs [Ha _]. pose proof (advanced_put don f fs Hin Ha) as Hput. rewrite Hnew in Hput. exact Hput.
    + destruct (os_IsNotExist e) eqn:Ee.
      * apply triple_ret. intros fs [Ha [[Hn _]|[_ ?]]]; [by apply Habsent|congruence].
      * apply triple_throw. intros fs [Ha [[_ ->]|[? _]]]; [done|]. split; [by eapply advanced_pending|done].
  - apply triple_ret. intros fs Ha. apply Habsent; [done|].
    destruct (rc_files _ _ _ _ _ _ _ Hrec f Hin) as (_ & Hold & _). rewrite Hhad in Hold.
    destruct (pe_files _ _ _ _ _ _ _ (advanced_pending _ _ Ha) f Hin) as [Ho|Hn].
    + exact (eq_trans Ho Hold).
    + exact (eq_trans Hn Hnew).
Qed.

Lemma triple_promote_file don f rest :
  tj_Files J = don ++ f :: rest →
  triple (advanced don) (promote_file maxBytes np f) (λ _, advanced (don ++ [f])) pending.
Proof.
  intros Hl. destruct (np !! tf_Name f) as [path|] eqn:Hnp; [by eapply triple_promote_staged|by eapply triple_promote_removed].
Qed.

(** *** The manifest *)
Lemma advanced_files_ok fs : promising → advanced (tj_Files J) fs → files_ok maxBytes cand fs.
Proof.
  intros Hr [_ Hn] id s Hs. destruct (proj2 (pr_staged_ids Hr id)) as [path Hst]; [eauto|].
  destruct (pr_staged Hr id s path Hs Hst) as (body & Hb & [? ?] & ?). exists body. split; [|done].
  assert (Hnp : np !! resourceFilename id s = Some path) by (apply Hex; exists id, s; split; [by apply elem_of_map_to_list|done]).
  assert (Hin : resourceFilename id s ∈ ordered_names pn cn).
  { apply elem_of_ordered. right. exists id. apply (manifestNames_exact _ _ Hcn). eauto. }
  apply list_elem_of_lookup in Hin as [i Hi].
  assert (Hf : file_of (Z.of_nat i) (resourceFilename id s) ∈ tj_Files J) by (exact (elem_of_lookup_imap_2 (λ i name, file_of (Z.of_nat i) name) _ _ _ Hi)).
  specialize (Hn _ Hf). unfold ResourceStates.holds_new in Hn. rewrite file_of_name, new_of_path, Hnp in Hn.
  exact (eq_trans Hn Hb).
Qed.

Definition replaced (fs : Fs) : Prop := advanced (tj_Files J) fs ∧ files_ok maxBytes cand fs.

Lemma replaced_committed fs body :
  replaced fs → json_marshal cand = Ok body → len body ≤ maxStateBytes →
  committed fs0 prev cand maxBytes new_of B J (put state_path (Some (EFile body)) fs).
Proof.
  intros [[Hp Hn] Hok] Hm Hl. assert (Hpl : ∀ n, plain_name n → state_path ≠ at_home n).
  { intros n Hpl [= Heq]. unfold plain_name in Hpl. by rewrite <- Heq in Hpl. }
  assert (Hp' : pending (put state_path (Some (EFile body)) fs)).
  { apply (pending_put_state _ _ _ _ _ _ _ Hrec _ _ cand); [done|by right|apply Hpm|done|done]. }
  split; [done|]. split_and!; [apply Hp'| | |apply state_of_written; [apply Hpm|done|done]].
  - intros f Hf. unfold ResourceStates.holds_new. rewrite put_ne; [by apply Hn|].
    apply Hpl. by apply (destination_plain _ _ _ _ _ _ _ Hrec).
  - intros id s Hs. destruct (Hok id s Hs) as (b & Hb & ?). exists b. split; [|done].
    refine (eq_trans (put_ne _ _ _ _ _) Hb). apply Hpl, resourceFilename_plain.
Qed.

Lemma triple_replace_all :
  triple pending
    (for_each (λ _ file, promote_file maxBytes np file) tt (tj_Files J) ≫= λ _,
     sync home ≫= λ _, verifyManifestFiles cand maxBytes ≫= λ _, writeStateAtomic state_path home cand)
    (λ _, committed fs0 prev cand maxBytes new_of B J) pending.
Proof.
  eapply triple_bind.
  { eapply triple_weaken; [apply (triple_for_each _ _ (λ don _, advanced don) pending)| | |done].
    - intros don f rest [] Hl. by eapply triple_promote_file.
    - intros fs Hp. split; [done|]. intros g Hg. by apply not_elem_of_nil in Hg.
    - intros a fs Ha. exact Ha. }
  intros []. eapply triple_bind; [apply triple_sync; [done|apply advanced_pending]|]. intros [].
  eapply triple_bind.
  { eapply triple_weaken; [apply (triple_verifyManifestFiles _ fault_blame cand maxBytes (advanced (tj_Files J)))|done| |].
    - intros fs Ha. destruct Hready as [|Hr]; [by left|]. right. by apply advanced_files_ok.
    - intros a fs Ha. exact Ha.
    - apply advanced_pending. }
  assert (Hab : blind (advanced (tj_Files J))) by by apply advanced_blind.
  assert (Hrb : blind replaced) by by apply blind_and; [|apply files_ok_blind].
  assert (Hpb : blind pending) by by apply pending_blind with (maxBytes := maxBytes).
  assert (Hcb : blind (committed fs0 prev cand maxBytes new_of B J)) by by apply committed_blind.
  intros []. apply (triple_writeStateAtomic _ fault_blame _ replaced).
  - by apply blind_stable; [|apply state_temp].
  - by apply blind_stable; [|apply state_temp].
  - by apply blind_stable; [|apply state_temp].
  - intros fs [[Hp _] _]. eapply home_dir; [apply Hpm|done].
  - intros fs [[Hp _] _]. destruct (pe_state _ _ _ _ _ _ _ Hp) as [Hs|Hs]; by eapply state_of_file.
  - right. apply Hpm.
  - intros fs body Hr Hm Hl. by apply replaced_committed.
  - by intros fs [[Hp _] _].
  - by intros fs [Hp _].
Qed.
End journalled.

(** *** From the directory to the manifest *)
(** Before the promotion, or with what it takes to undo it. *)
Definition undoable (fs : Fs) : Prop :=
  settled fs0 prev B fs ∨
  (recorded fs0 prev cand maxBytes new_of B J ∧ legible J ∧ pending fs0 prev cand new_of B J fs).
Definition ready_to_accept (fs : Fs) : Prop :=
  recorded fs0 prev cand maxBytes new_of B J ∧ legible J ∧ committed fs0 prev cand maxBytes new_of B J fs.

Lemma clean_remove_all : triple clean (remove_all (at_home B)) (λ _, clean) clean.
Proof. apply (triple_remove_all _ fault_blame). by apply clean_stable. Qed.

(** The first half: backups and the journal's contents. *)
Lemma triple_prepare :
  triple (prepared [])
    (on_failure (remove_all (at_home B))
      (journal ← build_journal maxBytes (at_home B) prev cand pn cn np;
       sync (at_home B) ≫= λ _,
       pending ← attempt (lstat journal_path);
       match pending with
       | Ok _ => throw (EFs "resources: another resource transaction is pending")
       | Err e => if os_IsNotExist e then mret journal else throw e
       end))
    (λ j fs, (j = J ∧ recorded fs0 prev cand maxBytes new_of B J) ∧ started J fs) (settled fs0 prev B).
Proof.
  apply (triple_on_failure _ _ _ _ _ clean); [|apply clean_remove_all|by apply clean_settled].
  eapply triple_bind; [by apply triple_build_journal|]. intros j. apply triple_pure. intros [-> Hrec].
  eapply triple_bind; [apply triple_sync; [done|by intros fs [? _]]|]. intros [].
  eapply triple_bind; [apply (triple_lstat _ fault_blame _ _ clean); by intros fs [? _]|].
  intros [e|e].
  - apply triple_throw. intros fs [[Hc _] He]. pose proof (eq_trans (eq_sym He) (clean_journal fs Hc)) as [=].
  - destruct (os_IsNotExist e) eqn:Ee.
    + apply triple_ret. intros fs [Hs _]. by split.
    + apply triple_throw. intros fs [[Hc _] [[_ ->]|[? _]]]; done.
Qed.

(** [os.Lstat] only ever fails because nothing is there. *)
Context (Hsure : ∀ t m n, faults t OpLstat ≠ Fails m n) (Hversion : sd_Version cand = 2).

Lemma triple_promote_in :
  triple (prepared []) (promote_in maxBytes prev cand pn cn np (at_home B))
    (λ dir fs, dir = at_home B ∧ ready_to_accept fs) undoable.
Proof.
  unfold promote_in. eapply triple_bind.
  { eapply triple_weaken; [apply triple_prepare|done| |by left]. intros j fs Hj. exact Hj. }
  intros j. apply triple_pure. intros [-> Hrec].
  assert (Hpend : ∀ fs, pending fs0 prev cand new_of B J fs → undoable fs).
  { intros fs Hp. right. split_and!; [done|by eapply (pending_legible J new_of Hrec (journal_valid Hversion))|done]. }
  assert (Hundo : ∀ fs, undoing fs0 prev cand new_of B J fs → undoable fs).
  { intros fs [Hp|Hs]; [by apply Hpend|by left]. }
  assert (Hfail : ∀ cause, triple (λ fs, blame ∧ pending fs0 prev cand new_of B J fs)
    (failPromotion journal_path (at_home B) cause) (λ dir fs, dir = at_home B ∧ ready_to_accept fs) undoable).
  { intros cause. eapply triple_weaken; [by apply (triple_failPromotion J new_of Hrec (journal_valid Hversion))|done|intros ? ? Hq; exact Hq|exact Hundo]. }
  eapply triple_bind.
  { eapply triple_weaken; [apply triple_attempt, (triple_write_journal J new_of Hrec journal_written)|done| |].
    - intros r fs Hr. exact Hr.
    - intros fs [Hc|Hp]; [left; by apply clean_settled|by apply Hpend]. }
  intros [[]|cause]; cbn beta iota.
  - eapply triple_bind.
    { eapply triple_weaken; [apply triple_attempt; by apply triple_replace_all|done| |exact Hpend]. intros r fs Hr. exact Hr. }
    intros [[]|cause]; cbn beta iota.
    + apply triple_ret. intros fs Hc. split; [done|]. split_and!; [done|eapply (pending_legible J new_of Hrec (journal_valid Hversion)), Hc|done].
    + eapply triple_pre; [apply Hfail|]. by intros fs [? ?].
  - eapply triple_bind.
    { apply (triple_lstat_sure _ fault_blame _ (λ fs, (clean fs ∨ pending fs0 prev cand new_of B J fs) ∧ blame) undoable Hsure).
      intros fs [[Hc|Hp] _]; [left; by apply clean_settled|by apply Hpend]. }
    intros [e|e]; cbn beta iota.
    + eapply triple_pre; [apply Hfail|]. intros fs [[[Hc|Hp] Hb] He]; [|done].
      pose proof (eq_trans (eq_sym He) (clean_journal fs Hc)) as [=].
    + apply (triple_pre _ _ (λ fs, blame ∧ clean fs)).
      * apply triple_pure. intros Hb. apply triple_ignore; [apply clean_remove_all| |].
        -- intros fs Hc. left. by apply clean_settled.
        -- intros r. apply triple_throw. intros fs Hc. split; [left; by apply clean_settled|done].
      * intros fs [[[Hc|Hp] Hb] Hn]; [done|]. destruct (pe_journal _ _ _ _ _ _ _ Hp) as (body & Hb' & _).
        pose proof (eq_trans (eq_sym Hb') Hn) as [=].
Qed.
End fresh.
End promote.
