(* ===== verification/ResourceAtomicity.v ===== *)
(** * Promotion is atomic

    [promote], [finalizeTransaction] and [recoverTransaction] together: whatever
    fails and wherever the process dies, recovery ends with the files and the
    manifest from before the promotion or with the candidate's. *)
From Stdlib Require Import Ascii.
From S2P Require Import Prelude GoStrings GoSort GoJson GoFs ConfigTypes ResourceValidate ResourceStore ResourceTransaction FsLogic ResourceStoreFacts ResourceJournal ResourceStates ResourceRecovery ResourcePromote.
Open Scope Z_scope.

Section atomicity.
Context `{GoOs} `{GoHash} `{RuleParsers} `{JsonCodec stateDocument} `{JsonCodec transactionJournal}.

(** ** The whole of [promote] *)
Section promote.
Context (blame : Prop) (fault_blame : ∀ t k, faults t k ≠ Fine → blame).
Local Abbreviation triple := (triple blame).
Context (fs0 : Fs) (prev cand : stateDocument) (maxBytes : Z) (staged : gmap string (list string)).
Local Abbreviation pn := (names_or_empty prev).
Local Abbreviation cn := (names_or_empty cand).

Definition staged_paths : gmap string (list string) :=
  match fold_each (add_staged cand) ∅ (map_to_list staged) with Ok np => np | Err _ => ∅ end.
Local Abbreviation np := staged_paths.
Local Abbreviation journal_of := (journal_of maxBytes prev cand pn cn).
Local Abbreviation new_of := (new_of fs0 np).

Definition transaction_dir (B : string) : Prop := validPrivateDir B = true ∧ has_prefix B transactionDirPrefix = true.

(** What a promotion that did not complete leaves behind. *)
Definition left_behind (fs : Fs) : Prop :=
  ∃ B, transaction_dir B ∧ undoable fs0 prev cand maxBytes pn cn np B fs.
Definition in_place (dir : list string) (fs : Fs) : Prop :=
  ∃ B, transaction_dir B ∧ dir = at_home B ∧ ready_to_accept fs0 prev cand maxBytes pn cn np B fs.

Context (Hpm : promotable fs0 prev cand maxBytes staged pn cn).
Context (Hready : blame ∨ promising fs0 prev cand maxBytes staged pn cn).
Context (Hsure : ∀ t m n, faults t OpLstat ≠ Fails m n).

Lemma names_ok d : validateStateDocument d = Ok tt → manifestNames d = Ok (names_or_empty d).
Proof. intros [names Hn]%valid_names. unfold names_or_empty. by rewrite Hn. Qed.

(** Transaction directories carry a random name. *)
Lemma transaction_dir_random t : transaction_dir (transactionDirPrefix +:+ random_id t).
Proof.
  destruct (random_id_hex t) as [Hl Hh].
  assert (Hp : has_prefix (transactionDirPrefix +:+ random_id t) transactionDirPrefix = true) by (apply has_prefix_spec; by eexists).
  split; [|done]. unfold validPrivateDir. rewrite Hp, slen_app, Hl, Z.eqb_refl. cbn [andb].
  unfold trim_prefix. rewrite bytes_of_app.
  rewrite (proj2 (strip_prefix_Some (bytes_of transactionDirPrefix) _ (bytes_of (random_id t))) eq_refl).
  by rewrite of_bytes_of.
Qed.

Lemma before_left fs : fs = fs0 → left_behind fs.
Proof.
  intros ->. exists (transactionDirPrefix +:+ random_id 0). split; [apply transaction_dir_random|].
  left. by split; [|apply Hpm].
Qed.

Lemma fresh_prepared t :
  fs0 !! at_home (transactionDirPrefix +:+ random_id t) = None →
  prepared fs0 prev cand pn cn (transactionDirPrefix +:+ random_id t) []
    (<[at_home (transactionDirPrefix +:+ random_id t) := EDir]> fs0).
Proof.
  intros Hn. set (B := transactionDirPrefix +:+ random_id t) in *. split_and!.
  - intros p _ Hbel. rewrite lookup_insert_ne; [done|]. intros <-. by rewrite inside_dir in Hbel.
  - apply lookup_insert_eq.
  - by intros i name Hi.
  - intros i _. rewrite lookup_insert_ne by (intros [=]). apply (pm_tree _ _ _ _ _ _ _ Hpm (at_home B)); [done|apply inside].
Qed.

Lemma triple_makePrivateDir :
  triple (λ fs, fs = fs0) (makePrivateDir home transactionDirPrefix)
    (λ dir fs, ∃ B, (transaction_dir B ∧ (∃ t, B = transactionDirPrefix +:+ random_id t) ∧ dir = at_home B) ∧ prepared fs0 prev cand pn cn B [] fs) (λ fs, fs = fs0).
Proof.
  unfold makePrivateDir. eapply triple_bind; [by apply (triple_random _ fault_blame)|].
  intros id. apply (triple_pre _ _ (λ fs, ∃ t, id = random_id t ∧ fs = fs0)); [|intros fs [? [t ?]]; by exists t].
  apply triple_exists. intros t. apply triple_pure. intros ->. eapply triple_bind.
  { apply (triple_mkdir _ fault_blame _ (λ fs, fs = fs0)
      (λ fs, prepared fs0 prev cand pn cn (transactionDirPrefix +:+ random_id t) [] fs)).
    - done.
    - intros fs ->. apply Hpm.
    - intros fs -> [e He]. destruct Hready as [|Hr]; [done|].
      pose proof (pr_fresh _ _ _ _ _ _ _ Hr t) as Hn. pose proof (eq_trans (eq_sym He) Hn) as [=].
    - intros fs -> Hn. by apply fresh_prepared. }
  intros []. apply triple_ret. intros fs Hp. exists (transactionDirPrefix +:+ random_id t). split; [|done].
  split; [apply transaction_dir_random|]. split; [by exists t|done].
Qed.

Lemma triple_ensureRoot : triple (λ fs, fs = fs0) ensureRoot (λ _ fs, fs = fs0) (λ fs, fs = fs0).
Proof.
  unfold ensureRoot. eapply triple_bind; [by apply (triple_lstat _ fault_blame)|].
  assert (Hthrow : ∀ r, match r with Ok EDir => False | Ok _ => True | Err _ => True end →
    triple (λ fs, fs = fs0 ∧ match r with Ok e => fs !! home = Some e | Err e => (fs !! home = None ∧ e = ENotExist) ∨ (blame ∧ os_IsNotExist e = false) end)
      (throw (A := unit) (EFs "resources: managed root is unsafe")) (λ _ fs, fs = fs0) (λ fs, fs = fs0)).
  { intros r Hr. apply triple_throw. intros fs [-> Hl]. split; [done|]. pose proof (pm_home _ _ _ _ _ _ _ Hpm) as Hh.
    destruct r as [e|e].
    - pose proof (eq_trans (eq_sym Hl) Hh) as [= ->]. done.
    - destruct Hl as [[Hl _]|[? _]]; [|done]. pose proof (eq_trans (eq_sym Hl) Hh) as [=]. }
  intros [[body| |]|e]; [by apply (Hthrow (Ok (EFile body)))| |by apply (Hthrow (Ok EOther))|by apply (Hthrow (Err e))].
  apply triple_ret. by intros fs [? _].
Qed.

Lemma prev_version : (sd_Version prev =? 1) || (sd_Version prev =? 2) = true.
Proof.
  pose proof (prev_valid fs0 prev cand maxBytes staged pn cn Hpm) as Hv. unfold validateStateDocument in Hv.
  destruct (_ || negb (bool_decide _)) eqn:E; [done|]. apply orb_false_iff in E as [E _].
  by destruct (sd_Version prev =? 1), (sd_Version prev =? 2).
Qed.

Lemma triple_promote :
  triple (λ fs, fs = fs0) (promote maxBytes prev cand staged) in_place left_behind.
Proof.
  unfold promote. eapply triple_bind.
  { eapply triple_weaken; [apply triple_ensureRoot|done| |apply before_left]. intros a fs Ha. exact Ha. }
  pose proof (prev_valid _ _ _ _ _ _ _ Hpm) as Hpv. pose proof (cand_valid _ _ _ _ _ _ _ Hpm) as Hcv.
  intros []. eapply triple_bind.
  { apply (triple_refuse _ _ _ _ (λ _ fs, sd_Version cand = 2 ∧ fs = fs0)).
    - intros fs -> Hc. split; [|done]. repeat (apply orb_false_iff in Hc as [Hc ?]). go_bool. done.
    - intros Hc fs ->. split; [by apply before_left|]. destruct Hready as [|Hr]; [done|]. exfalso.
      rewrite (pr_version _ _ _ _ _ _ _ Hr), bool_decide_eq_true_2 in Hc by by apply valid_resources.
      rewrite (proj2 (streq_false _ _) (pr_identity _ _ _ _ _ _ _ Hr)) in Hc. pose proof prev_version as Hv.
      by destruct (sd_Version prev =? 1), (sd_Version prev =? 2). }
  intros []. apply triple_pure. intros Hversion. rewrite (names_ok prev Hpv), (names_ok cand Hcv). do 2 apply triple_bind_ret.
  pose proof (manifestNames_exact _ _ (names_ok cand Hcv)) as Hcn. eapply triple_bind.
  { apply (triple_lift _ _ _ (λ m fs, (m = np ∧ paths_exact cand (map_to_list staged) np) ∧ fs = fs0)).
    - intros m fs Hm ->. unfold staged_paths. rewrite Hm. split; [|done]. split; [done|]. by apply staged_paths_exact.
    - intros e He fs ->. split; [by apply before_left|]. destruct Hready as [|Hr]; [done|].
      destruct (staged_paths_total cand staged cn Hcn) as [m Hm]; [|congruence]. intros id. apply (pr_staged_ids _ _ _ _ _ _ _ Hr). }
  intros m. apply triple_pure. intros [-> Hex]. eapply triple_bind.
  { apply (triple_refuse _ _ _ _ (λ _ fs, dom cn ⊆ dom np ∧ fs = fs0)).
    - intros fs -> Hc. go_bool. done.
    - intros Hc fs ->. split; [by apply before_left|]. destruct Hready as [|Hr]; [done|]. exfalso. go_bool. apply Hc.
      intros name [id (s & Hs & ->)%Hcn]%elem_of_dom.
      destruct (proj2 (pr_staged_ids _ _ _ _ _ _ _ Hr id)) as [path Hst]; [eauto|]. apply elem_of_dom. exists path.
      apply Hex. exists id, s. split; [by apply elem_of_map_to_list|done]. }
  intros []. apply triple_pure. intros Hcover. eapply triple_bind.
  { eapply triple_weaken; [apply triple_wrap, triple_makePrivateDir|done| |apply before_left]. intros a fs Ha. exact Ha. }
  intros dir. apply triple_exists. intros B. apply triple_pure. intros ([HB HBp] & HBt & ->).
  eapply triple_weaken; [apply (triple_promote_in _ fault_blame _ _ _ _ _ _ _ _ Hpm Hready)|done| |]; try done.
  - by apply names_ok.
  - by apply names_ok.
  - intros d fs [-> Hr]. by exists B.
  - intros fs Hu. by exists B.
Qed.

(** ** Promotion, acceptance and recovery *)
(** [Plan.Commit] and [Plan.Finalize]'s use of the store. *)
Definition update : IO unit := dir ← promote maxBytes prev cand staged; finalizeTransaction dir.

(** The old store, or the new one. *)
Definition before (fs : Fs) : Prop := ∃ B, transaction_dir B ∧ settled fs0 prev B fs.
Definition after (fs : Fs) : Prop := ∃ B, transaction_dir B ∧ finished fs0 cand maxBytes new_of B (journal_of B) fs.
(** What any interruption leaves. *)
Definition between (fs : Fs) : Prop :=
  left_behind fs ∨
  ∃ B, transaction_dir B ∧ recorded fs0 prev cand maxBytes new_of B (journal_of B) ∧ legible (journal_of B) ∧
    legible (with_phase (journal_of B) "accepted") ∧ finalizing fs0 prev cand maxBytes new_of B (journal_of B) fs.

Lemma triple_update : triple (λ fs, fs = fs0) update (λ _ fs, after fs ∧ between fs) between.
Proof.
  unfold update. pose proof (pm_home _ _ _ _ _ _ _ Hpm) as Hhome. pose proof (pm_idle _ _ _ _ _ _ _ Hpm) as Hidle.
  eapply triple_bind.
  { eapply triple_weaken; [apply triple_promote|done| |by left]. intros a fs Ha. exact Ha. }
  intros dir. apply triple_exists. intros B. apply triple_pure. intros HB. apply triple_pure. intros ->.
  apply triple_pure. intros Hrec. apply triple_pure. intros Hl.
  assert (Hla : legible (with_phase (journal_of B) "accepted")) by (by eapply accepted_legible).
  eapply triple_weaken; [by apply (triple_finalizeTransaction _ fault_blame _ _ _ _ _ _ _ Hrec)|done| |].
  - intros [] fs Hf. split; [by exists B|]. right. exists B. split_and!; [done..|]. by right; right.
  - intros fs Hf. right. by exists B.
Qed.

Lemma triple_recover_left : triple left_behind recoverTransaction (λ _, before) left_behind.
Proof.
  pose proof (pm_home _ _ _ _ _ _ _ Hpm) as Hhome. pose proof (pm_idle _ _ _ _ _ _ _ Hpm) as Hidle.
  pose proof (pm_prev _ _ _ _ _ _ _ Hpm) as Hstore.
  apply triple_exists. intros B. apply triple_pure. intros HB. apply triple_or.
  - eapply triple_weaken; [apply (triple_recover_absent _ fault_blame (settled fs0 prev B))|done| |].
    + intros fs [Hs _]. rewrite Hs; [done|apply journal_not_temp| |done]. by apply (outside_named B (proj2 HB)).
    + intros [] fs Hs. by exists B.
    + intros fs Hs. exists B. split; [done|]. by left.
  - apply triple_pure. intros Hrec. apply triple_pure. intros Hl.
    eapply triple_weaken; [by apply (triple_recover_promoting _ fault_blame _ _ _ _ _ _ _ Hrec)| | |].
    + by left.
    + intros [] fs Hs. by exists B.
    + intros fs [Hp|Hs]; exists B; (split; [done|]); [by right|by left].
Qed.

Lemma triple_recover_between : sd_Version cand = 2 → triple between recoverTransaction (λ _ fs, before fs ∨ after fs) between.
Proof.
  intros Hversion. pose proof (pm_home _ _ _ _ _ _ _ Hpm) as Hhome. pose proof (pm_idle _ _ _ _ _ _ _ Hpm) as Hidle.
  pose proof (pm_prev _ _ _ _ _ _ _ Hpm) as Hstore. apply triple_or.
  - eapply triple_weaken; [apply triple_recover_left|done|by left|by left].
  - apply triple_exists. intros B. apply triple_pure. intros HB. apply triple_pure. intros Hrec. apply triple_pure. intros Hl.
    apply triple_pure. intros Hla. apply triple_or.
    + eapply triple_weaken; [by apply (triple_recover_promoting _ fault_blame _ _ _ _ _ _ _ Hrec)| | |].
      * intros fs [Hp _]. by left.
      * intros [] fs Hs. left. by exists B.
      * intros fs [Hp|Hs]; left; exists B; (split; [done|]); [by right|by left].
    + eapply triple_weaken; [by apply (triple_recover_accepted _ fault_blame _ _ _ _ _ _ _ Hrec)|done| |].
      * intros [] fs Hs. right. by exists B.
      * intros fs Hf. right. exists B. split_and!; [done..|]. by right.
Qed.
End promote.

(** ** Properties *)
(** A recovery that did not complete, and the restart after it. *)
Definition restart (w w' : World) : Prop := ∃ o, recoverTransaction w = (o, w') ∧ o ≠ Done tt.

Section properties.
Context (fs0 : Fs) (prev cand : stateDocument) (maxBytes : Z) (staged : gmap string (list string)).
Local Abbreviation pn := (names_or_empty prev).
Local Abbreviation cn := (names_or_empty cand).
Context (Hpm : promotable fs0 prev cand maxBytes staged pn cn) (Hsure : ∀ t m n, faults t OpLstat ≠ Fails m n).
Context (Hversion : sd_Version cand = 2).

Lemma excuse (P : Prop) : True ∨ P.
Proof. by left. Qed.

Lemma restarts_between w w' :
  rtc restart w w' → between fs0 prev cand maxBytes staged (w_fs w) → between fs0 prev cand maxBytes staged (w_fs w').
Proof.
  induction 1 as [|w w1 w' (o & Hrun & Hne) _ IH]; [done|]. intros Hb. apply IH.
  pose proof (triple_recover_between True (λ _ _ _, I) _ _ _ _ _ Hpm Hversion w Hb) as Hrec.
  rewrite Hrun in Hrec. destruct o as [[]|e|]; [done|by destruct Hrec..].
Qed.


(** a promotion that is not accepted does not count.  Whether [promote]
    returns, fails or dies, what a recovery finds after it is rolled back to the
    files and the manifest from before. *)
Theorem promote_undone o w w1 w2 :
  w_fs w = fs0 → promote maxBytes prev cand staged w = (o, w1) → recoverTransaction w1 = (Done tt, w2) →
  before fs0 prev (w_fs w2).
Proof.
  intros Hw Hrun Hdone.
  assert (Hl : left_behind fs0 prev cand maxBytes staged (w_fs w1)).
  { pose proof (triple_promote True (λ _ _ _, I) _ _ _ _ _ Hpm (excuse _) Hsure w Hw) as Hu. rewrite Hrun in Hu.
    destruct o as [a|e|]; [|by destruct Hu..]. destruct Hu as (B & HB & _ & Hrec & Hl & Hp & _).
    exists B. split; [done|]. right. by split_and!. }
  pose proof (triple_recover_left True (λ _ _ _, I) _ _ _ _ _ Hpm w1 Hl) as Hrec. by rewrite Hdone in Hrec.
Qed.

(** Without faults an update of a good store to a good candidate goes
    through: it returns, with the candidate in place and accepted. *)
Theorem update_completes w :
  promising fs0 prev cand maxBytes staged pn cn → (∀ t k, faults t k = Fine) → w_fs w = fs0 →
  ∃ w', update prev cand maxBytes staged w = (Done tt, w') ∧ after fs0 prev cand maxBytes staged (w_fs w').
Proof.
  intros Hr Hfine Hw.
  pose proof (triple_update False (λ t k Hne, Hne (Hfine t k)) _ _ _ _ _ Hpm (or_intror Hr) Hsure w Hw) as Hu.
  destruct (update _ _ _ _ w) as [[[]|e|] w']; [|by destruct Hu..]. exists w'. by destruct Hu.
Qed.

End properties.
End atomicity.

(** ** A scenario
    A home with one database, updated to new bytes of it and a second one, with
    an environment that may stop the process at chosen steps. *)
Definition table_marshal {A} `{EqDecision A} (l : list A) (v : A) : result string (list ascii) :=
  match list_find (λ x, x = v) l with Some (i, _) => Ok (replicate (S i) "x"%char) | None => Err "unsupported value" end.

(** The codec of a few known documents. *)
#[refine] Definition table_codec {A} `{EqDecision A} (l : list A) : JsonCodec A := {|
  json_marshal := table_marshal l;
  json_decode data := match l !! pred (length data) with Some v => Ok (v, []) | None => Err "invalid document" end;
  json_next_value rest := NextEOF;
  json_plain v := true
|}.
Proof.
  intros v body _. unfold table_marshal. destruct (list_find _ l) as [[i x]|] eqn:E; [|done]. intros [= <-].
  apply list_find_Some in E as (Hi & -> & _). exists []. split; [|done]. cbn. by rewrite length_replicate, Hi.
Defined.

(** A journal and its acceptance. *)
Lemma table_accepts (x J : transactionJournal) body :
  tj_Phase x = "promoting" → tj_Phase J = "promoting" → table_marshal [x; with_phase x "accepted"] J = Ok body →
  table_marshal [x; with_phase x "accepted"] (with_phase J "accepted") = Ok (bytes_of "xx").
Proof.
  intros Hx HJ. unfold table_marshal at 1. destruct (list_find _ _) as [[i y]|] eqn:E; [|done]. intros _.
  apply list_find_Some in E as (Hi & -> & _). destruct i as [|[|i]]; cbn in Hi; simplify_eq.
  - unfold table_marshal. cbn [list_find]. rewrite decide_False; [|by intros Heq; apply (f_equal tj_Phase) in Heq; cbn in Heq; rewrite Hx in Heq].
    by rewrite decide_True.
Qed.

Definition hex_zeros (n : nat) : string := of_bytes (replicate n "0"%char).
Definition example_digest (body : list ascii) : string :=
  of_bytes (byte (48 + len body mod 10) :: replicate 63 "0"%char).
#[refine] Definition example_hash : GoHash := {| digest := example_digest |}.
Proof.
  intros body. unfold example_digest. rewrite slen_bytes. unfold hex_decodes. rewrite bytes_of_bytes. split; [done|].
  pose proof (Z.mod_pos_bound (len body) 10 ltac:(lia)) as Hm. cbn [hex_pairs replicate].
  replace (is_hex_digit (byte (48 + len body `mod` 10))) with true; [done|].
  unfold is_hex_digit, is_digit, in_range. rewrite code_byte by lia. symmetry. apply orb_true_iff. left. apply orb_true_iff. left.
  apply andb_true_iff. rewrite !Z.leb_le. lia.
Defined.
Definition example_parsers : RuleParsers :=
  {| yaml_payload _ := Ok []; parse_prefix _ := false; parse_addr _ := false; regexp_compiles _ := false |}.

Definition example_bytes (s : string) : list ascii := bytes_of s.
Definition example_state (body : string) : resourceState :=
  mkResourceState (example_digest (bytes_of body)) "" "" "" ResourceGeoIP FormatDAT "" 0 0.
Definition example_site : resourceState :=
  mkResourceState (example_digest (bytes_of "site")) "" "" "" ResourceGeoSite FormatDAT "" 0 0.
Definition example_prev : stateDocument := mkStateDocument 2 "" (hex_zeros 32) (Some {["geo" := example_state "old"]}).
Definition example_cand : stateDocument :=
  mkStateDocument 2 "" (hex_zeros 32) (Some (<["site" := example_site]> {["geo" := example_state "newer"]})).
Definition example_stage : list string := at_home (stageDirPrefix +:+ hex_zeros 32).
Definition example_staged : gmap string (list string) :=
  <["site" := example_stage ++ ["site"]]> {["geo" := example_stage ++ ["geo"]]}.
Definition example_dir : string := transactionDirPrefix +:+ hex_zeros 32.
Definition example_names (d : stateDocument) : gmap string string :=
  @names_or_empty example_hash d.
Definition example_journal : transactionJournal :=
  journal_of 64 example_prev example_cand (example_names example_prev) (example_names example_cand) example_dir.

Definition example_documents : JsonCodec stateDocument := table_codec [example_prev; example_cand].
Definition example_journals : JsonCodec transactionJournal :=
  table_codec [example_journal; with_phase example_journal "accepted"].

(** [stop t] is how the step at time [t] goes; directories get the same name. *)
#[refine] Definition example_os (stop : nat → op_kind → fault) : GoOs := {|
  faults := stop;
  temp_name t fs parent prefix := prefix;
  random_id t := hex_zeros 32
|}.
Proof.
  - intros. apply has_prefix_spec. exists "". apply bytes_of_inj. by rewrite bytes_of_app, app_nil_r.
  - done.
Defined.

Definition example_fs : Fs :=
  <[home := EDir]> (<[state_path := EFile (bytes_of "x")]> (<[at_home "geoip.dat" := EFile (bytes_of "old")]>
  (<[example_stage := EDir]> (<[example_stage ++ ["geo"] := EFile (bytes_of "newer")]>
  {[example_stage ++ ["site"] := EFile (bytes_of "site")]})))).

(** Whatever exists has its parents. *)
Definition rooted (fs : Fs) : bool :=
  forallb (λ '(q, _), forallb (λ n, bool_decide (is_Some (fs !! take n q))) (seq 0 (length q))) (map_to_list fs).
Lemma rooted_tree fs : rooted fs = true → ∀ p q, fs !! p = None → below p q = true → fs !! q = None.
Proof.
  intros Hr p q Hp Hbel. destruct (fs !! q) as [e|] eqn:Hq; [|done]. exfalso.
  unfold rooted in Hr. rewrite forallb_forall in Hr.
  assert (In (q, e) (map_to_list fs)) as Hin by by apply list_elem_of_In, elem_of_map_to_list.
  specialize (Hr _ Hin). cbn in Hr. rewrite forallb_forall in Hr. unfold below in Hbel. apply bool_decide_eq_true in Hbel.
  destruct (decide (length p < length q)%nat) as [Hlt|Hge].
  - specialize (Hr (length p)). rewrite Hbel in Hr. apply bool_decide_eq_true in Hr; [|apply in_seq; lia].
    rewrite Hp in Hr. by destruct Hr.
  - rewrite take_ge in Hbel by lia. congruence.
Qed.

Section scenario.
Context (stop : nat → op_kind → fault).
#[local] Existing Instance example_hash.
#[local] Existing Instance example_parsers.
#[local] Existing Instance example_documents.
#[local] Existing Instance example_journals.

Lemma example_promotable :
  promotable example_fs example_prev example_cand 64 example_staged (example_names example_prev) (example_names example_cand).
Proof.
  split.
  - by vm_compute.
  - by vm_compute.
  - apply rooted_tree. by vm_compute.
  - by vm_compute.
  - split_and!; [done|by vm_compute|]. exists (bytes_of "x"). split; by vm_compute.
  - split_and!; [done|by vm_compute|]. exists (bytes_of "xx"). split; by vm_compute.
  - done.
  - by vm_compute.
  - intros id path Hp. unfold example_staged in Hp. exists (stageDirPrefix +:+ hex_zeros 32).
    apply lookup_insert_Some in Hp as [[_ <-]|[_ Hp]]; [by eexists; split; [done|vm_compute]|].
    apply lookup_singleton_Some in Hp as [_ <-]. by eexists; split; [done|vm_compute].
  - done.
  - intros J body Hph Hm Hl. exists (bytes_of "xx"). split; [|by vm_compute].
    exact (table_accepts example_journal J body eq_refl Hph Hm).
Qed.

Lemma prev_resources : resources_of example_prev = {["geo" := example_state "old"]}.
Proof. done. Qed.
Lemma cand_resources : resources_of example_cand = <["site" := example_site]> {["geo" := example_state "newer"]}.
Proof. done. Qed.
Lemma example_ordered : ordered_names (example_names example_prev) (example_names example_cand) = ["geoip.dat"; "geosite.dat"].
Proof. by vm_compute. Qed.

Lemma example_promising :
  promising (H := example_os stop) example_fs example_prev example_cand 64 example_staged (example_names example_prev) (example_names example_cand).
Proof.
  split.
  - done.
  - done.
  - intros t. by vm_compute.
  - intros _ id s. rewrite prev_resources. intros [<- <-]%lookup_singleton_Some. exists (bytes_of "old"). split_and!; by vm_compute.
  - intros name. rewrite example_ordered. intros [->|[->|[]%not_elem_of_nil]%elem_of_cons]%elem_of_cons Hnone; [|by vm_compute].
    specialize (Hnone eq_refl). by vm_compute in Hnone.
  - intros id. rewrite cand_resources. unfold example_staged. by rewrite !lookup_insert_is_Some', !lookup_singleton_is_Some.
  - intros id s path. rewrite cand_resources. unfold example_staged. rewrite !lookup_insert_Some, !lookup_singleton_Some.
    intros [[<- <-]|[Hne [<- <-]]] [[Hid <-]|[_ [Hid <-]]]; try done.
    + exists (bytes_of "site"). split_and!; by vm_compute.
    + exists (bytes_of "newer"). split_and!; by vm_compute.
  - intros t. exists (bytes_of "x"). split; by vm_compute.
Qed.
End scenario.


(** The process dies at the given steps. *)
Definition dies_at (l : list nat) (t : nat) (k : op_kind) : fault := if existsb (Nat.eqb t) l then Crashes 0 else Fine.
Definition example_start : World := mkWorld 0 example_fs.

Lemma dies_sure l t m n : faults (GoOs := example_os (dies_at l)) t OpLstat ≠ Fails m n.
Proof. cbn. unfold dies_at. by destruct (existsb _ _). Qed.

(** A run by its outcome. *)
Lemma run_outcome {A} (r : outcome A * World) o : r.1 = o → r = (o, r.2).
Proof. by destruct r; cbn; intros ->. Qed.

#[local] Existing Instance example_hash.
#[local] Existing Instance example_parsers.
#[local] Existing Instance example_documents.
#[local] Existing Instance example_journals.

(** Once while the files are being replaced, and again in the first recovery. *)
Section twice.
Definition twice_os : GoOs := example_os (dies_at [50; 60]%nat).
#[local] Existing Instance twice_os.
Definition twice_update : outcome unit * World := update example_prev example_cand 64 example_staged example_start.

End twice.

Section once.
Definition once_os : GoOs := example_os (dies_at [50]%nat).
#[local] Existing Instance once_os.
Definition once_promote : outcome (list string) * World := promote 64 example_prev example_cand example_staged example_start.

Lemma promote_undone_witness : before example_fs example_prev (w_fs (recoverTransaction once_promote.2).2).
Proof.
  apply (promote_undone example_fs example_prev example_cand 64 example_staged example_promotable (dies_sure [50]%nat)
    Crashed example_start once_promote.2).
  - done.
  - apply run_outcome. by vm_compute.
  - apply run_outcome. by vm_compute.
Defined.

(** What it left behind. *)
Lemma once_between : between example_fs example_prev example_cand 64 example_staged (w_fs once_promote.2).
Proof.
  left. pose proof (@triple_promote once_os _ _ _ _ True (λ _ _ _, I) _ _ _ _ _ example_promotable (excuse _) (dies_sure [50]%nat)
    example_start eq_refl) as Hu. fold once_promote in Hu.
  rewrite (run_outcome once_promote Crashed) in Hu by by vm_compute. by destruct Hu.
Qed.
End once.

Section calm.
Definition calm_os : GoOs := example_os (dies_at []).
#[local] Existing Instance calm_os.

Lemma update_completes_witness :
  ∃ w', update example_prev example_cand 64 example_staged example_start = (Done tt, w') ∧
    after example_fs example_prev example_cand 64 example_staged (w_fs w').
Proof. apply update_completes; [apply example_promotable|apply (dies_sure [])|apply (example_promising (dies_at []))|done|done]. Defined.

End calm.

(** The home's directory cannot be synced after the journal's rename, and then
    the journal cannot be looked at. *)
Section stranded.
Definition stranding_os : GoOs :=
  example_os (λ t _, if (t =? 27)%nat || (t =? 29)%nat then Fails "input/output error" 0 else Fine).
#[local] Existing Instance stranding_os.
Definition stranded : outcome (list string) * World := promote 64 example_prev example_cand example_staged example_start.

(** The one way the journal can be stranded.  When the write of the journal
    fails after its rename and the look at the journal fails as well, [promote]
    removes its directory and keeps the journal: the files and the manifest are
    untouched, but every later recovery refuses, without changing anything. *)
Theorem promote_strands_journal :
  stranded.1 = Failed (EFs "input/output error") ∧
  w_fs stranded.2 !! journal_path ≠ None ∧ w_fs stranded.2 !! at_home example_dir = None ∧
  (∀ p, p ≠ journal_path → w_fs stranded.2 !! p = example_fs !! p) ∧
  (recoverTransaction stranded.2).1 = Failed (EFs "resources: transaction backup directory is unsafe") ∧
  w_fs (recoverTransaction stranded.2).2 = w_fs stranded.2.
Proof.
  assert (Hfs : w_fs stranded.2 = <[journal_path := EFile (bytes_of "x")]> example_fs) by (apply (bool_decide_unpack _); by vm_compute).
  split_and!; [by vm_compute| | | |by vm_compute|apply (bool_decide_unpack _); by vm_compute].
  - rewrite Hfs. by rewrite lookup_insert_eq.
  - rewrite Hfs. by vm_compute.
  - intros p Hp. rewrite Hfs. by rewrite lookup_insert_ne.
Qed.
End stranded.

Lemma validateJournal_complete_witness :
  NoDup (tf_Name <$> tj_Files example_journal) ∧ NoDup (backups (tj_Files example_journal)) ∧
  (∀ name, name ∈ tf_Name <$> tj_Files example_journal ↔
    is_Some (example_names example_prev !! name) ∨ is_Some (example_names example_cand !! name)) ∧
  ∀ f, f ∈ tj_Files example_journal → file_agrees example_journal f.
Proof. apply (validateJournal_complete example_journal); by vm_compute. Defined.
