(* ===== verification/ResourceMetadata.v ===== *)
(** * Promotion of a manifest alone

    [promoteMetadata] replaces the manifest when the files stay as they are: its
    journal has no files, and ends in the same states as [promote]'s. *)
From Stdlib Require Import Ascii.
From S2P Require Import Prelude GoStrings GoSort GoJson GoFs ConfigTypes ResourceValidate ResourceStore ResourceTransaction FsLogic ResourceStoreFacts ResourceJournal ResourceStates ResourceRecovery ResourcePromote ResourceAtomicity.
Open Scope Z_scope.

(** ** What the validator of the journal says of it *)
Section unchanged.
Context `{GoHash} `{RuleParsers}.

Definition meta_journal (maxBytes : Z) (prev cand : stateDocument) (B : string) : transactionJournal :=
  mkTransactionJournal 1 "promoting" B maxBytes prev cand true [].

(** The same entries up to their hashes and declarations. *)
Definition same_entries (prev cand : gmap string resourceState) : Prop :=
  ∀ id, match prev !! id, cand !! id with
        | Some s, Some s' => rst_SHA256 s = rst_SHA256 s' ∧ sameResourceState s s' = true
        | None, None => True
        | _, _ => False
        end.

Lemma same_state_filename id s s' : sameResourceState s s' = true → resource_at id s = resource_at id s'.
Proof.
  unfold sameResourceState, resource_at. rewrite !andb_true_iff, !streq_true. by intros [[-> ->] ->].
Qed.

(** A dictionary as large as one it contains is no larger. *)
Lemma same_size_dom (m m' : gmap string string) :
  size m = size m' → (∀ k, is_Some (m !! k) → is_Some (m' !! k)) → ∀ k, is_Some (m' !! k) → is_Some (m !! k).
Proof.
  intros Hs Hsub k Hk. rewrite <- !elem_of_dom in *. rewrite <- !(size_dom (D := gset string)) in Hs.
  assert (dom m ⊆ dom m') as Hd by (intros x; rewrite !elem_of_dom; apply Hsub).
  destruct (decide (k ∈ dom m)) as [|Hn]; [done|]. exfalso.
  assert (dom m ⊂ dom m') as Hlt%subset_size by set_solver. lia.
Qed.

Lemma check_unchanged_ok j names name id :
  is_ok (check_unchanged j names (name, id)) = true ↔
  ∃ s s', names !! name = Some id ∧ resources_of (tj_Previous j) !! id = Some s ∧ resources_of (tj_Candidate j) !! id = Some s' ∧
    rst_SHA256 s = rst_SHA256 s' ∧ sameResourceState s s' = true.
Proof.
  unfold check_unchanged. split.
  - destruct (names !! name) as [cid|]; [|done]. destruct (_ !! id) as [s|] eqn:Es; [|done]. destruct (_ !! cid) as [s'|] eqn:Es'; [|done].
    destruct (_ || _) eqn:E; [done|]. intros _. repeat (apply orb_false_iff in E as [E ?]). go_bool.
    repeat match goal with Hq : streq _ _ = true |- _ => apply streq_true in Hq end. subst cid. by exists s, s'.
  - intros (s & s' & -> & -> & -> & Hsha & Hd). by rewrite Hsha, !streq_refl, Hd.
Qed.

Lemma resources_names d names id s :
  names_exact d names → resources_of d !! id = Some s → names !! resourceFilename id s = Some id.
Proof. intros Hn Hs. apply Hn. by exists s. Qed.

(** The validator accepts exactly the manifests with the same entries. *)
Lemma meta_journal_valid maxBytes prev cand B :
  0 < maxBytes → validPrivateDir B = true → has_prefix B transactionDirPrefix = true →
  validateStateDocument prev = Ok tt → validateStateDocument cand = Ok tt → sd_Version prev = 2 → sd_Version cand = 2 →
  (validateJournal (meta_journal maxBytes prev cand B) = Ok tt ↔ same_entries (resources_of prev) (resources_of cand)).
Proof.
  intros Hmax HB HBp Hpv Hcv Hp2 Hc2. unfold validateJournal.
  cbn [meta_journal tj_Version tj_Phase tj_BackupDir tj_MaxBytes tj_Previous tj_Candidate tj_MetadataOnly tj_Files].
  change (str_in "promoting" _) with true.
  rewrite HB, HBp, (proj2 (Z.leb_gt _ _) Hmax), Hpv, Hcv, Hp2, Hc2. cbn -[map_to_list].
  destruct (valid_names _ Hpv) as [pn Hpn], (valid_names _ Hcv) as [cn Hcn]. unfold names_or_empty. rewrite Hpn, Hcn.
  apply manifestNames_exact in Hpn, Hcn.
  assert (Hsub : same_entries (resources_of prev) (resources_of cand) → ∀ name id, pn !! name = Some id ↔ cn !! name = Some id).
  { intros Hsame name id. rewrite (Hpn name id), (Hcn name id). specialize (Hsame id). split; intros (s & Hs & ->); rewrite Hs in Hsame.
    - destruct (resources_of cand !! id) as [s'|]; [|done]. exists s'. split; [done|]. unfold resourceFilename.
      by rewrite (same_state_filename id s s') by apply Hsame.
    - destruct (resources_of prev !! id) as [s'|]; [|done]. exists s'. split; [done|]. unfold resourceFilename.
      by rewrite (same_state_filename id s' s) by apply Hsame. }
  split.
  - destruct (bool_decide (size pn = size cn)) eqn:Hsz; [|done]. go_bool. cbn -[map_to_list]. rewrite each_ok. intros Hall.
    assert (Hpc : ∀ name id, pn !! name = Some id → is_ok (check_unchanged (meta_journal maxBytes prev cand B) cn (name, id)) = true).
    { intros name id Hid. apply Hall. by apply elem_of_map_to_list. }
    intros id. destruct (resources_of prev !! id) as [s|] eqn:Es.
    + pose proof (resources_names _ _ _ _ Hpn Es) as Hname. apply Hpc, check_unchanged_ok in Hname as (s0 & s' & _ & Hs0 & Hs' & ?).
      cbn [meta_journal tj_Previous tj_Candidate] in Hs0, Hs'. rewrite Es in Hs0. injection Hs0 as <-. by rewrite Hs'.
    + destruct (resources_of cand !! id) as [s'|] eqn:Es'; [|done].
      pose proof (resources_names _ _ _ _ Hcn Es') as Hname.
      destruct (same_size_dom pn cn Hsz) with (k := resourceFilename id s') as [pid Hpid].
      * intros k [x Hx]. apply Hpc, check_unchanged_ok in Hx as (? & ? & Hx & _). eauto.
      * eauto.
      * pose proof Hpid as Hx. apply Hpc, check_unchanged_ok in Hx as (s0 & s1 & Hx & Hs0 & _).
        rewrite Hname in Hx. injection Hx as <-. cbn [meta_journal tj_Previous] in Hs0. congruence.
  - intros Hsame. rewrite bool_decide_eq_true_2.
    + cbn -[map_to_list]. apply each_ok. intros [name id] Hin%elem_of_map_to_list. apply check_unchanged_ok.
      cbn [meta_journal tj_Previous tj_Candidate]. pose proof Hin as Hc%(Hsub Hsame). pose proof (Hsame id) as Hid.
      apply Hpn in Hin as (s & Hs & ->). rewrite Hs in Hid. destruct (resources_of cand !! id) as [s'|]; [|done]. by exists s, s'.
    + f_equal. apply map_eq. intros name. apply option_eq. apply Hsub, Hsame.
Qed.
End unchanged.

(** ** A transaction of either kind *)
Section either.
Context `{GoOs} `{GoHash} `{RuleParsers} `{JsonCodec stateDocument} `{JsonCodec transactionJournal}.
Context (fs0 : Fs) (prev cand : stateDocument) (maxBytes : Z).

(** A journal that undoes or accepts what it describes. *)
Record transaction (B : string) (J : transactionJournal) (new : string → option entry) : Prop := {
  tx_recorded : recorded fs0 prev cand maxBytes new B J;
  tx_phase : tj_Phase J = "promoting";
  tx_legible : legible J;
  tx_accepted : legible (with_phase J "accepted");
  tx_names : ∀ f, f ∈ tj_Files J → is_Some (names_or_empty prev !! tf_Name f) ∨ is_Some (names_or_empty cand !! tf_Name f)
}.

(** Promoted under a journal, in the given directory. *)
Definition in_flight (dir : list string) (fs : Fs) : Prop :=
  ∃ B J new, transaction_dir B ∧ dir = at_home B ∧ transaction B J new ∧ committed fs0 prev cand maxBytes new B J fs.
(** As before, or to be undone. *)
Definition unfinished (fs : Fs) : Prop :=
  ∃ B, transaction_dir B ∧
    (settled fs0 prev B fs ∨ ∃ J new, transaction B J new ∧ pending fs0 prev cand new B J fs).

Section files.
Context (staged : gmap string (list string)).
Context (Hpm : promotable fs0 prev cand maxBytes staged (names_or_empty prev) (names_or_empty cand)).
Local Abbreviation J B := (journal_of maxBytes prev cand (names_or_empty prev) (names_or_empty cand) B).
Local Abbreviation new := (new_of fs0 (staged_paths cand staged)).

Lemma files_transaction B :
  recorded fs0 prev cand maxBytes new B (J B) → legible (J B) → transaction B (J B) new.
Proof.
  intros Hrec Hl. split; [done|done|done| |].
  { by eapply accepted_legible. }
  intros f (i & name & Hi & ->)%elem_of_files. rewrite file_of_name. rewrite <- elem_of_ordered. by eapply list_elem_of_lookup_2.
Qed.

Lemma in_place_in_flight dir fs : in_place fs0 prev cand maxBytes staged dir fs → in_flight dir fs.
Proof.
  intros (B & HB & -> & Hrec & Hl & Hc). exists B, (J B), new. split_and!; [done|done| |done]. by apply files_transaction.
Qed.
Lemma left_unfinished fs : left_behind fs0 prev cand maxBytes staged fs → unfinished fs.
Proof.
  intros (B & HB & Hu). exists B. split; [done|]. destruct Hu as [Hs|(Hrec & Hl & Hp)]; [by left|].
  right. exists (J B), new. split; [|done]. by apply files_transaction.
Qed.
End files.

(** What every interrupted promotion leaves, a recovery undoes. *)
Lemma triple_recover_unfinished :
  fs0 !! home = Some EDir → fs0 !! journal_path = None → storable prev →
  triple True unfinished recoverTransaction (λ _, before fs0 prev) unfinished.
Proof.
  intros Hhome Hidle Hstore. apply triple_exists. intros B. apply triple_pure. intros HB. apply triple_or.
  - eapply triple_weaken; [apply (triple_recover_absent True (λ _ _ _, I) (settled fs0 prev B))|done| |].
    + intros fs [Hs _]. rewrite Hs; [done|apply journal_not_temp| |done]. by apply (outside_named B (proj2 HB)).
    + intros [] fs Hs. by exists B.
    + intros fs Hs. exists B. split; [done|]. by left.
  - apply triple_exists. intros J. apply triple_exists. intros new. apply triple_pure. intros Htx. pose proof Htx as [Hrec Hph Hl Hla _].
    eapply triple_weaken; [by apply (triple_recover_promoting True (λ _ _ _, I) _ _ _ _ _ _ _ Hrec)| | |].
    + by left.
    + intros [] fs Hs. by exists B.
    + intros fs [Hp|Hs]; exists B; (split; [done|]); [right; by exists J, new|by left].
Qed.

(** ** [promoteMetadata] *)
Section metadata.
Context (Hpm : promotable fs0 prev cand maxBytes ∅ (names_or_empty prev) (names_or_empty cand)).
Context (Hprev2 : sd_Version prev = 2) (Hcand2 : sd_Version cand = 2).

Definition nothing_new (name : string) : option entry := None.

Lemma meta_transaction B :
  transaction_dir B → validateJournal (meta_journal maxBytes prev cand B) = Ok tt →
  (∃ fs, journal_is (meta_journal maxBytes prev cand B) fs) → transaction B (meta_journal maxBytes prev cand B) nothing_new.
Proof.
  intros [HB HBp] Hv [fs Hj].
  assert (Hrec : recorded fs0 prev cand maxBytes nothing_new B (meta_journal maxBytes prev cand B)).
  { split; try done. intros f Hf. by apply not_elem_of_nil in Hf. }
  assert (Hl : legible (meta_journal maxBytes prev cand B)) by (by eapply journal_legible).
  split; [done|done|done|by eapply accepted_legible|]. intros f Hf. by apply not_elem_of_nil in Hf.
Qed.

Lemma same_entries_files fs : same_entries (resources_of prev) (resources_of cand) → files_ok maxBytes prev fs → files_ok maxBytes cand fs.
Proof.
  intros Hsame Hok id s Hs. specialize (Hsame id). rewrite Hs in Hsame.
  destruct (resources_of prev !! id) as [s0|] eqn:Es0; [|done]. destruct Hsame as [Hsha Hst].
  destruct (Hok id s0 Es0) as (body & Hb & Hl & Hd & Hv). exists body. unfold resourceFilename in *.
  rewrite <- (same_state_filename id s0 s Hst), <- Hsha. done.
Qed.

Section directory.
Context (B : string) (HB : transaction_dir B).
Local Abbreviation J := (meta_journal maxBytes prev cand B).
Context (Hrec : recorded fs0 prev cand maxBytes nothing_new B J) (Hvalid : validateJournal J = Ok tt).
Local Abbreviation pending := (pending fs0 prev cand nothing_new B J).
Local Abbreviation clean := (clean fs0 B).

Lemma clean_unfinished fs : clean fs → unfinished fs.
Proof. intros Hc. exists B. split; [done|]. left. exact (clean_settled _ _ _ _ _ _ _ Hpm B (proj2 HB) fs Hc). Qed.
Lemma pending_unfinished fs : pending fs → unfinished fs.
Proof.
  intros Hp. exists B. split; [done|]. right. exists J, nothing_new. split; [|done].
  apply meta_transaction; [done|done|]. exists fs. apply Hp.
Qed.
Lemma undoing_unfinished fs : undoing fs0 prev cand nothing_new B J fs → unfinished fs.
Proof. intros [Hp|Hs]; [by apply pending_unfinished|]. exists B. split; [done|]. by left. Qed.

(** The journal gives the manifest's bytes a meaning: the files are already right. *)
Definition vouched (fs : Fs) : Prop := pending fs ∧ files_ok maxBytes cand fs.

Lemma pending_vouched fs : files_ok maxBytes cand fs0 → pending fs → vouched fs.
Proof.
  intros Hok Hp. split; [done|]. intros id s Hs. destruct (Hok id s Hs) as (body & Hb & ?). exists body. split; [|done].
  rewrite <- Hb. pose proof (resourceFilename_plain id s) as Hpl. apply (pe_untouched _ _ _ _ _ _ _ Hp).
  - by apply plain_not_temp.
  - apply plain_below; [apply HB|done].
  - intros [= Heq]. unfold plain_name in Hpl. by rewrite Heq in Hpl.
  - intros [= Heq]. unfold plain_name in Hpl. by rewrite Heq in Hpl.
  - intros (f & Hf & _). by apply not_elem_of_nil in Hf.
Qed.

Lemma vouched_committed fs body :
  vouched fs → json_marshal cand = Ok body → len body ≤ maxStateBytes →
  committed fs0 prev cand maxBytes nothing_new B J (put state_path (Some (EFile body)) fs).
Proof.
  intros [Hp Hok] Hm Hl.
  assert (Hp' : pending (put state_path (Some (EFile body)) fs)).
  { apply (pending_put_state _ _ _ _ _ _ _ Hrec _ _ cand); [done|by right|apply Hpm|done|done]. }
  split; [done|]. split_and!; [apply Hp'| | |apply state_of_written; [apply Hpm|done|done]].
  - intros f Hf. by apply not_elem_of_nil in Hf.
  - intros id s Hs. destruct (Hok id s Hs) as (b & Hb & ?). exists b. split; [|done].
    refine (eq_trans (put_ne _ _ _ _ _) Hb). intros [= Heq]. pose proof (resourceFilename_plain id s) as Hpl.
    unfold plain_name in Hpl. by rewrite <- Heq in Hpl.
Qed.

Lemma triple_write_manifest :
  triple True vouched (writeStateAtomic state_path home cand) (λ _, committed fs0 prev cand maxBytes nothing_new B J) pending.
Proof.
  assert (Hpb : blind pending) by by apply pending_blind with (maxBytes := maxBytes).
  assert (Hvb : blind vouched) by (by apply blind_and; [|apply files_ok_blind]).
  assert (Hcb : blind (committed fs0 prev cand maxBytes nothing_new B J)) by by apply committed_blind.
  apply (triple_writeStateAtomic True (λ _ _ _, I)).
  - by apply blind_stable; [|apply state_temp].
  - by apply blind_stable; [|apply state_temp].
  - by apply blind_stable; [|apply state_temp].
  - intros fs [Hp _]. eapply home_dir; [apply Hpm|done].
  - intros fs [Hp _]. destruct (pe_state _ _ _ _ _ _ _ Hp) as [Hs|Hs]; by eapply state_of_file.
  - by left.
  - intros fs body. apply vouched_committed.
  - by intros fs [? _].
  - by intros fs [? _].
Qed.

Lemma triple_metadata_journalled (m : IO (list string)) :
  m = (written ← attempt (writeJSONAtomic journal_path home J);
      match written with
      | Err cause =>
          there ← attempt (lstat journal_path);
          (match there with
           | Err e => if os_IsNotExist e then attempt (remove_all (at_home B)) ≫= λ _, mret tt else mret tt
           | Ok _ => mret tt
           end) ≫= λ _, throw cause
      | Ok _ =>
          done ← attempt (writeStateAtomic state_path home cand);
          match done with
          | Err cause => failPromotion journal_path (at_home B) cause
          | Ok _ => mret (at_home B)
          end
      end) →
  files_ok maxBytes cand fs0 →
  triple True (λ fs, clean fs ∧ fs !! at_home B = Some EDir) m in_flight unfinished.
Proof.
  intros -> Hok.
  assert (Hcp : ∀ fs, clean fs ∨ pending fs → unfinished fs).
  { intros fs [Hc|Hp]; [by apply clean_unfinished|by apply pending_unfinished]. }
  eapply triple_bind.
  { eapply triple_weaken; [apply triple_attempt; by apply (triple_write_journal True (λ _ _ _, I) _ _ _ _ _ _ _ Hpm B (proj2 HB) J nothing_new Hrec (or_introl I))| | |exact Hcp].
    - intros fs [Hc Hd]. split; [done|]. split; [done|]. intros f Hf. by apply not_elem_of_nil in Hf.
    - intros r fs Hr. exact Hr. }
  intros [[]|cause]; cbn beta iota.
  - eapply triple_bind.
    { eapply triple_weaken; [apply triple_attempt, triple_write_manifest| | |apply pending_unfinished].
      - intros fs. by apply pending_vouched.
      - intros r fs Hr. exact Hr. }
    intros [[]|cause]; cbn beta iota.
    + apply triple_ret. intros fs Hc. exists B, J, nothing_new. split_and!; [done|done| |done].
      apply meta_transaction; [done|done|]. exists fs. apply Hc.
    + eapply triple_weaken; [by apply (@triple_failPromotion _ _ _ _ True (λ _ _ _, I) _ _ _ _ _ _ _ Hpm B J nothing_new Hrec Hvalid _ cause)| | |apply undoing_unfinished].
      * intros fs [Hp _]. by split.
      * intros a fs Ha. exact Ha.
  - eapply triple_bind.
    { apply (triple_lstat True (λ _ _ _, I) _ (λ fs, (clean fs ∨ pending fs) ∧ True)). intros fs [Hc _]. by apply Hcp. }
    assert (Hrest : ∀ m : IO unit, triple True (λ fs, clean fs ∨ pending fs) m (λ _ fs, clean fs ∨ pending fs) (λ fs, clean fs ∨ pending fs) →
      triple True (λ fs, clean fs ∨ pending fs) (m ≫= λ _, throw (A := list string) cause) in_flight unfinished).
    { intros m Hm. eapply triple_bind; [eapply triple_weaken; [exact Hm|done|intros a fs Ha; exact Ha|exact Hcp]|].
      intros []. apply triple_throw. intros fs Hc. split; [by apply Hcp|done]. }
    intros [e|e]; cbn beta iota.
    + eapply triple_pre; [apply Hrest; by apply triple_ret|]. by intros fs [[? _] _].
    + destruct (os_IsNotExist e) eqn:Ee.
      * eapply triple_pre with (P' := clean).
        2: { intros fs [[[Hc|Hp] _] [[Hn _]|[_ ?]]]; [done|congruence| |congruence].
             destruct (pe_journal _ _ _ _ _ _ _ Hp) as (body & Hb & _). pose proof (eq_trans (eq_sym Hb) Hn) as [=]. }
        eapply (triple_bind _ _ _ _ (λ _, clean)).
        { apply triple_ignore with (P := clean) (X := unfinished); [|apply clean_unfinished|].
          - apply (triple_remove_all True (λ _ _ _, I)). by apply (clean_stable fs0 B (proj1 HB) (proj2 HB)).
          - intros r. by apply triple_ret. }
        intros []. apply triple_throw. intros fs Hc. split; [by apply clean_unfinished|done].
      * eapply triple_pre; [apply Hrest; by apply triple_ret|]. by intros fs [[? _] _].
Qed.
End directory.

Lemma start_unfinished fs : fs = fs0 → unfinished fs.
Proof.
  intros ->. exists (transactionDirPrefix +:+ random_id 0). split; [apply transaction_dir_random|]. left.
  by split; [|apply Hpm].
Qed.

Lemma triple_promoteMetadata :
  triple True (λ fs, fs = fs0) (promoteMetadata maxBytes prev cand) in_flight unfinished.
Proof.
  unfold promoteMetadata. pose proof (prev_valid _ _ _ _ _ _ _ Hpm) as Hpv. pose proof (cand_valid _ _ _ _ _ _ _ Hpm) as Hcv.
  eapply triple_bind.
  { eapply triple_weaken; [apply (triple_verifyManifestFiles True (λ _ _ _, I) prev maxBytes (λ fs, fs = fs0)); by left|done| |apply start_unfinished].
    intros a fs Ha. exact Ha. }
  intros []. apply (triple_pre _ _ (λ fs, files_ok maxBytes prev fs0 ∧ fs = fs0)); [|by intros fs [-> ?]].
  apply triple_pure. intros Hok. eapply triple_bind.
  { eapply triple_weaken; [apply (triple_makePrivateDir True (λ _ _ _, I) _ _ _ _ _ Hpm (or_introl I))|done| |apply start_unfinished].
    intros a fs Ha. exact Ha. }
  intros dir. apply triple_exists. intros B. apply triple_pure. intros (HB & HBt & ->).
  apply (triple_pre _ _ (λ fs, clean fs0 B fs ∧ fs !! at_home B = Some EDir)); [|by intros fs (? & ? & _)].
  rewrite !valid_clone by done. change (base_of (at_home B)) with B. fold (meta_journal maxBytes prev cand B).
  destruct (validateJournal (meta_journal maxBytes prev cand B)) as [[]|e] eqn:Hv.
  - apply (triple_metadata_journalled B HB); [|done|done|].
    + split; try done; [apply HB|]. intros f Hf. by apply not_elem_of_nil in Hf.
    + apply same_entries_files; [|done]. apply (meta_journal_valid maxBytes _ _ B); try done; [apply Hpm|apply HB|apply HB].
  - eapply triple_pre; [|by intros fs [Hc _]; exact Hc]. apply triple_ignore with (P := clean fs0 B).
    + apply (triple_remove_all True (λ _ _ _, I)). by apply (clean_stable fs0 B (proj1 HB) (proj2 HB)).
    + by apply clean_unfinished.
    + intros r. apply triple_throw. intros fs Hc. split; [by apply (clean_unfinished B)|done].
Qed.
End metadata.
End either.
