(* ===== verification/ResourceCommit.v ===== *)
(** * A plan's commit, its undoing and its acceptance

    [Commit], [Rollback] and [Finalize] on the files: either kind of promotion
    behind them, their failures at every point, and recovery after those. *)
From Stdlib Require Import Ascii.
From S2P Require Import Prelude GoStrings GoNet GoSort GoJson GoFs ConfigTypes Download ResourceValidate ResourceStore ResourceTransaction ResourceRegistry ResourcePlan ResourcePlanLife FsLogic ResourceStoreFacts ResourceJournal ResourceStates ResourceRecovery ResourcePromote ResourceAtomicity ResourceMetadata.
Open Scope Z_scope.

(** A method's work on the files, with what it leaves when it fails. *)
Lemma io_triple {S A : Type} (P : Fs → Prop) (m : IO A) (Q : A → Fs → Prop) (X : Fs → Prop) (s : S) w :
  triple True P m Q X → P (w_fs w) →
  match io m s w with
  | (Done (Ok a, s'), w') => s' = s ∧ Q a (w_fs w')
  | (Done (Err _, s'), w') => s' = s ∧ X (w_fs w')
  | (Failed _, _) => False
  | (Crashed, w') => X (w_fs w')
  end.
Proof.
  intros Hm Hw. specialize (Hm w Hw). unfold io, io_as, mbind, io_bind, attempt. destruct (m w) as [[a|e|] w']; cbn; [done| |]; by destruct Hm.
Qed.

Section commit.
Context `{GoOs} `{GoHash} `{RuleParsers} `{JsonCodec stateDocument} `{JsonCodec transactionJournal}.

Lemma read_only_verifyStagedFiles p : read_only (verifyStagedFiles p).
Proof.
  unfold verifyStagedFiles. apply read_only_bind; [looks|]. intros []. apply read_only_bind.
  - case_bool_decide; looks.
  - intros []. apply read_only_for_each. intros _ [id path]. unfold verify_staged. looks.
Qed.
Lemma read_only_check_idle : read_only check_idle.
Proof. unfold check_idle. looks. Qed.
Lemma read_only_check_own_manifest p msg : read_only (check_own_manifest p msg).
Proof. unfold check_own_manifest. looks. Qed.
Lemma read_only_readTransaction path : read_only (readTransaction path).
Proof. unfold readTransaction. looks. Qed.
Lemma read_only_own_transaction p dir : read_only (own_transaction p dir).
Proof. unfold own_transaction. apply read_only_bind; [apply read_only_readTransaction|]. intros [j d]. looks. Qed.

(** ** Committing *)
Section plan.
Context (r : Registry) (p : Plan) (fs0 : Fs) (prev : stateDocument).
Local Abbreviation cand t := (commit_document p (random_id t)).
Local Abbreviation maxBytes := (rg_maxBytes r).

(** What a commit may count on: [promotable], for the staged files if there are any. *)
Definition committable : Prop :=
  (∀ t, promotable fs0 prev (cand t) maxBytes (if pl_changed p then pl_paths p else ∅) (names_or_empty prev) (names_or_empty (cand t))) ∧
  sd_Version (pl_base p) = 2 ∧ ∀ t m n, faults t OpLstat ≠ Fails m n.
Context (Hready : committable).

Definition unfinished_commit (fs : Fs) : Prop := ∃ t, unfinished fs0 prev (cand t) maxBytes fs.

Lemma start_unfinished_commit fs : fs = fs0 → unfinished_commit fs.
Proof.
  intros ->. exists O. exists (transactionDirPrefix +:+ random_id 0). split; [apply transaction_dir_random|]. left.
  split; [done|apply (proj1 Hready O)].
Qed.

Lemma triple_promotion t :
  sd_Version prev = 2 →
  triple True (λ fs, fs = fs0)
    (if pl_changed p then promote maxBytes prev (cand t) (pl_paths p) else promoteMetadata maxBytes prev (cand t))
    (in_flight fs0 prev (cand t) maxBytes) (unfinished fs0 prev (cand t) maxBytes).
Proof.
  intros Hprev2. destruct Hready as (Hpm & Hbase & Hsure). specialize (Hpm t). destruct (pl_changed p).
  - eapply triple_weaken; [apply (triple_promote True (λ _ _ _, I) _ _ _ _ _ Hpm (or_introl I) Hsure)|done| |].
    + intros dir fs. by apply in_place_in_flight.
    + intros fs. by apply left_unfinished.
  - by apply triple_promoteMetadata.
Qed.

Lemma triple_commit_files :
  triple True (λ fs, fs = fs0) (commit_files r p)
    (λ '(id, dir) fs, ∃ t, id = random_id t ∧ in_flight fs0 prev (cand t) maxBytes dir fs) unfinished_commit.
Proof.
  unfold commit_files. pose proof Hready as (Hpm & Hbase & _).
  eapply triple_bind; [apply triple_read_only; [apply read_only_verifyStagedFiles|apply start_unfinished_commit]|]. intros [].
  eapply triple_bind; [apply triple_read_only; [apply read_only_check_idle|apply start_unfinished_commit]|]. intros [].
  eapply triple_bind.
  { eapply triple_weaken; [apply (triple_loadStateFile True (λ _ _ _, I) prev (λ fs, fs = fs0))|done| |apply start_unfinished_commit].
    - intros fs ->. apply (Hpm O).
    - intros d fs Hd. exact Hd. }
  intros current. apply triple_pure. intros ->. eapply triple_bind.
  { apply (triple_refuse _ _ _ _ (λ _ fs, sd_Version prev = 2 ∧ fs = fs0)).
    - intros fs -> Hs. go_bool. unfold same_manifest in Hs. apply andb_true_iff in Hs as [Hs _]. go_bool. split; [congruence|done].
    - intros _ fs ->. split; [by apply start_unfinished_commit|done]. }
  intros []. apply triple_pure. intros Hprev2. eapply triple_bind.
  { eapply triple_weaken; [apply triple_wrap, (triple_random True (λ _ _ _, I) (λ fs, fs = fs0) (λ fs, fs = fs0)); done|done| |apply start_unfinished_commit].
    intros id fs Ha. exact Ha. }
  intros id. apply (triple_pre _ _ (λ fs, ∃ t, id = random_id t ∧ fs = fs0)); [|intros fs [? [t ?]]; by exists t].
  apply triple_exists. intros t. apply triple_pure. intros ->. eapply triple_bind.
  { eapply triple_weaken; [by apply (triple_promotion t)|done| |intros fs Hu; by exists t]. intros dir fs Ha. exact Ha. }
  intros dir. apply triple_ret. intros fs Hf. by exists t.
Qed.

(** The session a commit leaves. *)
Definition committed_session (s : Session) (dir : list string) (id : string) : Session :=
  mkSession (with_active (ss_registry s) (commit_document p id)) (Some (set_committed p dir id (stable_paths (pl_resources p)))).

Lemma commit_spec s w :
  s = mkSession r (Some p) → w_fs w = fs0 →
  match Commit s w with
  | (Done (Ok paths, s'), w') => paths = stable_paths (pl_resources p) ∧
      ∃ t dir, s' = committed_session s dir (random_id t) ∧ in_flight fs0 prev (cand t) maxBytes dir (w_fs w')
  | (Done (Err _, s'), w') => s' = s ∧ unfinished_commit (w_fs w')
  | (Failed _, _) => False
  | (Crashed, w') => unfinished_commit (w_fs w')
  end.
Proof.
  intros -> Hw. unfold Commit. change ((the_plan ≫= ?k) (mkSession r (Some p)) w) with (k p (mkSession r (Some p)) w). cbn beta.
  destruct (pl_closed p || pl_committed p || pl_rolledBack p).
  { split; [done|]. by apply start_unfinished_commit. }
  rewrite demand_met. destruct (pl_validated p); [|split; [done|]; by apply start_unfinished_commit].
  cbn [negb]. change ((the_registry ≫= ?k) (mkSession r (Some p)) w) with (k r (mkSession r (Some p)) w). cbn beta.
  pose proof (io_triple _ _ _ _ (mkSession r (Some p)) w triple_commit_files Hw) as Hio.
  unfold mbind at 1, op_bind at 1, mbind at 1, io_bind at 1. destruct (io _ _ w) as [[[[[id dir]|e] s']|e|] w']; [|done..].
  destruct Hio as [-> (t & -> & Hf)]. cbn. split; [done|]. by exists t, dir.
Qed.
End plan.

(** ** After the commit *)
Section flight.
Context (p : Plan) (fs0 : Fs) (prev cand : stateDocument) (maxBytes : Z) (dir : list string).
Context (Hdir : pl_transactionDir p = Some dir).
Local Abbreviation in_flight := (in_flight fs0 prev cand maxBytes dir).
Local Abbreviation unfinished := (unfinished fs0 prev cand maxBytes).

Lemma flight_unfinished fs : in_flight fs → unfinished fs.
Proof. intros (B & J & new & HB & _ & Htx & [Hp _]). exists B. split; [done|]. right. by exists J, new. Qed.

(** The journal on disk is the one of the transaction at hand. *)
Lemma triple_own_transaction B J new (P : Fs → Prop) :
  dir = at_home B → transaction fs0 prev cand maxBytes B J new →
  (∀ fs, P fs → journal_is J fs ∧ fs !! at_home B = Some EDir) →
  triple True P (own_transaction p dir) (λ j fs, j = J ∧ P fs) P.
Proof.
  intros -> [Hrec _ Hl _ _] HP. unfold own_transaction. eapply triple_bind.
  { by apply (triple_readTransaction True (λ _ _ _, I) J B P); [|apply Hrec|]. }
  intros [j d]. apply triple_pure. intros [= -> ->]. eapply triple_bind.
  { apply (triple_refuse _ _ _ _ (λ _, P)); [done|]. by intros _ fs HPfs. }
  intros []. by apply triple_ret.
Qed.

Lemma triple_rollback_files :
  fs0 !! home = Some EDir → fs0 !! journal_path = None → storable prev →
  triple True in_flight (rollback_files p) (λ _, before fs0 prev) unfinished.
Proof.
  intros Hhome Hidle Hstore. unfold rollback_files. rewrite Hdir. eapply triple_bind.
  { apply triple_read_only; [apply read_only_check_own_manifest|apply flight_unfinished]. }
  intros []. apply triple_exists. intros B. apply triple_exists. intros J. apply triple_exists. intros new.
  apply triple_pure. intros HB. apply triple_pure. intros HdB. apply triple_pure. intros Htx.
  assert (Hun : ∀ fs, committed fs0 prev cand maxBytes new B J fs → unfinished fs).
  { intros fs Hc. apply flight_unfinished. by exists B, J, new. }
  eapply triple_bind.
  { eapply triple_weaken; [apply (triple_own_transaction B J new (committed fs0 prev cand maxBytes new B J) HdB Htx)|done| |exact Hun].
    - intros fs [Hp _]. split; apply Hp.
    - intros j fs Hj. exact Hj. }
  intros j. apply triple_pure. intros ->. rewrite HdB.
  eapply triple_weaken; [by apply (triple_restoreTransaction True (λ _ _ _, I) _ _ _ _ _ _ _ (tx_recorded _ _ _ _ _ _ _ Htx))| | |].
  - by intros fs [? _].
  - intros [] fs Hs. by exists B.
  - intros fs [Hp|Hs]; exists B; (split; [done|]); [right; by exists J, new|by left].
Qed.

Lemma rollback_spec s w :
  ss_plan s = Some p → fs0 !! home = Some EDir → fs0 !! journal_path = None → storable prev → in_flight (w_fs w) →
  match Rollback s w with
  | (Done (Ok _, s'), w') => s' = mkSession (with_active (ss_registry s) (cloneState (pl_base p))) (Some (set_rolledBack p)) ∧
      before fs0 prev (w_fs w')
  | (Done (Err _, s'), w') => s' = s ∧ unfinished (w_fs w')
  | (Failed _, _) => False
  | (Crashed, w') => unfinished (w_fs w')
  end.
Proof.
  intros Hp Hhome Hidle Hstore Hw. destruct s as [r q]. cbn in Hp. subst q.
  unfold Rollback. change ((the_plan ≫= ?k) (mkSession r (Some p)) w) with (k p (mkSession r (Some p)) w). cbn beta.
  destruct (negb (pl_committed p) || pl_rolledBack p || pl_finalized p).
  { split; [done|]. by apply flight_unfinished. }
  rewrite demand_met. pose proof (io_triple _ _ _ _ (mkSession r (Some p)) w (triple_rollback_files Hhome Hidle Hstore) Hw) as Hio.
  unfold mbind at 1, op_bind at 1, mbind at 1, io_bind at 1. destruct (io _ _ w) as [[[[[]|e] s']|e|] w']; [|done..].
  by destruct Hio as [-> Hb].
Qed.

(** ** Accepting, with the staging directory gone *)
(** A staging directory is in nobody's way. *)
Definition staging_path (S : string) (q : list string) : Prop := has_prefix S stageDirPrefix = true ∧ below (at_home S) q = true.

Lemma staging_elsewhere S q : staging_path S q →
  ¬ temp q ∧ q ≠ state_path ∧ q ≠ journal_path ∧ (∀ n, plain_name n → q ≠ at_home n) ∧
  ∀ B, has_prefix B transactionDirPrefix = true → below (at_home B) q = false.
Proof.
  intros [HS Hq]. unfold below in Hq. cbn in Hq. apply bool_decide_eq_true in Hq.
  assert (Hhead : ∀ n r, q = n :: r → n = S) by (intros n r ->; by injection Hq).
  assert (Hname : ∀ n, at_home n = q → n = S) by (intros n Heq; by eapply (Hhead n []); symmetry).
  split_and!.
  - intros Ht. destruct (temp_shape _ Ht) as [n ->]. pose proof (Hname n eq_refl) as ->. apply temp_home in Ht as [Ht|Ht];
      pose proof (prefix_clash _ _ _ HS Ht) as Hc; by vm_compute in Hc.
  - intros ->. pose proof (Hname stateFileName eq_refl) as <-. by vm_compute in HS.
  - intros ->. pose proof (Hname transactionFileName eq_refl) as <-. by vm_compute in HS.
  - intros n Hn ->. pose proof (Hname n eq_refl) as ->. unfold plain_name in Hn.
    by rewrite (has_prefix_trans _ _ "." HS eq_refl) in Hn.
  - intros B HB. unfold below. cbn. apply bool_decide_eq_false. intros HqB. destruct q as [|n r]; [done|].
    cbn in HqB. injection HqB as ->. pose proof (Hhead B r eq_refl) as ->.
    pose proof (prefix_clash _ _ _ HS HB) as Hc. by vm_compute in Hc.
Qed.

Lemma recorded_put fs1 B J new q e S :
  staging_path S q → recorded fs1 prev cand maxBytes new B J → recorded (put q e fs1) prev cand maxBytes new B J.
Proof.
  intros Hq [Hr1 Hr2 Hr3 Hr4 Hr5 Hr6]. pose proof (staging_elsewhere _ _ Hq) as (_ & _ & _ & Hpl & _). split; try done.
  intros f Hf. destruct (Hr6 f Hf) as (Hp & Hold & Hnew). split_and!; [done| |done]. by rewrite put_ne by by apply Hpl.
Qed.

Lemma committed_put fs1 fs B J new q e S :
  staging_path S q → recorded fs1 prev cand maxBytes new B J →
  committed fs1 prev cand maxBytes new B J fs → committed (put q e fs1) prev cand maxBytes new B J (put q e fs).
Proof.
  intros Hq Hrec [[Hu Hj [Hd Hb] Hf Hs] (_ & Hn & Hok & Hst)].
  pose proof (staging_elsewhere _ _ Hq) as (Ht & Hqs & Hqj & Hpl & HqB). pose proof (rc_dir _ _ _ _ _ _ _ Hrec) as HB.
  assert (Hin : ∀ n, at_home B ++ n ≠ q).
  { intros n <-. specialize (HqB B HB). unfold below in HqB. by rewrite take_app_length, bool_decide_eq_true_2 in HqB. }
  assert (Hd' : at_home B ≠ q) by (intros <-; by apply (Hin []); rewrite app_nil_r).
  assert (Hfile : ∀ (fs' : Fs) f, f ∈ tj_Files J → put q e fs' !! at_home (tf_Name f) = fs' !! at_home (tf_Name f)).
  { intros fs' f Hfi. apply put_ne. apply Hpl. by eapply destination_plain. }
  assert (Hput : ∀ fs', state_of (put q e fs') = state_of fs') by (intros fs'; apply state_of_same; by apply put_ne).
  assert (Hu' : untouched (put q e fs1) B J (put q e fs)).
  { intros p' Htp Hbel Hpj Hps Hnd. destruct (decide (q = p')) as [->|Hne]; [by rewrite !put_eq|]. rewrite !put_ne by done. by apply Hu. }
  assert (Hj' : journal_is J (put q e fs)).
  { destruct Hj as (body & Hbo & ?). exists body. by rewrite put_ne. }
  split; [split; try done|split_and!; try done].
  - split; [by rewrite put_ne by done|]. intros f Hfi Hh. rewrite put_ne by (intros Heq; by apply (Hin [tf_Backup f])).
    rewrite Hfile by done. by apply Hb.
  - intros f Hfi. unfold holds_old, holds_new. rewrite !Hfile by done. by apply Hf.
  - by rewrite Hput.
  - intros f Hfi. unfold holds_new. rewrite Hfile by done. by apply Hn.
  - intros id s' Hs'. destruct (Hok id s' Hs') as (body & Hbo & ?). exists body. split; [|done].
    rewrite put_ne; [done|]. apply Hpl, resourceFilename_plain.
  - by rewrite Hput.
Qed.

(** What [Finalize] removes besides: the plan's staging directory, if it has one. *)
Definition gone (q : list string) : Prop := pl_stageID p ≠ "" ∧ below (pl_directory p) q = true.
Definition outside (fs fs' : Fs) : Prop := ∀ q, ¬ gone q → fs' !! q = fs !! q.
(** It is one of [makePrivateDir]'s. *)
Definition staged_dir : Prop :=
  pl_stageID p ≠ "" → ∃ S, pl_directory p = at_home S ∧ has_prefix S stageDirPrefix = true.
Context (Hstage : staged_dir).

Lemma gone_staging q : gone q → ∃ S, staging_path S q.
Proof. intros [Hne Hq]. destruct (Hstage Hne) as (S & HD & HS). exists S. split; [done|]. by rewrite <- HD. Qed.

(** Committed over a tree that may differ in the staging directory. *)
Definition flight_over (B : string) (J : transactionJournal) (new : string → option entry) (fs1 fs : Fs) : Prop :=
  outside fs0 fs1 ∧ transaction fs1 prev cand maxBytes B J new ∧ committed fs1 prev cand maxBytes new B J fs.

Lemma flight_over_put B J new fs1 fs q e :
  gone q → flight_over B J new fs1 fs → flight_over B J new (put q e fs1) (put q e fs).
Proof.
  intros Hq (Hout & Htx & Hc). destruct (gone_staging q Hq) as [S Hsp]. split_and!.
  - intros q' Hq'. rewrite put_ne by (by intros ->). by apply Hout.
  - destruct Htx as [Hrec ? ? ? ?]. split; try done. by eapply recorded_put.
  - by eapply committed_put; [|apply Htx|].
Qed.
Lemma flight_over_stable B J new :
  pl_stageID p ≠ "" → stable (λ q, below (pl_directory p) q = true) (λ fs, ∃ fs1, flight_over B J new fs1 fs).
Proof.
  intros Hne fs q Hq (fs1 & Hf). split; [exists (put q None fs1)|intros e; exists (put q (Some e) fs1)];
    by apply flight_over_put.
Qed.

(** The candidate's files and manifest, and nothing left of the transaction and
    of the staging directory; all the rest as before. *)
Definition installed (fs : Fs) : Prop :=
  state_of fs = Some cand ∧ files_ok maxBytes cand fs ∧ fs !! journal_path = None ∧ (∀ q, gone q → fs !! q = None) ∧
  ∃ B, transaction_dir B ∧ ∀ q, ¬ temp q → below (at_home B) q = false → ¬ gone q → q ≠ journal_path → q ≠ state_path →
    (∀ name, is_Some (names_or_empty prev !! name) ∨ is_Some (names_or_empty cand !! name) → q ≠ at_home name) → fs !! q = fs0 !! q.

Lemma finished_installed B J new fs1 fs :
  transaction_dir B → outside fs0 fs1 → transaction fs1 prev cand maxBytes B J new → (∀ q, gone q → fs1 !! q = None) →
  finished fs1 cand maxBytes new B J fs → installed fs.
Proof.
  intros HB Hout Htx Hgone [(Hu & _ & Hok & Hst) Hj]. split_and!; [done..| |].
  - intros q Hq. destruct (gone_staging q Hq) as [S Hsp]. pose proof (staging_elsewhere _ _ Hsp) as (Ht & Hqs & Hqj & Hpl & HqB).
    rewrite Hu; [by apply Hgone|done|by apply HqB, HB|done|done|]. intros (f & Hf & ->).
    by apply (Hpl (tf_Name f)); [eapply destination_plain; [apply Htx|]|].
  - exists B. split; [done|]. intros q Ht Hbel Hng Hqj Hqs Hnames. rewrite Hu; try done; [by apply Hout|].
    intros (f & Hf & ->). apply (Hnames (tf_Name f)); [|done]. by eapply tx_names.
Qed.

(** On its way from committed to installed. *)
Definition accepting_commit (fs : Fs) : Prop :=
  ∃ B J new fs1, transaction_dir B ∧ outside fs0 fs1 ∧ transaction fs1 prev cand maxBytes B J new ∧
    finalizing fs1 prev cand maxBytes new B J fs.

Lemma triple_remove_stage B J new :
  triple True (λ fs, ∃ fs1, flight_over B J new fs1 fs)
    (if streq (pl_stageID p) "" then mret tt else
     refuse (stage_unsafe p) "resources: staged directory is unsafe" ≫= λ _,
     wrap "resources: staged directory is unsafe" (verifyRealDirectory (pl_directory p) home) ≫= λ _,
     wrap "resources: remove staged resources" (remove_all (pl_directory p)))
    (λ _ fs, (∃ fs1, flight_over B J new fs1 fs) ∧ ∀ q, gone q → fs !! q = None)
    (λ fs, ∃ fs1, flight_over B J new fs1 fs).
Proof.
  destruct (streq (pl_stageID p) "") eqn:Hs.
  { apply triple_ret. intros fs Hf. split; [done|]. intros q [Hne _]. by apply streq_true in Hs. }
  apply streq_false in Hs. eapply triple_bind; [apply triple_read_only; [apply read_only_refuse|done]|]. intros [].
  eapply triple_bind; [apply triple_read_only; [looks|done]|]. intros [].
  eapply triple_weaken; [apply triple_wrap, (triple_remove_all_gone True (λ _ _ _, I)), (flight_over_stable B J new), Hs|done| |done].
  intros [] fs [Hf Hg]. split; [done|]. by intros q [_ Hq]; apply Hg.
Qed.

Lemma outside_keeps_home fs1 : outside fs0 fs1 → fs0 !! home = Some EDir → fs1 !! home = Some EDir.
Proof. intros Hout Hh. rewrite Hout; [done|]. intros [S [_ Hq]]%gone_staging. done. Qed.
Lemma triple_finalize_files :
  fs0 !! home = Some EDir →
  triple True in_flight (finalize_files p) (λ _, installed) accepting_commit.
Proof.
  intros Hhome. unfold finalize_files. rewrite Hdir.
  assert (Hover : ∀ B J new fs1 fs, transaction_dir B → flight_over B J new fs1 fs → accepting_commit fs).
  { intros B J new fs1 fs HB (Hout & Htx & Hc). exists B, J, new, fs1. split_and!; [done..|]. by left. }
  assert (Hstart : ∀ B J new fs, transaction fs0 prev cand maxBytes B J new → committed fs0 prev cand maxBytes new B J fs →
    flight_over B J new fs0 fs) by (intros; by split_and!).
  eapply triple_bind.
  { apply triple_read_only; [apply read_only_check_own_manifest|]. intros fs (B & J & new & HB & _ & Htx & Hc).
    eapply Hover; [done|by apply Hstart]. }
  intros []. apply triple_exists. intros B. apply triple_exists. intros J. apply triple_exists. intros new.
  apply triple_pure. intros HB. apply triple_pure. intros HdB. eapply triple_bind.
  { eapply triple_weaken; [apply (triple_remove_stage B J new)| | |].
    - intros fs [Htx Hc]. exists fs0. by apply Hstart.
    - intros a fs Hf. exact Hf.
    - intros fs (fs1 & Hf). by eapply Hover. }
  intros []. apply (triple_pre _ _ (λ fs, ∃ fs1, flight_over B J new fs1 fs ∧ ∀ q, gone q → fs !! q = None));
    [|by intros fs [(fs1 & Hf) Hg]; exists fs1].
  apply triple_exists. intros fs1.
  apply (triple_pre _ _ (λ fs, (outside fs0 fs1 ∧ transaction fs1 prev cand maxBytes B J new ∧ ∀ q, gone q → fs1 !! q = None) ∧
    committed fs1 prev cand maxBytes new B J fs)).
  2: { intros fs [(Hout & Htx & Hc) Hg]. split; [|done]. split_and!; [done..|]. intros q Hq. rewrite <- (Hg q Hq).
       destruct (gone_staging q Hq) as [S Hsp]. pose proof (staging_elsewhere _ _ Hsp) as (Ht & Hqs & Hqj & Hpl & HqB).
       symmetry. apply Hc; [done|by apply HqB, HB|done|done|]. intros (f & Hf & ->).
       by apply (Hpl (tf_Name f)); [eapply destination_plain; [apply Htx|]|]. }
  apply triple_pure. intros (Hout & Htx & Hg).
  assert (Hfin : ∀ fs, finalizing fs1 prev cand maxBytes new B J fs → accepting_commit fs).
  { intros fs Hf. exists B, J, new, fs1. by split_and!. }
  eapply triple_bind.
  { eapply triple_weaken; [apply triple_read_only; [apply read_only_own_transaction|]|done|intros j fs Hj; exact Hj|exact Hfin].
    intros fs Hc. by left. }
  intros j. rewrite HdB.
  eapply triple_weaken; [apply (triple_finalizeTransaction True (λ _ _ _, I) _ _ _ _ _ _ _ (tx_recorded _ _ _ _ _ _ _ Htx))|done| |exact Hfin];
    try apply Htx; [by apply outside_keeps_home|].
  intros [] fs Hf. by eapply finished_installed.
Qed.

Lemma finalize_spec s w :
  ss_plan s = Some p → pl_finalized p = false → fs0 !! home = Some EDir → in_flight (w_fs w) →
  match Finalize s w with
  | (Done (Ok _, s'), w') => s' = mkSession (ss_registry s) (Some (set_closed p true)) ∧ installed (w_fs w')
  | (Done (Err _, s'), w') => s' = s ∧ accepting_commit (w_fs w')
  | (Failed _, _) => False
  | (Crashed, w') => accepting_commit (w_fs w')
  end.
Proof.
  intros Hp Hnf Hhome Hw. destruct s as [r q]. cbn in Hp. subst q.
  unfold Finalize. change ((the_plan ≫= ?k) (mkSession r (Some p)) w) with (k p (mkSession r (Some p)) w). cbn beta. rewrite Hnf.
  destruct (negb (pl_committed p) || pl_rolledBack p).
  { split; [done|]. destruct Hw as (B & J & new & HB & _ & Htx & Hc). exists B, J, new, fs0. split_and!; [done..|]. by left. }
  rewrite demand_met. pose proof (io_triple _ _ _ _ (mkSession r (Some p)) w (triple_finalize_files Hhome) Hw) as Hio.
  unfold mbind at 1, op_bind at 1, mbind at 1, io_bind at 1. destruct (io _ _ w) as [[[[[]|e] s']|e|] w']; [|done..].
  by destruct Hio as [-> Hb].
Qed.
End flight.

(** ** Properties *)
Section properties.
Context (r : Registry) (p : Plan) (fs0 : Fs) (prev : stateDocument) (Hready : committable r p fs0 prev).
Local Abbreviation cand t := (commit_document p (random_id t)).

Lemma committed_not_finalized s paths s' w w' :
  coherent p → ss_plan s = Some p → Commit s w = (Done (Ok paths, s'), w') → pl_finalized p = false.
Proof.
  intros Hc Hp. destruct (pl_finalized p) eqn:Hf; [|done]. destruct (co_finalized _ Hc Hf) as (_ & _ & Hcl).
  destruct s as [r' q]. cbn in Hp. subst q. unfold Commit.
  change ((the_plan ≫= ?k) (mkSession r' (Some p)) w) with (k p (mkSession r' (Some p)) w). cbn beta.
  rewrite Hcl. by intros [=].
Qed.


(** C19: rolling back what was committed restores the files, the manifest and the
    registry's view of them. *)
Theorem rollback_restores paths s1 s2 w w1 w2 :
  w_fs w = fs0 → Commit (mkSession r (Some p)) w = (Done (Ok paths, s1), w1) → Rollback s1 w1 = (Done (Ok tt, s2), w2) →
  before fs0 prev (w_fs w2) ∧ rg_active (ss_registry s2) = cloneState (pl_base p) ∧
  rg_failures (ss_registry s2) = rg_failures r ∧ rg_maxBytes (ss_registry s2) = rg_maxBytes r.
Proof.
  intros Hw Hrun Hback. pose proof (commit_spec r p fs0 prev Hready (mkSession r (Some p)) w eq_refl Hw) as Hc. rewrite Hrun in Hc.
  destruct Hc as (-> & t & dir & -> & Hf). pose proof (proj1 Hready t) as Hpm.
  pose proof (rollback_spec (set_committed p dir (random_id t) (stable_paths (pl_resources p))) fs0 prev (cand t) (rg_maxBytes r) dir eq_refl
    (committed_session p (mkSession r (Some p)) dir (random_id t)) w1 eq_refl (pm_home _ _ _ _ _ _ _ Hpm)
    (pm_idle _ _ _ _ _ _ _ Hpm) (pm_prev _ _ _ _ _ _ _ Hpm) Hf) as Hr. rewrite Hback in Hr. by destruct Hr as [-> Hb].
Qed.

End properties.
End commit.

(** ** The scenario of ResourceAtomicity, as a plan *)
Definition example_plan (validated : bool) : Plan :=
  mkPlan (stageDirPrefix +:+ hex_zeros 32) example_stage None 64 example_staged (resources_of example_cand) example_prev
    true validated false "" false false false.
Definition example_registry : Registry := mkRegistry 64 example_prev ∅.
Definition example_session (validated : bool) : Session := mkSession example_registry (Some (example_plan validated)).
(** A session and a tree by their outcome. *)
Definition run_ok {A S} (r : outcome (result plan_error A * S) * World) : bool :=
  match r.1 with Done (Ok _, _) => true | _ => false end.
Lemma run_value {A S} (r : outcome (result plan_error A * S) * World) :
  run_ok r = true → ∃ a s, r = (Done (Ok a, s), r.2).
Proof. destruct r as [[[[a|e] s]|e|] w]; cbn; try done. intros _. by exists a, s. Qed.

Definition value_of {A S} (d : A) (r : outcome (result plan_error A * S) * World) : A :=
  match r.1 with Done (Ok a, _) => a | _ => d end.
Definition session_of {A S} (d : S) (r : outcome (result plan_error A * S) * World) : S :=
  match r.1 with Done (_, s) => s | _ => d end.
Lemma run_result {A S} (r : outcome (result plan_error A * S) * World) a0 s0 :
  run_ok r = true → r = (Done (Ok (value_of a0 r), session_of s0 r), r.2).
Proof. by destruct r as [[[[a|e] s]|e|] w]. Qed.

#[local] Existing Instance example_hash.
#[local] Existing Instance example_parsers.
#[local] Existing Instance example_documents.
#[local] Existing Instance example_journals.

Lemma example_committable l : committable (H := example_os (dies_at l)) example_registry (example_plan true) example_fs example_prev.
Proof. split; [intros t; apply example_promotable|]. split; [done|apply dies_sure]. Qed.
Lemma example_coherent b : coherent (example_plan b).
Proof. by split. Qed.
Lemma example_staged_dir b : staged_dir (example_plan b).
Proof. intros _. exists (stageDirPrefix +:+ hex_zeros 32). split; [done|by vm_compute]. Qed.

(** The process dies while the files are being replaced. *)
Section dying.
Definition dying_os : GoOs := example_os (dies_at [70]%nat).
#[local] Existing Instance dying_os.
Definition dying_commit : outcome (result plan_error (gmap string (list string)) * Session) * World :=
  Commit (example_session true) example_start.

End dying.

Section calm.
#[local] Existing Instance calm_os.
Definition calm_commit : outcome (result plan_error (gmap string (list string)) * Session) * World :=
  Commit (example_session true) example_start.
Definition after_commit : Session := session_of (example_session true) calm_commit.
Definition calm_paths : gmap string (list string) := value_of ∅ calm_commit.

Lemma calm_committed :
  Commit (mkSession example_registry (Some (example_plan true))) example_start = (Done (Ok calm_paths, after_commit), calm_commit.2).
Proof. refine (run_result calm_commit ∅ (example_session true) _). by vm_compute. Qed.

Definition calm_rollback : outcome (result plan_error unit * Session) * World := Rollback after_commit calm_commit.2.
Definition calm_finalize : outcome (result plan_error unit * Session) * World := Finalize after_commit calm_commit.2.
Lemma calm_rolled_back : ∃ s2, Rollback after_commit calm_commit.2 = (Done (Ok tt, s2), calm_rollback.2).
Proof.
  assert (Hok : run_ok calm_rollback = true) by by vm_compute. destruct (run_value calm_rollback Hok) as ([] & s2 & Hr). by exists s2.
Qed.
Lemma calm_finalized : ∃ s2, Finalize after_commit calm_commit.2 = (Done (Ok tt, s2), calm_finalize.2).
Proof.
  assert (Hok : run_ok calm_finalize = true) by by vm_compute. destruct (run_value calm_finalize Hok) as ([] & s2 & Hr). by exists s2.
Qed.

Lemma rollback_restores_witness : ∃ s2, before example_fs example_prev (w_fs calm_rollback.2) ∧ rg_active (ss_registry s2) = example_prev.
Proof.
  destruct calm_rolled_back as [s2 Hr]. exists s2.
  destruct (rollback_restores example_registry (example_plan true) example_fs example_prev (example_committable [])
    calm_paths after_commit s2 example_start calm_commit.2 calm_rollback.2 eq_refl calm_committed Hr) as (Hb & Ha & _).
  exact (conj Hb Ha).
Defined.


(** A life that goes well: validated, committed, finalized. *)
Definition next_run (c : plan_call) (s : Session) : outcome (result plan_error unit * Session) * World := call c s example_start.
Definition plan_after (d : Plan) (c : plan_call) (p : Plan) (w : World) : Plan :=
  default d (ss_plan (session_of (mkSession example_registry (Some d)) (call c (mkSession example_registry (Some p)) w))).
Definition goes_well (c : plan_call) (p : Plan) (w : World) : bool :=
  let r := call c (mkSession example_registry (Some p)) w in
  run_ok r && match ss_plan (session_of (mkSession example_registry (Some p)) r) with Some _ => true | None => false end.

Lemma lives_well c p w l p2 : goes_well c p w = true → lives (plan_after p c p w) l p2 → lives p ((c, true) :: l) p2.
Proof.
  unfold goes_well, plan_after. destruct (call c (mkSession example_registry (Some p)) w) as [[[r [g q]]|e|] w'] eqn:E; [|done|done].
  destruct r as [[]|e]; [|done]. cbn. destruct q as [q|]; [|done]. intros _ Hl. exact (lives_call p c _ _ (Ok tt) _ _ _ l p2 E Hl).
Qed.

Definition accept_all : plan_call := CallValidate (Some (λ _ _, mret tt)).
Definition validated_plan : Plan := plan_after (example_plan false) accept_all (example_plan false) example_start.
Definition committed_plan : Plan := plan_after validated_plan CallCommit validated_plan example_start.
Definition finalized_plan : Plan := plan_after committed_plan CallFinalize committed_plan calm_commit.2.
Definition good_life : list (plan_call * bool) := [(accept_all, true); (CallCommit, true); (CallFinalize, true)].

Lemma plan_life_safe_witness : committed_once false good_life ∧ ended_after_commit good_life ∧ one_end good_life.
Proof.
  apply (plan_life_safe (example_plan false) good_life finalized_plan); [|by split|done].
  apply (lives_well _ _ example_start); [by vm_compute|]. apply (lives_well _ _ example_start); [by vm_compute|].
  apply (lives_well _ _ calm_commit.2); [by vm_compute|]. constructor.
Defined.

Lemma plan_refines_life_witness :
  ∃ e, call CallFinalize (mkSession example_registry (Some (example_plan false))) example_start =
    (Done (Err e, mkSession example_registry (Some (example_plan false))), example_start).
Proof.
  apply (plan_refines_life CallFinalize (example_plan false) example_registry example_start); [by split|done].
Defined.
End calm.
