(* ===== verification/ResourceStaging.v ===== *)
(** * What staging yields

    [StageDue] only looks at the store until it makes its own directory; what it
    returns holds, for every enabled resource, checked bytes under a state that
    the manifest's validator accepts. *)
From Stdlib Require Import Ascii.
From S2P Require Import Prelude GoStrings GoNet GoSort GoJson GoFs ConfigTypes Download ResourceValidate ResourceStore ResourceTransaction ResourceRegistry ResourcePlan ResourcePlanLife FsLogic ResourceStoreFacts ResourceJournal ResourceStates ResourcePromote ResourceAtomicity ResourceMetadata ResourceCommit.
Open Scope Z_scope.

(** ** Looking at one tree *)
Section reads.
Context `{GoOs} `{GoHash} `{RuleParsers} `{JsonCodec stateDocument} (fs0 : Fs).

Definition reads {A : Type} (m : IO A) (Q : A → Prop) : Prop :=
  triple True (λ fs, fs = fs0) m (λ a fs, Q a ∧ fs = fs0) (λ fs, fs = fs0).

Lemma reads_ret {A : Type} (a : A) (Q : A → Prop) : Q a → reads (mret a) Q.
Proof. intros HQ. by apply triple_ret. Qed.
Lemma reads_throw {A : Type} e (Q : A → Prop) : reads (throw e) Q.
Proof. by apply triple_throw. Qed.
Lemma reads_bind {A B : Type} (m : IO A) (k : A → IO B) Q R : reads m Q → (∀ a, Q a → reads (k a) R) → reads (m ≫= k) R.
Proof. intros Hm Hk. eapply triple_bind; [exact Hm|]. intros a. apply triple_pure. apply Hk. Qed.
Lemma reads_only {A : Type} (m : IO A) : read_only m → reads m (λ _, True).
Proof. intros Hm. eapply triple_post; [by apply triple_read_only|]. done. Qed.
Lemma reads_weaken {A : Type} (m : IO A) (Q R : A → Prop) : reads m Q → (∀ a, Q a → R a) → reads m R.
Proof. intros Hm HQ. eapply triple_post; [exact Hm|]. intros a fs [? ?]. auto. Qed.
Lemma reads_refuse b msg : reads (refuse b msg) (λ _, b = false).
Proof. by apply triple_refuse. Qed.
Lemma reads_lift {A : Type} (r : result string A) : reads (lift r) (λ a, r = Ok a).
Proof. by apply triple_lift. Qed.
Lemma reads_attempt {A : Type} (m : IO A) (Q : A → Prop) :
  reads m Q → reads (attempt m) (λ r, match r with Ok a => Q a | Err _ => True end).
Proof. intros Hm. eapply triple_post; [apply triple_attempt, Hm|]. intros [a|e] fs Hq; [done|]. by destruct Hq. Qed.
Lemma reads_managed path maxBytes :
  reads (readManaged path maxBytes) (λ body, fs0 !! path = Some (EFile body) ∧ 0 < len body ≤ maxBytes).
Proof.
  eapply triple_post; [apply (triple_readManaged True (λ _ _ _, I) _ _ (λ fs, fs = fs0)); [done|by left]|].
  by intros body fs (-> & ? & ?).
Qed.

Lemma read_only_at_tick {A : Type} (look : nat → A) : read_only (at_tick look).
Proof. done. Qed.

(** A manifest that loads is the one the tree shows. *)
Lemma reads_manifest : reads (loadStateFile state_path) (λ d, state_of fs0 = Some d).
Proof.
  destruct (state_of fs0) as [d|] eqn:Hd.
  { eapply triple_post; [apply (triple_loadStateFile True (λ _ _ _, I) d (λ fs, fs = fs0)); by intros fs ->|].
    by intros d' fs [-> ?]. }
  unfold loadStateFile. eapply triple_bind; [by apply (triple_lstat True (λ _ _ _, I) _ (λ fs, fs = fs0))|].
  unfold state_of in Hd. intros [[body| |]|e]; [|by apply triple_throw; intros fs [? _]..|].
  - apply (triple_pre _ _ (λ fs, fs0 !! state_path = Some (EFile body) ∧ fs = fs0)); [|by intros fs [-> ?]].
    apply triple_pure. intros Hb. rewrite Hb in Hd. eapply reads_bind; [apply reads_refuse|]. intros [] Hl. rewrite Hl in Hd.
    eapply reads_bind; [apply reads_only; looks|]. intros [] _. eapply (reads_bind _ _ (λ data, data = take (Z.to_nat maxStateBytes) body)).
    { apply triple_wrap, triple_step; [done| |done]. intros fs ->. by rewrite Hb. }
    intros data ->. rewrite take_ge by (apply Z.ltb_ge in Hl; unfold len in Hl; lia).
    eapply reads_bind; [apply reads_lift|]. intros d Hj. rewrite Hj in Hd.
    eapply reads_bind; [apply reads_lift|]. intros [] Hv. by rewrite Hv in Hd.
  - destruct (os_IsNotExist e) eqn:Ee; [|by apply triple_throw; intros fs [? _]].
    apply triple_ret. intros fs [-> [[Hn _]|[_ ?]]]; [|congruence]. by rewrite Hn in Hd.
Qed.
End reads.

(** ** Methods that leave the tree alone *)
Section quiet.
Context `{GoOs} {S : Type} (fs0 : Fs).

Definition quiet {A : Type} (m : Op plan_error S A) (Q : A → Prop) : Prop :=
  ∀ s w, w_fs w = fs0 →
    match m s w with
    | (Done (r, _), w') => w_fs w' = fs0 ∧ match r with Ok a => Q a | Err _ => True end
    | (Failed _, _) => False
    | (Crashed, w') => w_fs w' = fs0
    end.

Lemma op_quiet_ret {A : Type} (a : A) (Q : A → Prop) : Q a → quiet (mret a) Q.
Proof. by intros HQ s w Hw. Qed.
Lemma quiet_raise {A : Type} e (Q : A → Prop) : quiet (raise e) Q.
Proof. by intros s w Hw. Qed.
Lemma op_quiet_bind {A B : Type} (m : Op plan_error S A) (k : A → Op plan_error S B) Q R : quiet m Q → (∀ a, Q a → quiet (k a) R) → quiet (m ≫= k) R.
Proof.
  intros Hm Hk s w Hw. specialize (Hm s w Hw). unfold mbind, op_bind, mbind, io_bind.
  destruct (m s w) as [[[[a|e] s1]|e|] w1]; [|done..]. destruct Hm as [Hw1 HQ]. exact (Hk a HQ s1 w1 Hw1).
Qed.
Lemma quiet_io {A : Type} (m : IO A) (Q : A → Prop) : reads fs0 m Q → quiet (io m) Q.
Proof.
  intros Hm s w Hw. pose proof (io_triple _ _ _ _ s w Hm Hw) as Hio. destruct (io m s w) as [[[[a|e] s']|e|] w']; [|naive_solver..].
  by destruct Hio as (_ & ? & ?).
Qed.
Lemma quiet_pure {A : Type} (r : result string A) (Q : A → Prop) : (∀ a, r = Ok a → Q a) → quiet (pure_op r) Q.
Proof. destruct r as [a|e]; intros HQ; [by apply op_quiet_ret, HQ|by apply quiet_raise]. Qed.
Lemma quiet_weaken {A : Type} (m : Op plan_error S A) (Q R : A → Prop) : quiet m Q → (∀ a, Q a → R a) → quiet m R.
Proof.
  intros Hm HQ s w Hw. specialize (Hm s w Hw). destruct (m s w) as [[[[a|e] s']|e|] w']; [|done..]. destruct Hm. auto.
Qed.
Lemma quiet_each {A T : Type} (body : T → A → Op plan_error S T) (I : list A → T → Prop) l t :
  (∀ don x rest t, l = don ++ x :: rest → I don t → quiet (body t x) (I (don ++ [x]))) → I [] t → quiet (op_each body t l) (I l).
Proof.
  intros Hb. assert (∀ rest don t, l = don ++ rest → I don t → quiet (op_each body t rest) (I l)) as Hgen.
  { induction rest as [|x rest IH]; intros don t' Hl HI; cbn [op_each].
    - rewrite app_nil_r in Hl. subst don. by apply op_quiet_ret.
    - eapply op_quiet_bind; [by eapply Hb|]. intros t''. apply IH. by rewrite <- app_assoc. }
  by apply Hgen.
Qed.

(** Methods that change it: from [P], to [Q] or, when they fail or die, to [X]. *)
Definition runs {A : Type} (P : Fs → Prop) (m : Op plan_error S A) (Q : A → Fs → Prop) (X : Fs → Prop) : Prop :=
  ∀ s w, P (w_fs w) →
    match m s w with
    | (Done (Ok a, _), w') => Q a (w_fs w')
    | (Done (Err _, _), w') => X (w_fs w')
    | (Failed _, _) => False
    | (Crashed, w') => X (w_fs w')
    end.
Lemma runs_quiet {A : Type} (m : Op plan_error S A) (Q : A → Prop) (X : Fs → Prop) :
  quiet m Q → X fs0 → runs (λ fs, fs = fs0) m (λ a fs, Q a ∧ fs = fs0) X.
Proof.
  intros Hm HX s w Hw. specialize (Hm s w Hw). destruct (m s w) as [[[[a|e] s']|e|] w']; [by destruct Hm|by destruct Hm as [-> _]|done|by rewrite Hm].
Qed.
Lemma runs_io {A : Type} (P : Fs → Prop) (m : IO A) Q X : triple True P m Q X → runs P (io m) Q X.
Proof.
  intros Hm s w Hw. pose proof (io_triple _ _ _ _ s w Hm Hw) as Hio. destruct (io m s w) as [[[[a|e] s']|e|] w']; [by destruct Hio|by destruct Hio|done|done].
Qed.
Lemma runs_ret {A : Type} (P : Fs → Prop) (a : A) (Q : A → Fs → Prop) X : (∀ fs, P fs → Q a fs) → runs P (mret a) Q X.
Proof. intros HQ s w Hw. by apply HQ. Qed.
Lemma runs_bind {A B : Type} (P : Fs → Prop) (m : Op plan_error S A) (k : A → Op plan_error S B) Q R X :
  runs P m Q X → (∀ a, runs (Q a) (k a) R X) → runs P (m ≫= k) R X.
Proof.
  intros Hm Hk s w Hw. specialize (Hm s w Hw). unfold mbind, op_bind, mbind, io_bind.
  destruct (m s w) as [[[[a|e] s1]|e|] w1]; [|done..]. exact (Hk a s1 w1 Hm).
Qed.
Lemma runs_weaken {A : Type} (P P' : Fs → Prop) (m : Op plan_error S A) (Q Q' : A → Fs → Prop) (X X' : Fs → Prop) :
  runs P' m Q' X' → (∀ fs, P fs → P' fs) → (∀ a fs, Q' a fs → Q a fs) → (∀ fs, X' fs → X fs) → runs P m Q X.
Proof. intros Hm HP HQ HX s w Hw. specialize (Hm s w (HP _ Hw)). destruct (m s w) as [[[[a|e] s']|e|] w']; auto. Qed.
(** What is known of the tree besides holds of the program. *)
Lemma runs_fact {A : Type} (F : Prop) (P : Fs → Prop) (m : Op plan_error S A) Q X : (F → runs P m Q X) → runs (λ fs, F ∧ P fs) m Q X.
Proof. intros Hm s w [HF HP]. by apply Hm. Qed.
Lemma runs_exists {A B : Type} (P : B → Fs → Prop) (m : Op plan_error S A) Q X : (∀ b, runs (P b) m Q X) → runs (λ fs, ∃ b, P b fs) m Q X.
Proof. intros Hm s w [b HP]. by apply (Hm b). Qed.
End quiet.

Section staging.
Context `{GoOs} `{GoHash} `{RuleParsers} `{GoNet} `{JsonCodec stateDocument} `{JsonCodec transactionJournal}.
Context {N : Type} `{LocalFiles} `{Downloader N} (fs0 : Fs).
Local Abbreviation reads := (reads fs0).
Local Abbreviation quiet := (quiet fs0).

(** ** Bytes to stage *)
Lemma reads_readLocal path maxBytes : reads (readLocal path maxBytes) (λ body, len body ≤ maxBytes).
Proof.
  unfold readLocal. eapply reads_bind; [by apply reads_only|]. intros [[body| |]|e] _; [|apply reads_throw..].
  eapply reads_bind; [apply reads_refuse|]. intros [] _. eapply reads_bind; [by apply reads_only|].
  intros [content|e] _; [|apply reads_throw]. eapply reads_bind; [apply reads_refuse|]. intros [] Hl.
  apply reads_ret. by apply Z.ltb_ge in Hl.
Qed.

Definition bounded_body (maxBytes : Z) (r : result refresh_error Staged) : Prop :=
  match r with Ok s => len (sg_body s) ≤ maxBytes | Err _ => True end.

Lemma reads_staged_unmodified r old etag lastModified hasPrevious maxBytes response :
  reads (staged_unmodified r old etag lastModified hasPrevious maxBytes response) (bounded_body maxBytes).
Proof.
  unfold staged_unmodified. destruct (_ || _ || _); [by apply reads_ret|].
  eapply reads_bind; [apply reads_attempt, reads_managed|]. intros [body|e] Hb; apply reads_ret; [|done].
  destruct (negb _); [done|]. destruct (pin_mismatch _ _); [done|]. cbn. lia.
Qed.

Lemma quiet_fetch req :
  quiet (fetch req) (λ resp, match resp with Ok resp => len (rs_Body resp) ≤ rq_MaxBytes req | Err _ => True end).
Proof.
  intros s w Hw. unfold fetch. destruct (dl_fetch req (st_net s)) as [resp n] eqn:E. cbn. split; [done|].
  destruct resp as [resp|e]; [|done]. by apply dl_bounded in E.
Qed.
Lemma quiet_check_context : quiet check_context (λ _, True).
Proof. intros s w Hw. unfold check_context. destruct (dl_cancelled (st_net s)) as [c n]. by destruct c. Qed.

Lemma quiet_stagedBody r route maxBytes base hasPrevious :
  quiet (stagedBody r route maxBytes base hasPrevious) (bounded_body maxBytes).
Proof.
  unfold stagedBody. destruct (negb (isRemote (r_URL r))).
  - eapply op_quiet_bind; [apply quiet_io, reads_attempt, reads_readLocal|].
    intros [body|e] Hb; by apply op_quiet_ret.
  - eapply (op_quiet_bind _ _ _ (λ _, True)).
    { apply quiet_io, reads_only. unfold cache_usable. destruct (_ && _ && _ && _); looks. }
    intros usable _. cbn zeta. eapply op_quiet_bind.
    { apply quiet_fetch. }
    intros [resp|e] Hr; [|by apply op_quiet_ret]. destruct (rs_StatusCode resp =? 304); [|by apply op_quiet_ret].
    apply quiet_io, reads_staged_unmodified.
Qed.

(** ** Prepared resources *)
Section prepare.
Context (resources : list Resource) (maxBytes : Z) (base : stateDocument).
Context (Hbase : validateStateDocument base = Ok tt).

(** A state the manifest may record for a resource, and why. *)
Record state_for (r : Resource) (s : resourceState) : Prop := {
  sf_declared : resourceStateMatches r s = true;
  sf_source : rst_SourceHash s = source_hash r;
  sf_pin : pin_mismatch r (rst_SHA256 s) = false;
  sf_validators : slen (rst_ETag s) ≤ 4096 ∧ slen (rst_LastModified s) ≤ 4096;
  sf_checked : ∃ body, digest body = rst_SHA256 s ∧ 0 < len body ≤ maxBytes ∧ is_ok (ValidateResource r body) = true
}.
(** Where its bytes are: fetched, or on disk with the same hash. *)
Definition bytes_at (item : preparedResource) : Prop :=
  match pp_body item with
  | Some body => digest body = rst_SHA256 (pp_state item) ∧ 0 < len body ≤ maxBytes
  | None => ∃ body, fs0 !! pp_sourcePath item = Some (EFile body) ∧ digest body = rst_SHA256 (pp_state item) ∧ 0 < len body ≤ maxBytes
  end.
Definition item_for (r : Resource) (item : preparedResource) : Prop :=
  pp_resource item = r ∧ state_for r (pp_state item) ∧ bytes_at item.

Lemma base_validators id s : resources_of base !! id = Some s → slen (rst_ETag s) ≤ 4096 ∧ slen (rst_LastModified s) ≤ 4096.
Proof.
  intros Hs. pose proof Hbase as Hv. unfold validateStateDocument in Hv. repeat (destruct (_ : bool); [done|]).
  apply bind_ok in Hv as ([] & He & _). rewrite each_ok in He.
  assert ((id, s) ∈ map_to_list (resources_of base)) as Hin by by apply elem_of_map_to_list.
  apply He in Hin. unfold check_state_entry in Hin. destruct (negb (ValidStableID id) || _ || _ || _ || _) eqn:E; [done|].
  apply orb_false_iff in E as [E E1]. apply orb_false_iff in E as [E E2]. by apply Z.ltb_ge in E1, E2.
Qed.
Lemma entry_validators r : slen (rst_ETag (entry_of base r)) ≤ 4096 ∧ slen (rst_LastModified (entry_of base r)) ≤ 4096.
Proof.
  unfold entry_of. destruct (resources_of base !! r_ID r) as [s|] eqn:E; [by eapply base_validators|]. by split; vm_compute.
Qed.
Lemma boundedValidator_le s : slen (boundedValidator s) ≤ 4096.
Proof. unfold boundedValidator. destruct (Z.ltb_spec 4096 (slen s)); [done|done]. Qed.

Lemma validate_nonempty r body : is_ok (ValidateResource r body) = true → 0 < len body.
Proof.
  unfold ValidateResource. destruct (ValidateDeclaration r); [|done]. destruct (Z.eqb_spec (len body) 0); [done|].
  intros _. pose proof (len_nonneg body). lia.
Qed.

Lemma reads_prepareCommitted r hasPrevious :
  reads (prepareCommittedResource r (entry_of base r) hasPrevious maxBytes)
    (λ res, match res with Ok item => item_for r item | Err _ => True end).
Proof.
  unfold prepareCommittedResource. destruct (_ || _) eqn:Hm; [by apply reads_ret|].
  repeat (apply orb_false_iff in Hm as [Hm ?]). go_bool.
  eapply reads_bind; [apply reads_attempt, reads_managed|]. intros [body|e] Hb; apply reads_ret; [|done].
  destruct (negb (streq (digest body) _)) eqn:Hd; [done|]. destruct (negb (is_ok _)) eqn:Hv; [done|].
  destruct (pin_mismatch _ _) eqn:Hp; [done|]. go_bool. apply streq_true in Hd. destruct Hb as [Hb Hl].
  split; [done|]. split; [split; try done|].
  - by apply streq_true.
  - apply entry_validators.
  - by exists body.
  - by exists body.
Qed.

Lemma reads_prepared_bytes r hasPrevious state body :
  digest body = rst_SHA256 state → 0 < len body ≤ maxBytes →
  reads (prepared_bytes r base hasPrevious maxBytes state body)
    (λ item, pp_resource item = r ∧ pp_state item = state ∧ bytes_at item).
Proof.
  intros Hd Hl. unfold prepared_bytes. destruct (_ && _ && _); [|by apply reads_ret].
  eapply reads_bind; [apply reads_attempt, reads_managed|]. intros [old|e] Hb; apply reads_ret; [|done].
  destruct (streq (digest old) _) eqn:Ho; [|done]. apply streq_true in Ho. split_and!; [done|done|].
  exists old. by destruct Hb.
Qed.

(** What the loop has prepared of the resources it has seen. *)
Definition items_of (don : list Resource) (m : gmap string preparedResource) : Prop :=
  ∀ id item, m !! id = Some item → ∃ r, r ∈ don ∧ r_Enabled r = true ∧ r_ID r = id ∧ item_for r item.
Definition covers (don : list Resource) (m : gmap string preparedResource) : Prop :=
  ∀ r, r ∈ don → r_Enabled r = true → is_Some (m !! r_ID r).
Definition preparing_ok (don : list Resource) (acc : Preparing) : Prop :=
  items_of don (pg_prepared acc) ∧ (pg_failures acc = [] → covers don (pg_prepared acc)).

Lemma items_of_more don m r : items_of don m → items_of (don ++ [r]) m.
Proof. intros Hm id item Hi. destruct (Hm id item Hi) as (r' & ? & ?). exists r'. split; [set_solver|done]. Qed.
Lemma preparing_insert don acc r item :
  r_Enabled r = true → item_for r item → preparing_ok don acc →
  preparing_ok (don ++ [r]) (mkPreparing (<[r_ID r := item]> (pg_prepared acc)) (pg_failures acc)).
Proof.
  intros Hen Hitem [Hi Hc]. split; cbn.
  - intros id i [[<- <-]|[Hne Hl]]%lookup_insert_Some; [exists r; split; [set_solver|done]|].
    by apply (items_of_more _ _ r Hi).
  - intros Hf r' [Hin|Hin%list_elem_of_singleton]%elem_of_app Hen'; apply lookup_insert_is_Some'; [right; by apply Hc|left; by subst].
Qed.
Lemma preparing_skip don acc r : r_Enabled r = false → preparing_ok don acc → preparing_ok (don ++ [r]) acc.
Proof.
  intros Hen [Hi Hc]. split; [by apply items_of_more|]. intros Hf r' [Hin|Hin%list_elem_of_singleton]%elem_of_app Hen'; [by apply Hc|].
  subst. congruence.
Qed.
Lemma preparing_failed don acc r f : preparing_ok don acc → preparing_ok (don ++ [r]) (mkPreparing (pg_prepared acc) (pg_failures acc ++ [f])).
Proof. intros [Hi _]. split; [by apply items_of_more|]. cbn. intros Hf. by destruct (pg_failures acc). Qed.

Lemma quiet_refresh_failed don acc r e :
  preparing_ok don acc → quiet (refresh_failed (N := N) acc r e) (preparing_ok (don ++ [r])).
Proof. intros Hacc s w Hw. cbn. split; [done|]. by apply preparing_failed. Qed.

Lemma state_matches_self r sha etag lm a b :
  resourceStateMatches r (mkResourceState sha (source_hash r) etag lm (r_Kind r) (r_Format r) (r_RuleType r) a b) = true.
Proof. unfold resourceStateMatches, sameResourceState. cbn. by rewrite !streq_refl. Qed.

Lemma quiet_prepare_refreshed don acc route hasPrevious r :
  r_Enabled r = true → preparing_ok don acc →
  quiet (prepare_refreshed route maxBytes base hasPrevious acc r) (preparing_ok (don ++ [r])).
Proof.
  intros Hen Hacc. unfold prepare_refreshed. eapply op_quiet_bind; [apply quiet_stagedBody|].
  intros [staged|e] Hb; [|by apply quiet_refresh_failed]. cbn in Hb. unfold refreshed_sum.
  destruct (negb (is_ok _)) eqn:Hv; [by apply quiet_refresh_failed|]. go_bool.
  destruct (pin_mismatch _ _) eqn:Hp; [by apply quiet_refresh_failed|].
  eapply op_quiet_bind; [apply quiet_io, reads_only, read_only_at_tick|]. intros checkedAt _.
  pose proof (validate_nonempty _ _ Hv) as Hne. eapply op_quiet_bind; [apply quiet_io, reads_prepared_bytes; [reflexivity|lia]|].
  intros item (Hr & Hs & Hbytes). apply (op_quiet_bind _ _ _ (λ _, True)); [by intros s w Hw|]. intros _ _. apply op_quiet_ret.
  apply preparing_insert; [done| |done]. split; [done|]. split; [|done]. rewrite Hs. split; cbn.
  - apply state_matches_self.
  - done.
  - done.
  - split; apply boundedValidator_le.
  - exists (sg_body staged). split; [done|]. split; [lia|done].
Qed.

Lemma quiet_prepare_resource don acc route hasPrevious due r :
  preparing_ok don acc → quiet (prepare_resource route maxBytes base hasPrevious due acc r) (preparing_ok (don ++ [r])).
Proof.
  intros Hacc. unfold prepare_resource. destruct (r_Enabled r) eqn:Hen; [|by apply op_quiet_ret, preparing_skip].
  eapply op_quiet_bind; [apply quiet_check_context|]. intros [] _. case_bool_decide; [by apply quiet_prepare_refreshed|].
  eapply op_quiet_bind; [apply quiet_io, reads_prepareCommitted|]. intros [item|e] Hitem; [|apply quiet_raise].
  by apply op_quiet_ret, preparing_insert.
Qed.

Lemma quiet_prepareResources route hasPrevious due :
  quiet (prepareResources resources route maxBytes base hasPrevious due) (λ m, items_of resources m ∧ covers resources m).
Proof.
  unfold prepareResources. eapply op_quiet_bind.
  { apply (quiet_each fs0 _ preparing_ok).
    - intros don x rest t _. apply quiet_prepare_resource.
    - split; [intros id item [=]|]. intros _ r Hr. by apply not_elem_of_nil in Hr. }
  intros acc [Hi Hc]. destruct (pg_failures acc); [by apply op_quiet_ret; auto|apply quiet_raise].
Qed.
End prepare.

(** ** The staging directory *)
Section directory.
Context (maxBytes : Z) (S : string) (HS : has_prefix S stageDirPrefix = true).
Local Abbreviation D := (at_home S).

(** Nothing changed but what is below the directory. *)
Definition besides (fs : Fs) : Prop := ∀ q, below D q = false → fs !! q = fs0 !! q.
Lemma besides_put q e fs : below D q = true → besides fs → besides (put q e fs).
Proof. intros Hq Hb p Hp. rewrite put_ne by congruence. by apply Hb. Qed.
Lemma besides_stable T : (∀ q, T q → below D q = true) → stable T besides.
Proof. intros HT fs q Hq Hb. apply HT in Hq. split; [by apply (besides_put q None)|intros e; by apply (besides_put q (Some e))]. Qed.
Lemma below_entry name : below D (D ++ [name]) = true.
Proof. unfold below. cbn. by apply bool_decide_eq_true. Qed.

Definition staged_at (item : preparedResource) : list string := D ++ [filename (pp_resource item)].
Definition good_file (fs : Fs) (item : preparedResource) : Prop :=
  ∃ body, fs !! staged_at item = Some (EFile body) ∧ digest body = rst_SHA256 (pp_state item) ∧ 0 < len body ≤ maxBytes.

Record staging (don : list (string * preparedResource)) (paths : gmap string (list string)) (fs : Fs) : Prop := {
  sgn_besides : besides fs;
  sgn_dir : fs !! D = Some EDir;
  sgn_paths : ∀ id path, paths !! id = Some path ↔ ∃ item, (id, item) ∈ don ∧ path = staged_at item;
  sgn_files : ∀ id item, (id, item) ∈ don → good_file fs item;
  sgn_unique : ∀ id id' item item', (id, item) ∈ don → (id', item') ∈ don → staged_at item = staged_at item' → id = id'
}.

Lemma filename_plain r : plain_name (filename r).
Proof.
  pose proof (resourceFilename_plain (r_ID r) (declared_state r)) as Hp. exact Hp.
Qed.
Lemma temp_entry item p : temp_of D ".resource-" p → p ≠ staged_at item.
Proof.
  intros (n & -> & Hn) [= Heq]. pose proof (filename_plain (pp_resource item)) as Hp. unfold plain_name in Hp.
  by rewrite <- Heq, (has_prefix_trans _ _ "." Hn eq_refl) in Hp.
Qed.
Lemma temp_below p : temp_of D ".resource-" p → below D p = true.
Proof. intros (n & -> & _). apply below_entry. Qed.

(** What concerns neither the directory itself nor a staged file. *)
Lemma staging_put don paths fs q e :
  below D q = true → q ≠ D → (∀ id item, (id, item) ∈ don → q ≠ staged_at item) → staging don paths fs → staging don paths (put q e fs).
Proof.
  intros Hq HqD Hne [Hb Hd Hp Hf Hu]. split; try done.
  - by apply besides_put.
  - by rewrite put_ne.
  - intros id item Hin. destruct (Hf id item Hin) as (body & Hbo & ?). exists body. rewrite put_ne by by apply (Hne id). done.
Qed.
Lemma staging_stable don paths : stable (temp_of D ".resource-") (staging don paths).
Proof.
  intros fs q Hq Hs. assert (Hqd : q ≠ D) by (destruct Hq as (n & -> & _); by intros [=]).
  pose proof (temp_below q Hq) as Hqb.
  split; [apply (staging_put _ _ _ _ None)|intros e; apply (staging_put _ _ _ _ (Some e))]; try done; intros id item _; by apply temp_entry.
Qed.

(** A file that is there already is refused. *)
Lemma triple_writeStaged_exists path parent body (P X : Fs → Prop) (Q : unit → Fs → Prop) :
  (∀ fs, P fs → X fs) → triple True (λ fs, P fs ∧ is_Some (fs !! path)) (writeStaged path parent body) Q X.
Proof.
  intros HX. unfold writeStaged. eapply (triple_bind _ _ _ _ (λ _ fs, P fs ∧ is_Some (fs !! path))).
  { apply triple_refuse; [done|]. intros _ fs [? _]. auto. }
  intros []. eapply triple_bind; [apply (triple_lstat True (λ _ _ _, I) _ _ X); by intros fs [? _]; auto|].
  intros [e|e]; (eapply (triple_bind _ _ _ _ (λ _ _, False)); [|by intros ? ? ?]).
  - destruct e; apply triple_throw; intros fs [[? _] _]; auto.
  - destruct (os_IsNotExist e) eqn:Ee; [|by apply triple_throw; intros fs [[? _] _]; auto].
    apply triple_ret. intros fs [[_ [x Hx]] [[Hn _]|[_ ?]]]; congruence.
Qed.

Lemma staging_added don paths id item body fs :
  id ∉ don.*1 → digest body = rst_SHA256 (pp_state item) → 0 < len body ≤ maxBytes → fs !! staged_at item = None →
  staging don paths fs →
  staging (don ++ [(id, item)]) (<[id := staged_at item]> paths) (<[staged_at item := EFile body]> fs).
Proof.
  intros Hid Hd Hl Hn [Hb Hdir Hp Hf Hu]. rewrite put_insert.
  assert (Hne : ∀ id' item', (id', item') ∈ don → staged_at item ≠ staged_at item').
  { intros id' item' Hin Heq. destruct (Hf id' item' Hin) as (b & Hb' & _). congruence. }
  split.
  - by apply besides_put; [apply below_entry|].
  - rewrite put_ne; [done|]. by intros [=].
  - intros id' path. destruct (decide (id = id')) as [<-|Hne'].
    + rewrite lookup_insert_eq. split; [intros [= <-]; exists item; set_solver|].
      intros (it & [Hin|[= <-]%list_elem_of_singleton]%elem_of_app & ->); [|done].
      destruct Hid. apply list_elem_of_fmap. by exists (id, it).
    + rewrite lookup_insert_ne by done. rewrite (Hp id' path). setoid_rewrite elem_of_app. setoid_rewrite list_elem_of_singleton.
      split; intros (it & Hin & ->); exists it; [auto|]. destruct Hin as [Hin|[= <- _]]; done.
  - intros id' it [Hin|[= -> ->]%list_elem_of_singleton]%elem_of_app.
    + destruct (Hf id' it Hin) as (b & Hbo & ?). exists b. rewrite put_ne by by eapply Hne. done.
    + exists body. by rewrite put_eq.
  - intros i i' it it' [Hin|[= -> ->]%list_elem_of_singleton]%elem_of_app [Hin'|[= -> ->]%list_elem_of_singleton]%elem_of_app Heq; try done.
    + by eapply Hu.
    + symmetry in Heq. by apply (Hne i it) in Heq.
    + by apply (Hne i' it') in Heq.
Qed.

Lemma triple_stage_item don paths id item :
  id ∉ don.*1 → bytes_at maxBytes item →
  triple True (staging don paths) (stage_item maxBytes D paths (id, item)) (λ paths' fs, staging (don ++ [(id, item)]) paths' fs) besides.
Proof.
  intros Hid Hbytes. unfold stage_item. assert (HX : ∀ fs, staging don paths fs → besides fs) by by intros fs [? _ _ _ _].
  eapply (triple_bind _ _ _ _ (λ body fs, (digest body = rst_SHA256 (pp_state item) ∧ 0 < len body ≤ maxBytes) ∧ staging don paths fs)).
  { unfold bytes_at in Hbytes. destruct (pp_body item) as [body|]; [by apply triple_ret|].
    eapply triple_bind.
    { apply triple_attempt, (triple_readManaged True (λ _ _ _, I) _ _ (staging don paths) besides); [done|by left]. }
    intros [body|e]; [|apply triple_throw; intros fs [? _]; auto].
    apply (triple_pre _ _ (λ fs, 0 < len body ≤ maxBytes ∧ staging don paths fs)); [|by intros fs (? & _ & ?)].
    apply triple_pure. intros Hl. eapply triple_bind.
    { apply (triple_refuse _ _ _ _ (λ _ fs, digest body = rst_SHA256 (pp_state item) ∧ staging don paths fs)); [|by intros _ fs Hs; auto].
      intros fs Hs Hd. go_bool. by apply streq_true in Hd. }
    intros []. apply triple_pure. intros Hd. by apply triple_ret. }
  intros body. apply triple_pure. intros [Hd Hl]. change (D ++ [filename (pp_resource item)]) with (staged_at item).
  eapply (triple_bind _ _ _ _ (λ _ fs, staging (don ++ [(id, item)]) (<[id := staged_at item]> paths) fs)); [|by intros []; apply triple_ret].
  apply triple_wrap. eapply triple_pre with (P' := λ fs, (staging don paths fs ∧ is_Some (fs !! staged_at item)) ∨ (staging don paths fs ∧ fs !! staged_at item = None)).
  2: { intros fs Hs. destruct (fs !! staged_at item) eqn:E; [left|right]; by rewrite ?E. }
  apply triple_or; [by apply triple_writeStaged_exists|].
  assert (HsA : stable (temp_of D ".resource-") (λ fs, staging don paths fs ∧ fs !! staged_at item = None)).
  { apply stable_and; [apply staging_stable|]. intros fs q Hq Hn. pose proof (temp_entry item q Hq).
    by rewrite lookup_delete_ne, ?lookup_insert_ne by done; split; [|intros e; rewrite lookup_insert_ne]. }
  apply (triple_writeStaged True (λ _ _ _, I)).
  - exact HsA.
  - apply staging_stable.
  - apply besides_stable, temp_below.
  - done.
  - by intros fs [[] _].
  - by intros fs [_ ?].
  - intros fs [Hs Hn]. by apply staging_added.
  - intros fs [Hs _]. auto.
  - by intros fs [? _ _ _ _].
Qed.

Lemma triple_stage_all (prepared : gmap string preparedResource) :
  (∀ id item, prepared !! id = Some item → bytes_at maxBytes item) →
  triple True (λ fs, besides fs ∧ fs !! D = Some EDir)
    (on_failure (remove_all D) (for_each (stage_item maxBytes D) ∅ (map_to_list prepared)))
    (λ paths fs, staging (map_to_list prepared) paths fs) besides.
Proof.
  intros Hbytes. apply (triple_on_failure True) with (X := besides); [| |done].
  - eapply triple_pre; [apply (triple_for_each True _ (λ don paths fs, staging don paths fs))|].
    + intros don [id item] rest paths Hl. apply triple_stage_item.
      * pose proof (NoDup_fst_map_to_list prepared) as Hnd. rewrite Hl, fmap_app in Hnd. cbn in Hnd.
        apply NoDup_app in Hnd as (_ & Hnd & _). intros Hin. apply (Hnd id Hin). by left.
      * apply (Hbytes id). apply elem_of_map_to_list. rewrite Hl. set_solver.
    + intros fs [Hb Hd]. split; try done.
      * intros id path. split; [by intros [=]|]. intros (? & Hin & _). by apply not_elem_of_nil in Hin.
      * intros id item Hin. by apply not_elem_of_nil in Hin.
      * intros id id' item item' Hin. by apply not_elem_of_nil in Hin.
  - apply (triple_remove_all True (λ _ _ _, I)). by apply besides_stable.
Qed.
End directory.

(** ** [stageDue] *)
(** Nothing changed but what is below some staging directory. *)
Definition contained (fs : Fs) : Prop := ∃ S, has_prefix S stageDirPrefix = true ∧ besides S fs.

Record plan_for (resources : list Resource) (base : stateDocument) (p : Plan) (fs : Fs) : Prop := {
  pf_fresh : coherent p ∧ phase_of p = Pending false;
  pf_base : state_of fs0 = Some base ∧ sd_Version base = 2 ∧ pl_base p = cloneState base;
  (** every enabled resource, and nothing else *)
  pf_states : ∀ id s, pl_resources p !! id = Some s →
    ∃ r, r ∈ resources ∧ r_Enabled r = true ∧ r_ID r = id ∧ state_for (pl_maxBytes p) r s ∧
      pl_paths p !! id = Some (pl_directory p ++ [filename r]);
  pf_all : ∀ r, r ∈ resources → r_Enabled r = true → is_Some (pl_resources p !! r_ID r);
  pf_dom : dom (pl_paths p) = dom (pl_resources p);
  (** unchanged: nothing was staged *)
  pf_unchanged : pl_changed p = false →
    fs = fs0 ∧ pl_stageID p = "" ∧ pl_directory p = home ∧ same_entries (resources_of base) (pl_resources p);
  (** changed: the directory holds bytes with the hashes of the states *)
  pf_changed : pl_changed p = true →
    has_prefix (pl_stageID p) stageDirPrefix = true ∧ pl_directory p = at_home (pl_stageID p) ∧ besides (pl_stageID p) fs ∧
    (∀ id s path, pl_resources p !! id = Some s → pl_paths p !! id = Some path →
      ∃ body, fs !! path = Some (EFile body) ∧ digest body = rst_SHA256 s ∧ 0 < len body ≤ pl_maxBytes p) ∧
    ∀ id id' path, pl_paths p !! id = Some path → pl_paths p !! id' = Some path → id = id'
}.

Lemma reads_stageSnapshot r resources :
  reads (stageSnapshot r resources) (λ '(_, base), registry_validateSnapshot resources = Ok tt ∧ state_of fs0 = Some base ∧ sd_Version base = 2).
Proof.
  unfold stageSnapshot. eapply reads_bind; [apply reads_lift|]. intros [] Hv. eapply reads_bind.
  { unfold current_manifest. eapply reads_bind; [apply reads_manifest|]. intros d Hd. eapply reads_bind; [apply reads_refuse|].
    intros [] _. apply reads_ret. exact Hd. }
  intros base Hb. eapply reads_bind; [apply reads_refuse|]. intros [] Hv2. eapply reads_bind; [apply reads_only, read_only_ensureRoot|].
  intros [] _. apply reads_ret. go_bool. done.
Qed.

Lemma state_of_valid fs d : state_of fs = Some d → validateStateDocument d = Ok tt.
Proof.
  unfold state_of. destruct (fs !! state_path) as [[body| |]|]; [|done..|].
  - destruct (_ <? _); [done|]. destruct (json_document body) as [d'|]; [|done].
    destruct (validateStateDocument d') as [[]|] eqn:Hv; [|done]. by intros [= <-].
  - intros [= <-]. reflexivity.
Qed.

Lemma same_generation_entries (next : gmap string preparedResource) (active : gmap string resourceState) :
  sameResourceGeneration next active = true → same_entries active (pp_state <$> next).
Proof.
  unfold sameResourceGeneration. intros [Hsz Hall]%andb_true_iff. go_bool. rewrite forallb_forall in Hall.
  assert (Hin : ∀ id item, next !! id = Some item → ∃ s, active !! id = Some s ∧ rst_SHA256 s = rst_SHA256 (pp_state item) ∧
    sameResourceState s (pp_state item) = true).
  { intros id item Hi. specialize (Hall (id, item)). cbn in Hall. destruct (active !! id) as [s|].
    - exists s. split; [done|]. rewrite andb_true_iff, streq_true in Hall. apply Hall, list_elem_of_In. by apply elem_of_map_to_list.
    - enough (false = true) by done. apply Hall, list_elem_of_In. by apply elem_of_map_to_list. }
  assert (Hdom : dom next = dom active).
  { apply set_eq. assert (dom next ⊆ dom active) as Hsub.
    { intros id [item Hi]%elem_of_dom. destruct (Hin id item Hi) as (s & Hs & _). apply elem_of_dom. eauto. }
    intros id. split; [apply Hsub|]. intros Hid. destruct (decide (id ∈ dom next)) as [|Hn]; [done|]. exfalso.
    assert (dom next ⊂ dom active) as Hlt%subset_size by set_solver. rewrite !size_dom in Hlt. lia. }
  intros id. rewrite lookup_fmap. destruct (next !! id) as [item|] eqn:Hi; cbn.
  - destruct (Hin id item Hi) as (s & -> & ?). done.
  - destruct (active !! id) eqn:Ha; [|done]. apply not_elem_of_dom in Hi. apply Hi. rewrite Hdom. apply elem_of_dom. eauto.
Qed.

(** A staging directory gets a random name. *)
Lemma triple_makeStageDir :
  triple True (λ fs, fs = fs0) (makePrivateDir home stageDirPrefix)
    (λ dir fs, ∃ S, (has_prefix S stageDirPrefix = true ∧ dir = at_home S) ∧ besides S fs ∧ fs !! at_home S = Some EDir) (λ fs, fs = fs0).
Proof.
  unfold makePrivateDir. eapply triple_bind; [by apply (triple_random True (λ _ _ _, I))|]. intros id.
  eapply triple_pre with (P' := λ fs, fs = fs0); [|by intros fs [? _]].
  set (S := stageDirPrefix +:+ id). change (home ++ [S]) with (at_home S).
  eapply (triple_bind _ _ _ _ (λ _ fs, besides S fs ∧ fs !! at_home S = Some EDir)).
  { apply triple_step; [done| |done]. intros fs ->. destruct (fs0 !! at_home S); [done|].
    destruct (fs0 !! dir_of (at_home S)) as [[]|]; try done. split; [|apply lookup_insert_eq].
    intros q Hq. rewrite lookup_insert_ne; [done|]. intros <-. unfold below in Hq. cbn in Hq. by rewrite bool_decide_eq_true_2 in Hq. }
  intros []. apply triple_ret. intros fs Hf. exists S. split; [|done]. split; [|done]. apply has_prefix_spec. by exists id.
Qed.

Lemma contained_start fs : fs = fs0 → contained fs.
Proof. intros ->. exists stageDirPrefix. by split; [vm_compute|]. Qed.

Lemma plan_for_unchanged resources maxBytes base m :
  state_of fs0 = Some base → sd_Version base = 2 → items_of maxBytes resources m → covers resources m →
  sameResourceGeneration m (resources_of base) = true →
  plan_for resources base (new_plan home "" maxBytes base false ((λ item, home ++ [filename (pp_resource item)]) <$> m) m) fs0.
Proof.
  intros Hst Hv Hi Hc Hsame. split.
  - apply new_plan_fresh.
  - done.
  - cbn. intros id s. rewrite lookup_fmap. destruct (m !! id) as [item|] eqn:E; [|done]. intros [= <-].
    destruct (Hi id item E) as (r & Hr & Hen & Hid & Hpr & Hs & _). exists r. split_and!; try done.
    rewrite lookup_fmap, E. cbn. by rewrite Hpr.
  - cbn. intros r Hr Hen. rewrite lookup_fmap, fmap_is_Some. by apply Hc.
  - cbn. by rewrite !dom_fmap_L.
  - cbn. intros _. split_and!; [done..|]. by apply same_generation_entries.
  - done.
Qed.

Lemma plan_for_changed resources maxBytes base m S paths fs :
  state_of fs0 = Some base → sd_Version base = 2 → items_of maxBytes resources m → covers resources m →
  has_prefix S stageDirPrefix = true → staging maxBytes S (map_to_list m) paths fs →
  plan_for resources base (new_plan (at_home S) (base_of (at_home S)) maxBytes base true paths m) fs.
Proof.
  intros Hst Hv Hi Hc HS [Hb Hd Hp Hf Hu].
  assert (Hpath : ∀ id item, m !! id = Some item → paths !! id = Some (staged_at S item)).
  { intros id item Hit. apply Hp. exists item. split; [by apply elem_of_map_to_list|done]. }
  split.
  - apply new_plan_fresh.
  - done.
  - cbn. intros id s. rewrite lookup_fmap. destruct (m !! id) as [item|] eqn:E; [|done]. intros [= <-].
    destruct (Hi id item E) as (r & Hr & Hen & Hid & Hpr & Hs & _). exists r. split_and!; try done.
    rewrite (Hpath id item E). unfold staged_at. by rewrite Hpr.
  - cbn. intros r Hr Hen. rewrite lookup_fmap, fmap_is_Some. by apply Hc.
  - cbn. apply set_eq. intros id. rewrite dom_fmap, !elem_of_dom. split.
    + intros [path (item & Hin%elem_of_map_to_list & _)%Hp]. eauto.
    + intros [item Hit]. rewrite (Hpath id item Hit). eauto.
  - done.
  - cbn. intros _. split_and!; [done|done|done| |].
    + intros id s path. rewrite lookup_fmap. destruct (m !! id) as [item|] eqn:E; [|done]. intros [= <-].
      rewrite (Hpath id item E). intros [= <-]. apply (Hf id). by apply elem_of_map_to_list.
    + intros id id' path (item & Hin & ->)%Hp (item' & Hin' & Heq)%Hp. by eapply Hu.
Qed.

Lemma runs_stageDue resources route due :
  runs (λ fs, fs = fs0) (stageDue (N := N) resources route due)
    (λ p fs, registry_validateSnapshot resources = Ok tt ∧ ∃ base, plan_for resources base p fs) contained.
Proof.
  unfold stageDue. pose proof (contained_start fs0 eq_refl) as Hc0.
  eapply runs_bind; [apply runs_quiet; [apply quiet_check_context|done]|]. intros []. apply runs_fact. intros _.
  eapply runs_bind; [apply (runs_quiet fs0 _ (λ _, True)); [by intros s w Hw|done]|]. intros s. apply runs_fact. intros _.
  eapply runs_bind; [apply runs_quiet; [apply quiet_io, reads_stageSnapshot|done]|]. intros [maxBytes base].
  apply runs_fact. intros (Hsnap & Hst & Hv2). cbn zeta.
  eapply runs_bind; [apply runs_quiet; [apply quiet_prepareResources|done]|].
  { by eapply state_of_valid. }
  intros m. apply runs_fact. intros [Hi Hc]. destruct (sameResourceGeneration m (resources_of base)) eqn:Hsame.
  { apply runs_ret. intros fs ->. split; [done|]. exists base. by apply plan_for_unchanged. }
  eapply runs_bind.
  { eapply runs_weaken; [apply runs_io, triple_wrap, triple_makeStageDir|done|intros a fs Hf; exact Hf|apply contained_start]. }
  intros dir. apply runs_exists. intros S. apply runs_fact. intros [HS ->]. eapply runs_bind.
  { eapply runs_weaken; [apply runs_io, (triple_stage_all maxBytes S HS)|done|intros a fs Hf; exact Hf|].
    - intros id item Hit. by destruct (Hi id item Hit) as (r & _ & _ & _ & _ & _ & ?).
    - intros fs Hb. by exists S. }
  intros paths. apply runs_ret. intros fs Hf. split; [done|]. exists base. by apply plan_for_changed.
Qed.

Lemma runs_StageDue resources route dueIDs :
  runs (λ fs, fs = fs0) (StageDue (N := N) resources route dueIDs)
    (λ p fs, registry_validateSnapshot resources = Ok tt ∧ ∃ base, plan_for resources base p fs) contained.
Proof.
  unfold StageDue. pose proof (contained_start fs0 eq_refl) as Hc0.
  eapply runs_bind; [apply (runs_quiet fs0 _ (λ _, True)); [by apply quiet_pure|done]|]. intros []. apply runs_fact. intros _.
  eapply runs_bind; [apply (runs_quiet fs0 _ (λ _, True)); [by apply quiet_pure|done]|]. intros []. apply runs_fact. intros _.
  apply runs_stageDue.
Qed.

(** ** The manifest a plan commits *)
Lemma manifestNames_total d :
  (∀ id s, resources_of d !! id = Some s → is_ok (ValidateDeclaration (resource_at id s)) = true) →
  (∀ id id' s s', resources_of d !! id = Some s → resources_of d !! id' = Some s' →
     resourceFilename id s = resourceFilename id' s' → id = id') →
  ∃ names, manifestNames d = Ok names.
Proof.
  intros Hdecl Huniq. unfold manifestNames. pose proof (NoDup_fst_map_to_list (resources_of d)) as Hnd.
  destruct (fold_each_total (λ don (m : gmap string string), ∀ name, is_Some (m !! name) → ∃ id s, (id, s) ∈ don ∧ name = resourceFilename id s)
    add_name (map_to_list (resources_of d)) ∅) as (names & Hn & _); [| |by exists names].
  - intros name [x Hx]. by rewrite lookup_empty in Hx.
  - intros don [id s] rest m Hl Hm.
    assert (Hin : resources_of d !! id = Some s) by (apply elem_of_map_to_list; rewrite Hl; set_solver).
    unfold add_name. cbn [fst snd]. pose proof (Hdecl id s Hin) as Hd. destruct (ValidateDeclaration _); [|done].
    rewrite bool_decide_eq_false_2.
    + eexists. split; [reflexivity|]. intros name [Heq|[_ Hs]]%lookup_insert_is_Some.
      * exists id, s. split; [set_solver|]. by rewrite <- Heq.
      * destruct (Hm name Hs) as (i & s' & ? & ?). exists i, s'. split; [set_solver|done].
    + intros (i & s' & Hi & Heq)%Hm.
      assert (Hin' : resources_of d !! i = Some s') by (apply elem_of_map_to_list; rewrite Hl; set_solver).
      pose proof (Huniq _ _ _ _ Hin Hin' Heq) as <-. rewrite Hl, fmap_app in Hnd. apply NoDup_app in Hnd as (_ & Hnd & _).
      apply (Hnd id); [|set_solver]. apply list_elem_of_fmap. by exists (id, s').
Qed.

(** An entry stands for its resource. *)
Lemma declared_at r s : resourceStateMatches r s = true →
  ValidateDeclaration (resource_at (r_ID r) s) = ValidateDeclaration r ∧ resourceFilename (r_ID r) s = filename r.
Proof.
  unfold resourceStateMatches, sameResourceState. cbn. rewrite !andb_true_iff, !streq_true. intros [[Hk Hf] Ht].
  unfold ValidateDeclaration, resourceFilename, filename, ManagedFilename. cbn. by rewrite <- Hk, <- Hf, <- Ht.
Qed.
Lemma validate_declared r body : is_ok (ValidateResource r body) = true → is_ok (ValidateDeclaration r) = true.
Proof. unfold ValidateResource. by destruct (ValidateDeclaration r). Qed.
Lemma declared_id r : is_ok (ValidateDeclaration r) = true → ValidStableID (r_ID r) = true.
Proof. unfold ValidateDeclaration. by destruct (ValidStableID (r_ID r)). Qed.

Lemma digest_not_empty body : streq (digest body) "" = false.
Proof. apply streq_false. intros Heq. destruct (digest_hex body) as [Hl _]. by rewrite Heq in Hl. Qed.

Lemma state_for_entry maxBytes r s : state_for maxBytes r s → is_ok (check_state_entry (r_ID r, s)) = true.
Proof.
  intros [Hd Hsrc _ [He Hm] (body & Hsha & _ & Hv)]. destruct (declared_at r s Hd) as [Hdecl _].
  pose proof (validate_declared _ _ Hv) as Hok. unfold check_state_entry. rewrite (declared_id r Hok). cbn [negb orb].
  rewrite <- Hsha, Hsrc. unfold source_hash. destruct (digest_hex body) as [-> ->], (digest_hex (bytes_of (r_URL r))) as [-> ->].
  rewrite digest_not_empty, (proj2 (Z.ltb_ge _ _) He), (proj2 (Z.ltb_ge _ _) Hm). cbn. rewrite Hdecl. by destruct (ValidateDeclaration r).
Qed.

Lemma plan_names_unique resources base p fs id id' s s' :
  plan_for resources base p fs → pl_resources p !! id = Some s → pl_resources p !! id' = Some s' →
  resourceFilename id s = resourceFilename id' s' → id = id'.
Proof.
  intros Hp Hs Hs' Heq. destruct (pf_states _ _ _ _ Hp id s Hs) as (r & _ & _ & <- & Hr & Hpath).
  destruct (pf_states _ _ _ _ Hp id' s' Hs') as (r' & _ & _ & <- & Hr' & Hpath').
  destruct (pl_changed p) eqn:Hch.
  - rewrite (proj2 (declared_at _ _ (sf_declared _ _ _ Hr))), (proj2 (declared_at _ _ (sf_declared _ _ _ Hr'))) in Heq.
    rewrite <- Heq in Hpath'. destruct (pf_changed _ _ _ _ Hp Hch) as (_ & _ & _ & _ & Hu). by eapply Hu.
  - destruct (pf_unchanged _ _ _ _ Hp Hch) as (_ & _ & _ & Hsame).
    destruct (pf_base _ _ _ _ Hp) as (Hst & _ & _). pose proof (state_of_valid _ _ Hst) as Hv.
    destruct (valid_names _ Hv) as [names Hn%manifestNames_exact].
    pose proof (Hsame (r_ID r)) as Hr1. pose proof (Hsame (r_ID r')) as Hr2. rewrite Hs in Hr1. rewrite Hs' in Hr2.
    destruct (resources_of base !! r_ID r) as [b|] eqn:Hb; [|done]. destruct (resources_of base !! r_ID r') as [b'|] eqn:Hb'; [|done].
    eapply (names_exact_unique base names); [done|done|done|]. unfold resourceFilename in *.
    by rewrite (same_state_filename _ b s), (same_state_filename _ b' s') by (apply Hr1 || apply Hr2).
Qed.

Lemma plan_document_valid resources base p fs commitID :
  plan_for resources base p fs → hex_of_width 32 commitID = true →
  validateStateDocument (commit_document p commitID) = Ok tt.
Proof.
  intros Hp Hid. unfold validateStateDocument. cbn [commit_document sd_Version sd_CommitID sd_Generation sd_Resources].
  assert (Hne : streq commitID "" = false).
  { apply streq_false. intros ->. by vm_compute in Hid. }
  rewrite Hid, Hne. rewrite !andb_false_r. cbn -[map_to_list].
  assert (Hall : each check_state_entry (map_to_list (pl_resources p)) = Ok tt).
  { apply each_ok. intros [id s] Hin%elem_of_map_to_list.
    destruct (pf_states _ _ _ _ Hp id s Hin) as (r & _ & _ & <- & Hr & _). by eapply state_for_entry. }
  change (resources_of (commit_document p commitID)) with (pl_resources p). rewrite Hall. cbn -[map_to_list].
  destruct (manifestNames_total (commit_document p commitID)) as [names ->]; [| |done].
  - intros id s Hs. destruct (pf_states _ _ _ _ Hp id s Hs) as (r & _ & _ & <- & [Hd _ _ _ (body & _ & _ & Hv)] & _).
    rewrite (proj1 (declared_at r s Hd)). by eapply validate_declared.
  - intros id id' s s' Hs Hs' Heq. by eapply plan_names_unique.
Qed.

(** ** From staging to commitment *)
(** What a commit needs besides: a tidy home, and documents that JSON can carry. *)
Record tidy (base : stateDocument) (p : Plan) (fs : Fs) : Prop := {
  td_home : fs0 !! home = Some EDir;
  td_idle : fs0 !! journal_path = None;
  td_tree : ∀ q q', fs !! q = None → below q q' = true → fs !! q' = None;
  td_max : 0 < pl_maxBytes p;
  td_size : ∀ t, len (ordered_names (names_or_empty base) (names_or_empty (commit_document p (random_id t)))) ≤ 2 ^ 32;
  td_base : json_plain base = true ∧ ∃ body, json_marshal base = Ok body ∧ len body ≤ maxStateBytes;
  td_document : ∀ t, json_plain (commit_document p (random_id t)) = true ∧
    ∃ body, json_marshal (commit_document p (random_id t)) = Ok body ∧ len body ≤ maxStateBytes;
  td_plain : ∀ J : transactionJournal,
    validateJournal J = Ok tt → json_plain (tj_Previous J) = true → json_plain (tj_Candidate J) = true → json_plain J = true;
  td_accepted : ∀ (J : transactionJournal) body, tj_Phase J = "promoting" → json_marshal J = Ok body → len body ≤ maxStateBytes →
    ∃ body', json_marshal (with_phase J "accepted") = Ok body' ∧ len body' ≤ maxStateBytes
}.

(** The tree staging leaves is the one it found, but for its own directory. *)
Lemma plan_tree resources base p fs q :
  plan_for resources base p fs → (∀ S, has_prefix S stageDirPrefix = true → below (at_home S) q = false) → fs !! q = fs0 !! q.
Proof.
  intros Hp Hq. destruct (pl_changed p) eqn:Hch.
  - destruct (pf_changed _ _ _ _ Hp Hch) as (HS & _ & Hb & _). by apply Hb, Hq.
  - by destruct (pf_unchanged _ _ _ _ Hp Hch) as [-> _].
Qed.
Lemma not_staged name S : has_prefix S stageDirPrefix = true → has_prefix name stageDirPrefix = false → below (at_home S) (at_home name) = false.
Proof. intros HS Hn. unfold below. cbn. apply bool_decide_eq_false. intros [= ->]. congruence. Qed.

Lemma hex32_random t : hex_of_width 32 (random_id t) = true.
Proof. unfold hex_of_width. by destruct (random_id_hex t) as [-> ->]. Qed.

Lemma plan_committable resources base p fs r :
  plan_for resources base p fs → tidy base p fs → rg_maxBytes r = pl_maxBytes p → (∀ t m n, faults t OpLstat ≠ Fails m n) →
  committable r p fs base.
Proof.
  intros Hp [Hhome Hidle Htree Hmax Hsize [Hbp Hbm] Hdoc Hplain Hacc] Hr Hsure.
  destruct (pf_base _ _ _ _ Hp) as (Hst & Hv2 & Hbase). pose proof (state_of_valid _ _ Hst) as Hbv.
  split; [|split; [by rewrite Hbase|done]]. intros t. split.
  - by rewrite (plan_tree _ _ _ _ _ Hp).
  - rewrite (plan_tree _ _ _ _ journal_path Hp); [done|]. intros S HS. by apply not_staged.
  - done.
  - rewrite (state_of_same fs0); [done|]. apply (plan_tree _ _ _ _ _ Hp). intros S HS. by apply not_staged.
  - by split_and!.
  - destruct (Hdoc t). split_and!; [done| |done]. eapply plan_document_valid; [done|apply hex32_random].
  - by rewrite Hr.
  - apply Hsize.
  - intros id path Hpath. destruct (pl_changed p) eqn:Hch; [|by rewrite lookup_empty in Hpath].
    destruct (pf_changed _ _ _ _ Hp Hch) as (HS & HD & _). assert (Hid : is_Some (pl_resources p !! id)).
    { apply elem_of_dom. rewrite <- (pf_dom _ _ _ _ Hp). apply elem_of_dom. eauto. }
    destruct Hid as [s Hs]. destruct (pf_states _ _ _ _ Hp id s Hs) as (r' & _ & _ & _ & _ & Hpath').
    rewrite Hpath in Hpath'. injection Hpath' as ->. rewrite HD. by exists (pl_stageID p), (filename r').
  - done.
  - done.
Qed.



End staging.
