(* ===== verification/ResourceClient.v ===== *)
(** * The registry's client

    download's [Client] keeps the promise that staging needs of a downloader; a
    refresh through it, from the request to the accepted files. *)
From Stdlib Require Import Ascii.
From S2P Require Import Prelude GoStrings GoNet GoSort GoJson GoFs ConfigTypes ConfigValidate Download DownloadFacts ResourceValidate ResourceStore ResourceTransaction ResourceRegistry ResourcePlan ResourcePlanLife FsLogic ResourceStoreFacts ResourceJournal ResourceStates ResourceAtomicity ResourceMetadata ResourceCommit ResourceStaging.
Open Scope Z_scope.

#[refine, export] Instance client_downloader `{GoNet} `{GoHttp} : Downloader Net := {|
  dl_cancelled n := (ctx_done (nt_checks n), mkNet (nt_sent n) (S (nt_checks n)));
  dl_fetch := Fetch
|}.
Proof. intros req n response n' Hf%Fetch_response_bounded. by destruct Hf as [? _]. Defined.

(** ** A refresh
    The home of ResourceAtomicity's scenario; its database has new bytes upstream. *)
Definition upstream : URL := https_url "one.example" "/geoip.dat".
Definition upstream_urls : GoNet := table_net [("https://one.example/geoip.dat", upstream)] [] [].
Definition upstream_transport : GoHttp := {|
  transport_factory := Some (λ _, Ok true);
  capture_errors := false;
  http_do sent q := Some (mkHttpResponse 200 (λ name, if streq name "ETag" then "tag" else "") [Chunk (bytes_of "newer!")] false);
  ctx_done n := false;
  request_ok u := true;
  url_resolve base next := next;
  lower_text s := s;
  is_print r := true
|}.
Definition no_locals : LocalFiles := {| local_lstat t p := Err ENotExist; local_content t p := Err ENotExist; unix_now t := 1000 |}.
Definition upstream_resource : Resource := mkResource "geo" ResourceGeoIP FormatDAT "" "https://one.example/geoip.dat" true 0 "".
Definition upstream_snapshot : list Resource := [upstream_resource].

#[local] Existing Instance example_hash.
#[local] Existing Instance example_parsers.
#[local] Existing Instance calm_os.
#[local] Existing Instance upstream_urls.
#[local] Existing Instance upstream_transport.
#[local] Existing Instance no_locals.

Definition idle_staging : Staging (N := Net) := mkStaging example_registry (mkNet [] 0).
(** Without the staging directory of the first scenario. *)
Definition clean_fs : Fs := filter (λ p, below example_stage p.1 = false) example_fs.
Definition clean_start : World := mkWorld 0 clean_fs.

(** A first run tells which documents there will be. *)
Section foresight.
#[local] Existing Instance example_documents.
#[local] Existing Instance example_journals.
Definition foreseen_plan : Plan :=
  value_of (example_plan false) (StageDue upstream_snapshot "direct" ["geo"] idle_staging clean_start).
End foresight.
Definition new_document : stateDocument := commit_document foreseen_plan (hex_zeros 32).
Definition new_journal : transactionJournal :=
  journal_of 64 example_prev new_document (example_names example_prev) (example_names new_document) example_dir.
Definition new_documents : JsonCodec stateDocument := table_codec [example_prev; new_document].
Definition new_journals : JsonCodec transactionJournal := table_codec [new_journal; with_phase new_journal "accepted"].
#[local] Existing Instance new_documents.
#[local] Existing Instance new_journals.

Definition staged_run : outcome (result plan_error Plan * Staging) * World :=
  StageDue upstream_snapshot "direct" ["geo"] idle_staging clean_start.
Definition staged_plan : Plan := value_of (example_plan false) staged_run.

Lemma staged_ok :
  StageDue upstream_snapshot "direct" ["geo"] idle_staging clean_start =
    (Done (Ok staged_plan, session_of idle_staging staged_run), staged_run.2).
Proof. refine (run_result staged_run (example_plan false) idle_staging _). by vm_compute. Qed.



Lemma clean_tidy base : state_of clean_fs = Some base → tidy clean_fs base staged_plan (w_fs staged_run.2).
Proof.
  intros Hb. assert (base = example_prev) as ->.
  { assert (state_of clean_fs = Some example_prev) as Hs by by vm_compute. congruence. }
  split.
  - by vm_compute.
  - by vm_compute.
  - apply rooted_tree. by vm_compute.
  - by vm_compute.
  - intros t. by vm_compute.
  - split; [done|]. exists (bytes_of "x"). split; by vm_compute.
  - intros t. split; [done|]. exists (bytes_of "xx"). split; by vm_compute.
  - done.
  - intros J body Hph Hm Hl. exists (bytes_of "xx"). split; [|by vm_compute].
    exact (table_accepts new_journal J body eq_refl Hph Hm).
Qed.


(** The whole refresh: afterwards the home holds the new bytes. *)
Definition refresh (p : Plan) (w : World) : outcome (result plan_error unit * Session) * World :=
  (ValidateResources ≫= λ _, Commit ≫= λ _, Finalize) (mkSession example_registry (Some p)) w.
Example refresh_installs :
  let r := refresh staged_plan staged_run.2 in
  run_ok r = true ∧ w_fs r.2 !! at_home "geoip.dat" = Some (EFile (bytes_of "newer!")) ∧ w_fs r.2 !! journal_path = None ∧
  w_fs r.2 !! pl_directory staged_plan = None.
Proof. by vm_compute. Qed.
