(* ===== verification/Filters.v ===== *)
(** * filters/registry.go: rule providers and the rules that use them

    [filters_Build] binds the enabled rule resources and filters to managed files.
    The answers of [os.Lstat] are a parameter: a symbolic link, a regular file. *)
From Stdlib Require Import Ascii.
From S2P Require Import Prelude GoTime GoSort GoStrings GoPath ConfigTypes ResourceValidate Dns GoFs ResourceStore.
Open Scope Z_scope.
Open Scope go_scope.

Record Provider := mkProvider {
  pv_Name : string; pv_ID : string; pv_Path : string; pv_Behavior : string; pv_Format : string
}.
Record Reference := mkReference {
  rf_FilterID : string; rf_ResourceID : string; rf_Provider : string; rf_Target : string
}.
Record FilterRegistry := mkFilterRegistry {
  fr_providers : list Provider;
  fr_byID : gmap string Provider;
  fr_references : list Reference;
  fr_byFilter : gmap string Reference
}.

Definition validTarget (target : string) : bool :=
  negb (streq target "") && streq (trim_space target) target &&
  forallb (λ c, negb (bool_decide (c ∈ [byte 44; byte 13; byte 10; byte 9; byte 0]))) (bytes_of target).

Definition rule_kind (kind : string) : bool := streq kind ResourceRuleProvider || streq kind ResourceRuleSet.

Section filters.
Context `{GoSort} `{GoHash}.
Context (lstat : string → option (bool * bool)).

(** What the loop over the resources has so far. *)
Record providing := mkProviding {
  pg_registry : FilterRegistry; pg_resources : gmap string Resource; pg_home : string
}.
Definition add_provider (g : FilterRegistry) (p : Provider) : FilterRegistry :=
  mkFilterRegistry (fr_providers g ++ [p]) (<[pv_ID p := p]> (fr_byID g)) (fr_references g) (fr_byFilter g).
Definition provide (managedPaths : gmap string string) (b : providing) (r : Resource) : result string providing :=
  fail_if negb (ValidStableID (r_ID r)) with "filters: invalid resource ID";
  fail_if bool_decide (is_Some (pg_resources b !! r_ID r)) with "filters: duplicate resource ID";
  let resources := <[r_ID r := r]> (pg_resources b) in
  if negb (r_Enabled r) || negb (rule_kind (r_Kind r)) then Ok (mkProviding (pg_registry b) resources (pg_home b)) else
  match ValidateDeclaration r with
  | Err _ => Err "filters: resource has invalid declaration"
  | Ok _ =>
      let path := default "" (managedPaths !! r_ID r) in
      fail_if streq path "" || negb (filepath_is_abs path) || negb (streq (filepath_base path) (ManagedFilename r))
        with "filters: resource has no registry destination";
      fail_if negb (streq (pg_home b) "") && negb (streq (filepath_dir path) (pg_home b))
        with "filters: rule resources do not share one managed home";
      let home := if streq (pg_home b) "" then filepath_dir path else pg_home b in
      fail_if match lstat path with Some (symlink, regular) => symlink || negb regular | None => true end
        with "filters: resource path is not a regular managed file";
      let provider := mkProvider (provider_name (r_ID r)) (r_ID r) path (r_RuleType r) (r_Format r) in
      Ok (mkProviding (add_provider (pg_registry b) provider) resources home)
  end.

(** What the loop over the filters has so far. *)
Record referring := mkReferring { rg_registry : FilterRegistry; rg_seen : gset string }.
Definition add_reference (g : FilterRegistry) (r : Reference) : FilterRegistry :=
  mkFilterRegistry (fr_providers g) (fr_byID g) (fr_references g ++ [r]) (<[rf_FilterID r := r]> (fr_byFilter g)).
Definition refer (resources : gmap string Resource) (b : referring) (f : Filter) : result string referring :=
  fail_if negb (ValidStableID (fl_ID f)) with "filters: invalid filter ID";
  fail_if bool_decide (fl_ID f ∈ rg_seen b) with "filters: duplicate filter ID";
  let seen := {[fl_ID f]} ∪ rg_seen b in
  fail_if negb (validTarget (fl_Target f)) with "filters: filter has invalid target";
  if negb (fl_Enabled f) then Ok (mkReferring (rg_registry b) seen) else
  match fr_byID (rg_registry b) !! fl_Resource f, resources !! fl_Resource f with
  | Some provider, Some r =>
      fail_if negb (streq (fl_Format f) (r_Format r)) with "filters: filter requires an enabled compatible rule resource";
      let reference := mkReference (fl_ID f) (r_ID r) (pv_Name provider) (fl_Target f) in
      Ok (mkReferring (add_reference (rg_registry b) reference) seen)
  | _, _ => Err "filters: filter requires an enabled compatible rule resource"
  end.

Definition empty_registry : FilterRegistry := mkFilterRegistry [] ∅ [] ∅.
Definition filters_Build (s : Snapshot) (managedPaths : gmap string string) : result string FilterRegistry :=
  fold_each (provide managedPaths) (mkProviding empty_registry ∅ "") (cs_Resources s) ≫= λ b,
  fold_each (refer (pg_resources b)) (mkReferring (pg_registry b) ∅) (cs_Filters s) ≫= λ b,
  let g := rg_registry b in
  Ok (mkFilterRegistry (sort_slice (λ p q, string_ltb (pv_Name p) (pv_Name q)) (fr_providers g))
    (fr_byID g) (fr_references g) (fr_byFilter g)).

(** The methods of a registry that is not nil. *)
Definition RuleSetReference (g : FilterRegistry) (filterID : string) : result string string :=
  match fr_byFilter g !! filterID with
  | Some r => Ok ("RULE-SET," +:+ rf_Provider r +:+ "," +:+ rf_Target r)
  | None => Err "filters: filter is not enabled"
  end.
Definition DNSRuleSetKey (g : FilterRegistry) (resourceID : string) : result string string :=
  match fr_byID g !! resourceID with
  | Some p => fail_if negb (streq (pv_Behavior p) RuleDomain) with "filters: resource is not an enabled domain rule-set";
              Ok ("rule-set:" +:+ pv_Name p)
  | None => Err "filters: resource is not an enabled domain rule-set"
  end.
End filters.

(** ** Correctness of filters/registry.go

    What [filters_Build] accepts and returns, as a function of the configuration;
    the loops carry it one resource and one filter at a time. *)
(** ** The directory of an absolute path *)
Lemma from_slash_end r : ∃ k, from_slash (r ++ [slash]) = k ++ [slash].
Proof.
  induction r as [|c r [k IH]]; cbn; [by exists []|]. case_bool_decide; [by exists (c :: r)|]. by exists k.
Qed.
Lemma filepath_dir_nonempty path : filepath_is_abs path = true → filepath_dir path ≠ "".
Proof.
  unfold filepath_is_abs, filepath_dir, is_rooted. destruct (bytes_of path) as [|c l]; [done|]. intros ->%bool_decide_eq_true.
  cbn [rev]. destruct (from_slash_end (rev l)) as [k ->]. rewrite rev_app_distr. cbn. intros E%(f_equal bytes_of).
  rewrite bytes_of_bytes in E. unfold clean_bytes in E. cbn [is_rooted] in E. by rewrite bool_decide_true in E by done.
Qed.

(** [insertion_sort_perm] for the sort of the library. *)
Lemma elem_of_sort_slice `{GoSort} {A} (less : A → A → bool) l x : x ∈ sort_slice less l ↔ x ∈ l.
Proof. by rewrite sort_slice_perm. Qed.

Section facts.
Context `{GoSort} `{GoHash}.
Context (lstat : string → option (bool * bool)) (managedPaths : gmap string string).

(** The rule resources in use, and the provider of one. *)
Definition provides (r : Resource) : Prop := r_Enabled r = true ∧ rule_kind (r_Kind r) = true.
#[global] Instance provides_dec r : Decision (provides r) := _.
Definition path_of (id : string) : string := default "" (managedPaths !! id).
Definition provider_of (r : Resource) : Provider :=
  mkProvider (provider_name (r_ID r)) (r_ID r) (path_of (r_ID r)) (r_RuleType r) (r_Format r).
(** A resource whose file may serve rules. *)
Record servable (r : Resource) : Prop := {
  sv_declared : is_ok (ValidateDeclaration r) = true;
  sv_absolute : filepath_is_abs (path_of (r_ID r)) = true;
  sv_named : filepath_base (path_of (r_ID r)) = ManagedFilename r;
  sv_regular : lstat (path_of (r_ID r)) = Some (false, true)
}.
(** The reference of an enabled filter. *)
Definition reference_of (f : Filter) : Reference :=
  mkReference (fl_ID f) (fl_Resource f) (provider_name (fl_Resource f)) (fl_Target f).
Definition usable (resources : list Resource) (f : Filter) : Prop :=
  ∃ r, r ∈ resources ∧ r_ID r = fl_Resource f ∧ provides r ∧ r_Format r = fl_Format f.

Record providing_inv (don : list Resource) (b : providing) : Prop := {
  pi_valid : Forall (λ r, ValidStableID (r_ID r) = true) don;
  pi_unique : NoDup (r_ID <$> don);
  pi_resources : ∀ id r, pg_resources b !! id = Some r ↔ r ∈ don ∧ r_ID r = id;
  pi_providers : fr_providers (pg_registry b) = provider_of <$> filter provides don;
  pi_byID : ∀ id p, fr_byID (pg_registry b) !! id = Some p ↔ p ∈ fr_providers (pg_registry b) ∧ pv_ID p = id;
  pi_servable : Forall servable (filter provides don);
  pi_home : ∀ p, p ∈ fr_providers (pg_registry b) → pg_home b ≠ "" ∧ filepath_dir (pv_Path p) = pg_home b;
  pi_references : fr_references (pg_registry b) = [];
  pi_byFilter : fr_byFilter (pg_registry b) = ∅
}.

(** The checks of one resource, inverted. *)
Lemma provide_ok b r b' :
  provide lstat managedPaths b r = Ok b' →
  ValidStableID (r_ID r) = true ∧ pg_resources b !! r_ID r = None ∧ pg_resources b' = <[r_ID r := r]> (pg_resources b) ∧
  if decide (provides r)
  then servable r ∧ pg_registry b' = add_provider (pg_registry b) (provider_of r) ∧
       pg_home b' = filepath_dir (path_of (r_ID r)) ∧ (pg_home b = "" ∨ pg_home b = pg_home b')
  else pg_registry b' = pg_registry b ∧ pg_home b' = pg_home b.
Proof.
  unfold provide. destruct (ValidStableID (r_ID r)) eqn:Hv; cbn [negb]; [|done].
  case_bool_decide as Hn; [done|]. apply eq_None_not_Some in Hn.
  destruct (negb (r_Enabled r) || negb (rule_kind (r_Kind r))) eqn:Hk.
  { intros [= <-]. cbn. split_and!; [done..|]. rewrite decide_False; [done|]. intros [He Hr]. by rewrite He, Hr in Hk. }
  apply orb_false_iff in Hk as [He%negb_false_iff Hr%negb_false_iff].
  destruct (ValidateDeclaration r) eqn:Hd; [|done]. fold (path_of (r_ID r)).
  destruct (streq (path_of (r_ID r)) "" || _ || _) eqn:Hp; [done|]. destruct (negb (streq (pg_home b) "") && _) eqn:Hh; [done|].
  destruct (match lstat _ with Some _ => _ | None => true end) eqn:Hl; [done|]. intros [= <-]. cbn. rewrite decide_True by done.
  go_bool. split_and!; try done.
  - split; [by rewrite Hd|done|by apply streq_true|]. destruct (lstat _) as [[[] []]|]; done.
  - destruct (streq (pg_home b) "") eqn:Hs; [done|]. cbn in Hh. by apply negb_false_iff, streq_true in Hh.
  - destruct (streq (pg_home b) "") eqn:Hs; [left; by apply streq_true|by right].
Qed.

Lemma providing_step don b r b' : providing_inv don b → provide lstat managedPaths b r = Ok b' → providing_inv (don ++ [r]) b'.
Proof.
  intros Hb (Hv & Hn & Hres & Hk)%provide_ok. destruct Hb as [Hval Huni Hreg Hpro Hby Hser Hhome Href Hbf].
  assert (r_ID r ∉ r_ID <$> don) as Hfresh.
  { intros (r0 & E & Hx0)%list_elem_of_fmap. assert (pg_resources b !! r_ID r = Some r0) as E2 by by apply Hreg. congruence. }
  assert (∀ id r0, pg_resources b' !! id = Some r0 ↔ r0 ∈ don ++ [r] ∧ r_ID r0 = id) as Hreg'.
  { intros id r0. rewrite Hres, lookup_insert_Some, Hreg, elem_of_app, list_elem_of_singleton. split.
    - intros [[<- <-]|[_ [? ?]]]; eauto.
    - intros [[Hx0| ->] <-]; [|by left]. right. split; [|done]. intros E. apply Hfresh. rewrite E. by apply list_elem_of_fmap_2. }
  assert (NoDup (r_ID <$> don ++ [r])) as Huni'.
  { rewrite fmap_app. apply NoDup_app. split_and!; [done| |apply NoDup_singleton]. cbn. intros x Hx ->%list_elem_of_singleton. done. }
  assert (Forall (λ r, ValidStableID (r_ID r) = true) (don ++ [r])) as Hval' by (rewrite Forall_app; split; [done|by apply Forall_singleton]).
  destruct (decide (provides r)) as [Hp|Hp].
  - destruct Hk as (Hs & Eg & Eh & Hor).
    assert (filter provides (don ++ [r]) = filter provides don ++ [r]) as Ef by (by rewrite filter_app, filter_cons_True).
    split; rewrite ?Eg, ?Ef; try done; cbn.
    + by rewrite Hpro, fmap_app.
    + intros id p. rewrite lookup_insert_Some, Hby, elem_of_app, list_elem_of_singleton. cbn. split.
      * intros [[<- <-]|[_ [? ?]]]; eauto.
      * intros [[Hx0| ->] <-]; [|by left]. right. split; [|done]. intros E. apply Hfresh. rewrite E. rewrite Hpro in Hx0.
        apply list_elem_of_fmap in Hx0 as (r0 & -> & [_ Hx0]%list_elem_of_filter). cbn. by apply list_elem_of_fmap_2.
    + apply Forall_app. split; [done|by apply Forall_singleton].
    + assert (pg_home b' ≠ "") as Hne by (rewrite Eh; by apply filepath_dir_nonempty, sv_absolute).
      intros p [Hx0| ->%list_elem_of_singleton]%elem_of_app; [|split; [done|by rewrite Eh]].
      destruct (Hhome p Hx0) as [Hn0 Hd0]. split; [done|]. destruct Hor; congruence.
  - destruct Hk as [Eg Eh].
    assert (filter provides (don ++ [r]) = filter provides don) as Ef by (by rewrite filter_app, filter_cons_False, filter_nil, app_nil_r).
    split; rewrite ?Eg, ?Ef, ?Eh; done.
Qed.

Record referring_inv (resources : list Resource) (g : FilterRegistry) (don : list Filter) (b : referring) : Prop := {
  ri_kept : fr_providers (rg_registry b) = fr_providers g ∧ fr_byID (rg_registry b) = fr_byID g;
  ri_seen : rg_seen b = list_to_set (fl_ID <$> don);
  ri_unique : NoDup (fl_ID <$> don);
  ri_valid : Forall (λ f, ValidStableID (fl_ID f) = true ∧ validTarget (fl_Target f) = true) don;
  ri_references : fr_references (rg_registry b) = reference_of <$> filter (λ f, fl_Enabled f = true) don;
  ri_usable : Forall (usable resources) (filter (λ f, fl_Enabled f = true) don);
  ri_byFilter : ∀ id r, fr_byFilter (rg_registry b) !! id = Some r ↔ r ∈ fr_references (rg_registry b) ∧ rf_FilterID r = id
}.

Lemma referring_step all p don b f b' :
  providing_inv all p → referring_inv all (pg_registry p) don b → refer (pg_resources p) b f = Ok b' →
  referring_inv all (pg_registry p) (don ++ [f]) b'.
Proof.
  intros Hp [[Hpr Hby] Hseen Huni Hval Href Huse Hbf]. unfold refer.
  destruct (ValidStableID (fl_ID f)) eqn:Hv; cbn [negb]; [|done]. case_bool_decide as Hn; [done|].
  destruct (validTarget (fl_Target f)) eqn:Ht; cbn [negb]; [|done].
  rewrite Hseen, elem_of_list_to_set in Hn.
  assert (NoDup (fl_ID <$> don ++ [f])) as Huni'.
  { rewrite fmap_app. apply NoDup_app. split_and!; [done| |apply NoDup_singleton]. cbn. intros x Hx ->%list_elem_of_singleton. done. }
  assert ({[fl_ID f]} ∪ rg_seen b = list_to_set (fl_ID <$> don ++ [f])) as Hseen'.
  { rewrite Hseen, fmap_app, list_to_set_app_L. cbn. set_solver. }
  assert (Forall (λ f, ValidStableID (fl_ID f) = true ∧ validTarget (fl_Target f) = true) (don ++ [f])) as Hval'
    by (apply Forall_app; split; [done|by apply Forall_singleton]).
  destruct (fl_Enabled f) eqn:He; cbn [negb].
  - destruct (fr_byID _ !! fl_Resource f) as [pv|] eqn:Ep; [|done]. destruct (pg_resources p !! fl_Resource f) as [r|] eqn:Er; [|done].
    destruct (negb (streq (fl_Format f) (r_Format r))) eqn:Ef; [done|]. apply negb_false_iff, streq_true in Ef. intros [= <-].
    pose proof Er as Er0. apply (pi_resources _ _ Hp) in Er as [Hr Er]. rewrite Hby in Ep. apply (pi_byID _ _ Hp) in Ep as [Hpv Ep].
    rewrite (pi_providers _ _ Hp) in Hpv. apply list_elem_of_fmap in Hpv as (r' & -> & [Hr' Hin]%list_elem_of_filter). cbn in Ep.
    assert (mkReference (fl_ID f) (r_ID r) (provider_name (r_ID r')) (fl_Target f) = reference_of f) as Eref.
    { unfold reference_of. cbn. by rewrite Ep, Er. }
    assert (filter (λ f, fl_Enabled f = true) (don ++ [f]) = filter (λ f, fl_Enabled f = true) don ++ [f]) as Efl
      by (by rewrite filter_app, filter_cons_True).
    split; cbn; rewrite ?Efl; try done.
    + by rewrite Href, Eref, fmap_app.
    + apply Forall_app. split; [done|]. apply Forall_singleton. exists r. split_and!; [done..| |done].
      assert (pg_resources p !! fl_Resource f = Some r') as Er1 by by apply (pi_resources _ _ Hp). by simplify_eq.
    + intros id x. rewrite Eref, lookup_insert_Some, Hbf, elem_of_app, list_elem_of_singleton. split.
      * intros [[<- <-]|[_ [? ?]]]; eauto.
      * intros [[Hx0| ->] <-]; [|by left]. right. split; [|done]. intros E. apply Hn. rewrite E. rewrite Href in Hx0.
        apply list_elem_of_fmap in Hx0 as (f0 & -> & [_ Hx0]%list_elem_of_filter). cbn. by apply list_elem_of_fmap_2.
  - intros [= <-].
    assert (filter (λ f, fl_Enabled f = true) (don ++ [f]) = filter (λ f, fl_Enabled f = true) don) as Efl
      by (by rewrite filter_app, filter_cons_False by congruence; rewrite filter_nil, app_nil_r).
    split; cbn; rewrite ?Efl; done.
Qed.

(** What a registry holds. *)
Record registered (s : Snapshot) (g : FilterRegistry) : Prop := {
  rd_servable : Forall servable (filter provides (cs_Resources s));
  rd_unique : NoDup (r_ID <$> cs_Resources s);
  rd_valid : Forall (λ r, ValidStableID (r_ID r) = true) (cs_Resources s);
  rd_providers : fr_providers g ≡ₚ provider_of <$> filter provides (cs_Resources s);
  rd_home : ∃ home, ∀ p, p ∈ fr_providers g → filepath_dir (pv_Path p) = home;
  rd_filters : NoDup (fl_ID <$> cs_Filters s);
  rd_targets : Forall (λ f, validTarget (fl_Target f) = true) (cs_Filters s);
  rd_references : fr_references g = reference_of <$> filter (λ f, fl_Enabled f = true) (cs_Filters s);
  rd_usable : Forall (usable (cs_Resources s)) (filter (λ f, fl_Enabled f = true) (cs_Filters s));
  rd_rule : ∀ r, r ∈ fr_references g → RuleSetReference g (rf_FilterID r) = Ok ("RULE-SET," +:+ rf_Provider r +:+ "," +:+ rf_Target r)
}.

Lemma filters_Build_registered s g : filters_Build lstat s managedPaths = Ok g → registered s g.
Proof.
  unfold filters_Build. rewrite bind_ok. intros (p & Hp & Hg). apply bind_ok in Hg as (b & Hb & [= <-]).
  assert (providing_inv (cs_Resources s) p) as Hpi.
  { apply (fold_each_inv providing_inv _ _ (λ don x s s' Hi _ Hf, providing_step don s x s' Hi Hf) []) in Hp; [done|].
    split; try done; cbn; try by constructor.
    - intros id r. rewrite lookup_empty. split; [done|]. by intros [?%not_elem_of_nil _].
    - intros id q. rewrite lookup_empty. split; [done|]. by intros [?%not_elem_of_nil _].
    - by intros q ?%not_elem_of_nil. }
  assert (referring_inv (cs_Resources s) (pg_registry p) (cs_Filters s) b) as Hri.
  { apply (fold_each_inv (referring_inv _ _) _ _ (λ don x s s' Hi _ Hf, referring_step _ _ don s x s' Hpi Hi Hf) []) in Hb; [done|].
    split; try done; cbn; try by constructor.
    - by rewrite (pi_references _ _ Hpi).
    - intros id r. rewrite (pi_byFilter _ _ Hpi), (pi_references _ _ Hpi), lookup_empty. split; [done|]. by intros [?%not_elem_of_nil _]. }
  destruct Hpi as [Hval Huni _ Hpro _ Hser Hhome _ _]. destruct Hri as [[Ep _] _ Hfu Hfv Href Huse Hbf].
  split; cbn; try done.
  - by rewrite sort_slice_perm, Ep, Hpro.
  - exists (pg_home p). intros q Hq. rewrite elem_of_sort_slice, Ep in Hq. by destruct (Hhome q Hq).
  - eapply Forall_impl; [done|]. by intros f [_ ?].
  - intros r Hr. unfold RuleSetReference. cbn. by rewrite (proj2 (Hbf (rf_FilterID r) r)).
Qed.

(** Providers have distinct names. *)
Lemma registered_names s g : registered s g → NoDup (pv_Name <$> fr_providers g).
Proof.
  intros [_ Huni Hval Hp _ _ _ _ _ _]. rewrite Hp, <- list_fmap_compose.
  assert (∀ l, NoDup (r_ID <$> l) → Forall (λ r, ValidStableID (r_ID r) = true) l → NoDup (pv_Name ∘ provider_of <$> filter provides l)) as Hgen; [|by apply Hgen].
  clear. intros l. induction l as [|r l IH]; [constructor|]. rewrite fmap_cons, NoDup_cons, Forall_cons. intros [Hn Hl] [Hr Hv].
  destruct (decide (provides r)); [rewrite filter_cons_True by done|rewrite filter_cons_False by done; by apply IH].
  cbn. apply NoDup_cons. split; [|by apply IH]. intros (r' & E & [_ Hin]%list_elem_of_filter)%list_elem_of_fmap. apply Hn.
  rewrite Forall_forall in Hv. cbn in E. unfold provider_name in E. rewrite Hr, (Hv r' Hin) in E. cbn in E. injection E as E. change (r_ID r = r_ID r') in E.
  rewrite E. by apply list_elem_of_fmap_2.
Qed.
End facts.
