(* ===== verification/MihomoRender.v ===== *)
(** * mihomo/render.go: the configuration Mihomo runs

    [Render] decodes a source profile, edits the document and encodes it.  A
    document is a map of [any] values ([GoYaml]); the edits of the source, in
    place on a fresh document, are functions that return the edited one. *)
From Stdlib Require Import Ascii.
From S2P Require Import Prelude GoTime GoStrings GoSort GoNet GoPath GoFs GoYaml MonitorModel CoreSnapshot ConfigTypes ConfigValidate ResourceValidate ResourceStore Dns Filters.
Open Scope Z_scope.
Open Scope go_scope.

Abbreviation Document := (gmap string any) (only parsing).

Inductive render_error :=
| RenderError (message : string)
| CapabilityError (ResourceID Kind : string).
Definition rendered {A} (r : result string A) : result render_error A :=
  match r with Ok a => Ok a | Err e => Err (RenderError e) end.

Definition maxControllerSocket : Z := 103.
Definition TunDevice : string := "clashpulse0".
Definition StreamProbeName : string := "clashpulse-stream-probe".

Record StreamListener := mkStreamListener { sl_Port : Z; sl_Username : string; sl_Password : string }.
#[export] Instance stream_listener_eq_dec : EqDecision StreamListener.
Proof. solve_decision. Defined.
Record ControllerSettings := mkControllerSettings {
  ct_Address : string; ct_Socket : string; ct_Secret : string; ct_HomeDir : string;
  ct_ProxyPort : Z; ct_StreamProbe : StreamListener
}.
Record Capability := mkCapability {
  cb_Path : string; cb_Version : string;
  cb_SupportsGeoIPDat : bool; cb_SupportsGeoSiteDat : bool; cb_SupportsMMDB : bool;
  cb_SupportsTUN : bool; cb_SupportsPinnedListener : bool
}.

(** ** Endpoints of the DNS section *)
Section resolvers.
Context `{GoNet} `{GoNetip}.

Definition resolverAddr (endpoint : string) : option Addr :=
  let endpoint := match cut endpoint (byte 35) with Some (before, _) => before | None => endpoint end in
  let host : option string := if contains endpoint "://" then match url_parse endpoint with Some u => Some (url_hostname u) | None => None end
              else match split_host_port endpoint with Some (split, _) => Some split | None => Some endpoint end in
  match host with
  | Some host => match ParseAddr (trim_chars host "[]") with Some addr => Some (unmap addr) | None => None end
  | None => None
  end.
End resolvers.

Fixpoint anyEndpoint (value : any) (matches : string → bool) : bool :=
  match value with
  | Str s => matches s
  | Strs l => existsb matches l
  | List l => existsb (λ v, anyEndpoint v matches) l
  | _ => false
  end.
Definition bootstrappedResolvers : list string := ["nameserver"; "fallback"; "proxy-server-nameserver"; "direct-nameserver"].
(** The endpoint lists of a nameserver policy. *)
Definition policy_values (policy : any) : list any :=
  match policy with
  | PolicyMap p => (λ entry : string * list string, Strs entry.2) <$> map_to_list p
  | Map m => (λ entry : string * any, entry.2) <$> map_to_list m
  | _ => []
  end.
Definition anyResolver (section : Document) (keys : list string) (matches : string → bool) : bool :=
  existsb (λ key, anyEndpoint (get section key) matches) keys ||
  existsb (λ endpoints, anyEndpoint endpoints matches) (policy_values (get section "nameserver-policy")).

(** Fill [key] where the profile leaves it unset. *)
Definition fill (key : string) (v : any) (section : Document) : Document :=
  if is_nil (get section key) then <[key := v]> section else section.

Definition fake_ip_filter : list string := ["*.lan"; "*.local"; "*.arpa"; "time.*.com"; "ntp.*.com"; "+.pool.ntp.org"].

Section render.
Context `{GoNet} `{GoNetip} `{GoSort} `{GoHash} `{Yaml}.
Context (lstat : string → option (bool * bool)).

(** ** The TUN's DNS *)
Definition set_enhanced_mode (mode : string) (section : Document) : result render_error Document :=
  if streq mode "profile" then Ok (fill "enhanced-mode" (Str "fake-ip") section)
  else if str_in mode ["fake-ip"; "redir-host"] then Ok (<["enhanced-mode" := Str mode]> section)
  else Err (RenderError "mihomo: invalid TUN DNS mode").
Definition fill_fake_ip (ipv6 : bool) (section : Document) : Document :=
  let section := fill "fake-ip-range" (Str "198.18.0.1/16") section in
  let section := if ipv6 then fill "fake-ip-range6" (Str "2001:2::0/64") section else section in
  fill "fake-ip-filter" (Strs fake_ip_filter) section.
(** The ranges that are set, in order. *)
Definition fake_ip_range (section : Document) (ranges : list Prefix) (key : string) : result render_error (list Prefix) :=
  if is_nil (get section key) then Ok ranges else
  match ParsePrefix (default "" (as_string (get section key))) with
  | Some prefix => Ok (ranges ++ [prefix])
  | None => Err (RenderError "mihomo: invalid dns fake-ip range")
  end.
Definition inside_ranges (ranges : list Prefix) (endpoint : string) : bool :=
  match resolverAddr endpoint with Some addr => existsb (λ p, prefix_contains p addr) ranges | None => false end.
Definition is_present (endpoint : string) : bool := negb (streq endpoint "").
Definition is_hostname (endpoint : string) : bool := match resolverAddr endpoint with Some _ => false | None => true end.

Definition renderTunDNS (section : Document) (mode : string) (ipv6 : bool) : result render_error Document :=
  set_enhanced_mode mode (<["enable" := Bool true]> section) ≫= λ section,
  fail_if negb (anyEndpoint (get section "nameserver") is_present)
    with RenderError "mihomo: TUN requires dns.nameserver in the profile";
  fail_if negb (anyEndpoint (get section "default-nameserver") is_present) && anyResolver section bootstrappedResolvers is_hostname
    with RenderError "mihomo: TUN requires dns.default-nameserver to resolve DNS server hostnames";
  if negb (is_string (get section "enhanced-mode") "fake-ip") then Ok section else
  let section := fill_fake_ip ipv6 section in
  fold_each (fake_ip_range section) [] ["fake-ip-range"; "fake-ip-range6"] ≫= λ ranges,
  fail_if anyResolver section ("default-nameserver" :: bootstrappedResolvers) (inside_ranges ranges)
    with RenderError "mihomo: DNS resolver endpoint lies inside the fake-ip range";
  Ok section.

(** ** The DNS section *)
Definition with_listen (s : Snapshot) (listen : string) : Snapshot :=
  mkSnapshot (cs_SystemProxy s) (cs_Mihomo s) (cs_Monitor s)
    (mkDNS listen (dn_ResolverSets (cs_DNS s)) (dn_Routes (cs_DNS s)))
    (cs_Tun s) (cs_Subscriptions s) (cs_Resources s) (cs_Filters s).
Definition is_loopback_listener (listen : string) : bool :=
  match split_host_port listen with
  | Some (host, _) => match parse_ip host with Some ip => ip_IsLoopback ip | None => false end
  | None => false
  end.
Definition no_dns_settings (settings : DNS) : bool := (len (dn_Routes settings) =? 0) && (len (dn_ResolverSets settings) =? 0).
Definition dns_section (document : Document) : result render_error Document :=
  match as_map (get document "dns") with
  | Some section => Ok section
  | None => if is_nil (get document "dns") then Ok ∅ else Err (RenderError "mihomo: source DNS must be a mapping")
  end.
Definition renderDNS (document : Document) (intent : Snapshot) : result render_error Document :=
  let settings := cs_DNS intent in
  if no_dns_settings settings && is_nil (get document "dns") && negb (tn_Enabled (cs_Tun intent)) then Ok document else
  let listen := if streq (dn_Listen settings) "" then "127.0.0.1:1053" else dn_Listen settings in
  fail_if negb (is_loopback_listener listen) with RenderError "mihomo: DNS listener must be loopback";
  (if no_dns_settings settings then Ok ∅ else rendered (dns_Build (with_listen intent listen))) ≫= λ policy,
  dns_section document ≫= λ section,
  let section := <["listen" := Str listen]> section in
  let section := if bool_decide (policy = ∅) then section
                 else <["nameserver-policy" := PolicyMap policy]> (<["enable" := Bool true]> section) in
  (if tn_Enabled (cs_Tun intent)
   then renderTunDNS section (tn_DNSMode (cs_Tun intent)) (is_true (get document "ipv6") || is_true (get section "ipv6"))
   else Ok section) ≫= λ section,
  Ok (<["dns" := Map section]> document).

(** ** Rules *)
(** The names of the mappings in a list; [strict]: each item must be one. *)
Definition name_of (item : any) : list string :=
  match as_map item with Some m => match as_string (get m "name") with Some name => [name] | None => [] end | None => [] end.
Definition group_names (document : Document) : result render_error (list string) :=
  if is_nil (get document "proxy-groups") then Ok [] else
  match as_list (get document "proxy-groups") with
  | None => Err (RenderError "mihomo: source proxy-groups must be a list")
  | Some groups =>
      fail_if existsb (λ item, match as_map item with Some _ => false | None => true end) groups
        with RenderError "mihomo: source proxy group must be a mapping";
      Ok (concat (name_of <$> groups))
  end.
Definition proxy_names (document : Document) : list string :=
  match as_list (get document "proxies") with Some proxies => concat (name_of <$> proxies) | None => [] end.
Definition source_rules (document : Document) : result render_error (list any) :=
  if is_nil (get document "rules") then Ok [] else
  match as_list (get document "rules") with
  | Some rules => Ok rules
  | None => Err (RenderError "mihomo: source rules must be a list")
  end.
Definition managed_rule (registry : FilterRegistry) (known : list string) (managed : list any) (r : Reference)
    : result render_error (list any) :=
  fail_if negb (str_in (rf_Target r) known) with RenderError "mihomo: filter has an unknown target";
  rendered (RuleSetReference registry (rf_FilterID r)) ≫= λ rule,
  Ok (managed ++ [Str rule]).
Definition renderFilters (document : Document) (registry : FilterRegistry) : result render_error Document :=
  if bool_decide (fr_references registry = []) then Ok document else
  group_names document ≫= λ groups,
  source_rules document ≫= λ rules,
  fold_each (managed_rule registry (["DIRECT"; "REJECT"] ++ groups ++ proxy_names document)) [] (fr_references registry) ≫= λ managed,
  Ok (<["rules" := List (managed ++ rules)]> document).

(** ** Delays of the groups Mihomo tests *)
Definition pace_group (settings : Mihomo) (group : Document) : Document :=
  if negb (is_string (get group "type") "url-test") && negb (is_string (get group "type") "fallback") then group else
  let group := if 0 <? mh_URLTestInterval settings
               then <["interval" := Int (Z.quot (mh_URLTestInterval settings) Second)]> group else group in
  if 0 <? mh_URLTestTolerance settings
  then <["tolerance" := Int (Z.quot (mh_URLTestTolerance settings) Millisecond)]> group else group.
Definition pace_item (settings : Mihomo) (groups : list any) (item : any) : result render_error (list any) :=
  match as_map item with
  | Some group => Ok (groups ++ [Map (pace_group settings group)])
  | None => Err (RenderError "mihomo: source proxy group must be a mapping")
  end.
Definition renderURLTestDelays (document : Document) (settings : Mihomo) : result render_error Document :=
  if (mh_URLTestInterval settings <=? 0) && (mh_URLTestTolerance settings <=? 0) then Ok document else
  match document !! "proxy-groups" with
  | None => Ok document
  | Some raw =>
      match as_list raw with
      | None => Err (RenderError "mihomo: source proxy-groups must be a list")
      | Some groups =>
          fold_each (pace_item settings) [] groups ≫= λ groups,
          Ok (<["proxy-groups" := List groups]> document)
      end
  end.

(** ** The stream probe *)
Definition defines_probe (document : Document) (section : string) : bool :=
  existsb (λ item, match as_map item with Some entry => is_string (get entry "name") StreamProbeName | None => false end)
    (default [] (as_list (get document section))).
Definition probe_group : any :=
  Map (list_to_map [("name", Str StreamProbeName); ("type", Str "select"); ("include-all", Bool true)]).
Definition probe_listener (l : StreamListener) : any :=
  Map (list_to_map [("name", Str StreamProbeName); ("type", Str "mixed"); ("listen", Str "127.0.0.1"); ("port", Int (sl_Port l));
    ("proxy", Str StreamProbeName);
    ("users", List [Map (list_to_map [("username", Str (sl_Username l)); ("password", Str (sl_Password l))])])]).
Definition renderStreamProbe (document : Document) (l : StreamListener) : result render_error Document :=
  fail_if (sl_Port l <=? 0) || streq (sl_Username l) "" || streq (sl_Password l) ""
    with RenderError "mihomo: stream probe listener is not configured";
  fail_if match as_list (get document "proxy-groups") with Some _ => false | None => negb (is_nil (get document "proxy-groups")) end
    with RenderError "mihomo: source proxy-groups must be a list";
  fail_if defines_probe document "proxies" || defines_probe document "proxy-groups"
    with RenderError "mihomo: source profile already defines the stream probe";
  Ok (<["listeners" := List [probe_listener l]]>
       (<["proxy-groups" := List (default [] (as_list (get document "proxy-groups")) ++ [probe_group])]> document)).

(** ** The parts of [Render] *)
Definition check_controller (c : ControllerSettings) : result render_error unit :=
  fail_if streq (ct_Secret c) "" with RenderError "mihomo: controller requires a secret";
  if negb (streq (ct_Socket c) "") then
    fail_if negb (filepath_is_abs (ct_Socket c)) || (maxControllerSocket <? slen (ct_Socket c))
      with RenderError "mihomo: controller socket must be an absolute path";
    Ok tt
  else
    fail_if negb (is_loopback_listener (ct_Address c))
      with RenderError "mihomo: controller requires a loopback address and secret";
    Ok tt.
Definition source_document (profile : list ascii) : result render_error Document :=
  match yaml_unmarshal profile with
  | None => Err (RenderError "mihomo: invalid source profile YAML")
  | Some None => Err (RenderError "mihomo: source profile requires proxies or proxy-providers")
  | Some (Some document) =>
      fail_if is_nil (get document "proxies") && is_nil (get document "proxy-providers")
        with RenderError "mihomo: source profile requires proxies or proxy-providers";
      Ok document
  end.
Definition check_source_tun (document : Document) : result render_error unit :=
  fail_if match as_map (get document "tun") with Some tun => is_true (get tun "enable") | None => false end
    with RenderError "mihomo: source profile requests unsupported TUN mode";
  Ok tt.
Definition tun_section (stack : string) : any :=
  Map (list_to_map [("enable", Bool true); ("stack", Str stack); ("device", Str TunDevice); ("auto-route", Bool true);
    ("auto-detect-interface", Bool true); ("dns-hijack", Strs ["any:53"]); ("mtu", Int 1500);
    ("strict-route", Bool false); ("auto-redirect", Bool false)]).
Definition render_tun (intent : Snapshot) (capability : Capability) (document : Document) : result render_error Document :=
  if negb (tn_Enabled (cs_Tun intent)) then Ok document else
  fail_if negb (cb_SupportsTUN capability) with CapabilityError "tun" "tun";
  fail_if negb (str_in (tn_Stack (cs_Tun intent)) TunStacks) with RenderError "mihomo: invalid TUN stack";
  Ok (<["tun" := tun_section (tn_Stack (cs_Tun intent))]> document).
(** The profile may bring no inbound of its own. *)
Definition check_inbound (document : Document) (field : string) : result render_error unit :=
  if is_nil (get document field) then Ok tt else
  match as_list (get document field) with
  | Some [] => Ok tt
  | _ => Err (RenderError "mihomo: source profile requests unsupported inbound")
  end.
Definition render_probe (intent : Snapshot) (c : ControllerSettings) (capability : Capability) (document : Document)
    : result render_error Document :=
  if negb (streq (m_SwitchPolicy (cs_Monitor intent)) SwitchSteadyStream) then Ok document else
  fail_if negb (cb_SupportsPinnedListener capability) with CapabilityError "monitor.switch_policy" "pinned-listener";
  renderStreamProbe document (ct_StreamProbe c).
Definition render_port (port : Z) (document : Document) : result render_error Document :=
  fail_if (port <? 0) || (65535 <? port) with RenderError "mihomo: invalid managed proxy port";
  Ok (if 0 <? port then <["socks-port" := Int 0]> (<["port" := Int 0]> (<["mixed-port" := Int port]> document)) else document).
Definition check_redirect (document : Document) (field : string) : result render_error unit :=
  fail_if negb (is_nil (get document field)) && negb (is_zero (get document field))
    with RenderError "mihomo: source profile requests unsupported redirection";
  Ok tt.
Definition controller_keys : list string :=
  ["external-controller-unix"; "external-controller-pipe"; "external-controller-tls"; "external-controller-cors";
   "external-controller-routing-mark"; "external-doh-server"; "external-ui"; "external-ui-name"; "external-ui-url"].
Definition delete_keys (keys : list string) (document : Document) : Document := foldr delete document keys.
Definition render_controller (c : ControllerSettings) (mode : string) (document : Document) : Document :=
  let document := delete_keys controller_keys document in
  let document := if negb (streq (ct_Socket c) "")
                  then <["external-controller-unix" := Str (ct_Socket c)]> (delete "external-controller" document)
                  else <["external-controller" := Str (ct_Address c)]> document in
  let document := <["secret" := Str (ct_Secret c)]> document in
  let document := <["allow-lan" := Bool false]> document in
  let document := <["geo-auto-update" := Bool false]> document in
  let document := <["bind-address" := Str "127.0.0.1"]> document in
  if negb (streq mode "") then <["mode" := Str mode]> document else document.

Definition existingProviders (document : Document) : result render_error Document :=
  match document !! "rule-providers" with
  | None => Ok ∅
  | Some raw => match as_map raw with
                | Some mapping => Ok mapping
                | None => Err (RenderError "mihomo: invalid source rule-providers")
                end
  end.
(** Geodata must lie in Mihomo's home under the name Mihomo reads. *)
Definition supports_kind (capability : Capability) (kind : string) : bool :=
  if streq kind ResourceGeoIP then cb_SupportsGeoIPDat capability
  else if streq kind ResourceGeoSite then cb_SupportsGeoSiteDat capability
  else cb_SupportsMMDB capability.
Definition check_resource (paths : gmap string string) (c : ControllerSettings) (capability : Capability) (r : Resource)
    : result render_error unit :=
  if negb (r_Enabled r) || rule_kind (r_Kind r) then Ok tt else
  let path := default "" (paths !! r_ID r) in
  fail_if streq path "" || negb (filepath_is_abs path) with RenderError "mihomo: resource has no validated absolute path";
  fail_if negb (str_in (r_Kind r) [ResourceGeoIP; ResourceGeoSite; ResourceMMDB])
    with RenderError "mihomo: resource has unsupported kind";
  fail_if negb (supports_kind capability (r_Kind r)) with CapabilityError (r_ID r) (r_Kind r);
  fail_if streq (ct_HomeDir c) "" || negb (filepath_is_abs (ct_HomeDir c)) ||
          negb (streq (filepath_clean (filepath_dir path)) (filepath_clean (ct_HomeDir c))) ||
          negb (streq (filepath_base path) (r_Kind r))
    with RenderError "mihomo: resource must use the Mihomo home filename";
  Ok tt.
Definition provider_entry (p : Provider) : any :=
  Map (list_to_map [("type", Str "file"); ("behavior", Str (pv_Behavior p)); ("format", Str (pv_Format p)); ("path", Str (pv_Path p))]).
Definition install_provider (providers : Document) (p : Provider) : result render_error Document :=
  fail_if bool_decide (is_Some (providers !! pv_Name p)) with RenderError "mihomo: rule provider conflicts with source profile";
  Ok (<[pv_Name p := provider_entry p]> providers).
Definition render_providers (providers document : Document) : Document :=
  if bool_decide (providers = ∅) then document else <["rule-providers" := Map providers]> document.

(** Everything between decoding and encoding. *)
Definition render_document (document : Document) (intent : Snapshot) (paths : gmap string string) (c : ControllerSettings)
    (capability : Capability) : result render_error Document :=
  check_source_tun document ≫= λ _,
  render_tun intent capability document ≫= λ document,
  each (check_inbound document) ["listeners"; "tunnels"] ≫= λ _,
  render_probe intent c capability document ≫= λ document,
  render_port (ct_ProxyPort c) document ≫= λ document,
  each (check_redirect document) ["redir-port"; "tproxy-port"] ≫= λ _,
  let document := render_controller c (mh_Mode (cs_Mihomo intent)) document in
  existingProviders document ≫= λ providers,
  rendered (filters_Build lstat intent paths) ≫= λ registry,
  each (check_resource paths c capability) (sort_slice (λ a b, string_ltb (r_ID a) (r_ID b)) (cs_Resources intent)) ≫= λ _,
  fold_each install_provider providers (fr_providers registry) ≫= λ providers,
  renderFilters (render_providers providers document) registry ≫= λ document,
  renderDNS document intent ≫= λ document,
  renderURLTestDelays document (cs_Mihomo intent).
Definition Render (profile : list ascii) (intent : Snapshot) (paths : gmap string string) (c : ControllerSettings)
    (capability : Capability) : result render_error (list ascii) :=
  check_controller c ≫= λ _,
  source_document profile ≫= λ document,
  render_document document intent paths c capability ≫= λ document,
  match yaml_marshal document with
  | Some encoded => Ok encoded
  | None => Err (RenderError "mihomo: encode generated configuration")
  end.

(** ** Asking the executable *)
(** The arguments of the check, run without a shell; [run] is its answer. *)
Definition ValidateInHome (run : string → list string → result string unit) (capability : Capability) (configPath home : string)
    : result string unit :=
  fail_if streq (cb_Path capability) "" || streq configPath ""
    with "mihomo: validation requires executable and configuration paths";
  fail_if negb (streq home "") && negb (filepath_is_abs home) with "mihomo: managed data home must be absolute";
  match run (cb_Path capability) (["-t"; "-f"; configPath] ++ if streq home "" then [] else ["-d"; home]) with
  | Ok _ => Ok tt
  | Err _ => Err "mihomo: configuration validation failed"
  end.

(** ** Reading a generated configuration *)
Definition read_document (generated : list ascii) : option Document := default ∅ <$> yaml_unmarshal generated.

Definition MixedPort (generated : list ascii) : result string Z :=
  match read_document generated ≫= λ document, yaml_int (get document "mixed-port") with
  | None => Err "mihomo: invalid generated configuration"
  | Some port =>
      fail_if (port <=? 0) || (65535 <? port) with "mihomo: generated configuration has no mixed port";
      Ok port
  end.

Record listener := mkListener { ls_Name : string; ls_Port : Z; ls_Users : list (string * string) }.
Definition read_user (v : any) : option (string * string) :=
  fields ← yaml_fields v;
  username ← yaml_string (get fields "username");
  password ← yaml_string (get fields "password");
  Some (username, password).
Definition read_listener (v : any) : option listener :=
  fields ← yaml_fields v;
  name ← yaml_string (get fields "name");
  port ← yaml_int (get fields "port");
  users ← yaml_items (get fields "users");
  users ← mapM read_user users;
  Some (mkListener name port users).
(** The first listener of the probe's name decides. *)
Definition probe_of (l : listener) : result string StreamListener :=
  match ls_Users l with
  | [(username, password)] =>
      fail_if (ls_Port l <=? 0) || (65535 <? ls_Port l) || streq username "" || streq password ""
        with "mihomo: generated stream probe listener is unusable";
      Ok (mkStreamListener (ls_Port l) username password)
  | _ => Err "mihomo: generated stream probe listener is unusable"
  end.
Definition StreamProbe (generated : list ascii) : result string StreamListener :=
  match read_document generated ≫= λ document, yaml_items (get document "listeners") ≫= mapM read_listener with
  | None => Err "mihomo: invalid generated configuration"
  | Some listeners =>
      match filter (λ l, ls_Name l = StreamProbeName) listeners with
      | [] => Ok (mkStreamListener 0 "" "")
      | l :: _ => probe_of l
      end
  end.

(** ** Comparing configurations *)
(** A dotted key names a field inside a top-level section. *)
Definition override_value (document : Document) (key : string) : option any :=
  match cut key (byte 46) with
  | None => document !! key
  | Some (section, name) => match as_map (get document section) with Some parent => parent !! name | None => None end
  end.
Definition override_change (before after : option any) : option string :=
  match before, after with
  | None, None => None
  | None, Some _ => Some "added"
  | Some _, None => Some "removed"
  | Some v, Some w => if deep_equal v w then None else Some "replaced"
  end.
Definition document_overrides (original effective : Document) : list ConfigOverrideSnapshot :=
  omap (λ key, mkConfigOverrideSnapshot key <$> override_change (override_value original key) (override_value effective key)) ConfigOverrideKeys.
Definition ExplainOverrides (source generated : list ascii) : option (list ConfigOverrideSnapshot) :=
  match yaml_unmarshal source, yaml_unmarshal generated with
  | Some (Some original), Some (Some effective) => Some (document_overrides original effective)
  | _, _ => None
  end.

Definition ModeChange (before after : list ascii) : option (string * string) :=
  match yaml_unmarshal before, yaml_unmarshal after with
  | Some (Some old), Some (Some next) =>
      let from := default "" (as_string (get old "mode")) in
      let to := default "" (as_string (get next "mode")) in
      if streq from to || streq to "" || negb (deep_equal_maps (delete "mode" old) (delete "mode" next)) then None
      else Some (from, to)
  | _, _ => None
  end.
End render.
