(* ===== verification/MihomoRenderFacts.v ===== *)
(** * The steps of [Render]

    What each step of [render_document] needs of the document, what it makes of
    it, and which keys it leaves alone. *)
From Stdlib Require Import Ascii.
From S2P Require Import Prelude GoTime GoStrings GoSort GoNet GoPath GoFs GoYaml MonitorModel CoreSnapshot ConfigTypes ConfigValidate ResourceValidate ResourceStore Dns Filters MihomoRender.
Open Scope Z_scope.

Lemma rendered_ok {A} (r : result string A) a : rendered r = Ok a ↔ r = Ok a.
Proof. destruct r; cbn; split; congruence. Qed.

(** ** Endpoints *)
(** All endpoints of a value, in order. *)
Fixpoint endpoints (v : any) : list string :=
  match v with
  | Str s => [s]
  | Strs l => l
  | List l => mjoin (endpoints <$> l)
  | _ => []
  end.
Lemma existsb_app_join {A B} (f : B → bool) (g : A → list B) l : existsb f (mjoin (g <$> l)) = existsb (λ x, existsb f (g x)) l.
Proof. induction l as [|x l IH]; [done|]. cbn. by rewrite existsb_app, <- IH. Qed.
Lemma anyEndpoint_endpoints v f : anyEndpoint v f = existsb f (endpoints v).
Proof.
  induction v as [s|l IH|m IH|m IH|l|p] using any_induction; try done.
  - destruct s; try done. cbn. by rewrite orb_false_r.
  - cbn. rewrite existsb_app_join. induction IH as [|x l Hx _ IHl]; [done|]. cbn. by rewrite Hx, IHl.
Qed.
Definition resolvers (section : gmap string any) (keys : list string) : list string :=
  mjoin ((λ key, endpoints (get section key)) <$> keys) ++ mjoin (endpoints <$> policy_values (get section "nameserver-policy")).
Lemma existsb_ext' {A} (f g : A → bool) l : (∀ x, f x = g x) → existsb f l = existsb g l.
Proof. intros E. induction l as [|x l IH]; [done|]. cbn. by rewrite E, IH. Qed.
Lemma anyResolver_resolvers section keys f : anyResolver section keys f = existsb f (resolvers section keys).
Proof.
  unfold anyResolver, resolvers. rewrite existsb_app, !existsb_app_join.
  f_equal; apply existsb_ext'; intros x; apply anyEndpoint_endpoints.
Qed.
Lemma existsb_false {A} (f : A → bool) l : existsb f l = false ↔ ∀ x, x ∈ l → f x = false.
Proof.
  induction l as [|x l IH]; cbn; [split; [by intros _ x ?%not_elem_of_nil|done]|]. rewrite orb_false_iff, IH. split.
  - intros [? Hl] y [->|?]%elem_of_cons; auto.
  - intros Hl. split; [apply Hl; by left|]. intros y Hy. apply Hl. by right.
Qed.
Lemma existsb_true {A} (f : A → bool) l : existsb f l = true ↔ ∃ x, x ∈ l ∧ f x = true.
Proof.
  rewrite existsb_exists. setoid_rewrite list_elem_of_In. done.
Qed.

Section facts.
Context `{GoNet} `{GoNetip} `{GoSort} `{GoHash} `{Yaml}.

(** ** The steps *)
Lemma check_source_tun_ok d : check_source_tun d = Ok tt → ∀ tun, d !! "tun" = Some (Map tun) → is_true (get tun "enable") = false.
Proof. unfold check_source_tun. intros Hc tun Ht. unfold get in Hc at 1. rewrite Ht in Hc. cbn in Hc. by destruct (is_true _). Qed.

Lemma render_tun_ok intent capability d d' :
  render_tun intent capability d = Ok d' →
  if tn_Enabled (cs_Tun intent)
  then cb_SupportsTUN capability = true ∧ tn_Stack (cs_Tun intent) ∈ TunStacks ∧ d' = <["tun" := tun_section (tn_Stack (cs_Tun intent))]> d
  else d' = d.
Proof.
  unfold render_tun. destruct (tn_Enabled _); cbn [negb]; [|congruence]. destruct (cb_SupportsTUN _); cbn [negb]; [|done].
  unfold str_in. case_bool_decide; cbn [negb]; [|done]. by intros [= <-].
Qed.
Lemma check_inbound_ok d field : check_inbound d field = Ok tt → get d field = Nil ∨ get d field = List [].
Proof.
  unfold check_inbound. destruct (is_nil _) eqn:Hn; [left; by apply is_nil_true|]. destruct (as_list _) as [[]|] eqn:Hl; try done.
  right. by apply as_list_Some.
Qed.
Lemma renderStreamProbe_ok d l d' :
  renderStreamProbe d l = Ok d' →
  0 < sl_Port l ∧ sl_Username l ≠ "" ∧ sl_Password l ≠ "" ∧
  d' = <["listeners" := List [probe_listener l]]>
         (<["proxy-groups" := List (default [] (as_list (get d "proxy-groups")) ++ [probe_group])]> d).
Proof.
  unfold renderStreamProbe. destruct (_ || streq (sl_Password l) "") eqn:Hl; [done|]. go_bool.
  destruct (match as_list _ with Some _ => _ | None => _ end); [done|]. destruct (_ || _); [done|]. intros [= <-].
  split_and!; [done|by apply streq_false..|done].
Qed.
Lemma render_probe_ok intent c capability d d' :
  render_probe intent c capability d = Ok d' →
  if bool_decide (m_SwitchPolicy (cs_Monitor intent) = SwitchSteadyStream)
  then cb_SupportsPinnedListener capability = true ∧ renderStreamProbe d (ct_StreamProbe c) = Ok d'
  else d' = d.
Proof.
  unfold render_probe, streq. case_bool_decide; cbn [negb]; [|congruence]. by destruct (cb_SupportsPinnedListener _).
Qed.
Lemma render_port_ok port d d' :
  render_port port d = Ok d' →
  0 ≤ port ≤ 65535 ∧ d' = if 0 <? port then <["socks-port" := Int 0]> (<["port" := Int 0]> (<["mixed-port" := Int port]> d)) else d.
Proof. unfold render_port. destruct (_ || _) eqn:Hp; [done|]. intros [= <-]. go_bool. done. Qed.
Lemma check_redirect_ok d field : check_redirect d field = Ok tt → get d field = Nil ∨ get d field = Int 0.
Proof.
  unfold check_redirect. destruct (is_nil _) eqn:Hn; [left; by apply is_nil_true|]. cbn. destruct (is_zero _) eqn:Hz; [|done].
  right. destruct (get d field) as [[]| | | | |]; try done. cbn in Hz. apply Z.eqb_eq in Hz. by subst.
Qed.
Lemma existingProviders_ok d providers :
  existingProviders d = Ok providers → d !! "rule-providers" = None ∧ providers = ∅ ∨ d !! "rule-providers" = Some (Map providers).
Proof.
  unfold existingProviders. destruct (_ !! _) as [v|]; [|by left; simplify_eq]. destruct (as_map v) as [m|] eqn:Hm; [|done].
  intros [= <-]. right. by apply as_map_Some in Hm as ->.
Qed.
Lemma install_providers_ok l : ∀ providers providers',
  fold_each install_provider providers l = Ok providers' →
  providers ⊆ providers' ∧ (∀ p, p ∈ l → providers' !! pv_Name p = Some (provider_entry p)) ∧ Forall (λ p, providers !! pv_Name p = None) l.
Proof.
  induction l as [|p l IH]; intros providers providers'; cbn.
  - intros [= <-]. split_and!; [done| |constructor]. by intros p ?%not_elem_of_nil.
  - unfold install_provider at 1. case_bool_decide as Hn; [done|]. apply eq_None_not_Some in Hn. intros (Hs & Hl & Hf)%IH.
    split_and!.
    + etrans; [by apply insert_subseteq|done].
    + intros q [->|Hq]%elem_of_cons; [|by apply Hl]. apply (lookup_weaken _ _ _ _ (lookup_insert_eq _ _ _) Hs).
    + constructor; [done|]. eapply Forall_impl; [done|]. intros q Hq. by apply lookup_insert_None in Hq as [? _].
Qed.

(** Keys each step may change. *)
Definition delay_keys : list string := ["proxy-groups"].
Definition controller_touched : list string :=
  ["external-controller-unix"; "external-controller-pipe"; "external-controller-tls"; "external-controller-cors";
   "external-controller-routing-mark"; "external-doh-server"; "external-ui"; "external-ui-name"; "external-ui-url";
   "external-controller"; "secret"; "allow-lan"; "geo-auto-update"; "bind-address"; "mode"].
Definition dns_keys : list string :=
  ["listen"; "enable"; "nameserver-policy"; "enhanced-mode"; "fake-ip-range"; "fake-ip-range6"; "fake-ip-filter"].

Lemma delete_keys_kept keys all d d' : keys ⊆ all → Kept all d d' → Kept all d (delete_keys keys d').
Proof.
  intros Hs Hd. induction keys as [|k keys IH]; [done|]. cbn. apply kept_delete; [set_solver|]. apply IH. set_solver.
Qed.
Lemma delete_keys_gone keys d k : k ∈ keys → delete_keys keys d !! k = None.
Proof.
  induction keys as [|k' keys IH]; [by intros ?%not_elem_of_nil|]. intros [->|Hk]%elem_of_cons; cbn; [apply lookup_delete_eq|].
  apply lookup_delete_None. right. by apply IH.
Qed.
Lemma render_controller_kept c mode d : Kept controller_touched d (render_controller c mode d).
Proof.
  assert (Kept controller_touched d (delete_keys controller_keys d)) as Hd.
  { apply delete_keys_kept; [|apply kept_refl]. unfold controller_keys, controller_touched. set_solver. }
  unfold render_controller. destruct (negb (streq mode "")), (negb (streq (ct_Socket c) "")); keeps.
Qed.
Lemma render_tun_kept intent capability d d' : render_tun intent capability d = Ok d' → Kept ["tun"] d d'.
Proof. intros Hr%render_tun_ok. destruct (tn_Enabled _); [destruct Hr as (_ & _ & ->)|subst]; keeps. Qed.
Lemma render_probe_kept intent c capability d d' : render_probe intent c capability d = Ok d' → Kept ["listeners"; "proxy-groups"] d d'.
Proof. intros Hr%render_probe_ok. case_bool_decide; [destruct Hr as (_ & (_ & _ & _ & ->)%renderStreamProbe_ok)|subst]; keeps. Qed.
Lemma render_port_kept port d d' : render_port port d = Ok d' → Kept ["mixed-port"; "port"; "socks-port"] d d'.
Proof. intros [_ ->]%render_port_ok. destruct (0 <? port); keeps. Qed.
Lemma render_providers_kept providers d : Kept ["rule-providers"] d (render_providers providers d).
Proof. unfold render_providers. case_bool_decide; keeps. Qed.
Lemma renderFilters_kept d registry d' : renderFilters d registry = Ok d' → Kept ["rules"] d d'.
Proof.
  unfold renderFilters. case_bool_decide; [intros [= <-]; keeps|]. rewrite bind_ok. intros (g & _ & Hr).
  apply bind_ok in Hr as (r & _ & Hr). apply bind_ok in Hr as (m & _ & [= <-]). keeps.
Qed.
Lemma renderURLTestDelays_kept d settings d' : renderURLTestDelays d settings = Ok d' → Kept delay_keys d d'.
Proof.
  unfold renderURLTestDelays. destruct (_ && _); [intros [= <-]; keeps|]. destruct (_ !! _); [|intros [= <-]; keeps].
  destruct (as_list _); [|done]. rewrite bind_ok. intros (g & _ & [= <-]). unfold delay_keys. keeps.
Qed.

(** ** The DNS section *)
Lemma fill_kept keys d d' key v : key ∈ keys → Kept keys d d' → Kept keys d (fill key v d').
Proof. intros Hk Hd. unfold fill. destruct (is_nil _); [by apply kept_insert|done]. Qed.
Lemma set_enhanced_mode_kept mode d d' : set_enhanced_mode mode d = Ok d' → Kept ["enhanced-mode"] d d'.
Proof.
  unfold set_enhanced_mode. destruct (streq _ _); [intros [= <-]; apply fill_kept; [decide_key|keeps]|].
  destruct (str_in _ _); [|done]. intros [= <-]. keeps.
Qed.
Lemma fill_fake_ip_kept ipv6 d : Kept ["fake-ip-range"; "fake-ip-range6"; "fake-ip-filter"] d (fill_fake_ip ipv6 d).
Proof. unfold fill_fake_ip. destruct ipv6; repeat (apply fill_kept; [decide_key|]); keeps. Qed.
Lemma renderTunDNS_kept d mode ipv6 d' : renderTunDNS d mode ipv6 = Ok d' → Kept dns_keys d d'.
Proof.
  unfold renderTunDNS. rewrite bind_ok. intros (d1 & Hm%set_enhanced_mode_kept & Hr).
  assert (Kept dns_keys d d1) as Hd1.
  { eapply kept_weaken; [eapply (kept_trans ["enable"] _ _ (<["enable" := Bool true]> d)); [keeps|done]|]. intros k Hk. unfold dns_keys. set_solver. }
  destruct (negb (anyEndpoint _ _)); [done|]. destruct (_ && anyResolver _ _ _); [done|].
  destruct (negb (is_string _ _)); [by simplify_eq|]. apply bind_ok in Hr as (ranges & _ & Hr). destruct (anyResolver _ _ _); [done|].
  injection Hr as <-. eapply kept_weaken; [eapply kept_trans; [done|apply fill_fake_ip_kept]|]. intros k Hk. unfold dns_keys in *. set_solver.
Qed.

(** What [renderDNS] makes of the section it finds. *)
Definition dns_before (d : gmap string any) : gmap string any := default ∅ (as_map (get d "dns")).
Lemma renderDNS_ok d intent d' :
  renderDNS d intent = Ok d' →
  d' = d ∧ no_dns_settings (cs_DNS intent) = true ∧ get d "dns" = Nil ∧ tn_Enabled (cs_Tun intent) = false ∨
  ∃ section listen, d' = <["dns" := Map section]> d ∧ section !! "listen" = Some (Str listen) ∧ is_loopback_listener listen = true ∧
    Kept dns_keys (dns_before d) section ∧
    (tn_Enabled (cs_Tun intent) = true → ∃ before ipv6, renderTunDNS before (tn_DNSMode (cs_Tun intent)) ipv6 = Ok section).
Proof.
  unfold renderDNS. destruct (_ && negb (tn_Enabled _)) eqn:Hn.
  { intros [= <-]. go_bool. left. split_and!; [done..|by apply is_nil_true|done]. }
  set (listen := if streq _ "" then _ else _). destruct (is_loopback_listener listen) eqn:Hl; cbn [negb]; [|done].
  intros (policy & _ & Hr)%bind_ok. apply bind_ok in Hr as (section & Hs & Hr).
  apply bind_ok in Hr as (section' & Ht & [= <-]). right.
  assert (section = dns_before d) as ->.
  { unfold dns_section in Hs. unfold dns_before. destruct (as_map _); [by simplify_eq|]. destruct (is_nil _); [by simplify_eq|done]. }
  set (s1 := if bool_decide (policy = ∅) then _ else _) in *.
  assert (Kept dns_keys (dns_before d) s1 ∧ s1 !! "listen" = Some (Str listen)) as [Hk Hs1].
  { unfold s1. case_bool_decide; (split; [keeps|]).
    - apply lookup_insert_eq.
    - by rewrite (lookup_insert_ne _ "nameserver-policy"), (lookup_insert_ne _ "enable"), lookup_insert_eq. }
  exists section', listen. split_and!; try done.
  - destruct (tn_Enabled _); [|by simplify_eq]. pose proof (renderTunDNS_kept _ _ _ _ Ht) as Hkt.
    (* listen is set before the TUN's settings and kept by them *)
    unfold renderTunDNS in Ht. apply bind_ok in Ht as (d1 & Hm%set_enhanced_mode_kept & Hr).
    assert (d1 !! "listen" = Some (Str listen)) as Hd1.
    { rewrite (Hm "listen") by decide_key. by rewrite lookup_insert_ne. }
    destruct (negb (anyEndpoint _ _)); [done|]. destruct (_ && anyResolver _ _ _); [done|].
    destruct (negb (is_string _ _)); [by simplify_eq|]. apply bind_ok in Hr as (ranges & _ & Hr). destruct (anyResolver _ _ _); [done|].
    injection Hr as <-. by rewrite (fill_fake_ip_kept _ _ "listen") by decide_key.
  - destruct (tn_Enabled _); [|by simplify_eq]. eapply kept_weaken; [eapply kept_trans; [done|by eapply renderTunDNS_kept]|].
    intros k Hk'. set_solver.
  - intros He. rewrite He in Ht. eauto.
Qed.
Lemma renderDNS_kept d intent d' : renderDNS d intent = Ok d' → Kept ["dns"] d d'.
Proof. intros [(-> & _)|(section & listen & -> & _)]%renderDNS_ok; keeps. Qed.

(** ** The chain *)
Context (lstat : string → option (bool * bool)).
Record stages (intent : ConfigTypes.Snapshot) (paths : gmap string string) (c : ControllerSettings) (capability : Capability)
    (d0 d1 d2 d3 : gmap string any) (registry : FilterRegistry) (providers providers' d6 d7 d8 : gmap string any) : Prop := {
  st_source_tun : check_source_tun d0 = Ok tt;
  st_tun : render_tun intent capability d0 = Ok d1;
  st_inbound : ∀ field, field ∈ ["listeners"; "tunnels"] → get d1 field = Nil ∨ get d1 field = List [];
  st_probe : render_probe intent c capability d1 = Ok d2;
  st_port : render_port (ct_ProxyPort c) d2 = Ok d3;
  st_redirect : ∀ field, field ∈ ["redir-port"; "tproxy-port"] → get d3 field = Nil ∨ get d3 field = Int 0;
  st_existing : existingProviders (render_controller c (mh_Mode (cs_Mihomo intent)) d3) = Ok providers;
  st_registry : filters_Build lstat intent paths = Ok registry;
  st_resources : ∀ r, r ∈ cs_Resources intent → check_resource paths c capability r = Ok tt;
  st_installed : fold_each install_provider providers (fr_providers registry) = Ok providers';
  st_filters : renderFilters (render_providers providers' (render_controller c (mh_Mode (cs_Mihomo intent)) d3)) registry = Ok d6;
  st_dns : renderDNS d6 intent = Ok d7;
  st_delays : renderURLTestDelays d7 (cs_Mihomo intent) = Ok d8
}.
Lemma is_ok_tt {E} (r : result E unit) : is_ok r = true → r = Ok tt.
Proof. by destruct r as [[]|]. Qed.
Lemma render_document_stages d intent paths c capability d' :
  render_document lstat d intent paths c capability = Ok d' →
  ∃ d1 d2 d3 registry providers providers' d6 d7, stages intent paths c capability d d1 d2 d3 registry providers providers' d6 d7 d'.
Proof.
  unfold render_document. intros ([] & Hs & Hr)%bind_ok. apply bind_ok in Hr as (d1 & Hd1 & Hr). apply bind_ok in Hr as ([] & Hi & Hr).
  apply bind_ok in Hr as (d2 & Hd2 & Hr). apply bind_ok in Hr as (d3 & Hd3 & Hr). apply bind_ok in Hr as ([] & Hd & Hr).
  apply bind_ok in Hr as (providers & Hp & Hr). apply bind_ok in Hr as (registry & Hg%rendered_ok & Hr). apply bind_ok in Hr as ([] & Hc & Hr).
  apply bind_ok in Hr as (providers' & Hp' & Hr). apply bind_ok in Hr as (d6 & Hf & Hr). apply bind_ok in Hr as (d7 & Hn & Hr).
  exists d1, d2, d3, registry, providers, providers', d6, d7. pose proof (proj1 (each_ok _ _) Hi) as Hi'. pose proof (proj1 (each_ok _ _) Hd) as Hd'.
  pose proof (proj1 (each_ok _ _) Hc) as Hc'. split; try done.
  - intros field Hin. apply check_inbound_ok, is_ok_tt, Hi', Hin.
  - intros field Hin. apply check_redirect_ok, is_ok_tt, Hd', Hin.
  - intros r Hin. apply is_ok_tt, Hc'. by rewrite elem_of_sort_slice.
Qed.

(** Before and after the controller's keys. *)
Definition early_keys : list string := ["tun"; "listeners"; "proxy-groups"; "mixed-port"; "port"; "socks-port"].
Definition late_keys : list string := ["rule-providers"; "rules"; "dns"; "proxy-groups"].
Definition managed_keys : list string := early_keys ++ controller_touched ++ late_keys.
Lemma stages_early intent paths c capability d0 d1 d2 d3 registry providers providers' d6 d7 d8 :
  stages intent paths c capability d0 d1 d2 d3 registry providers providers' d6 d7 d8 → Kept early_keys d0 d3.
Proof.
  intros Hs. eapply kept_weaken;
    [eapply kept_trans; [eapply kept_trans; [by eapply render_tun_kept, st_tun|by eapply render_probe_kept, st_probe]|by eapply render_port_kept, st_port]|].
  unfold early_keys. intros k. set_solver.
Qed.
Lemma stages_late intent paths c capability d0 d1 d2 d3 registry providers providers' d6 d7 d8 :
  stages intent paths c capability d0 d1 d2 d3 registry providers providers' d6 d7 d8 →
  Kept late_keys (render_controller c (mh_Mode (cs_Mihomo intent)) d3) d8.
Proof.
  intros Hs. eapply kept_weaken;
    [eapply kept_trans; [eapply kept_trans; [eapply kept_trans; [apply render_providers_kept|by eapply renderFilters_kept, st_filters]|
       by eapply renderDNS_kept, st_dns]|by eapply renderURLTestDelays_kept, st_delays]|].
  unfold late_keys, delay_keys. intros k. set_solver.
Qed.
Lemma stages_kept intent paths c capability d0 d1 d2 d3 registry providers providers' d6 d7 d8 :
  stages intent paths c capability d0 d1 d2 d3 registry providers providers' d6 d7 d8 → Kept managed_keys d0 d8.
Proof.
  intros Hs. eapply kept_weaken; [eapply kept_trans; [by eapply stages_early|eapply kept_trans; [apply render_controller_kept|by eapply stages_late]]|].
  done.
Qed.
End facts.
