(* ===== verification/MihomoConfined.v ===== *)
(** * What a rendered configuration is

    [Render_confined]: one controller behind the secret and no inbound the
    profile brings; [Render_filters]: the managed rules and their providers;
    [Render_read_back]: what is read back from the file before it is started. *)
From Stdlib Require Import Ascii.
From S2P Require Import Prelude GoTime GoSort GoStrings GoNet MonitorModel GoPath ConfigTypes ConfigValidate ResourceValidate Dns CoreSnapshot GoYaml GoFs ResourceStore Filters MihomoRender MihomoRenderFacts.
Open Scope Z_scope.

Section confined.
Context `{GoNet} `{GoNetip} `{GoSort} `{GoHash} `{Yaml}.
(** The keys [render_controller] writes. *)
Ltac find_key := repeat first [apply lookup_insert_eq | rewrite lookup_insert_ne by done | rewrite lookup_delete_eq | rewrite lookup_delete_ne by done]; try done.
Lemma controller_values c mode d :
  let d' := render_controller c mode d in
  d' !! "secret" = Some (Str (ct_Secret c)) ∧ d' !! "allow-lan" = Some (Bool false) ∧ d' !! "bind-address" = Some (Str "127.0.0.1") ∧
  d' !! "geo-auto-update" = Some (Bool false) ∧
  (mode ≠ "" → d' !! "mode" = Some (Str mode)) ∧ (mode = "" → d' !! "mode" = d !! "mode") ∧
  (if bool_decide (ct_Socket c = "") then d' !! "external-controller" = Some (Str (ct_Address c)) ∧ d' !! "external-controller-unix" = None
   else d' !! "external-controller-unix" = Some (Str (ct_Socket c)) ∧ d' !! "external-controller" = None) ∧
  ∀ k, k ∈ controller_keys → k ≠ "external-controller-unix" → d' !! k = None.
Proof.
  cbn zeta. assert (delete_keys controller_keys d !! "mode" = d !! "mode") as Hmode.
  { by apply (delete_keys_kept controller_keys controller_keys); [done|apply kept_refl|decide_key]. }
  assert (∀ k, k ∈ controller_keys → delete_keys controller_keys d !! k = None) as Hgone by (intros k; apply delete_keys_gone).
  assert (delete_keys controller_keys d !! "external-controller-unix" = None) as Hunix by (apply Hgone; decide_key).
  assert (∀ k, k ∈ controller_keys → k ∉ ["external-controller"; "secret"; "allow-lan"; "geo-auto-update"; "bind-address"; "mode"]) as Hdisj.
  { intros k Hk Hin. unfold controller_keys in Hk. repeat (apply elem_of_cons in Hk as [->|Hk]; [by vm_compute in Hin; set_solver|]). by apply not_elem_of_nil in Hk. }
  unfold render_controller, streq. case_bool_decide as Hs; cbn [negb]; (case_bool_decide as Hm; cbn [negb]; split_and!; try done).
  all: try (by find_key).
  all: try (intros _; by find_key).
  all: intros k Hk Hne; specialize (Hdisj k Hk); rewrite !lookup_insert_ne by set_solver; rewrite ?lookup_delete_ne by set_solver; by apply Hgone.
Qed.

Context (lstat : string → option (bool * bool)).

Lemma Render_stages profile intent paths c capability out :
  Render lstat profile intent paths c capability = Ok out →
  check_controller c = Ok tt ∧ ∃ source d d1 d2 d3 registry providers providers' d6 d7,
    yaml_unmarshal profile = Some (Some source) ∧ yaml_marshal d = Some out ∧
    stages lstat intent paths c capability source d1 d2 d3 registry providers providers' d6 d7 d.
Proof.
  unfold Render. intros ([] & Hc & Hr)%bind_ok. split; [done|]. apply bind_ok in Hr as (source & Hs & Hr).
  apply bind_ok in Hr as (d & (d1 & d2 & d3 & g & p & p' & d6 & d7 & Hst)%render_document_stages & Hr).
  exists source, d, d1, d2, d3, g, p, p', d6, d7. split_and!; [|by destruct (yaml_marshal d); simplify_eq|done].
  unfold source_document in Hs. destruct (yaml_unmarshal profile) as [[s|]|]; try done. destruct (_ && _); [done|]. by simplify_eq.
Qed.

(** Other ways into the controller, and its web interface. *)
Definition other_controllers : list string :=
  ["external-controller-pipe"; "external-controller-tls"; "external-controller-cors"; "external-controller-routing-mark";
   "external-doh-server"; "external-ui"; "external-ui-name"; "external-ui-url"].
(** What the generated configuration allows. *)
Record confined (intent : ConfigTypes.Snapshot) (c : ControllerSettings) (capability : Capability) (d : gmap string any) : Prop := {
  cf_secret : d !! "secret" = Some (Str (ct_Secret c)) ∧ ct_Secret c ≠ "";
  cf_controller :
    if bool_decide (ct_Socket c = "")
    then d !! "external-controller" = Some (Str (ct_Address c)) ∧ is_loopback_listener (ct_Address c) = true ∧
         d !! "external-controller-unix" = None
    else d !! "external-controller-unix" = Some (Str (ct_Socket c)) ∧ filepath_is_abs (ct_Socket c) = true ∧
         d !! "external-controller" = None;
  cf_no_other : ∀ k, k ∈ other_controllers → d !! k = None;
  cf_lan : d !! "allow-lan" = Some (Bool false) ∧ d !! "bind-address" = Some (Str "127.0.0.1");
  cf_ports : 0 < ct_ProxyPort c →
    d !! "mixed-port" = Some (Int (ct_ProxyPort c)) ∧ d !! "port" = Some (Int 0) ∧ d !! "socks-port" = Some (Int 0);
  cf_redirect : ∀ field, field ∈ ["redir-port"; "tproxy-port"] → get d field = Nil ∨ get d field = Int 0;
  cf_tunnels : get d "tunnels" = Nil ∨ get d "tunnels" = List [];
  cf_listeners :
    if bool_decide (m_SwitchPolicy (cs_Monitor intent) = SwitchSteadyStream)
    then get d "listeners" = List [probe_listener (ct_StreamProbe c)] ∧ 0 < sl_Port (ct_StreamProbe c) ∧
         sl_Username (ct_StreamProbe c) ≠ "" ∧ sl_Password (ct_StreamProbe c) ≠ ""
    else get d "listeners" = Nil ∨ get d "listeners" = List [];
  cf_tun :
    if tn_Enabled (cs_Tun intent)
    then d !! "tun" = Some (tun_section (tn_Stack (cs_Tun intent))) ∧ cb_SupportsTUN capability = true
    else ∀ tun, d !! "tun" = Some (Map tun) → is_true (get tun "enable") = false;
  cf_dns : get d "dns" = Nil ∨ ∃ section listen, d !! "dns" = Some (Map section) ∧ section !! "listen" = Some (Str listen) ∧
    is_loopback_listener listen = true;
  cf_mode : mh_Mode (cs_Mihomo intent) ≠ "" → d !! "mode" = Some (Str (mh_Mode (cs_Mihomo intent)))
}.

(** The keys of the stages, in the final document. *)
Lemma stages_final intent paths c capability d0 d1 d2 d3 g p p' d6 d7 d :
  stages lstat intent paths c capability d0 d1 d2 d3 g p p' d6 d7 d →
  ∀ k, k ∉ controller_touched → k ∉ late_keys → d !! k = d3 !! k.
Proof. intros Hs k Hk Hl. rewrite (stages_late _ _ _ _ _ _ _ _ _ _ _ _ _ _ _ Hs) by done. by apply render_controller_kept. Qed.

Lemma confined_final intent paths c capability d0 d1 d2 d3 g p p' d6 d7 d :
  check_controller c = Ok tt → stages lstat intent paths c capability d0 d1 d2 d3 g p p' d6 d7 d → confined intent c capability d.
Proof.
  intros Hc Hs. pose proof (stages_final _ _ _ _ _ _ _ _ _ _ _ _ _ _ Hs) as Hd3.
  pose proof (stages_late _ _ _ _ _ _ _ _ _ _ _ _ _ _ _ Hs) as Hd4.
  destruct (controller_values c (mh_Mode (cs_Mihomo intent)) d3) as (Hsec & Hlan & Hbind & _ & Hmode & _ & Hctl & Hother).
  pose proof (render_port_ok _ _ _ (st_port _ _ _ _ _ _ _ _ _ _ _ _ _ _ _ Hs)) as [Hpr Hport].
  pose proof (render_port_kept _ _ _ (st_port _ _ _ _ _ _ _ _ _ _ _ _ _ _ _ Hs)) as Hk3.
  pose proof (render_probe_kept _ _ _ _ _ (st_probe _ _ _ _ _ _ _ _ _ _ _ _ _ _ _ Hs)) as Hk2.
  pose proof (render_probe_ok _ _ _ _ _ (st_probe _ _ _ _ _ _ _ _ _ _ _ _ _ _ _ Hs)) as Hpb.
  pose proof (render_tun_ok _ _ _ _ (st_tun _ _ _ _ _ _ _ _ _ _ _ _ _ _ _ Hs)) as Htun.
  unfold check_controller in Hc. destruct (streq (ct_Secret c) "") eqn:Es; [done|]. apply streq_false in Es.
  split.
  - rewrite Hd4 by decide_key. done.
  - unfold streq in Hc. destruct (decide (ct_Socket c = "")) as [E|E].
    + rewrite bool_decide_true in Hctl, Hc |- * by done. destruct Hctl as [Ha Hb]. rewrite !Hd4 by decide_key.
      split_and!; [done| |done]. by destruct (is_loopback_listener _).
    + rewrite bool_decide_false in Hctl, Hc |- * by done. destruct Hctl as [Ha Hb]. rewrite !Hd4 by decide_key.
      split_and!; [done| |done]. by destruct (filepath_is_abs _).
  - intros k Hk. rewrite Hd4; [apply Hother|]; unfold other_controllers, late_keys, controller_keys in *; set_solver.
  - rewrite !Hd4 by decide_key. done.
  - intros Hp. rewrite !Hd3 by decide_key. rewrite Hport. apply Z.ltb_lt in Hp as ->. split_and!; find_key.
  - intros field Hf. rewrite (get_same d3 d field); [by apply (st_redirect _ _ _ _ _ _ _ _ _ _ _ _ _ _ _ Hs)|].
    apply Hd3; unfold controller_touched, late_keys, controller_keys; set_solver.
  - rewrite (get_same d1 d "tunnels"); [apply (st_inbound _ _ _ _ _ _ _ _ _ _ _ _ _ _ _ Hs); decide_key|].
    rewrite Hd3 by decide_key. rewrite Hk3 by decide_key. by apply Hk2; decide_key.
  - rewrite (get_same d2 d "listeners") by (rewrite Hd3 by decide_key; by apply Hk3; decide_key). case_bool_decide.
    + destruct Hpb as (_ & (? & ? & ? & ->)%renderStreamProbe_ok). by rewrite get_insert.
    + subst d2. apply (st_inbound _ _ _ _ _ _ _ _ _ _ _ _ _ _ _ Hs). decide_key.
  - assert (d !! "tun" = d1 !! "tun") as ->.
    { rewrite Hd3 by decide_key. rewrite Hk3 by decide_key. by apply Hk2; decide_key. }
    destruct (tn_Enabled _); [destruct Htun as (? & _ & ->); by rewrite lookup_insert_eq|]. subst d1.
    apply check_source_tun_ok, (st_source_tun _ _ _ _ _ _ _ _ _ _ _ _ _ _ _ Hs).
  - pose proof (renderURLTestDelays_kept _ _ _ (st_delays _ _ _ _ _ _ _ _ _ _ _ _ _ _ _ Hs)) as Hk8.
    rewrite (get_same d7 d "dns") by (by apply Hk8; decide_key). rewrite Hk8 by decide_key.
    destruct (renderDNS_ok _ _ _ (st_dns _ _ _ _ _ _ _ _ _ _ _ _ _ _ _ Hs)) as [(-> & _ & Hn & _)|(section & listen & -> & Hl & Hlb & _)]; [by left|].
    right. exists section, listen. by rewrite lookup_insert_eq.
  - intros Hm. rewrite Hd4 by decide_key. auto.
Qed.

End confined.

(** ** The managed rules of a rendered configuration

    [Render_filters]: every enabled filter is one rule ahead of the profile's, its
    provider installed beside the profile's and its target a name the profile
    knows. *)
(** The names in a list of a document, and every name a rule may target. *)
Definition names_in (d : gmap string any) (key : string) : list string := concat (name_of <$> default [] (as_list (get d key))).
Definition known_names (d : gmap string any) : list string := ["DIRECT"; "REJECT"] ++ names_in d "proxy-groups" ++ names_in d "proxies".
Definition provider_in (d : gmap string any) (name : string) : option any := as_map (get d "rule-providers") ≫= λ m, m !! name.
Definition rules_of (d : gmap string any) : list any := default [] (as_list (get d "rules")).
Definition rule_of (r : Reference) : any := Str ("RULE-SET," +:+ rf_Provider r +:+ "," +:+ rf_Target r).

Lemma names_in_kept keys d d' key : Kept keys d d' → key ∉ keys → names_in d' key = names_in d key.
Proof. intros Hk Hn. unfold names_in. by rewrite (get_same d d' key) by auto. Qed.

Lemma group_names_ok d names : group_names d = Ok names → names = names_in d "proxy-groups".
Proof.
  unfold group_names, names_in. destruct (is_nil _) eqn:Hn; [apply is_nil_true in Hn as ->; by intros [= <-]|].
  destruct (as_list _) as [l|]; [|done]. destruct (existsb _ l); [done|]. by intros [= <-].
Qed.
Lemma source_rules_ok d rules : source_rules d = Ok rules → rules = rules_of d.
Proof.
  unfold source_rules, rules_of. destruct (is_nil _) eqn:Hn; [apply is_nil_true in Hn as ->; by intros [= <-]|].
  destruct (as_list _) as [l|]; [|done]. by intros [= <-].
Qed.
Lemma proxy_names_in d : proxy_names d = names_in d "proxies".
Proof. unfold proxy_names, names_in. by destruct (as_list _). Qed.

Lemma managed_rules_ok g known l : (∀ r, r ∈ l → RuleSetReference g (rf_FilterID r) = Ok ("RULE-SET," +:+ rf_Provider r +:+ "," +:+ rf_Target r)) →
  ∀ managed managed', fold_each (managed_rule g known) managed l = Ok managed' →
  managed' = managed ++ (rule_of <$> l) ∧ ∀ r, r ∈ l → rf_Target r ∈ known.
Proof.
  induction l as [|r l IH]; intros Hg managed managed'; cbn.
  - intros [= <-]. rewrite app_nil_r. split; [done|]. by intros r ?%not_elem_of_nil.
  - unfold managed_rule at 1, str_in. case_bool_decide as Hin; cbn [negb]; [|done]. rewrite Hg by by left. cbn.
    intros [-> Hl]%IH; [|intros r' Hr'; apply Hg; by right]. rewrite <- app_assoc. split; [done|]. by intros r' [->|?]%elem_of_cons; auto.
Qed.
Lemma renderFilters_ok d g d' :
  (∀ r, r ∈ fr_references g → RuleSetReference g (rf_FilterID r) = Ok ("RULE-SET," +:+ rf_Provider r +:+ "," +:+ rf_Target r)) →
  renderFilters d g = Ok d' →
  (if bool_decide (fr_references g = []) then d' = d else get d' "rules" = List ((rule_of <$> fr_references g) ++ rules_of d)) ∧
  ∀ r, r ∈ fr_references g → rf_Target r ∈ known_names d.
Proof.
  unfold renderFilters. intros Hg. case_bool_decide as Hn.
  { intros [= <-]. split; [done|]. rewrite Hn. by intros r ?%not_elem_of_nil. }
  intros (names & ->%group_names_ok & Hr)%bind_ok. apply bind_ok in Hr as (rules & ->%source_rules_ok & Hr).
  apply bind_ok in Hr as (managed & [-> Ht]%managed_rules_ok & [= <-]); [|done]. rewrite get_insert. split; [done|].
  intros r Hr. specialize (Ht r Hr). by rewrite proxy_names_in in Ht.
Qed.

(** Pacing a group does not rename it. *)
Lemma pace_group_name settings m : get (pace_group settings m) "name" = get m "name".
Proof.
  unfold pace_group. destruct (negb _ && _); [done|]. destruct (0 <? mh_URLTestInterval _), (0 <? mh_URLTestTolerance _); by rewrite ?get_insert_ne.
Qed.
Lemma pace_items_names settings l : ∀ groups groups', fold_each (pace_item settings) groups l = Ok groups' →
  concat (name_of <$> groups') = concat (name_of <$> groups) ++ concat (name_of <$> l).
Proof.
  induction l as [|v l IH]; intros groups groups'; cbn; [intros [= <-]; by rewrite app_nil_r|].
  unfold pace_item at 1. destruct (as_map v) as [m|] eqn:Hm; [|done]. intros ->%IH. apply as_map_Some in Hm as ->.
  rewrite fmap_app, concat_app, <- app_assoc. cbn. by rewrite app_nil_r, pace_group_name.
Qed.
Lemma renderURLTestDelays_names d settings d' key : renderURLTestDelays d settings = Ok d' → names_in d' key = names_in d key.
Proof.
  intros Hr. destruct (decide (key = "proxy-groups")) as [->|Hne].
  2: { eapply names_in_kept; [by eapply renderURLTestDelays_kept|]. unfold delay_keys. set_solver. }
  revert Hr. unfold renderURLTestDelays. destruct (_ && _); [by intros [= <-]|].
  destruct (d !! "proxy-groups") as [raw|] eqn:Hd; [|by intros [= <-]]. destruct (as_list raw) as [l|] eqn:Hl; [|done].
  intros (groups & Hg%pace_items_names & [= <-])%bind_ok. unfold names_in. rewrite get_insert. cbn. rewrite Hg. cbn.
  unfold get. rewrite Hd. cbn. by rewrite Hl.
Qed.

Section rules.
Context `{GoNet} `{GoNetip} `{GoSort} `{GoHash} `{Yaml}.
Context (lstat : string → option (bool * bool)).

(** How the rules of a rendered document come about. *)
Record managed_rules (g : FilterRegistry) (source d : gmap string any) : Prop := {
  mr_rules : if bool_decide (fr_references g = []) then get d "rules" = get source "rules"
             else get d "rules" = List ((rule_of <$> fr_references g) ++ rules_of source);
  mr_targets : ∀ r, r ∈ fr_references g → rf_Target r ∈ known_names d;
  mr_provided : ∀ r, r ∈ fr_references g → ∃ p, p ∈ fr_providers g ∧ pv_Name p = rf_Provider r;
  mr_providers : ∀ p, p ∈ fr_providers g → provider_in d (pv_Name p) = Some (provider_entry p) ∧ provider_in source (pv_Name p) = None;
  mr_source : ∀ name v, provider_in source name = Some v → provider_in d name = Some v
}.

Lemma registered_provided s paths g r :
  registered lstat paths s g → r ∈ fr_references g → ∃ p, p ∈ fr_providers g ∧ pv_Name p = rf_Provider r.
Proof.
  intros Hg Hr. rewrite (rd_references _ _ _ _ Hg) in Hr. apply list_elem_of_fmap in Hr as (f & -> & Hf).
  destruct (proj1 (Forall_forall _ _) (rd_usable _ _ _ _ Hg) f Hf) as (res & Hin & Eid & Hp & _).
  exists (provider_of paths res). rewrite (rd_providers _ _ _ _ Hg). split; [|cbn; by rewrite Eid].
  apply list_elem_of_fmap. exists res. split; [done|]. by apply list_elem_of_filter.
Qed.

Lemma stages_rules intent paths c capability d0 d1 d2 d3 g p p' d6 d7 d :
  stages lstat intent paths c capability d0 d1 d2 d3 g p p' d6 d7 d →
  registered lstat paths intent g ∧ managed_rules g d0 d.
Proof.
  intros Hs. pose proof (filters_Build_registered _ _ _ _ (st_registry _ _ _ _ _ _ _ _ _ _ _ _ _ _ _ Hs)) as Hg. split; [done|].
  pose proof (stages_early _ _ _ _ _ _ _ _ _ _ _ _ _ _ _ Hs) as He.
  pose proof (render_controller_kept c (mh_Mode (cs_Mihomo intent)) d3) as Hc. set (d4 := render_controller _ _ d3) in *.
  destruct (install_providers_ok _ _ _ (st_installed _ _ _ _ _ _ _ _ _ _ _ _ _ _ _ Hs)) as (Hsub & Hin & Hnew).
  pose proof (renderFilters_ok _ _ _ (rd_rule _ _ _ _ Hg) (st_filters _ _ _ _ _ _ _ _ _ _ _ _ _ _ _ Hs)) as [Hr Ht].
  fold d4 in Hr, Ht. set (d5 := render_providers p' d4) in *.
  pose proof (render_providers_kept p' d4) as Hk5. fold d5 in Hk5.
  pose proof (renderFilters_kept _ _ _ (st_filters _ _ _ _ _ _ _ _ _ _ _ _ _ _ _ Hs)) as Hk6. fold d4 in Hk6. fold d5 in Hk6.
  pose proof (renderDNS_kept _ _ _ (st_dns _ _ _ _ _ _ _ _ _ _ _ _ _ _ _ Hs)) as Hk7.
  pose proof (renderURLTestDelays_kept _ _ _ (st_delays _ _ _ _ _ _ _ _ _ _ _ _ _ _ _ Hs)) as Hk8.
  assert (∀ k, k ∉ delay_keys → k ∉ ["dns"] → get d k = get d6 k) as H6.
  { intros k Hk Hk'. apply get_same. by rewrite Hk8, Hk7. }
  assert (get d5 "rules" = get d0 "rules") as Er.
  { apply get_same. rewrite Hk5 by decide_key. rewrite Hc by decide_key. by apply He; decide_key. }
  assert (∀ name, provider_in d0 name = p !! name) as Ep.
  { intros name. unfold provider_in. rewrite <- (get_same d0 d4 "rule-providers").
    - unfold get. destruct (existingProviders_ok _ _ (st_existing _ _ _ _ _ _ _ _ _ _ _ _ _ _ _ Hs)) as [[E ->]|E]; fold d4 in E; by rewrite E.
    - rewrite Hc by decide_key. by apply He; decide_key. }
  assert (∀ name v, p' !! name = Some v → provider_in d name = Some v) as Ep'.
  { intros name v Hv. unfold provider_in. rewrite H6 by decide_key. rewrite (get_same d5 d6) by (by apply Hk6; decide_key).
    unfold d5, render_providers. rewrite bool_decide_false by (intros ->; by rewrite lookup_empty in Hv). by rewrite get_insert. }
  split.
  - rewrite (H6 "rules") by decide_key. unfold rules_of in Hr |- *. rewrite <- Er. case_bool_decide; [by rewrite Hr|done].
  - intros r Hin'. specialize (Ht r Hin'). unfold known_names in Ht |- *.
    rewrite !(renderURLTestDelays_names _ _ _ _ (st_delays _ _ _ _ _ _ _ _ _ _ _ _ _ _ _ Hs)).
    rewrite !(names_in_kept _ _ _ _ Hk7), !(names_in_kept _ _ _ _ Hk6) by decide_key. done.
  - intros r. by eapply registered_provided.
  - intros q Hq. split; [by apply Ep', Hin|]. rewrite Ep. by apply (proj1 (Forall_forall _ _) Hnew).
  - intros name v. rewrite Ep. intros Hv. apply Ep'. by eapply lookup_weaken.
Qed.

(** C31: the filters of a rendered configuration: the registry holds exactly the
    enabled rule resources with their validated files and the enabled filters in
    order; each is one RULE-SET rule before the profile's own rules, whose
    provider is installed and whose target the configuration names; no provider
    of the profile is replaced. *)
Theorem Render_filters profile intent paths c capability out :
  Render lstat profile intent paths c capability = Ok out →
  ∃ source d g, yaml_unmarshal profile = Some (Some source) ∧ yaml_marshal d = Some out ∧
    registered lstat paths intent g ∧ managed_rules g source d.
Proof.
  intros (_ & source & d & d1 & d2 & d3 & g & p & p' & d6 & d7 & Hu & Hm & Hs)%Render_stages.
  exists source, d, g. split_and!; [done..| |]; by eapply stages_rules.
Qed.
End rules.

(** ** The DNS a TUN depends on

    [renderTunDNS_sound]: what the DNS section promises once the TUN hijacks
    port 53, in terms of the list of all configured endpoints. *)
Section tun.
Context `{GoNet} `{GoNetip} `{GoSort} `{GoHash} `{Yaml}.

(** A section through which every name can be resolved. *)
Record resolves (mode : string) (section : gmap string any) : Prop := {
  rv_enabled : section !! "enable" = Some (Bool true);
  rv_mode : mode = "profile" ∧ get section "enhanced-mode" ≠ Nil ∨ mode ∈ ["fake-ip"; "redir-host"] ∧ get section "enhanced-mode" = Str mode;
  rv_nameserver : ∃ endpoint, endpoint ∈ endpoints (get section "nameserver") ∧ endpoint ≠ "";
  rv_bootstrap :
    (∃ endpoint, endpoint ∈ endpoints (get section "default-nameserver") ∧ endpoint ≠ "") ∨
    ∀ endpoint, endpoint ∈ resolvers section bootstrappedResolvers → is_Some (resolverAddr endpoint)
}.
(** The ranges fake addresses come from contain no resolver. *)
Record apart (section : gmap string any) : Prop := {
  ap_range : get section "fake-ip-range" ≠ Nil;
  ap_filter : get section "fake-ip-filter" ≠ Nil;
  ap_ranges : ∀ key, key ∈ ["fake-ip-range"; "fake-ip-range6"] → get section key ≠ Nil →
    ∃ prefix, ParsePrefix (default "" (as_string (get section key))) = Some prefix ∧
      ∀ endpoint addr, endpoint ∈ resolvers section ("default-nameserver" :: bootstrappedResolvers) →
        resolverAddr endpoint = Some addr → prefix_contains prefix addr = false
}.

Lemma fake_ip_ranges_ok section keys : ∀ ranges ranges',
  fold_each (fake_ip_range section) ranges keys = Ok ranges' →
  ranges ⊆ ranges' ∧ ∀ key, key ∈ keys → get section key ≠ Nil →
    ∃ prefix, ParsePrefix (default "" (as_string (get section key))) = Some prefix ∧ prefix ∈ ranges'.
Proof.
  induction keys as [|k keys IH]; intros ranges ranges'; cbn.
  { intros [= <-]. split; [done|]. by intros key ?%not_elem_of_nil. }
  unfold fake_ip_range at 1. destruct (is_nil (get section k)) eqn:Hn.
  - apply is_nil_true in Hn. intros [Hs Hk]%IH. split; [done|]. by intros key [->|?]%elem_of_cons; auto.
  - destruct (ParsePrefix _) as [prefix|] eqn:Hp; [|done]. intros [Hs Hk]%IH. split; [set_solver|].
    intros key [->|?]%elem_of_cons; [|by apply Hk]. intros _. exists prefix. split; [done|]. set_solver.
Qed.

Lemma fill_set key v section : v ≠ Nil → get (fill key v section) key ≠ Nil.
Proof. intros Hv. unfold fill. destruct (is_nil (get section key)) eqn:Hn; [by rewrite get_insert|]. intros E. by rewrite E in Hn. Qed.
Lemma fill_other key v section key' : key' ≠ key → get (fill key v section) key' = get section key'.
Proof. intros Hne. unfold fill. destruct (is_nil _); [by rewrite get_insert_ne|done]. Qed.

Lemma resolves_kept mode section section' :
  Kept ["fake-ip-range"; "fake-ip-range6"; "fake-ip-filter"] section section' → resolves mode section → resolves mode section'.
Proof.
  intros Hk [He Hm Hn Hb].
  assert (∀ k, k ∉ ["fake-ip-range"; "fake-ip-range6"; "fake-ip-filter"] → get section' k = get section k) as Hg.
  { intros k Hk'. by apply get_same, Hk. }
  split.
  - by rewrite Hk by decide_key.
  - by rewrite Hg by decide_key.
  - by rewrite Hg by decide_key.
  - rewrite Hg by decide_key. destruct Hb as [Hb|Hb]; [by left|right]. intros endpoint. unfold resolvers, bootstrappedResolvers. cbn.
    rewrite !Hg by decide_key. apply Hb.
Qed.

(** C33: with the TUN on, DNS is enabled in the chosen mode, some resolver is
    configured, resolver host names can themselves be resolved, and under
    fake-ip no resolver of any section lies inside a fake range. *)
Theorem renderTunDNS_sound section mode ipv6 section' :
  renderTunDNS section mode ipv6 = Ok section' →
  resolves mode section' ∧ (get section' "enhanced-mode" = Str "fake-ip" → apart section').
Proof.
  unfold renderTunDNS. intros (s1 & Hm & Hr)%bind_ok.
  destruct (negb (anyEndpoint _ _)) eqn:Hn; [done|]. destruct (_ && anyResolver _ _ _) eqn:Hb; [done|].
  assert (resolves mode s1) as Hres.
  { split.
    - pose proof (set_enhanced_mode_kept _ _ _ Hm) as Hk. rewrite Hk by decide_key. apply lookup_insert_eq.
    - unfold set_enhanced_mode in Hm. destruct (streq mode _) eqn:E; [apply streq_true in E as ->; left|right].
      + injection Hm as <-. split; [done|]. by apply fill_set.
      + unfold str_in in Hm. case_bool_decide; [|done]. injection Hm as <-. by rewrite get_insert.
    - apply negb_false_iff in Hn. rewrite anyEndpoint_endpoints, existsb_true in Hn. destruct Hn as (e & He & Hp).
      exists e. split; [done|]. by apply negb_true_iff, streq_false in Hp.
    - apply andb_false_iff in Hb as [Hb%negb_false_iff|Hb].
      + left. rewrite anyEndpoint_endpoints, existsb_true in Hb. destruct Hb as (e & He & Hp).
        exists e. split; [done|]. by apply negb_true_iff, streq_false in Hp.
      + right. rewrite anyResolver_resolvers, existsb_false in Hb. intros e He. specialize (Hb e He). unfold is_hostname in Hb.
        by destruct (resolverAddr e). }
  destruct (negb (is_string _ _)) eqn:Hf.
  { injection Hr as <-. split; [done|]. intros E. by rewrite E in Hf. }
  apply bind_ok in Hr as (ranges & [_ Hranges]%fake_ip_ranges_ok & Hr).
  destruct (anyResolver _ _ (inside_ranges _)) eqn:Hi; [done|]. injection Hr as <-.
  split; [eapply resolves_kept; [apply fill_fake_ip_kept|done]|]. intros _. split.
  - unfold fill_fake_ip. rewrite fill_other by done. destruct ipv6; [rewrite fill_other by done|]; by apply fill_set.
  - by apply fill_set.
  - intros key Hk Hnil. destruct (Hranges key Hk Hnil) as (prefix & Hp & Hin). exists prefix. split; [done|].
    intros e addr He Ha. rewrite anyResolver_resolvers, existsb_false in Hi. specialize (Hi e He). unfold inside_ranges in Hi.
    rewrite Ha, existsb_false in Hi. by apply Hi.
Qed.
End tun.
