(* ===== verification/MihomoReports.v ===== *)
(** * What is read back from a rendered configuration

    The ports and the stream probe that are read before Mihomo starts, the report
    of overridden keys, and the mode switch without a restart. *)
From Stdlib Require Import Ascii.
From S2P Require Import Prelude GoTime GoStrings GoSort GoNet GoPath GoFs GoYaml MonitorModel CoreSnapshot ConfigTypes ConfigValidate ResourceValidate ResourceStore Dns Filters MihomoRender MihomoRenderFacts MihomoConfined.
Open Scope Z_scope.

Section reports.
Context `{GoNet} `{GoNetip} `{GoSort} `{GoHash} `{Yaml}.
Context (lstat : string → option (bool * bool)).

Definition plain_output (out : list ascii) : Prop := ∀ d, yaml_marshal d = Some out → yaml_plain d = true.

(** ** Ports *)
(** The fields of a listener as written. *)
Lemma read_fields m : yaml_fields (decoded (Map m)) = Some (decoded <$> m).
Proof. apply yaml_fields_of. Qed.
Lemma read_user_probe l :
  read_user (decoded (Map (list_to_map [("username", Str (sl_Username l)); ("password", Str (sl_Password l))]))) =
  Some (sl_Username l, sl_Password l).
Proof.
  unfold read_user. rewrite read_fields. cbn [mbind option_bind]. rewrite !get_decoded.
  change (get _ "username") with (Str (sl_Username l)). change (get _ "password") with (Str (sl_Password l)).
  cbn [decoded]. by rewrite !yaml_string_of.
Qed.
Lemma read_listener_probe l : 0 < sl_Port l ≤ 65535 →
  read_listener (decoded (probe_listener l)) = Some (mkListener StreamProbeName (sl_Port l) [(sl_Username l, sl_Password l)]).
Proof.
  intros Hp. unfold read_listener, probe_listener. rewrite read_fields. cbn [mbind option_bind]. rewrite !get_decoded.
  set (user := Map (list_to_map [("username", Str (sl_Username l)); ("password", Str (sl_Password l))])).
  change (get _ "name") with (Str StreamProbeName). change (get _ "port") with (Int (sl_Port l)). change (get _ "users") with (List [user]).
  change (decoded (Str StreamProbeName)) with (Str StreamProbeName). change (decoded (Int (sl_Port l))) with (Int (sl_Port l)).
  change (decoded (List [user])) with (List [decoded user]).
  rewrite yaml_string_of. cbn [mbind option_bind]. rewrite yaml_int_of by lia. cbn [mbind option_bind]. rewrite yaml_items_of.
  cbn [mbind option_bind mapM]. unfold user. by rewrite read_user_probe.
Qed.

(** C32: what is started is what was rendered: the mixed port and the stream probe
    read back from the file are those of the settings, and without steady-stream
    switching there is no probe. *)
Theorem Render_read_back profile intent paths c capability out :
  Render lstat profile intent paths c capability = Ok out → plain_output out →
  (0 < ct_ProxyPort c → MixedPort out = Ok (ct_ProxyPort c)) ∧
  (sl_Port (ct_StreamProbe c) ≤ 65535 →
   StreamProbe out = Ok (if bool_decide (m_SwitchPolicy (cs_Monitor intent) = SwitchSteadyStream)
                         then ct_StreamProbe c else mkStreamListener 0 "" "")).
Proof.
  intros (Hc & source & d & d1 & d2 & d3 & g & p & p' & d6 & d7 & _ & Hm & Hs)%Render_stages Hpl.
  pose proof (confined_final _ _ _ _ _ _ _ _ _ _ _ _ _ _ _ Hc Hs) as Hcf.
  pose proof (proj1 (render_port_ok _ _ _ (st_port _ _ _ _ _ _ _ _ _ _ _ _ _ _ _ Hs))) as Hport.
  assert (read_document out = Some (decoded <$> d)) as Hread.
  { unfold read_document. by rewrite (yaml_round_trip d out (Hpl d Hm) Hm). }
  split.
  - intros Hp. unfold MixedPort. rewrite Hread. cbn. rewrite get_decoded. unfold get.
    destruct (cf_ports _ _ _ _ Hcf Hp) as [-> _]. cbn. rewrite yaml_int_of by lia.
    destruct ((ct_ProxyPort c <=? 0) || (65535 <? ct_ProxyPort c)) eqn:E; [|done].
    apply orb_true_iff in E as [E|E]; go_bool; [apply Z.leb_le in E|apply Z.ltb_lt in E]; lia.
  - intros Hp. unfold StreamProbe. rewrite Hread. cbn. rewrite get_decoded.
    pose proof (cf_listeners _ _ _ _ Hcf) as Hl. case_bool_decide.
    + destruct Hl as (-> & Hpos & Hu & Hpw). cbn [decoded]. rewrite yaml_items_of. cbn [mbind option_bind]. cbn [fmap list_fmap].
      cbn [mapM]. rewrite read_listener_probe by lia. cbn. unfold probe_of. cbn.
      destruct (ct_StreamProbe c) as [port user password]. cbn in *.
      rewrite decide_True by done. cbn. destruct (_ || streq password "") eqn:E; [|done]. apply streq_false in Hu, Hpw. rewrite Hu, Hpw, !orb_false_r in E.
      apply orb_true_iff in E as [E|E]; [apply Z.leb_le in E|apply Z.ltb_lt in E]; lia.
    + destruct Hl as [->| ->]; cbn; [by rewrite yaml_items_nil|by rewrite yaml_items_of].
Qed.

(** ** Overrides *)
(** Keys that are changed without being reported. *)
Definition silent_keys : list string :=
  ["geo-auto-update"; "external-controller-pipe"; "external-controller-routing-mark"; "external-doh-server"; "external-ui-name"; "external-ui-url"].
(** How a value that may be absent changes. *)
Inductive changes : option any → option any → string → Prop :=
| change_added v : changes None (Some v) "added"
| change_removed v : changes (Some v) None "removed"
| change_replaced v w : deep_equal v w = false → changes (Some v) (Some w) "replaced".
Lemma override_change_spec before after change : override_change before after = Some change ↔ changes before after change.
Proof.
  split.
  - destruct before as [v|], after as [w|]; cbn; [destruct (deep_equal v w) eqn:E| | |]; intros [= <-]; by constructor.
  - destruct 1 as [| |v w E]; cbn; [done|done|by rewrite E].
Qed.
(** What a report says of one key. *)
Definition reports (report : list ConfigOverrideSnapshot) (key : string) (before after : option any) : Prop :=
  ∀ change, mkConfigOverrideSnapshot key change ∈ report ↔ changes before after change.
Lemma document_overrides_reports original effective key :
  key ∈ ConfigOverrideKeys → reports (document_overrides original effective) key (override_value original key) (override_value effective key).
Proof.
  intros Hk change. unfold document_overrides. rewrite list_elem_of_omap, <- override_change_spec. split.
  - intros (k & _ & E). destruct (override_change _ _) eqn:Ec; [|done]. by injection E as <- <-.
  - intros E. exists key. split; [done|]. by rewrite E.
Qed.
Lemma override_value_plain d key : cut key (byte 46) = None → override_value d key = d !! key.
Proof. unfold override_value. by intros ->. Qed.
Lemma managed_reported k : k ∈ managed_keys → k ∉ silent_keys → k ≠ "dns" → k ∈ ConfigOverrideKeys ∧ cut k (byte 46) = None.
Proof.
  intros Hk Hs Hd.
  assert (Forall (λ k, k ∈ silent_keys ∨ k = "dns" ∨ k ∈ ConfigOverrideKeys ∧ cut k (byte 46) = None) managed_keys) as Hall.
  { apply (bool_decide_unpack _). by vm_compute. }
  rewrite Forall_forall in Hall. destruct (Hall k Hk) as [?|[?|?]]; done.
Qed.

Lemma dns_keys_reported k : k ∈ dns_keys → "dns." +:+ k ∈ ConfigOverrideKeys ∧ cut ("dns." +:+ k) (byte 46) = Some ("dns", k).
Proof.
  intros Hk. assert (Forall (λ k, "dns." +:+ k ∈ ConfigOverrideKeys ∧ cut ("dns." +:+ k) (byte 46) = Some ("dns", k)) dns_keys) as Hall.
  { apply (bool_decide_unpack _). by vm_compute. }
  rewrite Forall_forall in Hall. auto.
Qed.
(** The DNS section of a document, empty where it has none. *)
Definition dns_of (d : gmap string any) : gmap string any := default ∅ (as_map (get d "dns")).
Lemma override_value_dns d k : cut ("dns." +:+ k) (byte 46) = Some ("dns", k) → override_value d ("dns." +:+ k) = dns_of d !! k.
Proof. unfold override_value, dns_of. intros ->. destruct (as_map _); [done|]. cbn. by rewrite lookup_empty. Qed.

Lemma dns_of_decoded d : (∀ p, get d "dns" ≠ PolicyMap p) → dns_of (decoded <$> d) = decoded <$> dns_of d.
Proof.
  unfold dns_of. rewrite get_decoded. intros Hp. destruct (get d "dns") as [[]| | | | |p]; cbn; first [done|by rewrite fmap_empty|by destruct (Hp p)].
Qed.
Lemma generic_dns d : decoded <$> d = d → ∀ p, get d "dns" ≠ PolicyMap p.
Proof. intros Hd p E. pose proof (get_decoded d "dns") as E'. by rewrite Hd, E in E'. Qed.

(** A key that reads as before was not touched. *)
Lemma kept_decoded keys d d' k : Kept keys d d' → decoded <$> d = d → k ∉ keys → (decoded <$> d') !! k = d !! k.
Proof. intros Hk Hd Hn. rewrite lookup_fmap, (Hk k Hn), <- lookup_fmap. by rewrite Hd. Qed.

Lemma stages_dns intent paths c capability d0 d1 d2 d3 g p p' d6 d7 d :
  stages lstat intent paths c capability d0 d1 d2 d3 g p p' d6 d7 d → Kept dns_keys (dns_of d0) (dns_of d).
Proof.
  intros Hs. pose proof (renderURLTestDelays_kept _ _ _ (st_delays _ _ _ _ _ _ _ _ _ _ _ _ _ _ _ Hs)) as Hk8.
  pose proof (renderFilters_kept _ _ _ (st_filters _ _ _ _ _ _ _ _ _ _ _ _ _ _ _ Hs)) as Hk6.
  assert (get d6 "dns" = get d0 "dns") as E6.
  { apply get_same. rewrite Hk6 by decide_key. rewrite (render_providers_kept _ _ "dns") by decide_key.
    rewrite (render_controller_kept _ _ _ "dns") by decide_key. by apply (stages_early _ _ _ _ _ _ _ _ _ _ _ _ _ _ _ Hs); decide_key. }
  unfold dns_of. rewrite (get_same d7 d "dns") by (by apply Hk8; decide_key).
  destruct (renderDNS_ok _ _ _ (st_dns _ _ _ _ _ _ _ _ _ _ _ _ _ _ _ Hs)) as [(-> & _)|(section & listen & -> & _ & _ & Hk & _)].
  - rewrite E6. apply kept_refl.
  - rewrite get_insert. cbn. unfold dns_before in Hk. by rewrite E6 in Hk.
Qed.

(** C34: the override report is complete but for six keys: every other key of the
    document, and every key of its DNS section, that reads differently in the
    generated configuration is reported with its change; the six are changed
    and never reported. *)
Theorem overrides_reported profile intent paths c capability out report source effective :
  Render lstat profile intent paths c capability = Ok out → plain_output out →
  ExplainOverrides profile out = Some report →
  yaml_unmarshal profile = Some (Some source) → yaml_unmarshal out = Some (Some effective) →
  (∀ k, effective !! k ≠ source !! k → k ∈ silent_keys ∨ k = "dns" ∨ reports report k (source !! k) (effective !! k)) ∧
  (∀ k, dns_of effective !! k ≠ dns_of source !! k → reports report ("dns." +:+ k) (dns_of source !! k) (dns_of effective !! k)) ∧
  effective !! "geo-auto-update" = Some (Bool false) ∧
  ∀ k change, k ∈ silent_keys → mkConfigOverrideSnapshot k change ∉ report.
Proof.
  intros (Hc & source' & d & d1 & d2 & d3 & g & p & p' & d6 & d7 & Hu' & Hm & Hs)%Render_stages Hpl Hex Hu Ho.
  rewrite Hu in Hu'. injection Hu' as <-. pose proof (yaml_round_trip d out (Hpl d Hm) Hm) as Hrt. rewrite Ho in Hrt. injection Hrt as ->.
  pose proof (yaml_generic _ _ Hu) as Hgen. unfold ExplainOverrides in Hex. rewrite Hu, Ho in Hex. injection Hex as <-.
  pose proof (stages_kept _ _ _ _ _ _ _ _ _ _ _ _ _ _ _ Hs) as Hk. pose proof (stages_dns _ _ _ _ _ _ _ _ _ _ _ _ _ _ Hs) as Hkd.
  split_and!.
  - intros k Hne. destruct (decide (k ∈ silent_keys)) as [?|Hns]; [by left|]. destruct (decide (k = "dns")) as [?|Hnd]; [right; by left|].
    right. right. destruct (decide (k ∈ managed_keys)) as [Hin|Hnin].
    + destruct (managed_reported k Hin Hns Hnd) as [Hco Hcut].
      rewrite <- (override_value_plain source k Hcut), <- (override_value_plain _ k Hcut). by apply document_overrides_reports.
    + destruct Hne. by apply (kept_decoded managed_keys).
  - intros k Hne. destruct (decide (k ∈ dns_keys)) as [Hin|Hnin].
    + destruct (dns_keys_reported k Hin) as [Hco Hcut].
      rewrite <- (override_value_dns source k Hcut), <- (override_value_dns _ k Hcut). by apply document_overrides_reports.
    + destruct Hne. rewrite dns_of_decoded.
      * apply (kept_decoded dns_keys); [done| |done]. rewrite <- dns_of_decoded by by apply generic_dns. by rewrite Hgen.
      * intros q Hq. destruct (cf_dns _ _ _ _ (confined_final _ _ _ _ _ _ _ _ _ _ _ _ _ _ _ Hc Hs)) as [E|(section & _ & E & _)];
          [by rewrite E in Hq|unfold get in Hq; by rewrite E in Hq].
  - rewrite lookup_fmap. rewrite (stages_late _ _ _ _ _ _ _ _ _ _ _ _ _ _ _ Hs) by decide_key.
    destruct (controller_values c (mh_Mode (cs_Mihomo intent)) d3) as (_ & _ & _ & -> & _). done.
  - intros k change Hk'. unfold document_overrides. rewrite list_elem_of_omap. intros (k' & Hin & E).
    destruct (override_change _ _); [|done]. injection E as -> ->. revert Hin. unfold silent_keys in Hk'.
    repeat (apply elem_of_cons in Hk' as [->|Hk']; [by vm_compute; set_solver|]). by apply not_elem_of_nil in Hk'.
Qed.
End reports.

(** ** Switching the routing mode without a restart

    Two configurations rendered from one profile and one intent but for the mode
    differ in one key, and [ModeChange] recognises that. *)
Definition with_mode (s : ConfigTypes.Snapshot) (mode : string) : ConfigTypes.Snapshot :=
  mkSnapshot (cs_SystemProxy s)
    (mkMihomo (mh_Binary (cs_Mihomo s)) (mh_URLTestInterval (cs_Mihomo s)) (mh_URLTestTolerance (cs_Mihomo s)) (mh_MixedPort (cs_Mihomo s)) mode)
    (cs_Monitor s) (cs_DNS s) (cs_Tun s) (cs_Subscriptions s) (cs_Resources s) (cs_Filters s).

Section mode.
Context `{GoNet} `{GoNetip} `{GoSort} `{GoHash} `{Yaml}.

(** Steps that do not look at the mode. *)
Definition blind (f : gmap string any → result render_error (gmap string any)) : Prop :=
  ∀ d e v, f d = Ok e → f (<["mode" := v]> d) = Ok (<["mode" := v]> e).
Ltac other_key := rewrite ?get_insert_ne by done.
Lemma insert_mode_ne (d : gmap string any) key v w : key ≠ "mode" → <[key := w]> (<["mode" := v]> d) = <["mode" := v]> (<[key := w]> d).
Proof. intros Hne. by apply insert_insert_ne. Qed.

Lemma existing_mode d v : existingProviders (<["mode" := v]> d) = existingProviders d.
Proof. unfold existingProviders. by rewrite lookup_insert_ne. Qed.
Lemma providers_mode providers d v : render_providers providers (<["mode" := v]> d) = <["mode" := v]> (render_providers providers d).
Proof. unfold render_providers. case_bool_decide; [done|by apply insert_mode_ne]. Qed.
Lemma filters_blind g : blind (λ d, renderFilters d g).
Proof.
  intros d e v. unfold renderFilters. case_bool_decide; [congruence|]. unfold group_names, source_rules, proxy_names. other_key.
  destruct (if is_nil (get d "proxy-groups") then _ else _) as [groups|]; [|done]. cbn.
  destruct (if is_nil (get d "rules") then _ else _) as [rules|]; [|done]. cbn.
  destruct (fold_each _ _ _) as [managed|]; [|done]. cbn. intros [= <-]. by rewrite insert_mode_ne.
Qed.
Lemma dns_blind intent : blind (λ d, renderDNS d intent).
Proof.
  intros d e v. unfold renderDNS, dns_section. other_key.
  destruct (_ && negb (tn_Enabled _)); [congruence|]. destruct (negb (is_loopback_listener _)); [done|].
  destruct (if no_dns_settings _ then _ else _) as [policy|]; [|done]. cbn.
  destruct (match as_map _ with Some _ => _ | None => _ end) as [section|]; [|done]. cbn.
  destruct (if tn_Enabled _ then _ else _) as [section'|]; [|done]. cbn. intros [= <-]. by rewrite insert_mode_ne.
Qed.
Lemma delays_blind settings : blind (λ d, renderURLTestDelays d settings).
Proof.
  intros d e v. unfold renderURLTestDelays. destruct (_ && _); [congruence|]. rewrite lookup_insert_ne by done.
  destruct (d !! "proxy-groups") as [raw|]; [|congruence]. destruct (as_list raw) as [groups|]; [|done].
  destruct (fold_each _ _ _) as [groups'|]; [|done]. cbn. intros [= <-]. by rewrite insert_mode_ne.
Qed.
Lemma controller_mode c m1 m2 d : m1 ≠ "" → m2 ≠ "" → render_controller c m2 d = <["mode" := Str m2]> (render_controller c m1 d).
Proof.
  intros Hm1 Hm2. unfold render_controller. rewrite (proj2 (streq_false m1 _) Hm1), (proj2 (streq_false m2 _) Hm2). cbn [negb].
  by rewrite insert_insert_eq.
Qed.

Context (lstat : string → option (bool * bool)).

(** The document differs in one key. *)
Lemma render_document_mode d intent m1 m2 paths c capability e :
  m1 ≠ "" → m2 ≠ "" → render_document lstat d (with_mode intent m1) paths c capability = Ok e →
  render_document lstat d (with_mode intent m2) paths c capability = Ok (<["mode" := Str m2]> e).
Proof.
  intros Hm1 Hm2. unfold render_document.
  change (render_tun (with_mode intent m2)) with (render_tun (with_mode intent m1)).
  change (render_probe (with_mode intent m2)) with (render_probe (with_mode intent m1)).
  change (filters_Build lstat (with_mode intent m2) paths) with (filters_Build lstat (with_mode intent m1) paths).
  change (λ document, renderDNS document (with_mode intent m2)) with (λ document, renderDNS document (with_mode intent m1)).
  destruct (check_source_tun d) as [[]|]; [|done]. cbn [mbind result_bind].
  destruct (render_tun _ _ d) as [d1|]; [|done]. cbn [mbind result_bind]. destruct (each (check_inbound _) _) as [[]|]; [|done]. cbn [mbind result_bind].
  destruct (render_probe _ _ _ _) as [d2|]; [|done]. cbn [mbind result_bind]. destruct (render_port _ _) as [d3|]; [|done]. cbn [mbind result_bind].
  destruct (each (check_redirect _) _) as [[]|]; [|done]. cbn [mbind result_bind]. cbn [cs_Mihomo mh_Mode with_mode].
  rewrite (controller_mode c m1 m2) by done. rewrite existing_mode.
  destruct (existingProviders _) as [providers|]; [|done]. cbn [mbind result_bind].
  destruct (rendered (filters_Build _ _ _)) as [g|]; [|done]. cbn [mbind result_bind].
  destruct (each _ _) as [[]|]; [|done]. cbn [mbind result_bind]. destruct (fold_each install_provider _ _) as [providers'|]; [|done]. cbn [mbind result_bind].
  rewrite providers_mode. destruct (renderFilters (render_providers providers' (render_controller c m1 d3)) g) as [d6|] eqn:E6; [|done].
  rewrite (filters_blind g _ _ (Str m2) E6). cbn [mbind result_bind].
  destruct (renderDNS d6 (with_mode intent m1)) as [d7|] eqn:E7; [|done].
  change (renderDNS ?x (with_mode intent m2)) with (renderDNS x (with_mode intent m1)).
  rewrite (dns_blind _ _ _ (Str m2) E7). cbn [mbind result_bind]. intros E8. exact (delays_blind _ _ _ (Str m2) E8).
Qed.

(** C35: after a change of the mode alone, rendering succeeds as before and the two
    configurations are recognised as a mode change, so Mihomo is not restarted;
    the document must hold no NaN, which equals nothing. *)
Theorem mode_switch_live profile intent m1 m2 paths c capability out1 out2 :
  m1 ≠ "" → m2 ≠ "" → m1 ≠ m2 →
  Render lstat profile (with_mode intent m1) paths c capability = Ok out1 →
  Render lstat profile (with_mode intent m2) paths c capability = Ok out2 →
  plain_output out1 → plain_output out2 →
  (∀ d, yaml_unmarshal out1 = Some (Some d) → deep_equal_maps (delete "mode" d) (delete "mode" d) = true) →
  ModeChange out1 out2 = Some (m1, m2).
Proof.
  intros Hm1 Hm2 Hne Hr1 Hr2 Hp1 Hp2 Hnan. unfold Render in Hr1, Hr2.
  destruct (check_controller c) as [[]|]; [|done]. cbn [mbind result_bind] in *. destruct (source_document profile) as [d|]; [|done]. cbn [mbind result_bind] in *.
  destruct (render_document lstat d (with_mode intent m1) paths c capability) as [e|] eqn:E1; [|done]. cbn [mbind result_bind] in *.
  rewrite (render_document_mode d intent m1 m2 paths c capability e Hm1 Hm2 E1) in Hr2. cbn [mbind result_bind] in *.
  destruct (yaml_marshal e) as [b1|] eqn:M1; [|done]. injection Hr1 as ->.
  destruct (yaml_marshal (<["mode" := Str m2]> e)) as [b2|] eqn:M2; [|done]. injection Hr2 as ->.
  pose proof (yaml_round_trip _ _ (Hp1 _ M1) M1) as U1. pose proof (yaml_round_trip _ _ (Hp2 _ M2) M2) as U2.
  assert (e !! "mode" = Some (Str m1)) as Hmode.
  { apply render_document_stages in E1 as (d1 & d2 & d3 & g & p & p' & d6 & d7 & Hs).
    rewrite (stages_late _ _ _ _ _ _ _ _ _ _ _ _ _ _ _ Hs) by decide_key.
    by apply (controller_values c (mh_Mode (cs_Mihomo (with_mode intent m1))) d3). }
  unfold ModeChange. rewrite U1, U2. rewrite !get_decoded, get_insert. unfold get. rewrite Hmode. cbn -[deep_equal_maps].
  rewrite (proj2 (streq_false m1 m2) Hne), (proj2 (streq_false m2 _) Hm2). cbn [orb].
  specialize (Hnan _ U1). rewrite fmap_insert, delete_insert_eq. by rewrite Hnan.
Qed.
End mode.
