(* ===== verification/MihomoExample.v ===== *)
(** * A profile rendered

    One profile, one intent with every feature on, and the theorems at it. *)
From Stdlib Require Import Ascii.
From S2P Require Import Prelude GoTime GoStrings GoSort GoNet GoPath GoFs GoYaml MonitorModel CoreSnapshot ConfigTypes ConfigValidate ResourceValidate ResourceStore ResourceAtomicity Dns Filters MihomoRender MihomoRenderFacts MihomoConfined MihomoReports.
Open Scope Z_scope.

Module Profile.
Definition net : GoNet := table_net []
  [("127.0.0.1:9090", ("127.0.0.1", "9090")); ("127.0.0.1:1053", ("127.0.0.1", "1053")); ("192.0.2.1:53", ("192.0.2.1", "53"))]
  [("127.0.0.1", mkIP true false); ("192.0.2.1", mkIP false false)].
Definition netip : GoNetip := table_netip [("192.0.2.1", mkAddr true 3221225985 "")]
  [("198.18.0.1/16", mkPrefix (mkAddr true 3323068417 "") 15)].
#[local] Existing Instances net netip example_hash.

Definition settings (port : Z) : ControllerSettings :=
  mkControllerSettings "127.0.0.1:9090" "" "s3cret" "/home/u" port (mkStreamListener 7901 "probe" "pw").
Definition capability : Capability := mkCapability "/usr/bin/mihomo" "1.19.30" true true true true true.
Definition resource : Resource := mkResource "ads" ResourceRuleSet FormatYAML RuleDomain "https://rules.example/ads" true (3600 * Second) "".
Definition path : string := "/home/u/" +:+ ManagedFilename resource.
Definition paths : gmap string string := {["ads" := path]}.
Definition lstat (p : string) : option (bool * bool) := if streq p path then Some (false, true) else None.
Definition monitor : Monitor :=
  mkMonitor true "" SwitchSteadyStream "" 0 0 0 0 0 0 0 0 0 0 0 0 0 [].
Definition intent (tun : bool) : ConfigTypes.Snapshot :=
  mkSnapshot false (mkMihomo "system" (60 * Second) 0 7899 "rule") monitor
    (mkDNS "" [mkResolverSet "lan" ["192.0.2.1:53"] false] [mkDNSRoute "" "" "ads" "lan"])
    (mkTun tun "mixed" "profile") [] [resource] [mkFilter "block" "ads" FormatYAML "REJECT" true; mkFilter "pick" "ads" FormatYAML "Auto" false].

(** The profile: a proxy, a tested group, a rule, a resolver, a second controller
    and a UI. *)
Definition source : gmap string any := list_to_map
  [("proxies", List [Map (list_to_map [("name", Str "node"); ("type", Str "ss")])]);
   ("proxy-groups", List [Map (list_to_map [("name", Str "Auto"); ("type", Str "url-test"); ("proxies", List [Str "node"])])]);
   ("rules", List [Str "MATCH,Auto"]); ("dns", Map {["nameserver" := List [Str "192.0.2.1"]]});
   ("external-controller", Str "0.0.0.0:9999"); ("external-ui", Str "ui"); ("external-ui-url", Str "https://ui.example");
   ("geo-auto-update", Bool true); ("allow-lan", Bool true); ("log-level", Str "info")].
Definition generated (mode : string) : gmap string any :=
  match render_document lstat source (with_mode (intent true) mode) paths (settings 7899) capability with Ok d => d | Err _ => ∅ end.
(** A profile whose tun mapping has a key that is no string. *)
Definition odd_tun : any := AnyMap (list_to_map [(SStr "enable", Bool true); (SInt 1, Nil)]).
Definition odd_source : gmap string any := list_to_map [("proxies", List []); ("tun", odd_tun)].
Definition odd_intent : ConfigTypes.Snapshot :=
  mkSnapshot false (mkMihomo "system" 0 0 7899 "rule") (mkMonitor true "" "" "" 0 0 0 0 0 0 0 0 0 0 0 0 0 [])
    (mkDNS "" [] []) (mkTun false "" "") [] [] [].
Definition odd_generated : gmap string any :=
  match render_document lstat odd_source odd_intent ∅ (settings 7899) capability with Ok d => d | Err _ => ∅ end.
Definition table : list (gmap string any) := [source; generated "rule"; generated "global"; odd_source; odd_generated].
Definition yaml : Yaml := table_yaml table.
Definition body (n : nat) : list ascii := repeat (byte 0) n.
End Profile.

Import Profile.
#[local] Existing Instances net netip example_hash yaml.

Example generated_rule : Render lstat (body 0) (intent true) paths (settings 7899) capability = Ok (body 1).
Proof. by vm_compute. Qed.
Example generated_global : Render lstat (body 0) (with_mode (intent true) "global") paths (settings 7899) capability = Ok (body 2).
Proof. by vm_compute. Qed.
Lemma table_plain out : plain_output out.
Proof.
  intros d. unfold yaml_marshal, yaml_plain, yaml, table_yaml. destruct (table_index table d) as [n|]; [|done].
  intros _. by apply bool_decide_eq_true.
Qed.


Lemma Render_filters_witness :
  ∃ source d g, yaml_unmarshal (body 0) = Some (Some source) ∧ yaml_marshal d = Some (body 1) ∧
    registered lstat paths (intent true) g ∧ managed_rules g source d.
Proof. apply (Render_filters lstat (body 0) (intent true) paths (settings 7899) capability (body 1)). by vm_compute. Defined.

Lemma Render_read_back_witness :
  MixedPort (body 1) = Ok 7899 ∧ StreamProbe (body 1) = Ok (mkStreamListener 7901 "probe" "pw").
Proof.
  destruct (Render_read_back lstat (body 0) (intent true) paths (settings 7899) capability (body 1)) as [Hp Hs];
    [by vm_compute|apply table_plain|]. split; [by apply Hp|by apply Hs].
Defined.

Definition tun_dns : gmap string any := match renderTunDNS {["nameserver" := List [Str "192.0.2.1"]]} "profile" false with Ok s => s | Err _ => ∅ end.
Lemma renderTunDNS_sound_witness : resolves "profile" tun_dns ∧ apart tun_dns.
Proof.
  destruct (renderTunDNS_sound {["nameserver" := List [Str "192.0.2.1"]]} "profile" false tun_dns) as [Hr Ha]; [by vm_compute|].
  split; [done|]. apply Ha. by vm_compute.
Defined.

Lemma overrides_reported_witness :
  ∃ report, ExplainOverrides (body 0) (body 1) = Some report ∧
    mkConfigOverrideSnapshot "external-controller" "replaced" ∈ report ∧ mkConfigOverrideSnapshot "external-ui" "removed" ∈ report ∧
    mkConfigOverrideSnapshot "external-ui-url" "removed" ∉ report.
Proof.
  set (report := document_overrides (decoded <$> source) (decoded <$> generated "rule")).
  destruct (overrides_reported lstat (body 0) (intent true) paths (settings 7899) capability (body 1) report
    (decoded <$> source) (decoded <$> generated "rule")) as (Hall & _ & _ & Hs); [by vm_compute|apply table_plain|done..|].
  assert (∀ k, k ∉ "dns" :: silent_keys → (decoded <$> generated "rule") !! k ≠ (decoded <$> source) !! k →
    reports report k ((decoded <$> source) !! k) ((decoded <$> generated "rule") !! k)) as Hk.
  { intros k Hn Hne. destruct (Hall k Hne) as [?|[->|?]]; [destruct Hn; by right|destruct Hn; by left|done]. }
  exists report. split_and!; [done| | |].
  - refine (proj2 (Hk "external-controller" _ _ "replaced") _); [decide_key|by vm_compute|apply override_change_spec; by vm_compute].
  - refine (proj2 (Hk "external-ui" _ _ "removed") _); [decide_key|by vm_compute|apply override_change_spec; by vm_compute].
  - apply Hs. decide_key.
Defined.

Lemma mode_switch_live_witness : ModeChange (body 1) (body 2) = Some ("rule", "global").
Proof.
  refine (mode_switch_live lstat (body 0) (intent true) "rule" "global" paths (settings 7899) capability (body 1) (body 2)
    _ _ _ _ _ (table_plain _) (table_plain _) _); [done|done|done|by vm_compute|by vm_compute|].
  assert (yaml_unmarshal (body 1) = Some (Some (decoded <$> generated "rule"))) as E' by done.
  intros d E. rewrite E' in E. assert (decoded <$> generated "rule" = d) as <- by congruence. clear E. by vm_compute.
Defined.

