(* ===== verification/IpcFrame.v ===== *)
(** * ipc/frame.go: length-prefixed JSON frames

    A connection is what its peer will deliver, cut into the pieces single
    [Read] calls return; a writer is how much of each [Write] it takes.  JSON is
    [JsonCodec]: [encoding/json] at the value type of one frame. *)
From Stdlib Require Import Ascii.
From S2P Require Import Prelude GoStrings GoJson.
Open Scope Z_scope.
Open Scope go_scope.

Definition MaxFrameSize : Z := 2 ^ 20.

(** Pieces a peer delivers, one per [Read] at most; an empty piece is a [Read]
    returning no bytes and no error; the end is [io.EOF]. *)
Abbreviation Conn := (list (list ascii)) (only parsing).

Definition delivered (conn : Conn) : list ascii := mjoin conn.

(** One [Read] into a buffer of [n] bytes. *)
Definition conn_read (n : nat) (conn : Conn) : option (list ascii * Conn) :=
  match conn with
  | [] => None
  | piece :: rest =>
      if (length piece <=? n)%nat then Some (piece, rest) else Some (take n piece, drop n piece :: rest)
  end.

(** [io.ReadFull]: reads until the buffer is full.  Each [Read] consumes a piece
    or fills the buffer, so the number of pieces and one more is enough fuel. *)
Fixpoint read_full (fuel : nat) (n : nat) (got : list ascii) (conn : Conn) : result string (list ascii * Conn) :=
  if (n <=? length got)%nat then Ok (got, conn) else
  match fuel with
  | O => Err "fuel"
  | S fuel =>
      match conn_read (n - length got) conn with
      | None => Err (if bool_decide (got = []) then "EOF" else "unexpected EOF")
      | Some (bytes, conn) => read_full fuel n (got ++ bytes) conn
      end
  end.

Definition ReadFull (n : nat) (conn : Conn) : result string (list ascii * Conn) :=
  read_full (S (length conn)) n [] conn.

(** [binary.BigEndian] on 32 bits. *)
Definition u32_bytes (n : Z) : list ascii :=
  [byte (Z.shiftr n 24 mod 256); byte (Z.shiftr n 16 mod 256); byte (Z.shiftr n 8 mod 256); byte (n mod 256)].
Definition u32_of (l : list ascii) : Z :=
  foldl (λ acc c, acc * 256 + code c) 0 (take 4 l).

Section codec.
Context {A : Type} `{JsonCodec A}.

Definition readFrameBody (conn : Conn) (header : list ascii) : result string (A * Conn) :=
  let n := u32_of header in
  fail_if (n =? 0) || (MaxFrameSize <? n) with "ipc: frame exceeds size limit";
  match ReadFull (Z.to_nat n) conn with
  | Err e => Err e
  | Ok (body, conn) =>
      match json_decode body with
      | Err e => Err e
      | Ok (value, rest) =>
          match json_next_value rest with
          | NextEOF => Ok (value, conn)
          | NextValue => Err "ipc: multiple JSON values in frame"
          | NextError e => Err e
          end
      end
  end.

Definition readFrame (conn : Conn) : result string (A * Conn) :=
  match ReadFull 4 conn with
  | Err e => Err e
  | Ok (header, conn) => readFrameBody conn header
  end.

(** The connection's variant: one [Read] for the first bytes of the header,
    then the rest under a deadline, which only turns into a read error. *)
Definition readConnFrame (conn : Conn) : result string (A * Conn) :=
  match conn_read 4 conn with
  | None => Err "EOF"
  | Some ([], _) => Err "multiple Read calls return no data or error"
  | Some (first, conn) =>
      match (if (length first <? 4)%nat then ReadFull (4 - length first) conn else Ok ([], conn)) with
      | Err e => Err e
      | Ok (more, conn) => readFrameBody conn (first ++ more)
      end
  end.

(** Each call of [Write] takes some bytes, or fails. *)
Inductive write_reply := Takes (n : nat) | WriteFails (e : string).

(** [writeFull]: what was written, with the outcome.  The replies left over
    answer later writes; a [Write] takes at most what it is given. *)
Fixpoint writeFull (replies : list write_reply) (body : list ascii) : list ascii * result string (list write_reply) :=
  match body with
  | [] => ([], Ok replies)
  | _ =>
      match replies with
      | [] => ([], Err "blocked")
      | WriteFails e :: _ => ([], Err e)
      | Takes O :: _ => ([], Err "short write")
      | Takes n :: replies =>
          let '(written, out) := writeFull replies (drop n body) in (take n body ++ written, out)
      end
  end.

Definition writeFrame (replies : list write_reply) (value : A) : list ascii * result string (list write_reply) :=
  match json_marshal value with
  | Err e => ([], Err e)
  | Ok body =>
      if (len body =? 0) || (MaxFrameSize <? len body) then ([], Err "ipc: frame exceeds size limit") else
      match writeFull replies (u32_bytes (len body)) with
      | (header, Err e) => (header, Err e)
      | (header, Ok replies) =>
          let '(written, out) := writeFull replies body in (header ++ written, out)
      end
  end.
End codec.

(** ** Reading *)
Lemma conn_read_delivered n conn bytes rest :
  conn_read n conn = Some (bytes, rest) →
  delivered conn = bytes ++ delivered rest ∧ (length bytes ≤ n)%nat ∧
  (length bytes = n ∨ S (length rest) = length conn)%nat.
Proof.
  unfold conn_read, delivered. destruct conn as [|piece conn]; [done|].
  destruct (length piece <=? n)%nat eqn:Hl; intros [= <- <-].
  - apply Nat.leb_le in Hl. split_and!; [done|done|by right].
  - apply Nat.leb_gt in Hl. split_and!.
    + change (mjoin (?x :: ?y)) with (x ++ mjoin y). by rewrite app_assoc, take_drop.
    + rewrite length_take. lia.
    + left. rewrite length_take. lia.
Qed.

(** [ReadFull] sees only the bytes delivered, however they are cut. *)
Lemma read_full_spec fuel n got conn :
  (length conn < fuel)%nat → (length got ≤ n)%nat →
  match read_full fuel n got conn with
  | Ok (bytes, rest) => bytes ++ delivered rest = got ++ delivered conn ∧ length bytes = n
  | Err _ => (length (got ++ delivered conn) < n)%nat
  end.
Proof.
  revert got conn. induction fuel as [|fuel IH]; intros got conn Hfuel Hgot; [lia|]. cbn [read_full].
  destruct (n <=? length got)%nat eqn:Hn; [apply Nat.leb_le in Hn; split; [done|lia]|]. apply Nat.leb_gt in Hn.
  destruct (conn_read _ conn) as [[bytes rest]|] eqn:Hr.
  - apply conn_read_delivered in Hr as (Hd & Hl & Hor).
    destruct Hor as [Hfull|Hless].
    + assert (read_full fuel n (got ++ bytes) rest = Ok (got ++ bytes, rest)) as ->.
      { destruct fuel; cbn [read_full]; by rewrite (proj2 (Nat.leb_le _ _)) by (rewrite length_app; lia). }
      rewrite Hd, length_app, app_assoc. split; [done|lia].
    + specialize (IH (got ++ bytes) rest ltac:(lia)). rewrite length_app in IH. specialize (IH ltac:(lia)).
      rewrite Hd, app_assoc. done.
  - destruct conn; [|cbn in Hr; by case_match]. cbn. rewrite app_nil_r. lia.
Qed.

Lemma ReadFull_spec n conn bytes rest :
  ReadFull n conn = Ok (bytes, rest) → bytes ++ delivered rest = delivered conn ∧ length bytes = n.
Proof.
  intros Hr. pose proof (read_full_spec (S (length conn)) n [] conn ltac:(lia) ltac:(cbn; lia)) as Hs.
  unfold ReadFull in Hr. by rewrite Hr in Hs.
Qed.

Lemma ReadFull_enough n conn :
  (n ≤ length (delivered conn))%nat →
  ∃ rest, ReadFull n conn = Ok (take n (delivered conn), rest) ∧ delivered rest = drop n (delivered conn).
Proof.
  intros Hn. pose proof (read_full_spec (S (length conn)) n [] conn ltac:(lia) ltac:(cbn; lia)) as Hs.
  unfold ReadFull. destruct (read_full _ _ _ _) as [[bytes rest]|e]; [|cbn in Hs; lia].
  destruct Hs as [Hs Hl]. cbn in Hs. exists rest. rewrite <- Hs, <- Hl. by rewrite take_app_length, drop_app_length.
Qed.

Lemma u32_round_trip n : 0 ≤ n < 2 ^ 32 → u32_of (u32_bytes n) = n.
Proof.
  intros Hn. unfold u32_of, u32_bytes. cbn [take foldl].
  rewrite !code_byte by (apply Z.mod_pos_bound; lia). rewrite !Z.shiftr_div_pow2 by lia.
  change (2 ^ 24) with (256 * (256 * 256)). change (2 ^ 16) with (256 * 256). change (2 ^ 8) with 256.
  rewrite <- !Z.div_div by lia.
  pose proof (Z.div_mod n 256). pose proof (Z.div_mod (n / 256) 256). pose proof (Z.div_mod (n / 256 / 256) 256).
  rewrite (Z.mod_small (n / 256 / 256 / 256)); [lia|].
  pose proof (Z.mod_pos_bound n 256). pose proof (Z.mod_pos_bound (n / 256) 256).
  pose proof (Z.mod_pos_bound (n / 256 / 256) 256). change (2 ^ 32) with 4294967296 in Hn. lia.
Qed.

Section facts.
Context {A : Type} `{JsonCodec A}.

Lemma writeFull_ok replies body written left :
  writeFull replies body = (written, Ok left) → written = body.
Proof.
  revert body written. induction replies as [|r replies IH]; intros body written;
    (destruct body as [|c body]; [by intros [= <- <-]|]); cbn [writeFull]; [done|].
  destruct r as [[|n]|e]; [done| |done].
  destruct (writeFull replies (drop (S n) (c :: body))) as [w out] eqn:Hw. intros [= <- ->].
  apply IH in Hw as ->. apply (take_drop (S n) (c :: body)).
Qed.

Lemma writeFull_prefix replies body : (writeFull replies body).1 `prefix_of` body.
Proof.
  revert body. induction replies as [|r replies IH]; intros body;
    (destruct body as [|c body]; [done|]); cbn [writeFull]; [apply prefix_nil|].
  destruct r as [[|n]|e]; [apply prefix_nil| |apply prefix_nil].
  specialize (IH (drop (S n) (c :: body))). destruct (writeFull _ _) as [w out]. cbn [fst] in *.
  destruct IH as [k Hk]. exists k. transitivity (take (S n) (c :: body) ++ drop (S n) (c :: body));
    [by rewrite take_drop|]. rewrite Hk. by rewrite app_assoc.
Qed.

Lemma writeFrame_ok replies value written left :
  writeFrame replies value = (written, Ok left) →
  ∃ body, json_marshal value = Ok body ∧ 0 < len body ≤ MaxFrameSize ∧ written = u32_bytes (len body) ++ body.
Proof.
  unfold writeFrame. destruct (json_marshal value) as [body|]; [|done].
  destruct ((len body =? 0) || _) eqn:Hl; [done|]. go_bool. pose proof (len_nonneg body).
  destruct (writeFull replies (u32_bytes _)) as [h [left1|]] eqn:Hh; [|done].
  destruct (writeFull left1 body) as [w out] eqn:Hw. intros [= <- ->].
  apply writeFull_ok in Hh as ->. apply writeFull_ok in Hw as ->. exists body. split_and!; [done|lia|lia|done].
Qed.

Lemma readFrameBody_written body (value : A) conn extra :
  json_plain value = true → json_marshal value = Ok body → 0 < len body ≤ MaxFrameSize → delivered conn = body ++ extra →
  ∃ rest, readFrameBody conn (u32_bytes (len body)) = Ok (value, rest) ∧ delivered rest = extra.
Proof.
  intros Hp Hm Hl Hd. unfold readFrameBody, MaxFrameSize in *. rewrite u32_round_trip by (change (2 ^ 20) with 1048576 in *; lia).
  rewrite (proj2 (Z.eqb_neq _ _)), (proj2 (Z.ltb_ge _ _)) by lia. cbn [orb].
  destruct (ReadFull_enough (Z.to_nat (len body)) conn) as (rest & -> & Hrest).
  { rewrite Hd, length_app. unfold len in *. lia. }
  rewrite Hd in *. unfold len in *. rewrite Nat2Z.id in *. rewrite take_app_length, drop_app_length in *.
  destruct (json_round_trip value body Hp Hm) as (r & -> & ->). eauto.
Qed.
End facts.

(** ** Properties *)

(** C26: frames survive the transport.  Whatever the writer accepted piecewise,
    and however the bytes are cut on the way, the reader of a frame that was
    written completely gets the same value, if its strings are valid UTF-8, and
    leaves exactly the bytes that follow it. *)
Theorem frame_round_trip `{JsonCodec A} replies (value : A) written left conn extra :
  json_plain value = true → writeFrame replies value = (written, Ok left) → delivered conn = written ++ extra →
  ∃ rest, readFrame conn = Ok (value, rest) ∧ delivered rest = extra.
Proof.
  intros Hp (body & Hm & Hl & ->)%writeFrame_ok Hd. unfold readFrame.
  destruct (ReadFull_enough 4 conn) as (rest & -> & Hrest).
  { rewrite Hd, <- app_assoc, length_app. cbn. lia. }
  rewrite Hd, <- app_assoc in *. change 4%nat with (length (u32_bytes (len body))).
  change (drop 4 _) with (body ++ extra) in Hrest. rewrite take_app_length.
  by apply readFrameBody_written.
Qed.

(** the server's reader agrees with the plain one.  On a connection whose
    first read returns some byte, [readConnFrame] and [readFrame] succeed on the
    same deliveries, with the same value and the same bytes left. *)
Theorem readConnFrame_agrees `{JsonCodec A} (conn : list (list ascii)) (value : A) :
  (match conn with piece :: _ => piece ≠ [] | [] => False end) →
  ∀ left, (∃ rest, readConnFrame conn = Ok (value, rest) ∧ delivered rest = left) ↔
          (∃ rest, readFrame conn = Ok (value, rest) ∧ delivered rest = left).
Proof.
  intros Hfirst left.
  assert (∀ header c1 c2 v, delivered c1 = delivered c2 →
    (∃ rest, readFrameBody c1 header = Ok (v, rest) ∧ delivered rest = left) →
    (∃ rest, readFrameBody (A := A) c2 header = Ok (v, rest) ∧ delivered rest = left)) as Hbody.
  { intros header c1 c2 v Hd (rest & Hr & Hl). unfold readFrameBody in *. case_match; [done|].
    destruct (ReadFull _ c1) as [[b1 r1]|] eqn:H1; [|done]. apply ReadFull_spec in H1 as [Hb Hlen].
    destruct (ReadFull_enough (Z.to_nat (u32_of header)) c2) as (r2 & -> & Hr2).
    { rewrite <- Hd, <- Hb, length_app. lia. }
    rewrite <- Hd, <- Hb, <- Hlen in *. rewrite take_app_length, drop_app_length in *.
    destruct (json_decode b1) as [[v' k]|]; [|done]. destruct (json_next_value k); try done.
    injection Hr as -> ->. exists r2. split; [done|congruence]. }
  unfold readConnFrame, readFrame. destruct conn as [|piece conn]; [done|].
  destruct (conn_read 4 (piece :: conn)) as [[first c1]|] eqn:Hc; [|by cbn in Hc; case_match].
  assert (first ≠ []) as Hne.
  { cbn in Hc. destruct piece as [|c piece]; [done|]. case_match; by injection Hc as <- _. }
  pose proof (conn_read_delivered _ _ _ _ Hc) as (Hd & Hl4 & _).
  destruct first as [|c first]; [done|]. set (f := c :: first) in *.
  destruct (length f <? 4)%nat eqn:Hshort.
  - apply Nat.ltb_lt in Hshort. destruct (ReadFull (4 - length f) c1) as [[more c2]|e] eqn:Hm.
    + apply ReadFull_spec in Hm as [Hm1 Hm2].
      destruct (ReadFull_enough 4 (piece :: conn)) as (c3 & -> & Hc3).
      { rewrite Hd, <- Hm1, !length_app. lia. }
      assert (take 4 (delivered (piece :: conn)) = f ++ more ∧ drop 4 (delivered (piece :: conn)) = delivered c2) as [-> Hd2].
      { rewrite Hd, <- Hm1, app_assoc. replace 4%nat with (length (f ++ more)) by (rewrite length_app; lia).
        by rewrite take_app_length, drop_app_length. }
      split; apply Hbody; congruence.
    + split; [by intros (? & ? & _)|]. intros (rest & Hr & _).
      destruct (ReadFull 4 (piece :: conn)) as [[h c3]|] eqn:H4; [|done]. apply ReadFull_spec in H4 as [H4 H4l].
      destruct (ReadFull_enough (4 - length f) c1) as (c4 & Hc4 & _); [|congruence].
      apply (f_equal length) in H4. rewrite Hd, !length_app in H4. lia.
  - apply Nat.ltb_ge in Hshort. assert (length f = 4%nat) as Hlen by lia.
    destruct (ReadFull_enough 4 (piece :: conn)) as (c3 & -> & Hc3); [rewrite Hd, length_app; lia|].
    rewrite app_nil_r. rewrite Hd, <- Hlen in *. rewrite take_app_length, drop_app_length in *.
    split; apply Hbody; congruence.
Qed.

(** A codec for closed examples: a value is its own encoding. *)
#[refine] Instance raw_codec : JsonCodec (list ascii) := {|
  json_marshal v := Ok v;
  json_decode body := Ok (body, []);
  json_next_value rest := NextEOF;
  json_plain v := true
|}.
Proof. intros v body _ [= <-]. by exists []. Defined.

Definition hello : list ascii := bytes_of "{}".

Lemma frame_round_trip_witness :
  ∃ rest, readFrame (H := raw_codec) [take 3 (u32_bytes 2); drop 3 (u32_bytes 2) ++ hello ++ [byte 9]] = Ok (hello, rest) ∧
    delivered rest = [byte 9].
Proof.
  apply (frame_round_trip (H := raw_codec) [Takes 1; Takes 3; Takes 5] hello (u32_bytes 2 ++ hello) []); reflexivity.
Defined.

Lemma readConnFrame_agrees_witness :
  ∃ rest, readConnFrame (H := raw_codec) [[byte 0]; [byte 0; byte 0; byte 2]; hello] = Ok (hello, rest) ∧ delivered rest = [].
Proof.
  apply (readConnFrame_agrees (H := raw_codec) [[byte 0]; [byte 0; byte 0; byte 2]; hello] hello);
    [discriminate|]. exists []. split; reflexivity.
Defined.
