(* ===== verification/IpcProtocol.v ===== *)
(** * ipc/protocol.go: what crosses the boundary

    [Command] with its validation, kind by kind, and the bounds a snapshot must
    meet before it is sent.  A pointer field is an option; unsigned fields are
    [Z] within their width.  The size of the marshalled response is [frame_size]. *)
From Stdlib Require Import Ascii.
From S2P Require Import Prelude GoTime GoStrings GoNet GoPath MonitorModel ConfigTypes ConfigValidate CoreSnapshot IpcFrame.
Open Scope Z_scope.
Open Scope go_scope.

Inductive CommandKind :=
| CommandStart | CommandStop | CommandRestart | CommandReloadConfiguration | CommandUpdateConfiguration
| CommandManualProbe | CommandSelectGroup | CommandSetAutomation | CommandRefreshSubscription
| CommandActivateSubscription | CommandDeleteSubscription | CommandPutSubscription | CommandRefreshResource
| CommandRefreshFilter | CommandPutResource | CommandPutFilter | CommandSetDNSRouting | CommandTestNotification
| CommandAuthorizeTun | CommandSetAutoFastest
| CommandOther (name : string).
#[export] Instance CommandKind_eq_dec : EqDecision CommandKind.
Proof. intros x y. unfold base.Decision. decide equality. apply String.string_dec. Defined.

Record ConfigPatch := mkConfigPatch {
  cp_SystemProxyEnabled : option bool;
  cp_DNSListen : option string;
  cp_MonitorEnabled : option bool;
  cp_MonitorTestURL : option string;
  cp_MonitorSwitchPolicy : option string;
  cp_MonitorStreamURL : option string;
  cp_MonitorStreamIntervalSeconds : option Z;
  cp_MonitorIntervalSeconds : option Z;
  cp_MonitorTimeoutMillis : option Z;
  cp_MonitorConcurrency : option Z;
  cp_MonitorThresholdMillis : option Z;
  cp_AlertThresholdMillis : option Z;
  cp_MonitorConsecutiveBadSamples : option Z;
  cp_MonitorWindowSize : option Z;
  cp_MonitorMinCandidateSamples : option Z;
  cp_MonitorMaxFailures : option Z;
  cp_MonitorMinImprovementMillis : option Z;
  cp_MonitorCooldownSeconds : option Z;
  cp_MonitorJitterMillis : option Z;
  cp_Binary : option string;
  cp_URLTestIntervalSeconds : option Z;
  cp_URLTestToleranceMillis : option Z;
  cp_MixedPort : option Z;
  cp_ProxyMode : option string;
  cp_TunEnabled : option bool;
  cp_TunStack : option string;
  cp_TunDNSMode : option string
}.
#[export] Instance ConfigPatch_eq_dec : EqDecision ConfigPatch.
Proof. intros x y. unfold base.Decision. decide equality; apply option_eq_dec. Defined.

Definition empty_patch : ConfigPatch :=
  mkConfigPatch None None None None None None None None None None None None None None None None None None None
    None None None None None None None None.

Definition patch_Empty (p : ConfigPatch) : bool := bool_decide (p = empty_patch).

Record SubscriptionEdit := mkSubscriptionEdit {
  se_Name : option string; se_URL : option string; se_UserAgent : option string; se_Enabled : option bool;
  se_RefreshIntervalSeconds : option Z; se_TimeoutSeconds : option Z; se_Route : option string;
  se_AllowHTTP : option bool; se_AllowInvalidTLS : option bool
}.
Record ResourceEdit := mkResourceEdit {
  re_Kind : option string; re_Format : option string; re_RuleType : option string; re_URL : option string;
  re_Enabled : option bool; re_IntervalSeconds : option Z; re_SHA256 : option string
}.
Record FilterEdit := mkFilterEdit {
  fe_ResourceID : option string; fe_Format : option string; fe_Target : option string; fe_Enabled : option bool
}.
Record DNSResolverSet := mkDNSResolverSet { de_ID : string; de_Endpoints : list string; de_DNSCrypt : bool }.
Record DNSRouteEdit := mkDNSRouteEdit {
  dre_Suffix : string; dre_GeoSite : string; dre_Resource : string; dre_ResolverSet : string
}.
Record DNSRoutingEdit := mkDNSRoutingEdit { dr_ResolverSets : list DNSResolverSet; dr_Routes : list DNSRouteEdit }.
Record AutomationSetting := mkAutomationSetting { au_Enabled : bool }.

Record Command := mkCommand {
  c_Kind : CommandKind;
  c_GroupID : string;
  c_ChoiceID : string;
  c_SubscriptionID : string;
  c_ResourceID : string;
  c_FilterID : string;
  c_Config : option ConfigPatch;
  c_Automation : option AutomationSetting;
  c_Subscription : option SubscriptionEdit;
  c_Resource : option ResourceEdit;
  c_Filter : option FilterEdit;
  c_DNSRouting : option DNSRoutingEdit
}.

(** [^[A-Za-z0-9][A-Za-z0-9._-]{0,63}$] *)
Definition validID (id : string) : bool :=
  negb (slen id =? 0) && (slen id <=? 64) && stable_chars true (bytes_of id).

(** NUL, CR and LF. *)
Definition control_chars : string := of_bytes [byte 0; byte 13; byte 10].

(** [p != nil && bad( *p )] *)
Definition bad_field {A} (p : option A) (bad : A → bool) : bool :=
  match p with Some v => bad v | None => false end.
Definition absent {A} (p : option A) : bool := match p with None => true | Some _ => false end.

Definition long_or_control (limit : Z) (s : string) : bool := (limit <? slen s) || contains_any s control_chars.
Definition outside (lo hi : Z) (n : Z) : bool := (n <? lo) || (hi <? n).

Definition validBinaryIntent (value : string) : bool :=
  if streq value "system" || streq value "bundled" then true
  else negb (streq value "") && (slen value <=? 4096) && filepath_is_abs value && negb (contains_any value control_chars).
Definition validTunStack (value : string) : bool := str_in value TunStacks.
Definition validTunDNSMode (value : string) : bool := str_in value TunDNSModes.

(** [hasOtherTarget] *)
Definition hasOtherTarget (c : Command) (want : string) : bool :=
  (negb (streq want "subscription") && negb (streq (c_SubscriptionID c) "")) ||
  (negb (streq want "resource") && negb (streq (c_ResourceID c) "")) ||
  (negb (streq want "filter") && negb (streq (c_FilterID c) "")).

Section protocol.
Context `{GoNet}.

Definition validate_patch (p : ConfigPatch) : result string unit :=
  fail_if patch_Empty p with "empty configuration patch";
  fail_if bad_field (cp_MonitorTestURL p) (long_or_control 2048) with "invalid monitor test URL";
  fail_if bad_field (cp_MonitorSwitchPolicy p) (λ v, negb (ValidPolicyName v)) with "invalid monitor switch policy";
  fail_if bad_field (cp_MonitorStreamURL p) (λ v, negb (is_ok (ValidStreamURL v))) with "invalid monitor stream URL";
  fail_if bad_field (cp_MonitorStreamIntervalSeconds p)
            (λ v, (wrap64 (v * Second) <? MinStreamInterval) || (86400 <? v))
    with "monitor stream interval out of range";
  fail_if bad_field (cp_TunStack p) (λ v, negb (validTunStack v)) ||
          bad_field (cp_TunDNSMode p) (λ v, negb (validTunDNSMode v)) with "invalid TUN mode setting";
  fail_if bad_field (cp_ProxyMode p) (λ v, negb (str_in v ProxyModes)) with "invalid proxy mode";
  fail_if bad_field (cp_MixedPort p) (outside MixedPortMin MixedPortMax) with "mixed port out of range";
  fail_if bad_field (cp_DNSListen p) (long_or_control 128) with "invalid DNS listener";
  fail_if bad_field (cp_MonitorConcurrency p) (outside 1 64) ||
          bad_field (cp_MonitorConsecutiveBadSamples p) (outside 1 MonitorWindowMax)
    with "monitor worker or sample count out of range";
  fail_if bad_field (cp_MonitorWindowSize p) (outside MonitorWindowMin MonitorWindowMax) ||
          bad_field (cp_MonitorMinCandidateSamples p) (outside MonitorWindowMin MonitorWindowMax) ||
          bad_field (cp_MonitorMaxFailures p) (outside 1 MonitorWindowMax)
    with "monitor stability window out of range";
  fail_if bad_field (cp_MonitorTimeoutMillis p) (outside 1 86400000) ||
          bad_field (cp_MonitorThresholdMillis p) (λ v, v =? 0) ||
          bad_field (cp_MonitorMinImprovementMillis p) (λ v, v =? 0)
    with "monitor delay policy out of range";
  fail_if bad_field (cp_MonitorIntervalSeconds p) (outside 1 86400) with "monitor interval out of range";
  fail_if bad_field (cp_AlertThresholdMillis p) (outside 1 60000) with "alert threshold out of range";
  fail_if bad_field (cp_Binary p) (λ v, negb (validBinaryIntent v)) with "invalid binary selection";
  Ok tt.

Definition validate_subscription_edit (p : SubscriptionEdit) : result string unit :=
  fail_if absent (se_Name p) && absent (se_URL p) && absent (se_UserAgent p) && absent (se_Enabled p) &&
          absent (se_RefreshIntervalSeconds p) && absent (se_TimeoutSeconds p) && absent (se_Route p) &&
          absent (se_AllowHTTP p) && absent (se_AllowInvalidTLS p)
    with "empty subscription edit";
  fail_if bad_field (se_Name p) (long_or_control 128) || bad_field (se_URL p) (long_or_control 4096)
    with "invalid subscription edit field";
  fail_if bad_field (se_UserAgent p) (λ v, (256 <? slen v) || negb (forallb (in_range 32 126) (bytes_of v)))
    with "invalid subscription user agent";
  fail_if bad_field (se_RefreshIntervalSeconds p) (outside 60 (86400 * 30)) ||
          bad_field (se_TimeoutSeconds p) (outside 1 300)
    with "subscription schedule out of range";
  fail_if bad_field (se_Route p) (λ v, negb (ValidRoute v)) with "invalid subscription route";
  Ok tt.

Definition validate_resource_edit (p : ResourceEdit) : result string unit :=
  fail_if absent (re_Kind p) && absent (re_Format p) && absent (re_RuleType p) && absent (re_URL p) &&
          absent (re_Enabled p) && absent (re_IntervalSeconds p) && absent (re_SHA256 p)
    with "empty resource edit";
  fail_if bad_field (re_URL p) (long_or_control 4096) || bad_field (re_IntervalSeconds p) (outside 60 (86400 * 30))
    with "invalid resource edit field";
  Ok tt.

Definition validate_filter_edit (p : FilterEdit) : result string unit :=
  fail_if absent (fe_ResourceID p) && absent (fe_Format p) && absent (fe_Target p) && absent (fe_Enabled p)
    with "empty filter edit";
  fail_if bad_field (fe_ResourceID p) (λ v, negb (validID v)) || bad_field (fe_Target p) (long_or_control 128)
    with "invalid filter edit field";
  Ok tt.

Definition validate_dns_edit (p : DNSRoutingEdit) : result string unit :=
  fail_if (256 <? len (dr_ResolverSets p)) || (1024 <? len (dr_Routes p)) with "DNS routing exceeds limits";
  each (λ set,
    fail_if negb (validID (de_ID set)) || (len (de_Endpoints set) =? 0) || (16 <? len (de_Endpoints set))
      with "invalid DNS resolver set";
    each (λ endpoint,
      fail_if (slen endpoint =? 0) || long_or_control 256 endpoint with "invalid DNS resolver endpoint";
      Ok tt) (de_Endpoints set)) (dr_ResolverSets p).

(** The fields every kind but its own must leave empty. *)
Definition no_group (c : Command) : bool := streq (c_GroupID c) "".
Definition no_choice (c : Command) : bool := streq (c_ChoiceID c) "".

Definition command_validate (c : Command) : result string unit :=
  fail_if negb (bool_decide (c_Kind c = CommandPutSubscription)) && negb (absent (c_Subscription c))
    with "unexpected subscription edit fields";
  fail_if (negb (bool_decide (c_Kind c = CommandPutResource)) && negb (absent (c_Resource c))) ||
          (negb (bool_decide (c_Kind c = CommandPutFilter)) && negb (absent (c_Filter c)))
    with "unexpected resource or filter edit fields";
  fail_if negb (bool_decide (c_Kind c = CommandSetDNSRouting)) && negb (absent (c_DNSRouting c))
    with "unexpected DNS routing fields";
  match c_Kind c with
  | CommandStart | CommandStop | CommandRestart | CommandReloadConfiguration | CommandTestNotification
  | CommandAuthorizeTun =>
      fail_if negb (no_group c) || negb (no_choice c) || negb (absent (c_Config c)) || negb (absent (c_Automation c)) ||
              hasOtherTarget c ""
        with "unexpected command fields";
      Ok tt
  | CommandUpdateConfiguration =>
      fail_if negb (no_group c) || negb (no_choice c) || negb (absent (c_Automation c)) || absent (c_Config c) ||
              hasOtherTarget c ""
        with "invalid configuration command";
      match c_Config c with Some p => validate_patch p | None => Err "invalid configuration command" end
  | CommandManualProbe =>
      fail_if negb (validID (c_GroupID c)) || negb (no_choice c) || negb (absent (c_Config c)) ||
              negb (absent (c_Automation c)) || hasOtherTarget c ""
        with "invalid probe command";
      Ok tt
  | CommandSelectGroup =>
      fail_if negb (validID (c_GroupID c)) || negb (validID (c_ChoiceID c)) || negb (absent (c_Config c)) ||
              negb (absent (c_Automation c)) || hasOtherTarget c ""
        with "invalid group selection command";
      Ok tt
  | CommandSetAutomation =>
      fail_if negb (validID (c_GroupID c)) || negb (no_choice c) || negb (absent (c_Config c)) ||
              absent (c_Automation c) || hasOtherTarget c ""
        with "invalid automation command";
      Ok tt
  | CommandSetAutoFastest =>
      fail_if negb (no_group c) || negb (no_choice c) || negb (absent (c_Config c)) || absent (c_Automation c) ||
              hasOtherTarget c ""
        with "invalid auto fastest command";
      Ok tt
  | CommandPutSubscription =>
      fail_if negb (validID (c_SubscriptionID c)) || absent (c_Subscription c) || negb (no_group c) ||
              negb (no_choice c) || negb (absent (c_Config c)) || negb (absent (c_Automation c)) ||
              hasOtherTarget c "subscription"
        with "invalid subscription edit command";
      match c_Subscription c with Some p => validate_subscription_edit p | None => Err "invalid subscription edit command" end
  | CommandRefreshSubscription | CommandActivateSubscription | CommandDeleteSubscription =>
      fail_if negb (validID (c_SubscriptionID c)) || negb (no_group c) || negb (no_choice c) ||
              negb (absent (c_Config c)) || negb (absent (c_Automation c)) || hasOtherTarget c "subscription"
        with "invalid subscription command";
      Ok tt
  | CommandPutResource =>
      fail_if negb (validID (c_ResourceID c)) || absent (c_Resource c) || negb (no_group c) || negb (no_choice c) ||
              negb (absent (c_Config c)) || negb (absent (c_Automation c)) || hasOtherTarget c "resource"
        with "invalid resource edit command";
      match c_Resource c with Some p => validate_resource_edit p | None => Err "invalid resource edit command" end
  | CommandPutFilter =>
      fail_if negb (validID (c_FilterID c)) || absent (c_Filter c) || negb (no_group c) || negb (no_choice c) ||
              negb (absent (c_Config c)) || negb (absent (c_Automation c)) || hasOtherTarget c "filter"
        with "invalid filter edit command";
      match c_Filter c with Some p => validate_filter_edit p | None => Err "invalid filter edit command" end
  | CommandSetDNSRouting =>
      fail_if absent (c_DNSRouting c) || negb (no_group c) || negb (no_choice c) || negb (absent (c_Config c)) ||
              negb (absent (c_Automation c)) || hasOtherTarget c ""
        with "invalid DNS routing command";
      match c_DNSRouting c with Some p => validate_dns_edit p | None => Err "invalid DNS routing command" end
  | CommandRefreshResource =>
      fail_if negb (validID (c_ResourceID c)) || negb (no_group c) || negb (no_choice c) ||
              negb (absent (c_Config c)) || negb (absent (c_Automation c)) || hasOtherTarget c "resource"
        with "invalid resource command";
      Ok tt
  | CommandRefreshFilter =>
      fail_if negb (validID (c_FilterID c)) || negb (no_group c) || negb (no_choice c) ||
              negb (absent (c_Config c)) || negb (absent (c_Automation c)) || hasOtherTarget c "filter"
        with "invalid filter command";
      Ok tt
  | CommandOther _ => Err "unknown command kind"
  end.
End protocol.

(** ** Snapshots *)
Definition itemLimit : Z := Z.quot (MaxFrameSize - 1024) 256.
Definition textLimit : Z := Z.quot MaxFrameSize 6.

(** The closures [addItems] and [addText] over their counters. *)
Definition addItems (count items : Z) : option Z :=
  if (count <? 0) || (itemLimit - items <? count) then None else Some (items + count).

Fixpoint addText (values : list string) (textBytes : Z) : option Z :=
  match values with
  | [] => Some textBytes
  | value :: values =>
      if textLimit - textBytes <? slen value then None else addText values (textBytes + slen value)
  end.

Fixpoint addItems_all (counts : list Z) (items : Z) : option Z :=
  match counts with
  | [] => Some items
  | c :: counts => match addItems c items with None => None | Some items => addItems_all counts items end
  end.

Definition validateTunSnapshot (t : TunSnapshot) : result string unit :=
  fail_if negb (streq (ts_Privilege t) "") && negb (str_in (ts_Privilege t) TunPrivileges) with "ipc: invalid TUN snapshot";
  fail_if (negb (streq (ts_Stack t) "") && negb (validTunStack (ts_Stack t))) ||
          (negb (streq (ts_DNSMode t) "") && negb (validTunDNSMode (ts_DNSMode t))) ||
          (negb (streq (ts_PrivilegedPath t) "") &&
           ((4096 <? slen (ts_PrivilegedPath t)) || negb (filepath_is_abs (ts_PrivilegedPath t)) ||
            contains_any (ts_PrivilegedPath t) control_chars)) ||
          (15 <? slen (ts_Device t)) || contains_any (ts_Device t) (control_chars +:+ "/ ") ||
          (160 <? slen (ts_LastFailure t)) || contains_any (ts_LastFailure t) control_chars ||
          contains (ts_LastFailure t) "://"
    with "ipc: invalid TUN snapshot";
  Ok tt.

Definition too_large : string := "ipc: snapshot exceeds protocol bounds".

(** The counters a loop threads: items, then bytes of text. *)
Abbreviation Counters := (Z * Z)%type (only parsing).
Definition count_text (values : list string) (c : Counters) : result string Counters :=
  match addText values c.2 with Some t => Ok (c.1, t) | None => Err too_large end.
Definition count_items (n : Z) (c : Counters) : result string Counters :=
  match addItems n c.1 with Some i => Ok (i, c.2) | None => Err too_large end.

Definition check_group_snapshot (c : Counters) (g : GroupSnapshot) : result string Counters :=
  count_items (len (gs_Proxies g)) c ≫= λ c,
  count_text [gs_ID g; gs_Label g; gs_Type g; gs_Selected g] c ≫= count_text (gs_Proxies g).

Definition check_proxy_snapshot (c : Counters) (p : ProxySnapshot) : result string Counters :=
  count_text [px_ID p; px_Label p; px_GroupID p; px_Outcome p] c ≫= λ c,
  fail_if (px_Failures p <? 0) || (px_Samples p <? px_Failures p) || (MonitorWindowMax <? px_Samples p) ||
          (px_MedianMillis p <? 0) || (px_JitterMillis p <? 0) || (px_StreamCompleted p <? 0) ||
          (px_StreamSamples p <? px_StreamCompleted p) || (MonitorWindowMax <? px_StreamSamples p) || (px_StreamKBps p <? 0)
    with "ipc: invalid proxy stability";
  Ok c.

Definition check_switch_snapshot (c : Counters) (s : SwitchSnapshot) : result string Counters :=
  count_items (len (sw_StreamEvidence s)) c ≫= λ c,
  fold_each (λ c e, count_text [sps_ProxyID e; sps_Outcome e] c) c (sw_StreamEvidence s).

Definition check_subscription_snapshot (c : Counters) (s : SubscriptionSnapshot) : result string Counters :=
  count_text [ssn_ID s; ssn_Name s; ssn_SourceHost s; ssn_HashPrefix s; ssn_LastFailure s; ssn_Route s] c ≫= λ c,
  fail_if negb (streq (ssn_Route s) "") && negb (ValidRoute (ssn_Route s)) with "ipc: invalid subscription policy";
  Ok c.

Definition check_set_snapshot (c : Counters) (s : ResolverSetSnapshot) : result string Counters :=
  count_items (len (rss_Endpoints s)) c ≫= λ c, count_text [rss_ID s] c ≫= count_text (rss_Endpoints s).

Definition check_diagnostic_snapshot (c : Counters) (d : DiagnosticSnapshot) : result string Counters :=
  fail_if (dg_At d <? 0) || (negb (streq (dg_Severity d) "error") && negb (streq (dg_Severity d) "info")) ||
          negb (validID (dg_Kind d)) || (negb (streq (dg_SourceID d) "") && negb (validID (dg_SourceID d))) ||
          (slen (dg_Message d) =? 0) || (160 <? slen (dg_Message d)) || contains_any (dg_Message d) control_chars ||
          contains (dg_Message d) "://"
    with "ipc: invalid diagnostic snapshot";
  count_text [dg_Severity d; dg_Kind d; dg_SourceID d; dg_Message d] c.

Definition snapshot_validate (frame_size : Snapshot → option Z) (s : Snapshot) : result string unit :=
  fail_if negb (str_in (sn_ActiveSource s) [""; "none"; "local"; "subscription"]) with "ipc: invalid active source";
  fail_if len ConfigOverrideKeys <? len (sn_ConfigOverrides s) with "ipc: invalid config override report";
  fail_if negb (forallb override_valid (sn_ConfigOverrides s)) with "ipc: invalid config override report";
  validateTunSnapshot (sn_Tun s) ≫= λ _,
  match addItems_all
    [len (sn_Groups s); len (sn_Proxies s); len (sn_Subscriptions s); len (sn_Resources s); len (sn_Filters s);
     len (dsn_ResolverSets (sn_DNS s)); len (dsn_Routes (sn_DNS s)); len (bs_Capabilities (sn_Binary s));
     len (sn_Jobs s); len (sn_Errors s)] 0 with
  | None => Err too_large
  | Some items =>
      fail_if MaxFinishedJobs <? len (sn_FinishedJobs s) with too_large;
      count_items (len (sn_FinishedJobs s)) (items, 0) ≫= λ c,
      fail_if MaxDiagnostics <? len (sn_Diagnostics s) with too_large;
      count_items (len (sn_Diagnostics s)) c ≫= λ c,
      fold_each check_group_snapshot c (sn_Groups s) ≫= λ c,
      fold_each check_proxy_snapshot c (sn_Proxies s) ≫= λ c,
      fold_each check_switch_snapshot c (sn_Switches s) ≫= λ c,
      fold_each check_subscription_snapshot c (sn_Subscriptions s) ≫= λ c,
      fold_each (λ c r, count_text [rsn_ID r; rsn_Kind r; rsn_SourceHost r; rsn_HashPrefix r; rsn_Destination r; rsn_LastResult r] c)
        c (sn_Resources s) ≫= λ c,
      fold_each (λ c f, count_text [fsn_ID f; fsn_ResourceID f; fsn_Format f; fsn_Target f] c) c (sn_Filters s) ≫= λ c,
      fold_each check_set_snapshot c (dsn_ResolverSets (sn_DNS s)) ≫= λ c,
      fold_each (λ c r, count_text [drs_Suffix r; drs_GeoSite r; drs_Resource r; drs_ResolverSet r] c)
        c (dsn_Routes (sn_DNS s)) ≫= λ c,
      count_text [bs_Desired (sn_Binary s); bs_ObservedVersion (sn_Binary s); bs_LastCompatibilityFailure (sn_Binary s);
                  msn_TestURL (sn_Monitor s); dsn_Listen (sn_DNS s)] c ≫= λ c,
      count_text (bs_Capabilities (sn_Binary s)) c ≫= λ c,
      fold_each (λ c j, count_text [jb_ID j; jb_Kind j; jb_State j] c) c (sn_Jobs s ++ sn_FinishedJobs s) ≫= λ c,
      fold_each (λ c e, count_text [er_File e; er_Key e; er_Kind e; er_SourceID e; er_Message e] c) c (sn_Errors s) ≫= λ c,
      fold_each check_diagnostic_snapshot c (sn_Diagnostics s) ≫= λ c,
      fail_if Z.quot (MaxFrameSize - 1024 - c.1 * 256) 6 <? c.2 with too_large;
      match frame_size s with
      | None => Err too_large
      | Some n => fail_if MaxFrameSize <? n with too_large; Ok tt
      end
  end.
