(* ===== verification/IpcFacts.v ===== *)
(** * Correctness of ipc/protocol.go

    An accepted command carries exactly the fields of its kind; an accepted
    snapshot is accounted for exactly and fits its frame. *)
From Stdlib Require Import Ascii.
From S2P Require Import Prelude GoTime GoStrings GoNet MonitorModel ConfigTypes ConfigValidate ConfigFacts CoreSnapshot IpcFrame IpcProtocol.
Open Scope Z_scope.
Open Scope go_scope.

(** ** Commands *)
Definition kind_is (c : Command) (kinds : list CommandKind) : bool := bool_decide (c_Kind c ∈ kinds).

(** Which fields a command of each kind carries. *)
Record command_shape (c : Command) : Prop := {
  sh_config : is_Some (c_Config c) ↔ kind_is c [CommandUpdateConfiguration] = true;
  sh_automation : is_Some (c_Automation c) ↔ kind_is c [CommandSetAutomation; CommandSetAutoFastest] = true;
  sh_subscription : is_Some (c_Subscription c) ↔ kind_is c [CommandPutSubscription] = true;
  sh_resource : is_Some (c_Resource c) ↔ kind_is c [CommandPutResource] = true;
  sh_filter : is_Some (c_Filter c) ↔ kind_is c [CommandPutFilter] = true;
  sh_dns : is_Some (c_DNSRouting c) ↔ kind_is c [CommandSetDNSRouting] = true;
  sh_group : c_GroupID c ≠ "" ↔ kind_is c [CommandManualProbe; CommandSelectGroup; CommandSetAutomation] = true;
  sh_choice : c_ChoiceID c ≠ "" ↔ kind_is c [CommandSelectGroup] = true;
  sh_subscription_id : c_SubscriptionID c ≠ "" ↔
    kind_is c [CommandPutSubscription; CommandRefreshSubscription; CommandActivateSubscription;
               CommandDeleteSubscription] = true;
  sh_resource_id : c_ResourceID c ≠ "" ↔ kind_is c [CommandPutResource; CommandRefreshResource] = true;
  sh_filter_id : c_FilterID c ≠ "" ↔ kind_is c [CommandPutFilter; CommandRefreshFilter] = true
}.

Lemma validID_nonempty id : validID id = true → id ≠ "".
Proof. by intros H ->. Qed.

Lemma absent_true {A} (p : option A) : absent p = true ↔ p = None.
Proof. by destruct p. Qed.
Lemma absent_false {A} (p : option A) : absent p = false ↔ p ≠ None.
Proof. by destruct p. Qed.

Lemma other_target_iff c want :
  hasOtherTarget c want = false ↔
  (want ≠ "subscription" → c_SubscriptionID c = "") ∧ (want ≠ "resource" → c_ResourceID c = "") ∧
  (want ≠ "filter" → c_FilterID c = "").
Proof.
  unfold hasOtherTarget, streq. rewrite !orb_false_iff, !andb_false_iff, !negb_false_iff, !bool_decide_eq_true.
  split; [intros [[[?|?] [?|?]] [?|?]]|intros (Hs & Hr & Hf)]; [naive_solver..|].
  split; [split|]; match goal with |- ?a = ?b ∨ _ => destruct (decide (a = b)); auto end.
Qed.

Lemma other_target_none c :
  hasOtherTarget c "" = false → c_SubscriptionID c = "" ∧ c_ResourceID c = "" ∧ c_FilterID c = "".
Proof. intros (?&?&?)%other_target_iff. auto. Qed.
Lemma other_target_subscription c :
  hasOtherTarget c "subscription" = false → c_ResourceID c = "" ∧ c_FilterID c = "".
Proof. intros (?&?&?)%other_target_iff. auto. Qed.
Lemma other_target_resource c :
  hasOtherTarget c "resource" = false → c_SubscriptionID c = "" ∧ c_FilterID c = "".
Proof. intros (?&?&?)%other_target_iff. auto. Qed.
Lemma other_target_filter c :
  hasOtherTarget c "filter" = false → c_SubscriptionID c = "" ∧ c_ResourceID c = "".
Proof. intros (?&?&?)%other_target_iff. auto. Qed.

(** A command's guard, taken apart into one fact per field. *)
Ltac shape_facts :=
  repeat match goal with
  | H : (if ?b then Err _ else _) = Ok tt |- _ => destruct b eqn:?; [discriminate H|]
  | H : (_ || _)%bool = false |- _ => apply orb_false_iff in H as [? ?]
  | H : negb _ = true |- _ => apply negb_true_iff in H
  | H : negb _ = false |- _ => apply negb_false_iff in H
  | H : hasOtherTarget _ "" = false |- _ => apply other_target_none in H as (? & ? & ?)
  | H : hasOtherTarget _ "subscription" = false |- _ => apply other_target_subscription in H as (? & ?)
  | H : hasOtherTarget _ "resource" = false |- _ => apply other_target_resource in H as (? & ?)
  | H : hasOtherTarget _ "filter" = false |- _ => apply other_target_filter in H as (? & ?)
  | H : absent _ = true |- _ => apply absent_true in H
  | H : absent _ = false |- _ => apply absent_false in H
  | H : bool_decide (_ = "") = true |- _ => apply bool_decide_eq_true in H
  | H : no_group _ = true |- _ => apply streq_true in H
  | H : no_choice _ = true |- _ => apply streq_true in H
  | H : validID _ = true |- _ => apply validID_nonempty in H
  end.

Ltac shape_iff :=
  match goal with
  | |- _ ↔ kind_is ?c ?ks = true =>
      let b := eval vm_compute in (kind_is c ks) in change (kind_is c ks) with b
  end;
  rewrite ?not_eq_None_Some in *; rewrite <- ?not_eq_None_Some in *;
  split; [intros ?; first [reflexivity|exfalso; congruence]|intros ?; first [discriminate|congruence]].

Section commands.
Context `{GoNet}.

(** C27: A command that passes its validation carries exactly the parts its
    kind declares: each of the six payloads and each of the five identifiers
    is present if and only if the kind is one of those listed for it.  A
    client cannot smuggle an edit or a second target inside another kind. *)
Theorem command_validate_shape c : command_validate c = Ok tt → command_shape c.
Proof.
  destruct c as [kind group choice sub res fil config auto esub eres efil edns]. unfold command_validate.
  intros Hv. destruct kind; cbn in Hv;
    try (exfalso; repeat case_match; discriminate);
    destruct esub, eres, efil, edns; try discriminate Hv; cbn in Hv; shape_facts;
    cbn [c_GroupID c_ChoiceID c_SubscriptionID c_ResourceID c_FilterID c_Config c_Automation] in *;
    subst; split; cbn [c_GroupID c_ChoiceID c_SubscriptionID c_ResourceID c_FilterID c_Config c_Automation
      c_Subscription c_Resource c_Filter c_DNSRouting]; shape_iff.
Qed.
End commands.

Definition example_command : Command :=
  mkCommand CommandSelectGroup "group-1" "node-7" "" "" "" None None None None None None.

Theorem command_validate_shape_witness :
  command_validate (H := example_net) example_command = Ok tt ∧ command_shape example_command.
Proof.
  assert (Hv : command_validate (H := example_net) example_command = Ok tt) by (vm_compute; reflexivity).
  split; [exact Hv|]. exact (@command_validate_shape example_net example_command Hv).
Defined.

(** ** Snapshots: what the two counters add up to *)
Definition total (l : list string) : Z := foldr (λ s n, slen s + n) 0 l.
Definition sum_of {A} (f : A → Z) (l : list A) : Z := foldr (λ x n, f x + n) 0 l.

Definition group_texts (g : GroupSnapshot) : list string :=
  [gs_ID g; gs_Label g; gs_Type g; gs_Selected g] ++ gs_Proxies g.
Definition proxy_texts (p : ProxySnapshot) : list string := [px_ID p; px_Label p; px_GroupID p; px_Outcome p].
Definition switch_texts (s : SwitchSnapshot) : list string :=
  sw_StreamEvidence s ≫= λ e, [sps_ProxyID e; sps_Outcome e].
Definition subscription_texts (s : SubscriptionSnapshot) : list string :=
  [ssn_ID s; ssn_Name s; ssn_SourceHost s; ssn_HashPrefix s; ssn_LastFailure s; ssn_Route s].
Definition resource_texts (r : ResourceSnapshot) : list string :=
  [rsn_ID r; rsn_Kind r; rsn_SourceHost r; rsn_HashPrefix r; rsn_Destination r; rsn_LastResult r].
Definition filter_texts (f : FilterSnapshot) : list string := [fsn_ID f; fsn_ResourceID f; fsn_Format f; fsn_Target f].
Definition set_texts (s : ResolverSetSnapshot) : list string := rss_ID s :: rss_Endpoints s.
Definition route_texts (r : DNSRouteSnapshot) : list string :=
  [drs_Suffix r; drs_GeoSite r; drs_Resource r; drs_ResolverSet r].
Definition job_texts (j : JobSnapshot) : list string := [jb_ID j; jb_Kind j; jb_State j].
Definition error_texts (e : ErrorSnapshot) : list string := [er_File e; er_Key e; er_Kind e; er_SourceID e; er_Message e].
Definition diagnostic_texts (d : DiagnosticSnapshot) : list string :=
  [dg_Severity d; dg_Kind d; dg_SourceID d; dg_Message d].

(** Every string the check counts, and every element of every list it counts. *)
Definition snapshot_texts (s : Snapshot) : list string :=
  (sn_Groups s ≫= group_texts) ++ (sn_Proxies s ≫= proxy_texts) ++ (sn_Switches s ≫= switch_texts) ++
  (sn_Subscriptions s ≫= subscription_texts) ++ (sn_Resources s ≫= resource_texts) ++
  (sn_Filters s ≫= filter_texts) ++ (dsn_ResolverSets (sn_DNS s) ≫= set_texts) ++
  (dsn_Routes (sn_DNS s) ≫= route_texts) ++
  [bs_Desired (sn_Binary s); bs_ObservedVersion (sn_Binary s); bs_LastCompatibilityFailure (sn_Binary s);
   msn_TestURL (sn_Monitor s); dsn_Listen (sn_DNS s)] ++ bs_Capabilities (sn_Binary s) ++
  ((sn_Jobs s ++ sn_FinishedJobs s) ≫= job_texts) ++ (sn_Errors s ≫= error_texts) ++
  (sn_Diagnostics s ≫= diagnostic_texts).

Definition snapshot_items (s : Snapshot) : Z :=
  sum_of id [len (sn_Groups s); len (sn_Proxies s); len (sn_Subscriptions s); len (sn_Resources s); len (sn_Filters s);
     len (dsn_ResolverSets (sn_DNS s)); len (dsn_Routes (sn_DNS s)); len (bs_Capabilities (sn_Binary s));
     len (sn_Jobs s); len (sn_Errors s)] +
  len (sn_FinishedJobs s) + len (sn_Diagnostics s) + sum_of (λ g, len (gs_Proxies g)) (sn_Groups s) +
  sum_of (λ w, len (sw_StreamEvidence w)) (sn_Switches s) +
  sum_of (λ d, len (rss_Endpoints d)) (dsn_ResolverSets (sn_DNS s)).

Lemma sum_of_cons {A} (f : A → Z) x l : sum_of f (x :: l) = f x + sum_of f l.
Proof. done. Qed.
Lemma total_app l k : total (l ++ k) = total l + total k.
Proof. unfold total. induction l as [|x l IH]; cbn; [done|]. rewrite IH. lia. Qed.
Lemma total_bind {A} (f : A → list string) l : total (l ≫= f) = sum_of (λ x, total (f x)) l.
Proof. induction l as [|x l IH]; cbn; [done|]. rewrite total_app, IH. done. Qed.

Lemma addText_total values t t' : addText values t = Some t' → t' = t + total values.
Proof.
  revert t. induction values as [|v values IH]; intros t; cbn [addText total foldr]; [intros [= <-]; lia|].
  destruct (_ <? _); [done|]. intros ->%IH. unfold total. lia.
Qed.
Lemma addItems_all_sum counts i i' : addItems_all counts i = Some i' → i' = i + sum_of id counts.
Proof.
  revert i. induction counts as [|v counts IH]; intros i; cbn [addItems_all sum_of foldr]; [intros [= <-]; lia|].
  unfold addItems. destruct (_ || _); [done|]. intros ->%IH. unfold sum_of, id. lia.
Qed.

(** A counting step adds [i] items and the text [l]. *)
Definition counts (f : Counters → result string Counters) (i : Z) (l : list string) : Prop :=
  ∀ c c', f c = Ok c' → c' = (c.1 + i, c.2 + total l).

Lemma counts_text l : counts (count_text l) 0 l.
Proof. intros c c'. unfold count_text. destruct (addText _ _) eqn:E; [|done]. intros [= <-].
  apply addText_total in E as ->. f_equal; lia. Qed.
Lemma counts_items n : counts (count_items n) n [].
Proof.
  intros [i t] c'. unfold count_items, addItems. cbn [fst snd]. destruct (_ || _); [done|].
  intros [= <-]. f_equal. cbn. lia.
Qed.
Lemma counts_each {A} (f : Counters → A → result string Counters) (items : A → Z) (texts : A → list string) l :
  (∀ x, counts (λ c, f c x) (items x) (texts x)) → counts (λ c, fold_each f c l) (sum_of items l) (l ≫= texts).
Proof.
  intros Hf. induction l as [|x l IH]; intros c c'; cbn [fold_each].
  - intros [= <-]. destruct c. cbn. f_equal; lia.
  - destruct (f c x) as [c1|] eqn:Hc; [|done]. apply Hf in Hc as ->. intros ->%IH.
    rewrite bind_cons, total_app, sum_of_cons. cbn [fst snd]. f_equal; lia.
Qed.
Lemma sum_of_zero {A} (l : list A) : sum_of (λ _, 0) l = 0.
Proof. induction l as [|x l IH]; [done|]. rewrite sum_of_cons. exact IH. Qed.

(** A loop whose body only counts text. *)
Lemma counts_each_text {A} (texts : A → list string) l c c' :
  fold_each (λ c x, count_text (texts x) c) c l = Ok c' → c' = (c.1, c.2 + total (l ≫= texts)).
Proof.
  intros H. apply (counts_each _ (λ _, 0) texts) in H as ->; [|intros x; apply counts_text].
  rewrite sum_of_zero. f_equal. lia.
Qed.
#[export] Hint Resolve counts_text counts_items : go_valid.

(** Walks a chain of counting steps, replacing each counter by its value. *)
Ltac count_step :=
  match goal with
  | H : _ ≫= _ = Ok _ |- _ => apply bind_ok in H as (? & ? & H)
  | H : (if ?b then Err _ else _) = Ok _ |- _ => destruct b eqn:?; [discriminate H|]
  | H : count_text _ _ = Ok _ |- _ => apply counts_text in H
  | H : count_items _ _ = Ok _ |- _ => apply counts_items in H
  | H : Ok _ = Ok _ |- _ => injection H as H
  end.
Ltac count_sum := subst; cbn [fst snd]; rewrite ?total_app; f_equal; unfold total; cbn [foldr]; lia.

Lemma counts_group g : counts (λ c, check_group_snapshot c g) (len (gs_Proxies g)) (group_texts g).
Proof. intros c c' Hc. unfold check_group_snapshot in Hc. repeat count_step. unfold group_texts. count_sum. Qed.

Lemma counts_proxy p : counts (λ c, check_proxy_snapshot c p) 0 (proxy_texts p).
Proof. intros c c' Hc. unfold check_proxy_snapshot in Hc. repeat count_step. subst. reflexivity. Qed.

Lemma counts_switch w : counts (λ c, check_switch_snapshot c w) (len (sw_StreamEvidence w)) (switch_texts w).
Proof.
  intros c c' Hc. unfold check_switch_snapshot in Hc. repeat count_step.
  apply (counts_each_text (λ e, [sps_ProxyID e; sps_Outcome e])) in Hc. unfold switch_texts. count_sum.
Qed.

Lemma counts_subscription u : counts (λ c, check_subscription_snapshot c u) 0 (subscription_texts u).
Proof. intros c c' Hc. unfold check_subscription_snapshot in Hc. repeat count_step. subst. reflexivity. Qed.

Lemma counts_set d : counts (λ c, check_set_snapshot c d) (len (rss_Endpoints d)) (set_texts d).
Proof. intros c c' Hc. unfold check_set_snapshot in Hc. repeat count_step. unfold set_texts. count_sum. Qed.

Lemma counts_diagnostic d : counts (λ c, check_diagnostic_snapshot c d) 0 (diagnostic_texts d).
Proof. intros c c' Hc. unfold check_diagnostic_snapshot in Hc. repeat count_step. subst. reflexivity. Qed.

Lemma total_nonneg l : 0 ≤ total l.
Proof. unfold total. induction l as [|x l IH]; cbn [foldr]; [lia|]. pose proof (slen_nonneg x). lia. Qed.

(** The final comparison, as a bound on the sum it divides. *)
Lemma frame_budget items text :
  0 ≤ text → text ≤ Z.quot (MaxFrameSize - 1024 - items * 256) 6 → 256 * items + 6 * text + 1024 ≤ MaxFrameSize.
Proof. change MaxFrameSize with 1048576. intros. Z.to_euclidean_division_equations. lia. Qed.

(** C28: An accepted snapshot is accounted for exactly: with every counted list
    element charged 256 bytes and every byte of counted text charged its
    worst-case escape of six, the total and the 1,024-byte envelope stay within
    one frame; job and diagnostic histories respect their own bounds; and the
    marshalled response itself fits. *)
Theorem snapshot_validate_fits frame_size s :
  snapshot_validate frame_size s = Ok tt →
  256 * snapshot_items s + 6 * total (snapshot_texts s) + 1024 ≤ MaxFrameSize ∧
  len (sn_FinishedJobs s) ≤ MaxFinishedJobs ∧ len (sn_Diagnostics s) ≤ MaxDiagnostics ∧
  ∃ n, frame_size s = Some n ∧ n ≤ MaxFrameSize.
Proof.
  unfold snapshot_validate. intros H. repeat count_step.
  destruct (addItems_all _ _) as [items|] eqn:Hitems; [|discriminate H]. apply addItems_all_sum in Hitems.
  repeat count_step. destruct (frame_size s) as [n|]; [|discriminate H]. repeat count_step.
  repeat match goal with
  | H : fold_each check_group_snapshot _ _ = Ok _ |- _ => apply (counts_each _ _ _ _ counts_group) in H
  | H : fold_each check_proxy_snapshot _ _ = Ok _ |- _ => apply (counts_each _ _ _ _ counts_proxy) in H
  | H : fold_each check_switch_snapshot _ _ = Ok _ |- _ => apply (counts_each _ _ _ _ counts_switch) in H
  | H : fold_each check_subscription_snapshot _ _ = Ok _ |- _ => apply (counts_each _ _ _ _ counts_subscription) in H
  | H : fold_each check_set_snapshot _ _ = Ok _ |- _ => apply (counts_each _ _ _ _ counts_set) in H
  | H : fold_each check_diagnostic_snapshot _ _ = Ok _ |- _ => apply (counts_each _ _ _ _ counts_diagnostic) in H
  | H : fold_each (λ _ _, _) _ (sn_Resources _) = Ok _ |- _ => apply (counts_each_text resource_texts) in H
  | H : fold_each (λ _ _, _) _ (sn_Filters _) = Ok _ |- _ => apply (counts_each_text filter_texts) in H
  | H : fold_each (λ _ _, _) _ (dsn_Routes _) = Ok _ |- _ => apply (counts_each_text route_texts) in H
  | H : fold_each (λ _ _, _) _ (_ ++ _) = Ok _ |- _ => apply (counts_each_text job_texts) in H
  | H : fold_each (λ _ _, _) _ (sn_Errors _) = Ok _ |- _ => apply (counts_each_text error_texts) in H
  end.
  subst. rewrite ?sum_of_zero in *. cbn [fst snd] in *. go_bool.
  split_and!; [|done|done|eauto].
  pose proof (total_nonneg (snapshot_texts s)) as Hpos. apply frame_budget; [exact Hpos|].
  unfold snapshot_items, snapshot_texts in *. rewrite !total_app in *.
  change (total []) with 0 in *.
  match goal with H : _ ≤ Z.quot ?a 6 |- _ ≤ Z.quot ?b 6 => replace b with a by lia end. lia.
Qed.

Definition example_snapshot : Snapshot :=
  mkSnapshot 1 "local" true [mkConfigOverrideSnapshot "mode" "added"]
    [mkGroupSnapshot "group-1" "Auto" "select" "node-1" ["node-1"; "node-2"] true false]
    [mkProxySnapshot "node-1" "Tokyo" "group-1" 80 1 "success" 0 80 2 3 1 0 0 0]
    [] [] [] (mkBinarySnapshot "system" "v1" "" ["tun"])
    (mkMonitorSnapshot true "https://example.com" "failover" false 0 0 0 60 5000 4 500 1500 3 10 3 3 20 60 0 false)
    (mkDNSSnapshot "" [] []) (mkSystemProxySnapshot false false) 7890 "rule"
    (mkTunSnapshot false false "system" "fake-ip" "ready" "" "" "" false) [] [] [] [] [].

Theorem snapshot_validate_fits_witness :
  snapshot_validate (λ _, Some 900) example_snapshot = Ok tt ∧
  256 * snapshot_items example_snapshot + 6 * total (snapshot_texts example_snapshot) + 1024 ≤ MaxFrameSize.
Proof.
  assert (Hv : snapshot_validate (λ _, Some 900) example_snapshot = Ok tt) by (vm_compute; reflexivity).
  split; [exact Hv|]. exact (proj1 (snapshot_validate_fits (λ _, Some 900) example_snapshot Hv)).
Defined.
