(* ===== verification/SubscriptionModel.v ===== *)
(** * subscriptions: usage.go, model.go's errors, and the records of store.go

    What a subscription's record holds, how declarations are normalised, when
    a subscription is due, and what clients may see of it. *)
From Stdlib Require Import Ascii.
From S2P Require Import Prelude GoTime GoStrings GoNet GoSort ConfigTypes ConfigValidate ResourceStore Download CoreSnapshot.
Open Scope Z_scope.
Open Scope go_scope.

Definition DefaultMaxProfileBytes : Z := Z.shiftl 10 20.
Definition maxProfileBytes : Z := Z.shiftl 32 20.
Definition maxCandidateBytes : Z := Z.shiftl 64 20.

#[export] Instance subscription_eq_dec : EqDecision Subscription.
Proof. solve_decision. Defined.

#[export] Instance status_error_eq_dec : EqDecision StatusError.
Proof. solve_decision. Defined.

(** ** Errors *)
#[local] Set Warnings "-register-all".
Inductive sub_error :=
| ErrInvalid | ErrActive | ErrNotFound | ErrAlreadyExists | ErrNoSnapshot | ErrSourceChanged | ErrFetch
| ErrInvalidProfile | ErrRender | ErrValidation | ErrActivation | ErrRestore | ErrStore | ErrSchedulerRunning
| ErrCleanupPending | ErrActivationCleanupPending
| Canceled | DeadlineExceeded                   (** of package context *)
| ErrStatus (s : StatusError)
| ErrStage (e : ActivationError)
| ErrJoin (l : list sub_error).                 (** errors.Join and fmt's %w *)

(** [Error()]; [errors.Join] puts its errors on lines. *)
Fixpoint error_text (e : sub_error) : string :=
  match e with
  | ErrInvalid => "subscriptions: invalid subscription"
  | ErrActive => "subscriptions: active subscription cannot be deleted"
  | ErrNotFound => "subscriptions: not found"
  | ErrAlreadyExists => "subscriptions: already exists"
  | ErrNoSnapshot => "subscriptions: no validated snapshot"
  | ErrSourceChanged => "subscriptions: source changed during refresh"
  | ErrFetch => "subscriptions: refresh failed"
  | ErrInvalidProfile => "subscriptions: invalid profile"
  | ErrRender => "subscriptions: candidate generation failed"
  | ErrValidation => "subscriptions: candidate validation failed"
  | ErrActivation => "subscriptions: activation failed"
  | ErrRestore => "subscriptions: previous runtime restore failed"
  | ErrStore => "subscriptions: private state unavailable"
  | ErrSchedulerRunning => "subscriptions: scheduler already running"
  | ErrCleanupPending => "subscriptions: deletion cleanup pending"
  | ErrActivationCleanupPending => "subscriptions: activation committed; cleanup pending"
  | Canceled => "context canceled"
  | DeadlineExceeded => "context deadline exceeded"
  | ErrStatus s => status_text s
  | ErrStage e => activation_text e
  | ErrJoin l => join ((fix texts l := match l with [] => [] | e :: l => error_text e :: texts l end) l) (of_bytes [byte 10])
  end.
Definition validFailure (failure : string) : bool :=
  str_in failure ("" :: (error_text <$> [ErrFetch; ErrNoSnapshot; ErrInvalidProfile; ErrRender; ErrValidation; DeadlineExceeded])) ||
  bool_decide (is_Some (ParseStatus failure)).

(** ** The usage header *)
Record Usage := mkUsage { us_Upload : Z; us_Download : Z; us_Total : Z; us_ExpiresAt : Z }.
#[export] Instance usage_eq_dec : EqDecision Usage.
Proof. solve_decision. Defined.

Definition set_usage (u : Usage) (key : string) (n : Z) : option Usage :=
  if streq key "upload" then Some (mkUsage n (us_Download u) (us_Total u) (us_ExpiresAt u))
  else if streq key "download" then Some (mkUsage (us_Upload u) n (us_Total u) (us_ExpiresAt u))
  else if streq key "total" then Some (mkUsage (us_Upload u) (us_Download u) n (us_ExpiresAt u))
  else if streq key "expire" then Some (mkUsage (us_Upload u) (us_Download u) (us_Total u) n)
  else None.

(** One [key=value] of the header, its key lowered and both sides trimmed. *)
Definition usage_field (field : string) : option (string * string) :=
  '(key, value) ← cut (trim_space field) (byte 61);
  Some (to_lower (trim_space key), trim_space value).
Definition add_usage (acc : option (gset string * Usage)) (field : string) : option (gset string * Usage) :=
  '(seen, usage) ← acc;
  '(key, value) ← usage_field field;
  if bool_decide (key ∈ seen) then None else
  number ← atoi value;
  if number <? 0 then None else
  usage ← set_usage usage key number;
  Some ({[key]} ∪ seen, usage).
Definition parseUsage (header : string) : option Usage :=
  if streq header "" || (1024 <? slen header) then None else
  '(seen, usage) ← foldl add_usage (Some (∅, mkUsage 0 0 0 0)) (split header (byte 59));
  if bool_decide (seen = ∅) then None else Some usage.

(** ** Records *)
Record privateRecord := mkRecord {
  pr_Subscription : Subscription;
  pr_ETag : string;
  pr_LastModified : string;
  pr_CheckedAt : time;
  pr_LastSuccess : time;
  pr_LastFailureAt : time;
  pr_LastFailure : string;
  pr_Usage : option Usage;
  pr_Hash : string;
  pr_CandidateHash : string;
  pr_DownloadedOnly : bool;
  pr_AppliedHash : string;
  pr_AppliedProfileHash : string;
  pr_AppliedCandidateHash : string;
  pr_Active : bool               (** not persisted *)
}.
#[export] Instance privateRecord_eq_dec : EqDecision privateRecord.
Proof. solve_decision. Defined.

Definition new_record (s : Subscription) : privateRecord :=
  mkRecord s "" "" zero_time zero_time zero_time "" None "" "" false "" "" "" false.
Definition with_subscription (r : privateRecord) (s : Subscription) : privateRecord :=
  mkRecord s (pr_ETag r) (pr_LastModified r) (pr_CheckedAt r) (pr_LastSuccess r) (pr_LastFailureAt r) (pr_LastFailure r)
    (pr_Usage r) (pr_Hash r) (pr_CandidateHash r) (pr_DownloadedOnly r)
    (pr_AppliedHash r) (pr_AppliedProfileHash r) (pr_AppliedCandidateHash r) (pr_Active r).
(** A new URL: no validators, due at once. *)
Definition forget_source (r : privateRecord) : privateRecord :=
  mkRecord (pr_Subscription r) "" "" zero_time (pr_LastSuccess r) (pr_LastFailureAt r) (pr_LastFailure r)
    (pr_Usage r) (pr_Hash r) (pr_CandidateHash r) (pr_DownloadedOnly r)
    (pr_AppliedHash r) (pr_AppliedProfileHash r) (pr_AppliedCandidateHash r) (pr_Active r).
Definition marked_active (r : privateRecord) (active : bool) : privateRecord :=
  mkRecord (pr_Subscription r) (pr_ETag r) (pr_LastModified r) (pr_CheckedAt r) (pr_LastSuccess r) (pr_LastFailureAt r)
    (pr_LastFailure r) (pr_Usage r) (pr_Hash r) (pr_CandidateHash r) (pr_DownloadedOnly r)
    (pr_AppliedHash r) (pr_AppliedProfileHash r) (pr_AppliedCandidateHash r) active.
Definition with_applied (r : privateRecord) (active : bool) (profileHash candidateHash : string) : privateRecord :=
  mkRecord (pr_Subscription r) (pr_ETag r) (pr_LastModified r) (pr_CheckedAt r) (pr_LastSuccess r) (pr_LastFailureAt r)
    (pr_LastFailure r) (pr_Usage r) (pr_Hash r) (pr_CandidateHash r) (pr_DownloadedOnly r)
    candidateHash profileHash candidateHash active.
(** What [writeRecord] persists. *)
Definition durable (r : privateRecord) : privateRecord := with_applied r false "" "".

Definition checked_ok (r : privateRecord) (checkedAt : time) (etag lastModified : string) (usage : option Usage) : privateRecord :=
  mkRecord (pr_Subscription r) (if streq etag "" then pr_ETag r else etag)
    (if streq lastModified "" then pr_LastModified r else lastModified) checkedAt checkedAt zero_time ""
    (match usage with Some u => Some u | None => pr_Usage r end) (pr_Hash r) (pr_CandidateHash r) (pr_DownloadedOnly r)
    (pr_AppliedHash r) (pr_AppliedProfileHash r) (pr_AppliedCandidateHash r) (pr_Active r).
Definition checked_failed (r : privateRecord) (checkedAt : time) (failure : string) : privateRecord :=
  mkRecord (pr_Subscription r) (pr_ETag r) (pr_LastModified r) checkedAt (pr_LastSuccess r) checkedAt failure
    (pr_Usage r) (pr_Hash r) (pr_CandidateHash r) (pr_DownloadedOnly r)
    (pr_AppliedHash r) (pr_AppliedProfileHash r) (pr_AppliedCandidateHash r) (pr_Active r).
Definition with_generation (r : privateRecord) (profileHash candidateHash : string) (downloadedOnly : bool)
    (checkedAt : time) (etag lastModified : string) (usage : option Usage) : privateRecord :=
  mkRecord (pr_Subscription r) etag lastModified checkedAt checkedAt zero_time "" usage profileHash candidateHash downloadedOnly
    (pr_AppliedHash r) (pr_AppliedProfileHash r) (pr_AppliedCandidateHash r) (pr_Active r).

(** ** Names *)
Definition is_id_byte (c : ascii) : bool := is_alnum c || (code c =? 46) || (code c =? 95) || (code c =? 45).
Definition validID (id : string) : bool :=
  match bytes_of id with
  | [] => false
  | c :: l => (slen id <=? 128) && is_alnum c && forallb is_id_byte l
  end.
Definition validOptionalHash (value : string) : bool :=
  if streq value "" then true else if negb (slen value =? 64) then false else hex_decodes value.
Definition validResourceCommitID (id : string) : bool := if negb (slen id =? 32) then false else hex_decodes id.
Definition profileFilename (profileHash : string) : string := "profile-" +:+ profileHash +:+ ".yaml".
Definition candidateFilename (profileHash candidateHash : string) : string :=
  "candidate-" +:+ profileHash +:+ "-" +:+ candidateHash +:+ ".yaml".

(** A generation the record still points to. *)
Definition generationReferenced (r : privateRecord) (profileHash candidateHash : string) : bool :=
  (streq (pr_Hash r) profileHash && streq (pr_CandidateHash r) candidateHash) ||
  (streq (pr_AppliedProfileHash r) profileHash && streq (pr_AppliedCandidateHash r) candidateHash).
Definition generationMatches `{GoHash} (profile candidate : list ascii) (profileHash candidateHash : string) : bool :=
  streq (digest profile) profileHash && streq (digest candidate) candidateHash.

(** ** Declarations *)
(** A source without a scheme means HTTPS. *)
Definition with_scheme (raw : string) : string :=
  if has_prefix raw "//" then "https:" +:+ raw else if negb (contains raw "://") then "https://" +:+ raw else raw.
Definition validURL `{GoNet} (raw : string) (allowHTTP : bool) : bool :=
  if streq raw "" then false else
  match url_parse (with_scheme raw) with
  | None => false
  | Some target =>
      if u_User target || streq (u_Host target) "" || negb (streq (u_Opaque target) "") then false
      else streq (u_Scheme target) "https" || (allowHTTP && streq (u_Scheme target) "http")
  end.

(** [newID] is the answer of the random source, [None] when none is wanted. *)
Definition normalizeSubscription `{GoNet} (newID : option (option string)) (s : Subscription) : result sub_error Subscription :=
  let id := trim_space (sb_ID s) in
  match (if streq id "" then match newID with Some None => None | Some (Some fresh) => Some ("sub_" +:+ fresh) | None => Some id end
         else Some id) with
  | None => Err ErrStore
  | Some id =>
      fail_if negb (validID id) with ErrInvalid;
      let name := trim_space (sb_Name s) in
      let name := if streq name "" then id else name in
      fail_if 256 <? slen name with ErrInvalid;
      let interval := if sb_RefreshInterval s =? 0 then 12 * Hour else sb_RefreshInterval s in
      let timeout := if sb_Timeout s =? 0 then 30 * Second else sb_Timeout s in
      fail_if (interval <? 0) || (timeout <? 0) with ErrInvalid;
      let route := if streq (sb_Route s) "" then "auto" else sb_Route s in
      fail_if negb (ValidRoute route) with ErrInvalid;
      let url := trim_space (sb_URL s) in
      fail_if negb (validURL url (sb_AllowHTTP s)) with ErrInvalid;
      fail_if negb (ValidSubscriptionUserAgent (sb_UserAgent s)) with ErrInvalid;
      Ok (mkSubscription id name url (sb_UserAgent s) (sb_Enabled s) interval timeout route (sb_AllowHTTP s) (sb_AllowInvalidTLS s))
  end.

(** ** Schedule *)
Definition due_time (now : time) (r : privateRecord) : time :=
  if time_is_zero (pr_CheckedAt r) then now else time_add (pr_CheckedAt r) (sb_RefreshInterval (pr_Subscription r)).
Definition scan_due (now : time) (excluded : gset string) (acc : list string * time) (entry : string * privateRecord) : list string * time :=
  let '(ids, next) := acc in
  let '(id, r) := entry in
  if negb (sb_Enabled (pr_Subscription r)) || bool_decide (id ∈ excluded) then acc else
  let due := due_time now r in
  (if negb (time_after due now) then ids ++ [id] else ids,
   if time_is_zero next || time_before due next then due else next).
(** [entries]: the records in the order Go ranges over them. *)
Definition dueIDs (entries : list (string * privateRecord)) (now : time) (excluded : gset string) : list string * time :=
  let '(ids, next) := foldl (scan_due now excluded) ([], zero_time) entries in
  (insertion_sort string_ltb ids, next).
Definition nextDue (entries : list (string * privateRecord)) (now : time) (excluded : gset string) : time :=
  (dueIDs entries now excluded).2.

(** ** The public view *)
Record Entry := mkEntry {
  en_ID : string;
  en_Name : string;
  en_SourceHost : string;
  en_Enabled : bool;
  en_RefreshInterval : duration;
  en_Timeout : duration;
  en_Route : string;
  en_AllowHTTP : bool;
  en_AllowInvalidTLS : bool;
  en_CheckedAt : time;
  en_LastSuccess : time;
  en_LastFailure : string;
  en_LastFailureAt : time;
  en_NextDue : time;
  en_Hash : string;
  en_AppliedHash : string;
  en_HasSnapshot : bool;
  en_Active : bool;
  en_PendingActivation : bool;
  en_Usage : option Usage
}.

Definition publicEntry `{GoNet} (now : time) (r : privateRecord) : Entry :=
  let s := pr_Subscription r in
  mkEntry (sb_ID s) (sb_Name s)
    (match url_parse (with_scheme (sb_URL s)) with Some u => to_lower (url_hostname u) | None => "" end)
    (sb_Enabled s) (sb_RefreshInterval s) (sb_Timeout s) (sb_Route s) (sb_AllowHTTP s) (sb_AllowInvalidTLS s)
    (pr_CheckedAt r) (pr_LastSuccess r) (pr_LastFailure r) (pr_LastFailureAt r)
    (if sb_Enabled s then due_time now r else zero_time)
    (pr_Hash r) (of_bytes (take 12 (bytes_of (pr_AppliedProfileHash r))))
    (negb (streq (pr_Hash r) "") && negb (streq (pr_CandidateHash r) ""))
    (pr_Active r) (pr_Active r && negb (streq (pr_Hash r) (pr_AppliedProfileHash r))) (pr_Usage r).
