(* ===== verification/SubscriptionFacts.v ===== *)
(** * Correctness of usage headers, declarations and the schedule *)
From Stdlib Require Import Ascii.
From S2P Require Import Prelude GoTime GoStrings GoNet GoSort ConfigTypes ConfigValidate Download SubscriptionModel.
Open Scope Z_scope.

(** ** Usage headers *)
Definition usage_keys : list string := ["upload"; "download"; "total"; "expire"].
(** A field that reads as a key with a number. *)
Definition field_is (field : string) (pair : string * Z) : Prop :=
  ∃ value, usage_field field = Some (pair.1, value) ∧ atoi value = Some pair.2.
Definition usage_pair (pair : string * Z) : Prop := pair.1 ∈ usage_keys ∧ 0 ≤ pair.2.
Definition usage_value (pairs : list (string * Z)) (key : string) : Z :=
  default 0 ((list_to_map pairs : gmap string Z) !! key).
Definition usage_of (pairs : list (string * Z)) : Usage :=
  mkUsage (usage_value pairs "upload") (usage_value pairs "download") (usage_value pairs "total") (usage_value pairs "expire").

Lemma usage_value_snoc pairs key n other :
  key ∉ pairs.*1 → usage_value (pairs ++ [(key, n)]) other = if decide (other = key) then n else usage_value pairs other.
Proof.
  intros Hk. unfold usage_value. rewrite list_to_map_app. cbn. case_decide as E.
  - subst. rewrite lookup_union_r; [by rewrite lookup_insert_eq|]. by apply not_elem_of_list_to_map_1.
  - destruct ((list_to_map pairs : gmap string Z) !! other) as [z|] eqn:F.
    + by rewrite (lookup_union_Some_l _ _ _ _ F).
    + rewrite lookup_union_r by done. by rewrite lookup_insert_ne.
Qed.
Lemma set_usage_snoc pairs key n u :
  key ∉ pairs.*1 → set_usage (usage_of pairs) key n = Some u ↔ key ∈ usage_keys ∧ u = usage_of (pairs ++ [(key, n)]).
Proof.
  intros Hk. unfold usage_of. rewrite !(usage_value_snoc pairs key n) by done. unfold set_usage, usage_keys, streq.
  rewrite !elem_of_cons, elem_of_nil. repeat case_bool_decide; subst; cbn; split; try naive_solver.
Qed.

Lemma add_usage_step pairs field seen' u' :
  add_usage (Some (list_to_set pairs.*1, usage_of pairs)) field = Some (seen', u') ↔
  ∃ pair, field_is field pair ∧ usage_pair pair ∧ (pair.1 ∉ pairs.*1) ∧
    seen' = {[pair.1]} ∪ list_to_set pairs.*1 ∧ u' = usage_of (pairs ++ [pair]).
Proof.
  unfold add_usage, field_is, usage_pair. cbn [mbind option_bind]. split.
  - destruct (usage_field field) as [[key value]|]; cbn; [|done]. case_bool_decide as Hin; [done|].
    rewrite elem_of_list_to_set in Hin. destruct (atoi value) as [n|] eqn:Hn; cbn; [|done].
    destruct (n <? 0) eqn:Hz; [done|]. go_bool. destruct (set_usage _ key n) as [u|] eqn:Hu; cbn; [|done].
    intros [= <- <-]. apply set_usage_snoc in Hu as [Hk ->]; [|done]. exists (key, n). cbn. eauto 10.
  - intros ([key n] & (value & -> & Hn) & [Hk Hz] & Hin & -> & ->). cbn in *. rewrite bool_decide_false by by rewrite elem_of_list_to_set.
    rewrite Hn. cbn. rewrite (proj2 (Z.ltb_ge n 0)) by done. by rewrite (proj2 (set_usage_snoc pairs key n _ Hin) (conj Hk eq_refl)).
Qed.

Lemma foldl_usage_none fields : foldl add_usage None fields = None.
Proof. by induction fields. Qed.
Lemma foldl_usage fields pairs seen u :
  foldl add_usage (Some (list_to_set pairs.*1, usage_of pairs)) fields = Some (seen, u) → NoDup pairs.*1 →
  ∃ more, Forall2 field_is fields more ∧ Forall usage_pair more ∧ NoDup (pairs ++ more).*1 ∧
    seen = list_to_set (pairs ++ more).*1 ∧ u = usage_of (pairs ++ more).
Proof.
  revert pairs. induction fields as [|field fields IH]; intros pairs; cbn [foldl].
  - intros [= <- <-] Hnd. exists []. rewrite app_nil_r. repeat split; [constructor..|done].
  - destruct (add_usage _ field) as [[seen1 u1]|] eqn:E; [|by rewrite foldl_usage_none].
    apply add_usage_step in E as (pair & Hf & Hp & Hn & -> & ->). intros Hrest Hnd.
    assert (({[pair.1]} ∪ list_to_set pairs.*1 : gset string) = list_to_set (pairs ++ [pair]).*1) as Hset.
    { rewrite fmap_app, list_to_set_app_L. cbn. set_solver. }
    rewrite Hset in Hrest. apply IH in Hrest as (more & Hm & Hpm & Hndm & -> & ->).
    + exists (pair :: more). rewrite <- app_assoc in *. cbn in *. repeat split; [by constructor..|done].
    + rewrite fmap_app. apply NoDup_app. split_and!; [done| |by apply NoDup_singleton].
      intros x Hx ->%list_elem_of_singleton. done.
Qed.
Lemma foldl_usage_complete fields pairs more :
  Forall2 field_is fields more → Forall usage_pair more → NoDup (pairs ++ more).*1 →
  foldl add_usage (Some (list_to_set pairs.*1, usage_of pairs)) fields =
    Some (list_to_set (pairs ++ more).*1, usage_of (pairs ++ more)).
Proof.
  intros Hf. revert pairs. induction Hf as [|field pair fields more Hf Hrest IH]; intros pairs Hp Hnd; cbn [foldl].
  - by rewrite app_nil_r.
  - apply Forall_cons_1 in Hp as [Hp Hpm].
    assert (pair.1 ∉ pairs.*1) as Hn.
    { rewrite fmap_app in Hnd. apply NoDup_app in Hnd as (_ & Hd & _). intros Hin. apply (Hd _ Hin). by left. }
    assert (add_usage (Some (list_to_set pairs.*1, usage_of pairs)) field =
      Some ({[pair.1]} ∪ list_to_set pairs.*1, usage_of (pairs ++ [pair]))) as ->.
    { apply add_usage_step. by exists pair. }
    assert (({[pair.1]} ∪ list_to_set pairs.*1 : gset string) = list_to_set (pairs ++ [pair]).*1) as ->.
    { rewrite fmap_app, list_to_set_app_L. cbn. set_solver. }
    rewrite IH; [by rewrite <- app_assoc|done|by rewrite <- app_assoc].
Qed.

(** [parseUsage] accepts a header of at most 1024 bytes exactly when its fields
    are distinct known keys with natural numbers, and returns these numbers. *)
Theorem parseUsage_exact header u :
  parseUsage header = Some u ↔
  1 ≤ slen header ≤ 1024 ∧
  ∃ pairs, Forall2 field_is (split header (byte 59)) pairs ∧ Forall usage_pair pairs ∧ NoDup pairs.*1 ∧ u = usage_of pairs.
Proof.
  unfold parseUsage. destruct (streq header "" || (1024 <? slen header)) eqn:Hl.
  { split; [done|]. intros [Hb _]. apply orb_true_iff in Hl as [->%streq_true|Hl]; [assert (slen "" = 0) by done; lia|]. go_bool. lia. }
  apply orb_false_iff in Hl as [Hne%streq_false Hle%Z.ltb_ge]. change (Some (∅, mkUsage 0 0 0 0)) with (Some (list_to_set (@nil (string * Z)).*1 : gset string, usage_of [])).
  assert (1 ≤ slen header ≤ 1024) as Hb.
  { pose proof (slen_nonneg header). destruct (decide (slen header = 0)) as [E|]; [by apply slen_0 in E|lia]. }
  destruct (split_bytes_cons (byte 59) (bytes_of header)) as (w & ws & Hw).
  split.
  - destruct (foldl _ _ _) as [[seen u']|] eqn:E; cbn; [|done]. case_bool_decide; [done|]. intros [= ->]. split; [done|].
    apply foldl_usage in E as (more & ? & ? & ? & ? & ->); [|constructor]. by exists more.
  - intros [_ (pairs & Hf & Hp & Hnd & ->)]. rewrite (foldl_usage_complete _ [] pairs) by done. cbn.
    rewrite bool_decide_false; [done|]. unfold split in Hf. rewrite Hw in Hf. cbn in Hf. inversion Hf as [|? p ? ? ? ?]; subst. cbn. set_solver.
Qed.

(** ** Declarations *)
Lemma bytes_nonempty s : s ≠ "" → bytes_of s ≠ [].
Proof. by destruct s. Qed.


Lemma strip_first_foreign pats c l :
  forallb (λ p, match p with b :: _ => negb (bool_decide (b = c)) | [] => false end) pats = true → strip_first pats (c :: l) = None.
Proof.
  intros Hp. apply strip_first_None. intros p r Hin E. rewrite forallb_forall in Hp.
  specialize (Hp p (proj1 (list_elem_of_In _ _) Hin)). destruct p as [|b p]; [done|]. injection E as -> _. by go_bool.
Qed.
(** No identifier byte starts or ends a white-space rune. *)
Lemma id_byte_no_space c : is_id_byte c = true →
  forallb (λ p, match p with b :: _ => negb (bool_decide (b = c)) | [] => false end) (space_runes ++ (@rev ascii <$> space_runes)) = true.
Proof.
  destruct (is_id_byte c) eqn:Hc; [|done]. intros _. destruct c as [[] [] [] [] [] [] [] []]; vm_compute in Hc; try done; by vm_compute.
Qed.
Lemma trim_id_bytes l : forallb is_id_byte l = true → trim_space_bytes l = l.
Proof.
  intros Hl. destruct l as [|c l]; [done|]. unfold trim_space_bytes. cbn zeta.
  pose proof Hl as Hc. cbn [forallb] in Hc. apply andb_true_iff in Hc as [Hc _].
  apply id_byte_no_space in Hc. rewrite forallb_app in Hc. apply andb_true_iff in Hc as [Hc _].
  rewrite (strip_spaces_none space_runes) by by apply strip_first_foreign.
  assert (forallb is_id_byte (rev (c :: l)) = true) as Hr.
  { apply forallb_forall. intros x Hx. apply in_rev in Hx. by apply (proj1 (forallb_forall _ _) Hl). }
  destruct (rev (c :: l)) as [|d r] eqn:E; [by apply (f_equal (@length ascii)) in E; rewrite length_rev in E|].
  cbn [forallb] in Hr. apply andb_true_iff in Hr as [Hd _]. apply id_byte_no_space in Hd. rewrite forallb_app in Hd.
  apply andb_true_iff in Hd as [_ Hd]. rewrite strip_spaces_none by by apply strip_first_foreign.
  rewrite <- E. apply rev_involutive.
Qed.
Lemma validID_trim id : validID id = true → trim_space id = id.
Proof.
  unfold validID, trim_space. intros Hv. rewrite trim_id_bytes; [apply of_bytes_of|].
  destruct (bytes_of id) as [|c l]; [done|]. apply andb_true_iff in Hv as [[_ Hc]%andb_true_iff Hl]. cbn. rewrite Hl, andb_true_r.
  unfold is_id_byte. by rewrite Hc.
Qed.
Lemma validID_named id : validID id = true → streq id "" = false.
Proof. destruct id; [done|]. intros _. by apply streq_false. Qed.

Lemma normalize_id `{GoNet} newID s s' : normalizeSubscription newID s = Ok s' → validID (sb_ID s') = true.
Proof.
  unfold normalizeSubscription. cbn zeta. destruct (if streq (trim_space (sb_ID s)) "" then _ else _) as [id|]; [|done].
  destruct (validID id) eqn:Hid; cbn [negb]; [|done]. repeat (case_match; try done); by intros [= <-].
Qed.

(** Normalising a declaration twice gives the same declaration. *)
Theorem normalizeSubscription_idempotent `{GoNet} newID s s' :
  normalizeSubscription newID s = Ok s' → normalizeSubscription None s' = Ok s'.
Proof.
  unfold normalizeSubscription. cbn zeta.
  destruct (if streq (trim_space (sb_ID s)) "" then _ else _) as [id|]; [|done].
  destruct (validID id) eqn:Hid; cbn [negb]; [|done].
  set (name := if streq (trim_space (sb_Name s)) "" then id else trim_space (sb_Name s)).
  set (interval := if sb_RefreshInterval s =? 0 then 12 * Hour else sb_RefreshInterval s).
  set (timeout := if sb_Timeout s =? 0 then 30 * Second else sb_Timeout s).
  set (route := if streq (sb_Route s) "" then "auto" else sb_Route s).
  destruct (256 <? slen name) eqn:Hn; [done|]. destruct (_ || _) eqn:Hit; [done|].
  destruct (ValidRoute route) eqn:Hr; cbn [negb]; [|done]. destruct (validURL _ _) eqn:Hu; cbn [negb]; [|done].
  destruct (ValidSubscriptionUserAgent _) eqn:Ha; cbn [negb]; [|done]. intros [= <-].
  cbn [sb_ID sb_Name sb_URL sb_UserAgent sb_Enabled sb_RefreshInterval sb_Timeout sb_Route sb_AllowHTTP sb_AllowInvalidTLS].
  assert (trim_space name = name ∧ streq name "" = false) as [Htn Hne].
  { unfold name. destruct (streq (trim_space (sb_Name s)) "") eqn:E; [by split; [apply validID_trim|apply validID_named]|].
    by rewrite trim_space_idem. }
  assert ((interval =? 0) = false ∧ (timeout =? 0) = false) as [Hi0 Ht0].
  { unfold interval, timeout. by split; [destruct (sb_RefreshInterval s =? 0) eqn:E|destruct (sb_Timeout s =? 0) eqn:E]. }
  assert (streq route "" = false) as Hr0 by (unfold route; destruct (streq (sb_Route s) "") eqn:E; [by vm_compute|done]).
  rewrite (validID_trim id), (validID_named id), Hid by done. cbn [negb]. rewrite Htn, Hne, Hn, Hi0, Ht0, Hit, Hr0, Hr. cbn [negb].
  by rewrite trim_space_idem, Hu, Ha.
Qed.

(** ** Failures *)
(** What a service records of a failed refresh. *)
Definition recordable (e : sub_error) : Prop :=
  e ∈ [ErrFetch; ErrNoSnapshot; ErrInvalidProfile; ErrRender; ErrValidation; DeadlineExceeded] ∨
  ∃ s, e = ErrStatus s ∧ status_valid s = true.

(** Every code with its text. *)
Definition code_parses (n : nat) : bool :=
  bool_decide (ParseStatus (status_text (mkStatusError (400 + Z.of_nat n) "")) = Some (mkStatusError (400 + Z.of_nat n) "")).
Lemma ParseStatus_text s : status_valid s = true → ParseStatus (status_text s) = Some (mkStatusError (se_Code s) "").
Proof.
  assert (forallb code_parses (seq 0 200) = true) as Hall by by vm_compute.
  rewrite forallb_forall in Hall. unfold status_valid. intros [Hlo Hhi]%andb_true_iff. go_bool.
  specialize (Hall (Z.to_nat (se_Code s - 400)) ltac:(apply in_seq; lia)). unfold code_parses in Hall.
  rewrite Z2Nat.id in Hall by lia. replace (400 + (se_Code s - 400)) with (se_Code s) in Hall by lia.
  by apply bool_decide_eq_true in Hall.
Qed.
Lemma recordable_valid e : recordable e → validFailure (error_text e) = true ∧ error_text e ≠ "".
Proof.
  intros [Hin|(s & -> & Hs)].
  - unfold validFailure. split; [|repeat (apply elem_of_cons in Hin as [->|Hin]; [done|]); by apply not_elem_of_nil in Hin].
    apply orb_true_iff. left. apply bool_decide_eq_true. right. apply list_elem_of_fmap. eauto.
  - cbn. split; [|by unfold status_text]. unfold validFailure. rewrite ParseStatus_text by done. by rewrite orb_true_r.
Qed.

(** ** The schedule *)
(** The schedule looks at a subscription. *)
Definition scheduled (excluded : gset string) (id : string) (r : privateRecord) : Prop :=
  sb_Enabled (pr_Subscription r) = true ∧ (id ∉ excluded).
#[export] Instance scheduled_dec excluded id r : Decision (scheduled excluded id r) := _.
(** A deadline is the earliest of a schedule; 0 stands for none. *)
Definition earliest (due : string → privateRecord → Prop) (at_ : privateRecord → time) (next : time) : Prop :=
  (next = zero_time ∧ ∀ id r, ¬ due id r) ∨
  ((∃ id r, due id r ∧ at_ r = next) ∧ ∀ id r, due id r → next ≤ at_ r).

Lemma scan_due_skip now excluded acc id r : ¬ scheduled excluded id r → scan_due now excluded acc (id, r) = acc.
Proof.
  intros Hs. destruct acc as [ids next]. unfold scan_due. destruct (negb _ || _) eqn:E; [done|].
  apply orb_false_iff in E as [He Hx]. go_bool. by destruct Hs.
Qed.
Lemma scan_due_take now excluded ids next id r : scheduled excluded id r →
  scan_due now excluded (ids, next) (id, r) =
    (if negb (time_after (due_time now r) now) then ids ++ [id] else ids,
     if time_is_zero next || time_before (due_time now r) next then due_time now r else next).
Proof. intros [He Hx]. unfold scan_due. by rewrite He, bool_decide_false. Qed.

Lemma scan_due_ids now excluded l ids next :
  (foldl (scan_due now excluded) (ids, next) l).1 =
    ids ++ (filter (λ e, scheduled excluded e.1 e.2 ∧ due_time now e.2 ≤ now) l).*1.
Proof.
  revert ids next. induction l as [|[id r] l IH]; intros ids next; cbn [foldl]; [cbn; by rewrite app_nil_r|].
  rewrite filter_cons. cbn [fst snd]. destruct (decide (scheduled excluded id r)) as [Hs|Hs].
  - rewrite scan_due_take, IH by done. unfold time_after. case_decide as Hd.
    + destruct Hd as [_ Hd]. rewrite (proj2 (Z.ltb_ge now (due_time now r))) by done. cbn. by rewrite <- app_assoc.
    + destruct (now <? due_time now r) eqn:E; [done|]. go_bool. destruct Hd. by split.
  - rewrite scan_due_skip, IH by done. rewrite decide_False; [done|]. by intros [? _].
Qed.

Lemma scan_due_next now excluded l ids next :
  (∀ e, e ∈ l → scheduled excluded e.1 e.2 → due_time now e.2 ≠ 0) →
  let next' := (foldl (scan_due now excluded) (ids, next) l).2 in
  (next' = next ∧ (next = 0 → ∀ e, e ∈ l → ¬ scheduled excluded e.1 e.2) ∨
   next' ≠ 0 ∧ ∃ e, e ∈ l ∧ scheduled excluded e.1 e.2 ∧ due_time now e.2 = next') ∧
  (∀ e, e ∈ l → scheduled excluded e.1 e.2 → next' ≤ due_time now e.2) ∧ (next ≠ 0 → next' ≤ next).
Proof.
  revert ids next. induction l as [|[id r] l IH]; intros ids next Hnz; cbn [foldl snd].
  { split_and!; [left; split; [done|intros _ e He]|intros e He|]; [by apply not_elem_of_nil in He..|lia]. }
  assert (∀ e, e ∈ l → scheduled excluded e.1 e.2 → due_time now e.2 ≠ 0) as Hnz' by (intros e He; apply Hnz; by right).
  setoid_rewrite elem_of_cons. destruct (decide (scheduled excluded id r)) as [Hs|Hs].
  - rewrite scan_due_take by done. pose proof (Hnz (id, r) ltac:(by left) Hs) as Hr. cbn in Hr.
    set (n1 := if time_is_zero next || time_before (due_time now r) next then due_time now r else next).
    assert (n1 ≠ 0 ∧ n1 ≤ due_time now r ∧ (next ≠ 0 → n1 ≤ next) ∧ (n1 = next ∨ n1 = due_time now r)) as (Hn0 & Hn1 & Hn2 & Hn3).
    { unfold n1, time_is_zero, time_before, zero_time. destruct (next =? 0) eqn:E0; destruct (due_time now r <? next) eqn:E1; cbn; go_bool; lia. }
    match goal with |- context [foldl _ (?ids, n1) l] => destruct (IH ids n1 Hnz') as (Hcase & Hmin & Hle) end.
    split_and!.
    + destruct Hcase as [[-> _]|(? & e & ? & ? & ?)]; [|right; split; [done|]; exists e; auto].
      destruct Hn3 as [-> | ->]; [left; split; [done|by intros ->]|right; split; [done|]]. exists (id, r). auto.
    + intros e [->|He] Hse; [cbn; specialize (Hle Hn0); lia|by apply Hmin].
    + intros Hne. specialize (Hle Hn0). specialize (Hn2 Hne). lia.
  - rewrite scan_due_skip by done. destruct (IH ids next Hnz') as (Hcase & Hmin & Hle). split_and!; [|intros e [->|He] ?; auto; by destruct Hs|done].
    destruct Hcase as [[-> Hnone]|(? & e & ? & ? & ?)]; [left; split; [done|]|right; split; [done|]; exists e; auto].
    intros Hz e [->|He]; [done|by apply Hnone].
Qed.

Lemma string_strict_weak : strict_weak_on string_ltb (λ _, True).
Proof.
  split.
  - intros x y _ _ Hxy. destruct (string_ltb y x) eqn:E; [|done].
    pose proof (string_ltb_trans _ _ _ Hxy E) as Hx. by rewrite string_ltb_irrefl in Hx.
  - intros x y z _ _ _ Hyx Hzy. destruct (string_ltb z x) eqn:E; [|done]. exfalso.
    destruct (string_ltb x y) eqn:Hxy; [by rewrite (string_ltb_trans _ _ _ E Hxy) in Hzy|].
    pose proof (string_ltb_total _ _ Hxy Hyx) as ->. congruence.
Qed.
Lemma sorted_strict l : NoDup l → StronglySorted (λ a b, string_ltb a b = true) (insertion_sort string_ltb l).
Proof.
  intros Hnd. pose proof (insertion_sort_sorted string_ltb (λ _, True) l string_strict_weak ltac:(by apply Forall_forall)) as Hs.
  rewrite <- (insertion_sort_perm string_ltb l) in Hnd. induction Hs as [|x k Hs IH Hx]; constructor.
  - apply NoDup_cons in Hnd as [_ ?]. auto.
  - apply NoDup_cons in Hnd as [Hn _]. rewrite Forall_forall in Hx |- *. intros y Hy. specialize (Hx y Hy). unfold not_after in Hx.
    destruct (string_ltb x y) eqn:E; [done|]. by pose proof (string_ltb_total _ _ E Hx) as ->.
Qed.

(** Whatever order Go ranges over the records in, [dueIDs] returns in
    alphabetical order exactly the enabled subscriptions that are not excluded
    and whose deadline has passed, and the earliest deadline of all that are
    scheduled, or 0 when there is none. *)
Theorem dueIDs_exact (m : gmap string privateRecord) entries now excluded :
  entries ≡ₚ map_to_list m →
  (∀ id r, m !! id = Some r → scheduled excluded id r → due_time now r ≠ zero_time) →
  let '(ids, next) := dueIDs entries now excluded in
  StronglySorted (λ a b, string_ltb a b = true) ids ∧
  (∀ id, id ∈ ids ↔ ∃ r, m !! id = Some r ∧ scheduled excluded id r ∧ due_time now r ≤ now) ∧
  earliest (λ id r, m !! id = Some r ∧ scheduled excluded id r) (due_time now) next.
Proof.
  intros Hperm Hnz. assert (∀ id r, (id, r) ∈ entries ↔ m !! id = Some r) as Hin.
  { intros id r. rewrite Hperm. apply elem_of_map_to_list. }
  unfold dueIDs. pose proof (scan_due_ids now excluded entries [] zero_time) as Hids.
  destruct (scan_due_next now excluded entries [] zero_time) as (Hcase & Hmin & _).
  { intros [id r] He%Hin. by apply Hnz. }
  destruct (foldl _ _ entries) as [ids next]. cbn in Hids, Hcase, Hmin. subst ids. split_and!.
  - apply sorted_strict. apply (sublist_NoDup _ entries.*1); [|apply fmap_sublist, sublist_filter].
    rewrite Hperm. apply NoDup_fst_map_to_list.
  - intros id. rewrite elem_of_insertion_sort, list_elem_of_fmap. setoid_rewrite list_elem_of_filter. split.
    + intros ([id' r] & -> & [? ?] & ?%Hin). eauto.
    + intros (r & ?%Hin & ? & ?). by exists (id, r).
  - destruct Hcase as [[-> Hnone]|(_ & [id r] & ?%Hin & ? & ?)].
    + left. split; [done|]. intros id r [?%Hin ?]. by apply (Hnone eq_refl (id, r)).
    + right. split; [by exists id, r|]. intros id' r' [?%Hin ?]. by apply (Hmin (id', r')).
Qed.

(** Checked at 50 and 90, every 20: at 100 the first has been due since 70. *)
Definition checked_at (id : string) (at_ : time) : privateRecord :=
  checked_ok (new_record (mkSubscription id id "" "" true 20 1 "auto" false false)) at_ "" "" None.
Definition two_checked : gmap string privateRecord := <["b" := checked_at "b" 50]> {["a" := checked_at "a" 90]}.
Lemma dueIDs_exact_witness :
  (let '(ids, next) := dueIDs (map_to_list two_checked) 100 ∅ in
   StronglySorted (λ a b, string_ltb a b = true) ids ∧
   (∀ id, id ∈ ids ↔ ∃ r, two_checked !! id = Some r ∧ scheduled ∅ id r ∧ due_time 100 r ≤ 100) ∧
   earliest (λ id r, two_checked !! id = Some r ∧ scheduled ∅ id r) (due_time 100) next) ∧
  dueIDs (map_to_list two_checked) 100 ∅ = (["b"], 70).
Proof.
  split; [|by vm_compute]. apply (dueIDs_exact two_checked); [done|].
  unfold two_checked. intros id r [[<- <-]|[_ [<- <-]%lookup_singleton_Some]]%lookup_insert_Some _; by vm_compute.
Defined.
