(* ===== verification/ConfigWrite.v ===== *)
(** * config/write.go: the private atomic file writer

    [Write] fills a temporary file beside the destination and renames it over.
    The directory's sync is attempted and its error dropped. *)
From Stdlib Require Import Ascii.
From S2P Require Import Prelude GoStrings GoFs.
Open Scope Z_scope.

Definition Write `{GoOs} (path : list string) (data : list ascii) : IO unit :=
  let parent := dir_of path in
  mkdir_all parent ≫= λ _,
  chmod parent ≫= λ _,
  name ← create_temp parent ("." +:+ base_of path +:+ ".");
  on_failure (attempt (close name) ≫= λ _, remove name)
    (chmod name ≫= λ _, write name data ≫= λ _, sync name ≫= λ _, close name ≫= λ _, rename name path) ≫= λ _,
  attempt (sync parent) ≫= λ _, mret tt.
