(* ===== verification/SubscriptionStore.v ===== *)
(** * subscriptions/store.go: the private subscription store

    Each subscription has a directory with its record and its generations, a
    source profile and the candidate generated from it; active.json names the
    generation the runtime uses.  [record.json] is the commit pointer of a
    subscription, [active.json] the one of the runtime.  The store's mutex makes
    each method one step; [dir] is the store's directory. *)
From Stdlib Require Import Ascii.
From S2P Require Import Prelude GoTime GoStrings GoNet GoSort GoJson GoFs ConfigTypes ResourceStore ConfigWrite SubscriptionModel.
Open Scope Z_scope.
Open Scope go_scope.

Definition os_IsExist (e : fs_error) : bool := match e with EFs message => streq message "file exists" | ENotExist => false end.

(** active.json *)
Record activePointer := mkActive { ap_ID : string; ap_ProfileHash : string; ap_CandidateHash : string }.
#[export] Instance activePointer_eq_dec : EqDecision activePointer.
Proof. solve_decision. Defined.

Record pendingActivation := mkPending {
  pa_ID : string;
  pa_ProfileHash : string;
  pa_CandidateHash : string;
  pa_ResourceCommitID : string;
  pa_Accepted : bool
}.
#[export] Instance pendingActivation_eq_dec : EqDecision pendingActivation.
Proof. solve_decision. Defined.

Record Store := mkStore {
  so_records : gmap string privateRecord;
  so_activeID : string;
  so_activeProfileHash : string;
  so_activeCandidateHash : string
}.
Definition with_records (s : Store) (records : gmap string privateRecord) : Store :=
  mkStore records (so_activeID s) (so_activeProfileHash s) (so_activeCandidateHash s).
Definition put_record (s : Store) (id : string) (r : privateRecord) : Store := with_records s (<[id := r]> (so_records s)).

(** The records under one selection: the applied pointers are derived from it. *)
Definition select (records : gmap string privateRecord) (id profileHash candidateHash : string) : gmap string privateRecord :=
  map_imap (λ key r, Some (if streq key id then with_applied r true profileHash candidateHash else with_applied r false "" "")) records.

Definition get (s : Store) (id : string) : option privateRecord :=
  (λ r, marked_active r (streq (so_activeID s) id)) <$> so_records s !! id.
Definition isActive (s : Store) (id : string) : bool := streq (so_activeID s) id.
Definition list_records (s : Store) : list privateRecord :=
  (λ entry : string * privateRecord, marked_active entry.2 (streq (so_activeID s) entry.1)) <$>
    insertion_sort (λ a b : string * privateRecord, string_ltb a.1 b.1) (map_to_list (so_records s)).
Definition appliedIdentity (s : Store) : string * string * string :=
  (so_activeID s, so_activeProfileHash s, so_activeCandidateHash s).

Definition recordFile : string := "record.json".
Definition activeFile : string := "active.json".
Definition activationPendingFile : string := ".activation-pending.json".
Definition deletePrefix : string := ".delete-".

Section store.
Context `{GoOs} `{GoHash} `{GoNet} `{JsonCodec privateRecord} `{JsonCodec activePointer} `{JsonCodec pendingActivation}.
Context (dir : list string).

(** Every error of a file operation is ErrStore. *)
Definition store_io {S A : Type} (m : IO A) : Op sub_error S A := io_as (λ _, ErrStore) m.
Definition fail_when {S : Type} (b : bool) (e : sub_error) : Op sub_error S unit := if b then raise e else mret tt.

(** ** Files *)
Definition ensurePrivateDir (directory : list string) : IO unit :=
  mkdir_all directory ≫= λ _,
  info ← lstat directory;
  match info with EDir => chmod directory | _ => throw (EFs "subscriptions: private state unavailable") end.

Definition readPrivateFile (path : list string) (limit : Z) : IO (list ascii) :=
  info ← lstat path;
  match info with
  | EFile _ =>
      chmod path ≫= λ _,
      data ← read_limited path (limit + 1);
      refuse (limit <? len data) "subscriptions: private state unavailable" ≫= λ _,
      mret data
  | _ => throw (EFs "subscriptions: private state unavailable")
  end.

Definition readGenerationFiles (directory : list string) (profileHash candidateHash : string) : IO (list ascii * list ascii) :=
  profile ← attempt (readPrivateFile (directory ++ [profileFilename profileHash]) maxProfileBytes);
  candidate ← attempt (readPrivateFile (directory ++ [candidateFilename profileHash candidateHash]) maxCandidateBytes);
  match profile, candidate with
  | Ok profile, Ok candidate => mret (profile, candidate)
  | _, _ => throw (EFs "subscriptions: private state unavailable")
  end.

Definition readPairProfile {S : Type} (id profileHash candidateHash : string) : Op sub_error S (list ascii) :=
  fail_when (negb (validID id) || negb (validOptionalHash profileHash) || streq profileHash "" ||
         negb (validOptionalHash candidateHash) || streq candidateHash "") ErrNoSnapshot ≫= λ _,
  '(profile, candidate) ← store_io (readGenerationFiles (dir ++ [id]) profileHash candidateHash);
  fail_when (negb (generationMatches profile candidate profileHash candidateHash)) ErrStore ≫= λ _,
  mret profile.
Definition verifyPair {S : Type} (id profileHash candidateHash : string) : Op sub_error S unit :=
  readPairProfile id profileHash candidateHash ≫= λ _, mret tt.
Definition verifyGeneration {S : Type} (id : string) (r : privateRecord) : Op sub_error S unit :=
  verifyPair id (pr_Hash r) (pr_CandidateHash r).

Definition writeRecord (directory : list string) (r : privateRecord) : IO unit :=
  data ← lift (json_marshal (durable r));
  ensurePrivateDir directory ≫= λ _,
  Write (directory ++ [recordFile]) data.

Definition stale (keep : list string) (name : string) : bool :=
  (has_prefix name "profile-" || has_prefix name "candidate-") && negb (str_in name keep).
(** The files of a generation that is named in full. *)
Definition generation_names (profileHash candidateHash : string) : list string :=
  if negb (streq profileHash "") && negb (streq candidateHash "")
  then [profileFilename profileHash; candidateFilename profileHash candidateHash] else [].
Definition cleanupGenerations (directory : list string) (currentProfile currentCandidate appliedProfile appliedCandidate : string) : IO unit :=
  let keep := generation_names currentProfile currentCandidate ++ generation_names appliedProfile appliedCandidate in
  entries ← attempt (read_dir directory);
  match entries with
  | Err _ => mret tt
  | Ok entries =>
      for_each (λ _ '(name, _), if stale keep name then attempt (remove (directory ++ [name])) ≫= λ _, mret tt else mret tt) tt entries
  end.
Definition cleanup_record (id : string) (r : privateRecord) : IO unit :=
  cleanupGenerations (dir ++ [id]) (pr_Hash r) (pr_CandidateHash r) (pr_AppliedProfileHash r) (pr_AppliedCandidateHash r).
Definition cleanupUnusedGenerations (s : Store) : IO unit :=
  for_each (λ _ '(id, r), cleanup_record id r) tt (map_to_list (so_records s)).

Definition cleanupQuarantine (directory : list string) : IO unit :=
  entries ← read_dir directory;
  found ← for_each (λ found '(name, _),
    if has_prefix name deletePrefix then remove_all (directory ++ [name]) ≫= λ _, mret true else mret found) false entries;
  if found : bool then sync directory else mret tt.

(** ** Opening the store *)
(** Whether a decoded record is one the store may hold under [id]. *)
Definition record_valid (id : string) (r : privateRecord) : bool :=
  streq (sb_ID (pr_Subscription r)) id &&
  (match normalizeSubscription None (pr_Subscription r) with Ok s => bool_decide (s = pr_Subscription r) | Err _ => false end) &&
  validOptionalHash (pr_Hash r) && validOptionalHash (pr_CandidateHash r) && validFailure (pr_LastFailure r) &&
  negb (pr_DownloadedOnly r && (streq (pr_Hash r) "" || negb (streq (pr_CandidateHash r) (pr_Hash r)))).

Definition load_record {S : Type} (id : string) : Op sub_error S privateRecord :=
  fail_when (negb (validID id)) ErrStore ≫= λ _,
  store_io (ensurePrivateDir (dir ++ [id])) ≫= λ _,
  data ← store_io (readPrivateFile (dir ++ [id; recordFile]) (Z.shiftl 1 20));
  r ← store_io (lift (json_document data));
  fail_when (negb (record_valid id r)) ErrStore ≫= λ _,
  (if streq (pr_Hash r) "" then fail_when (negb (streq (pr_CandidateHash r) "")) ErrStore
   else fail_when (streq (pr_CandidateHash r) "") ErrStore ≫= λ _,
        verified ← attempt_op (verifyGeneration id r);
        fail_when (negb (is_ok verified)) ErrStore) ≫= λ _,
  mret r.

Definition load_entry {S : Type} (records : gmap string privateRecord) (entry : string * bool) : Op sub_error S (gmap string privateRecord) :=
  let '(name, isDir) := entry in
  if negb isDir || has_prefix name "." then mret records
  else r ← load_record name; mret (<[name := r]> records).

(** The selection of a file that names no generation, from the older layouts. *)
Definition legacy_selection (r : privateRecord) : string * string :=
  if streq (pr_AppliedProfileHash r) "" && negb (streq (pr_AppliedHash r) "") then (pr_Hash r, pr_AppliedHash r)
  else (pr_AppliedProfileHash r, pr_AppliedCandidateHash r).
Definition resolve_active {S : Type} (records : gmap string privateRecord) (active : activePointer) : Op sub_error S activePointer :=
  if streq (ap_ID active) "" then
    fail_when (negb (streq (ap_ProfileHash active) "") || negb (streq (ap_CandidateHash active) "")) ErrStore ≫= λ _, mret active
  else
    fail_when (negb (validID (ap_ID active))) ErrStore ≫= λ _,
    match records !! ap_ID active with
    | None => raise ErrStore
    | Some r =>
        active ← (if streq (ap_ProfileHash active) "" && streq (ap_CandidateHash active) "" then
                    let '(profileHash, candidateHash) := legacy_selection r in
                    verified ← attempt_op (verifyPair (ap_ID active) profileHash candidateHash);
                    mret (if is_ok verified then mkActive (ap_ID active) profileHash candidateHash
                          else mkActive (ap_ID active) (pr_Hash r) (pr_CandidateHash r))
                  else mret active);
        verified ← attempt_op (verifyPair (ap_ID active) (ap_ProfileHash active) (ap_CandidateHash active));
        fail_when (negb (is_ok verified)) ErrStore ≫= λ _,
        mret active
    end.
Definition load_active {S : Type} (records : gmap string privateRecord) : Op sub_error S activePointer :=
  let path := dir ++ [activeFile] in
  info ← store_io (attempt (lstat path));
  match info with
  | Ok _ =>
      data ← store_io (readPrivateFile path (Z.shiftl 1 20));
      active ← store_io (lift (json_document data));
      resolve_active records active
  | Err e => if os_IsNotExist e then mret (mkActive "" "" "") else raise ErrStore
  end.

(** [given]: the directory is named; the root of the file system is refused. *)
Definition NewStore {S : Type} (given : bool) : Op sub_error S Store :=
  fail_when (negb given || bool_decide (dir = [])) ErrStore ≫= λ _,
  store_io (ensurePrivateDir dir) ≫= λ _,
  io_as (λ _, ErrCleanupPending) (cleanupQuarantine dir) ≫= λ _,
  entries ← store_io (read_dir dir);
  records ← op_each load_entry ∅ entries;
  active ← load_active records;
  mret (mkStore (select records (ap_ID active) (ap_ProfileHash active) (ap_CandidateHash active))
          (ap_ID active) (ap_ProfileHash active) (ap_CandidateHash active)).

(** ** Methods *)
Definition Method (A : Type) : Type := Op sub_error Store A.
Definition directory_of (id : string) : list string := dir ++ [id].
Definition the_record (id : string) : Method privateRecord :=
  s ← get_state;
  match so_records s !! id with Some r => mret r | None => raise ErrNotFound end.
Definition save (id : string) (r : privateRecord) : Method unit := s ← get_state; put_state (put_record s id r).
(** [err == nil] of an operation whose error is not returned. *)
Definition succeeds {A : Type} (m : IO A) : Method bool :=
  r ← store_io (attempt m); mret (is_ok r).

Definition add (r : privateRecord) : Method unit :=
  s ← get_state;
  let id := sb_ID (pr_Subscription r) in
  fail_when (bool_decide (is_Some (so_records s !! id))) ErrAlreadyExists ≫= λ _,
  io_as (λ e, if os_IsExist e then ErrAlreadyExists else ErrStore) (mkdir (directory_of id)) ≫= λ _,
  store_io (on_failure (remove_all (directory_of id)) (chmod (directory_of id) ≫= λ _, writeRecord (directory_of id) r)) ≫= λ _,
  save id r.

Definition ActiveID : Method string :=
  s ← get_state; if streq (so_activeID s) "" then raise ErrNoSnapshot else mret (so_activeID s).
Definition Profile (id : string) : Method (list ascii) :=
  r ← the_record id; readPairProfile id (pr_Hash r) (pr_CandidateHash r).
Definition ActiveProfile : Method (string * list ascii) :=
  s ← get_state;
  if streq (so_activeID s) "" then raise ErrNoSnapshot else
  profile ← readPairProfile (so_activeID s) (so_activeProfileHash s) (so_activeCandidateHash s);
  mret (so_activeID s, profile).
Definition appliedProfile (id : string) : Method (list ascii) :=
  r ← the_record id; readPairProfile id (pr_AppliedProfileHash r) (pr_AppliedCandidateHash r).

Definition replace (r : privateRecord) : Method unit :=
  let id := sb_ID (pr_Subscription r) in
  the_record id ≫= λ _,
  store_io (writeRecord (directory_of id) r) ≫= λ _,
  save id r.

(** Deletion commits with the rename into the quarantine. *)
Definition delete_record (id : string) : Method unit :=
  the_record id ≫= λ _,
  s ← get_state;
  fail_when (isActive s id) ErrActive ≫= λ _,
  quarantine ← store_io (mkdir_temp dir (deletePrefix +:+ id +:+ "-"));
  store_io (on_failure (remove quarantine) (rename_dir (directory_of id) (quarantine ++ ["record"]))) ≫= λ _,
  put_state (with_records s (delete id (so_records s))) ≫= λ _,
  io_as (λ _, ErrCleanupPending)
    (sync quarantine ≫= λ _, sync dir ≫= λ _, remove_all quarantine ≫= λ _, sync dir).

Definition touchSuccess (id : string) (checkedAt : time) (etag lastModified : string) (usage : option Usage) : Method bool :=
  r ← the_record id;
  let recovered := negb (streq (pr_LastFailure r) "") in
  let r := checked_ok r checkedAt etag lastModified usage in
  (if recovered then store_io (writeRecord (directory_of id) r) else mret tt) ≫= λ _,
  save id r ≫= λ _, mret recovered.
Definition touchFailure (id : string) (checkedAt : time) (failure : string) : Method bool :=
  if negb (validFailure failure) || streq failure "" then mret false else
  s ← get_state;
  match so_records s !! id with
  | None => mret false
  | Some r =>
      let r := checked_failed r checkedAt failure in
      persisted ← succeeds (writeRecord (directory_of id) r);
      save id r ≫= λ _, mret persisted
  end.

(** The files of a generation go first, then the record that points to them. *)
Definition promote_files (id : string) (r : privateRecord) (profile candidate : list ascii) : IO unit :=
  let directory := directory_of id in
  ensurePrivateDir directory ≫= λ _,
  Write (directory ++ [profileFilename (digest profile)]) profile ≫= λ _,
  Write (directory ++ [candidateFilename (digest profile) (digest candidate)]) candidate ≫= λ _,
  writeRecord directory r.
Definition promote (id : string) (profile candidate : list ascii) (checkedAt : time) (etag lastModified : string)
    (usage : option Usage) (downloadedOnly : bool) : Method privateRecord :=
  previous ← the_record id;
  let r := with_generation previous (digest profile) (digest candidate) downloadedOnly checkedAt etag lastModified usage in
  store_io (promote_files id r profile candidate) ≫= λ _,
  save id r ≫= λ _, mret previous.

Definition rollback_removals (id : string) (previous : privateRecord) (profileHash candidateHash : string) : IO unit :=
  (if negb (generationReferenced previous profileHash candidateHash)
   then attempt (remove (directory_of id ++ [candidateFilename profileHash candidateHash])) ≫= λ _, mret tt else mret tt) ≫= λ _,
  (if negb (streq profileHash (pr_Hash previous)) && negb (streq profileHash (pr_AppliedProfileHash previous))
   then attempt (remove (directory_of id ++ [profileFilename profileHash])) ≫= λ _, mret tt else mret tt).
Definition rollbackPromotion (id : string) (previous : privateRecord) (profileHash candidateHash : string) : Method unit :=
  the_record id ≫= λ _,
  written ← succeeds (writeRecord (directory_of id) previous);
  save id previous ≫= λ _,
  fail_when (negb written) ErrStore ≫= λ _,
  store_io (rollback_removals id previous profileHash candidateHash).
Definition finalizePromotion (id : string) : Method unit :=
  s ← get_state;
  match so_records s !! id with Some r => store_io (cleanup_record id r) | None => mret tt end.

Definition recordSnapshot (id : string) : Method (privateRecord * list ascii * list ascii) :=
  r ← the_record id;
  fail_when (streq (pr_Hash r) "" || streq (pr_CandidateHash r) "") ErrNoSnapshot ≫= λ _,
  '(profile, candidate) ← store_io (readGenerationFiles (directory_of id) (pr_Hash r) (pr_CandidateHash r));
  fail_when (negb (generationMatches profile candidate (pr_Hash r) (pr_CandidateHash r))) ErrStore ≫= λ _,
  mret (r, profile, candidate).

(** active.json is the sole durable pointer to what is applied. *)
Definition setApplied (id profileHash candidateHash : string) : Method unit :=
  the_record id ≫= λ _,
  verified ← attempt_op (verifyPair id profileHash candidateHash);
  fail_when (negb (is_ok verified)) ErrNoSnapshot ≫= λ _,
  store_io (marker ← lift (json_marshal (mkActive id profileHash candidateHash)); Write (dir ++ [activeFile]) marker) ≫= λ _,
  s ← get_state;
  put_state (mkStore (select (so_records s) id profileHash candidateHash) id profileHash candidateHash).
Definition remove_if_there (path : list string) : IO unit :=
  r ← attempt (remove path);
  match r with Ok _ => mret tt | Err e => if os_IsNotExist e then mret tt else throw e end.
Definition restoreApplied (id profileHash candidateHash : string) : Method unit :=
  if negb (streq id "") then setApplied id profileHash candidateHash else
  store_io (remove_if_there (dir ++ [activeFile])) ≫= λ _,
  s ← get_state;
  put_state (mkStore (select (so_records s) "" "" "") "" "" "").
Definition cleanupApplied : Method unit := s ← get_state; store_io (cleanupUnusedGenerations s).

(** ** The marker of an activation in progress *)
Definition pending_path : list string := dir ++ [activationPendingFile].
Definition write_pending (p : pendingActivation) : IO unit := data ← lift (json_marshal p); Write pending_path data.
Definition markActivationPending (id profileHash candidateHash resourceCommitID : string) : Method unit :=
  fail_when (negb (validResourceCommitID resourceCommitID)) ErrStore ≫= λ _,
  info ← store_io (attempt (lstat pending_path));
  fail_when (match info with Ok _ => true | Err e => negb (os_IsNotExist e) end) ErrStore ≫= λ _,
  store_io (write_pending (mkPending id profileHash candidateHash resourceCommitID false)).
Definition clearActivationPending : Method unit := store_io (remove_if_there pending_path).
Definition pending_valid (p : pendingActivation) : bool :=
  (streq (pa_ID p) "" || validID (pa_ID p)) && validOptionalHash (pa_ProfileHash p) && validOptionalHash (pa_CandidateHash p) &&
  validResourceCommitID (pa_ResourceCommitID p) &&
  negb (streq (pa_ID p) "" && (negb (streq (pa_ProfileHash p) "") || negb (streq (pa_CandidateHash p) ""))).
Definition loadPendingActivation : Method (option pendingActivation) :=
  info ← store_io (attempt (lstat pending_path));
  match info with
  | Err e => if os_IsNotExist e then mret None else raise ErrStore
  | Ok _ =>
      data ← store_io (readPrivateFile pending_path (Z.shiftl 1 20));
      p ← store_io (lift (json_document data));
      fail_when (negb (pending_valid p)) ErrStore ≫= λ _,
      mret (Some p)
  end.
Definition accepted_marker (p : pendingActivation) : pendingActivation :=
  mkPending (pa_ID p) (pa_ProfileHash p) (pa_CandidateHash p) (pa_ResourceCommitID p) true.
Definition markActivationAccepted : Method unit :=
  pending ← attempt_op loadPendingActivation;
  match pending with
  | Ok (Some p) => store_io (write_pending (accepted_marker p))
  | _ => raise ErrStore
  end.
Definition retryAcceptedActivationCleanup : Method unit :=
  pending ← loadPendingActivation;
  match pending with
  | None => mret tt
  | Some p => fail_when (negb (pa_Accepted p)) ErrStore ≫= λ _, clearActivationPending
  end.
(** At start, with the commit the resource registry has settled on. *)
Definition RecoverPendingActivation (resourceCommitID : string) : Method unit :=
  pending ← loadPendingActivation;
  match pending with
  | None => mret tt
  | Some p =>
      (if negb (pa_Accepted p) && negb (streq (pa_ResourceCommitID p) resourceCommitID)
       then restoreApplied (pa_ID p) (pa_ProfileHash p) (pa_CandidateHash p) else mret tt) ≫= λ _,
      clearActivationPending
  end ≫= λ _,
  cleanupApplied.
(** How the application starts (app/service.go): open, then recover with the
    commit that the resource registry settled on before. *)
Definition start_store (resourceCommitID : string) : Method unit :=
  s ← NewStore true;
  put_state s ≫= λ _,
  RecoverPendingActivation resourceCommitID.
End store.
