(* ===== verification/SubscriptionService.v ===== *)
(** * subscriptions/model.go and fetch.go: the service

    The service over one store: what clients ask for, refreshes and activation.
    The application's callbacks, contexts and clock are a class; each call of the
    service runs alone, as it does for one subscription under its lock. *)
From Stdlib Require Import Ascii.
From S2P Require Import Prelude GoTime GoStrings GoNet GoSort GoJson GoFs ConfigTypes ConfigValidate ResourceStore Download CoreSnapshot ConfigWrite SubscriptionModel SubscriptionStore.
Open Scope Z_scope.
Open Scope go_scope.

(** ** Profiles *)
(** A decoded YAML value, as far as the service looks. *)
#[local] Set Warnings "-register-all".
Inductive yaml_value := YList (l : list yaml_value) | YMap (entries : list (string * yaml_value)) | YScalar.
Definition yaml_field (key : string) (entries : list (string * yaml_value)) : option yaml_value :=
  snd <$> find (λ entry : string * yaml_value, streq entry.1 key) entries.
Definition is_map (v : yaml_value) : bool := match v with YMap _ => true | _ => false end.
(** [document]: the profile decoded into a map, [None] for an error or null. *)
Definition validProfile (document : option (list (string * yaml_value))) : bool :=
  match document with
  | None => false
  | Some fields =>
      let proxies := yaml_field "proxies" fields in
      let providers := yaml_field "proxy-providers" fields in
      match proxies, providers with
      | None, None => false
      | _, _ =>
          let listed := match proxies with None => Some 0 | Some (YList l) => Some (len l) | Some _ => None end in
          let provided := match providers with
            | None => Some 0
            | Some (YMap l) => if forallb (λ entry : string * yaml_value, is_map entry.2) l then Some (len l) else None
            | Some _ => None
            end in
          match listed, provided with Some n, Some m => 0 <? n + m | _, _ => false end
      end
  end.

(** ** The application *)
Inductive ctx := Caller | Operation.      (** the caller's context; the one with the subscription's timeout *)
Definition Act (R A : Type) : Type := R → IO (A * R).
(** [R]: everything of the application outside the store. *)
Class App (R : Type) := {
  app_context : ctx → R → option sub_error * R;                  (** safeContextError *)
  app_now : R → time * R;
  app_random : R → option string * R;                            (** the id of a subscription without one *)
  app_yaml : list ascii → option (list (string * yaml_value));
  app_fetch : bool → Request → R → result fetch_error Response * R;
  app_current : option (string → R → option Subscription * R);
  app_render : list ascii → Act R (option (list ascii));
  app_validate : list ascii → Act R bool;
  app_apply : list ascii → Act R (result (option ActivationError) unit);
  app_restore : list ascii → Act R bool;
  app_finalize : option (Act R bool);
  app_pending_commit : option (R → string * R);
  app_max_bytes : Z;
  app_capture : bool
}.

(** Calls that leave no trace in the store. *)
Inductive event := Changed | Woken | Cancels (id : string).
Record Service (R : Type) := mkService { sv_store : Store; sv_app : R; sv_events : list event }.
Arguments mkService {R}.
Arguments sv_store {R}.
Arguments sv_app {R}.
Arguments sv_events {R}.

Record Result := mkResult { re_ID : string; re_Changed : bool; re_CheckedAt : time; re_Hash : string; re_Usage : option Usage }.

(** [NewService]: what it accepts, with the limit it uses. *)
Definition NewService_limit (configured : bool) (maxBytes : Z) : result sub_error Z :=
  fail_if negb configured with ErrInvalid;
  let limit := if maxBytes =? 0 then DefaultMaxProfileBytes else maxBytes in
  fail_if (limit <? 0) || (maxProfileBytes <? limit) with ErrInvalid;
  Ok limit.

Section service.
Context `{GoOs} `{GoHash} `{GoNet} `{JsonCodec privateRecord} `{JsonCodec activePointer} `{JsonCodec pendingActivation}.
Context {R : Type} `{App R}.
Context (dir : list string).
Definition Call (A : Type) : Type := Op sub_error (Service R) A.

Definition on_store {A : Type} (m : Method A) : Call A := λ v,
  m (sv_store v) ≫= λ '(r, s), mret (r, mkService s (sv_app v) (sv_events v)).
Definition on_app {A : Type} (act : Act R A) : Call A := λ v,
  act (sv_app v) ≫= λ '(a, r), mret (Ok a, mkService (sv_store v) r (sv_events v)).
Definition asks {A : Type} (f : R → A * R) : Call A := on_app (λ r, mret (f r)).
Definition emit (e : event) : Call unit := λ v, mret (Ok tt, mkService (sv_store v) (sv_app v) (sv_events v ++ [e])).
Definition the_store : Call Store := λ v, mret (Ok (sv_store v), v).
Definition lookup_record (id : string) : Call (option privateRecord) := s ← the_store; mret (get s id).

Definition cancelRefreshes (id : string) : Call unit := emit (Cancels id).
Definition signalWake : Call unit := emit Woken.
Definition onChange : Call unit := emit Changed.
Definition context_error (c : ctx) : Call (option sub_error) := asks (app_context c).
(** Returns when the context is over. *)
Definition unless_over (c : ctx) : Call unit := e ← context_error c; match e with Some e => raise e | None => mret tt end.
Definition normalized (newID : option (option string)) (s : Subscription) : Call Subscription :=
  match normalizeSubscription newID s with Ok s => mret s | Err e => raise e end.

(** ** Declarations *)
Definition Add (subscription : Subscription) : Call Entry :=
  fresh ← asks app_random;
  subscription ← normalized (Some fresh) subscription;
  let record := new_record subscription in
  on_store (add dir record) ≫= λ _,
  signalWake ≫= λ _,
  now ← asks app_now;
  mret (publicEntry now record).

(** A new declaration for a record; a new URL makes it due. *)
Definition redeclared (r : privateRecord) (s : Subscription) : privateRecord :=
  with_subscription (if streq (sb_URL (pr_Subscription r)) (sb_URL s) then r else forget_source r) s.
Definition Update (subscription : Subscription) : Call Entry :=
  subscription ← normalized None subscription;
  let id := sb_ID subscription in
  r ← lookup_record id;
  match r with
  | None => raise ErrNotFound
  | Some r =>
      (if streq (sb_URL (pr_Subscription r)) (sb_URL subscription) then mret tt
       else cancelRefreshes id ≫= λ _, cancelRefreshes id) ≫= λ _,
      let changed := negb (bool_decide (pr_Subscription r = subscription)) in
      let r := if changed then redeclared r subscription else r in
      (if changed then on_store (replace dir r) else mret tt) ≫= λ _,
      signalWake ≫= λ _,
      now ← asks app_now;
      mret (publicEntry now r)
  end.
Definition List : Call (list Entry) :=
  s ← the_store;
  now ← asks app_now;
  mret (publicEntry now <$> list_records s).

(** The update of one field of a declaration. *)
Definition edit (id : string) (same : Subscription → bool) (change : Subscription → Subscription) : Call Entry :=
  r ← lookup_record id;
  match r with
  | None => raise ErrNotFound
  | Some r =>
      let r' := if same (pr_Subscription r) then r else with_subscription r (change (pr_Subscription r)) in
      (if same (pr_Subscription r) then mret tt else on_store (replace dir r')) ≫= λ _,
      signalWake ≫= λ _,
      now ← asks app_now;
      mret (publicEntry now r')
  end.
Definition with_name (name : string) (s : Subscription) : Subscription :=
  mkSubscription (sb_ID s) name (sb_URL s) (sb_UserAgent s) (sb_Enabled s) (sb_RefreshInterval s) (sb_Timeout s)
    (sb_Route s) (sb_AllowHTTP s) (sb_AllowInvalidTLS s).
Definition with_enabled (enabled : bool) (s : Subscription) : Subscription :=
  mkSubscription (sb_ID s) (sb_Name s) (sb_URL s) (sb_UserAgent s) enabled (sb_RefreshInterval s) (sb_Timeout s)
    (sb_Route s) (sb_AllowHTTP s) (sb_AllowInvalidTLS s).
Definition Rename (id name : string) : Call Entry :=
  let name := trim_space name in
  fail_when (streq name "" || (256 <? slen name)) ErrInvalid ≫= λ _,
  edit id (λ s, streq (sb_Name s) name) (with_name name).
Definition SetEnabled (id : string) (enabled : bool) : Call Entry :=
  (if enabled then mret tt else cancelRefreshes id ≫= λ _, cancelRefreshes id) ≫= λ _,
  edit id (λ s, Bool.eqb (sb_Enabled s) enabled) (with_enabled enabled).
Definition Delete (id : string) : Call unit :=
  s ← the_store;
  fail_when (isActive s id) ErrActive ≫= λ _,
  cancelRefreshes id ≫= λ _,
  on_store (delete_record dir id) ≫= λ _,
  signalWake.

Definition cancelIfSubscriptionChanges (id : string) (subscription : Subscription) : Call unit :=
  r ← lookup_record id;
  match normalizeSubscription None subscription, r with
  | Ok latest, Some r => if bool_decide (pr_Subscription r = latest) then mret tt else cancelRefreshes id
  | _, _ => cancelRefreshes id
  end.
(** The last entry of an id counts. *)
Definition after_of (after : list Subscription) (id : string) : option Subscription :=
  find (λ s, streq (sb_ID s) id) (rev after).
Definition CancelChangedSources (before after : list Subscription) : Call unit :=
  op_each (λ _ s, match after_of after (sb_ID s) with
    | Some updated => if bool_decide (updated = s) then mret tt else cancelRefreshes (sb_ID s)
    | None => cancelRefreshes (sb_ID s) end) tt before.

(** ** Refreshing *)
Definition sourceIsCurrent (expected : Subscription) : Call bool :=
  match app_current with
  | None => mret true
  | Some current =>
      found ← asks (current (sb_ID expected));
      match found with
      | None => mret false
      | Some s => mret (streq (sb_ID s) (sb_ID expected) &&
          match normalizeSubscription None s with Ok s => bool_decide (s = expected) | Err _ => false end)
      end
  end.
Definition recordFailure (id : string) (checkedAt : time) (failure : sub_error) : Call unit :=
  match failure with
  | Canceled => mret tt
  | _ =>
      persisted ← on_store (touchFailure dir id checkedAt (error_text failure));
      (if persisted : bool then onChange else mret tt) ≫= λ _,
      signalWake
  end.
(** Ends a refresh whose operation is over its time, after recording that. *)
Definition recordContextFailure (id : string) (checkedAt : time) : Call unit :=
  e ← context_error Operation;
  match e with None => mret tt | Some e => recordFailure id checkedAt e ≫= λ _, raise e end.
Definition failed (id : string) (checkedAt : time) (failure reported : sub_error) : Call Result :=
  recordFailure id checkedAt failure ≫= λ _, raise reported.
Definition responseFailure (e : sub_error) (response : Response) : sub_error :=
  if app_capture then ErrJoin [e; ErrStatus (mkStatusError (rs_StatusCode response) (rs_DiagnosticBody response))] else e.

Definition installLatestLocked (subscription : Subscription) : Call unit :=
  r ← lookup_record (sb_ID subscription);
  match r with
  | None => on_store (add dir (new_record subscription)) ≫= λ _, signalWake
  | Some r =>
      if bool_decide (pr_Subscription r = subscription) then mret tt
      else on_store (replace dir (redeclared r subscription)) ≫= λ _, signalWake
  end.
Definition touch (id : string) (checkedAt : time) (response : Response) (usage : option Usage) : Call unit :=
  recovered ← on_store (touchSuccess dir id checkedAt (rs_ETag response) (rs_LastModified response) usage);
  (if recovered : bool then onChange else mret tt) ≫= λ _,
  signalWake.
Definition confirmed (id : string) (checkedAt : time) (r : privateRecord) (response : Response) (usage : option Usage) (hash : string) : Call Result :=
  touch id checkedAt response usage ≫= λ _,
  mret (mkResult id false checkedAt hash (match usage with Some u => Some u | None => pr_Usage r end)).

(** The declaration a refresh works with, if the application has one. *)
Definition latest (id : string) (supplied : option Subscription) : Call (option Subscription) :=
  match supplied, app_current with
  | Some s, _ => fail_when (negb (streq (sb_ID s) id)) ErrInvalid ≫= λ _, s ← normalized None s; mret (Some s)
  | None, Some current =>
      found ← asks (current id);
      match found with
      | Some s => fail_when (negb (streq (sb_ID s) id)) ErrNotFound ≫= λ _, s ← normalized None s; mret (Some s)
      | None => raise ErrNotFound
      end
  | None, None => mret None
  end.

(** A new generation, unless the source changed meanwhile; [wrap] reports errors. *)
Definition install (id : string) (r : privateRecord) (profile candidate : list ascii) (checkedAt : time) (response : Response)
    (usage : option Usage) (downloadOnly : bool) (wrap : sub_error → sub_error) : Call Result :=
  current ← sourceIsCurrent (pr_Subscription r);
  fail_when (negb current) (wrap ErrSourceChanged) ≫= λ _,
  promoted ← attempt_op (on_store (promote dir id profile candidate checkedAt (rs_ETag response) (rs_LastModified response) usage downloadOnly));
  match promoted with
  | Err _ => raise (wrap ErrStore)
  | Ok previous =>
      current ← sourceIsCurrent (pr_Subscription r);
      if negb current then
        undone ← attempt_op (on_store (rollbackPromotion dir id previous (digest profile) (digest candidate)));
        raise (if is_ok undone then wrap ErrSourceChanged else ErrJoin [wrap ErrSourceChanged; ErrStore])
      else
        on_store (finalizePromotion dir id) ≫= λ _,
        onChange ≫= λ _,
        signalWake ≫= λ _,
        mret (mkResult id true checkedAt (digest profile) usage)
  end.

(** The candidate of a profile, rendered and validated within the time. *)
Definition generate (id : string) (checkedAt : time) (response : Response) (profile : list ascii) : Call (list ascii) :=
  candidate ← on_app (app_render profile);
  recordContextFailure id checkedAt ≫= λ _,
  match candidate with
  | None => recordFailure id checkedAt ErrRender ≫= λ _, raise (responseFailure ErrRender response)
  | Some candidate =>
      (if (len candidate =? 0) || (maxCandidateBytes <? len candidate)
       then recordFailure id checkedAt ErrRender ≫= λ _, raise (responseFailure ErrRender response) else mret tt) ≫= λ _,
      valid ← on_app (app_validate candidate);
      recordContextFailure id checkedAt ≫= λ _,
      (if valid : bool then mret tt
       else recordFailure id checkedAt ErrValidation ≫= λ _, raise (responseFailure ErrValidation response)) ≫= λ _,
      mret candidate
  end.

Definition NotModified : Z := 304.
Definition with_validators (response : Response) (r : privateRecord) : Response :=
  if rs_StatusCode response =? NotModified then
    mkResponse (rs_StatusCode response) (rs_Body response) (rs_DiagnosticBody response)
      (if streq (rs_ETag response) "" then pr_ETag r else rs_ETag response)
      (if streq (rs_LastModified response) "" then pr_LastModified r else rs_LastModified response)
      (rs_SubscriptionUserInfo response)
  else response.
Definition with_body (response : Response) (body : list ascii) : Response :=
  mkResponse 200 body (rs_DiagnosticBody response) (rs_ETag response) (rs_LastModified response) (rs_SubscriptionUserInfo response).

(** What a body means for the record. *)
Definition refresh_body (id : string) (r : privateRecord) (checkedAt : time) (response : Response) (usage : option Usage) (downloadOnly : bool) : Call Result :=
  let profile := rs_Body response in
  if negb (streq (pr_Hash r) "") && streq (digest profile) (pr_Hash r) && (downloadOnly || negb (pr_DownloadedOnly r))
  then confirmed id checkedAt r response usage (digest profile)
  else if (len profile =? 0) || negb (validProfile (app_yaml profile))
  then failed id checkedAt ErrInvalidProfile (responseFailure ErrInvalidProfile response)
  else if downloadOnly then install id r profile profile checkedAt response usage true (λ e, e)
  else candidate ← generate id checkedAt response profile;
       install id r profile candidate checkedAt response usage false (λ e, responseFailure e response).
Definition refresh_response (id : string) (r : privateRecord) (checkedAt : time) (response : Response) (downloadOnly : bool) : Call Result :=
  let response := with_validators response r in
  let usage := parseUsage (rs_SubscriptionUserInfo response) in
  if negb (rs_StatusCode response =? NotModified) then refresh_body id r checkedAt response usage downloadOnly
  else if pr_DownloadedOnly r && negb downloadOnly then
    profile ← attempt_op (on_store (Profile dir id));
    match profile with
    | Err _ => raise ErrStore
    | Ok profile => refresh_body id r checkedAt (with_body response profile) usage downloadOnly
    end
  else if streq (pr_Hash r) "" || streq (pr_CandidateHash r) "" then failed id checkedAt ErrNoSnapshot ErrNoSnapshot
  else confirmed id checkedAt r response usage (pr_Hash r).

Definition fetch_request (r : privateRecord) : Request :=
  let s := pr_Subscription r in
  mkRequest (sb_URL s) (sb_Route s) (pr_ETag r) (pr_LastModified r) app_max_bytes (sb_AllowHTTP s) (sb_UserAgent s) app_capture.
Definition fetch_failed (id : string) (checkedAt : time) (e : fetch_error) : Call Result :=
  match StatusErrorFrom e with
  | Some status => failed id checkedAt (ErrStatus status) (ErrJoin [ErrFetch; ErrStatus status])
  | None => failed id checkedAt ErrFetch (match HTTPResponseFrom e with Some status => ErrJoin [ErrFetch; ErrStatus status] | None => ErrFetch end)
  end.
Definition refresh (id : string) (supplied : option Subscription) (downloadOnly : bool) : Call Result :=
  fail_when (negb (validID id)) ErrInvalid ≫= λ _,
  unless_over Caller ≫= λ _,
  declared ← latest id supplied;
  match declared with Some s => installLatestLocked s | None => mret tt end ≫= λ _,
  r ← lookup_record id;
  match r with
  | None => raise ErrNotFound
  | Some r =>
      unless_over Operation ≫= λ _,
      response ← asks (app_fetch (sb_AllowInvalidTLS (pr_Subscription r)) (fetch_request r));
      checkedAt ← asks app_now;
      recordContextFailure id checkedAt ≫= λ _,
      match response with
      | Err e => fetch_failed id checkedAt e
      | Ok response => refresh_response id r checkedAt response downloadOnly
      end
  end.
Definition refreshLatest (id : string) (downloadOnly : bool) : Call Result :=
  match app_current with
  | None => mret tt
  | Some current =>
      found ← asks (current id);
      match found with
      | None => raise ErrNotFound
      | Some s => fail_when (negb (streq (sb_ID s) id)) ErrInvalid ≫= λ _, cancelIfSubscriptionChanges id s
      end
  end ≫= λ _,
  refresh id None downloadOnly.
Definition Refresh (id : string) : Call Result := refreshLatest id false.
Definition Download (id : string) : Call Result := refreshLatest id true.
Definition RefreshWith (s : Subscription) : Call Result :=
  cancelIfSubscriptionChanges (sb_ID s) s ≫= λ _, refresh (sb_ID s) (Some s) false.

(** ** Activation *)
Definition rollback_error : sub_error := ErrStage (mkActivationError ActivationRollback "").
Definition commit_error : sub_error := ErrStage (mkActivationError ActivationStateCommit "").
Definition same_applied (s : Store) (id : string) (r : privateRecord) : bool :=
  isActive s id && streq (pr_AppliedProfileHash r) (pr_Hash r) && streq (pr_AppliedCandidateHash r) (pr_CandidateHash r).

(** The selection is durable before the resources are accepted. *)
Definition select_applied (id : string) (r : privateRecord) (previous : string * string * string) (previousProfile : list ascii) (commit : string) : Call unit :=
  let '(previousID, previousHash, previousCandidate) := previous in
  (if streq commit "" then mret tt else
     marked ← attempt_op (on_store (markActivationPending dir previousID previousHash previousCandidate commit));
     if is_ok marked then mret tt else
     restored ← on_app (app_restore previousProfile);
     raise (if restored : bool then ErrStore else ErrJoin [ErrStore; ErrRestore])) ≫= λ _,
  applied ← attempt_op (on_store (setApplied dir id (pr_Hash r) (pr_CandidateHash r)));
  if is_ok applied then mret tt else
  restored ← on_app (app_restore previousProfile);
  fail_when (negb restored) (ErrJoin [ErrStore; ErrRestore]) ≫= λ _,
  (if streq commit "" then mret tt else
     cleared ← attempt_op (on_store (clearActivationPending dir));
     match cleared with Ok _ => mret tt | Err e => raise (ErrJoin [ErrStore; e]) end) ≫= λ _,
  raise ErrStore.
(** The callback refused: back to the previous selection. *)
Definition undo_applied (previous : string * string * string) (previousProfile : list ascii) (alreadyApplied : bool) (commit : string) : Call unit :=
  let '(previousID, previousHash, previousCandidate) := previous in
  restored ← on_app (app_restore previousProfile);
  fail_when (negb restored) (ErrJoin [ErrActivation; ErrRestore; rollback_error]) ≫= λ _,
  (if alreadyApplied then mret tt else
     undone ← attempt_op (on_store (restoreApplied dir previousID previousHash previousCandidate));
     fail_when (negb (is_ok undone)) (ErrJoin [ErrActivation; ErrStore; rollback_error]) ≫= λ _,
     if streq commit "" then mret tt else
     cleared ← attempt_op (on_store (clearActivationPending dir));
     fail_when (negb (is_ok cleared)) (ErrJoin [ErrActivation; ErrStore; commit_error])) ≫= λ _,
  raise (ErrJoin [ErrActivation; commit_error]).
Definition cleanup_pending {A : Type} (m : Method A) : Call unit :=
  r ← attempt_op (on_store m);
  match r with Ok _ => mret tt | Err e => raise (ErrJoin [ErrActivationCleanupPending; e]) end.

Definition Activate (id : string) : Call unit :=
  fail_when (negb (validID id)) ErrInvalid ≫= λ _,
  cleanup_pending (retryAcceptedActivationCleanup dir) ≫= λ _,
  '(r, profile, candidate) ← on_store (recordSnapshot dir id);
  fail_when (negb (streq (digest candidate) (pr_CandidateHash r))) ErrStore ≫= λ _,
  s ← the_store;
  let previous := appliedIdentity s in
  active ← attempt_op (on_store (ActiveProfile dir));
  match active with
  | Err ErrNoSnapshot => mret []
  | Err _ => raise ErrStore
  | Ok (_, body) => mret body
  end ≫= λ previousProfile,
  unless_over Caller ≫= λ _,
  applied ← on_app (app_apply profile);
  match applied with
  | Ok _ => mret tt
  | Err public =>
      unless_over Caller ≫= λ _,
      raise (match PublicActivation public with Some e => ErrJoin [ErrActivation; ErrStage e] | None => ErrActivation end)
  end ≫= λ _,
  s ← the_store;
  let alreadyApplied := same_applied s id r in
  commit ← match app_pending_commit with
    | Some pending => if alreadyApplied then mret "" else asks pending
    | None => mret ""
    end;
  (if alreadyApplied then mret tt else select_applied id r previous previousProfile commit) ≫= λ _,
  match app_finalize with
  | None => mret tt
  | Some finalize =>
      finalized ← on_app finalize;
      if finalized : bool then mret tt else undo_applied previous previousProfile alreadyApplied commit
  end ≫= λ _,
  (if streq commit "" then mret tt else
     cleanup_pending (markActivationAccepted dir) ≫= λ _,
     cleanup_pending (clearActivationPending dir)) ≫= λ _,
  if alreadyApplied then mret tt else on_store (cleanupApplied dir).
End service.
