(* ===== verification/FsHoare.v ===== *)
(** * Trees up to scratch files

    [scratch] says which paths hold only temporary things; [same] is equality of
    trees elsewhere.  Programs are followed from one explicit tree to the next:
    [hoare P m Q F X] has separate conclusions for a return, an error and a
    crash.  [faulty] is what a fault of the environment lets one conclude, so
    that a program whose errors all need a fault completes without any. *)
From Stdlib Require Import Ascii.
From S2P Require Import Prelude GoSort GoStrings GoFs FsLogic.
Open Scope Z_scope.

Lemma below_spec p q : below p q = true ↔ ∃ rest, q = p ++ rest.
Proof.
  unfold below. rewrite bool_decide_eq_true. split.
  - intros E. exists (drop (length p) q). rewrite <- E at 1. by rewrite take_drop.
  - intros [rest ->]. by rewrite take_app_length.
Qed.

Section hoare.
Context `{GoOs} (faulty : Prop) (fault_faulty : ∀ t k, faults t k ≠ Fine → faulty).

Definition hoare {A : Type} (P : Fs → Prop) (m : IO A) (Q : A → Fs → Prop) (F : fs_error → Fs → Prop) (X : Fs → Prop) : Prop :=
  ∀ w, P (w_fs w) →
    match m w with
    | (Done a, w') => Q a (w_fs w')
    | (Failed e, w') => F e (w_fs w')
    | (Crashed, w') => X (w_fs w') ∧ faulty
    end.

(** ** Control *)
Lemma hoare_weaken {A : Type} (P P' : Assert) (m : IO A) (Q Q' : A → Assert) (F F' : fs_error → Assert) (X X' : Assert) :
  hoare P' m Q' F' X' → (∀ fs, P fs → P' fs) → (∀ a fs, Q' a fs → Q a fs) → (∀ e fs, F' e fs → F e fs) →
  (∀ fs, X' fs → X fs) → hoare P m Q F X.
Proof.
  intros Hm HP HQ HF HX w Hw. specialize (Hm w (HP _ Hw)). destruct (m w) as [[a|e|] w']; auto. destruct Hm; auto.
Qed.
Lemma hoare_pure {A : Type} (G : Prop) (P : Assert) (m : IO A) (Q : A → Assert) (F : fs_error → Assert) (X : Assert) :
  (G → hoare P m Q F X) → hoare (λ fs, G ∧ P fs) m Q F X.
Proof. intros Hm w [HG HP]. by apply Hm. Qed.
Lemma hoare_exists {A B : Type} (P : B → Assert) (m : IO A) (Q : A → Assert) (F : fs_error → Assert) (X : Assert) :
  (∀ b, hoare (P b) m Q F X) → hoare (λ fs, ∃ b, P b fs) m Q F X.
Proof. intros Hm w [b HP]. by apply (Hm b). Qed.
Lemma hoare_ret {A : Type} (a : A) (P : Assert) (Q : A → Assert) (F : fs_error → Assert) (X : Assert) :
  (∀ fs, P fs → Q a fs) → hoare P (mret a) Q F X.
Proof. intros HQ w Hw. by apply HQ. Qed.
Lemma hoare_throw {A : Type} e (P : Assert) (Q : A → Assert) (F : fs_error → Assert) (X : Assert) :
  (∀ fs, P fs → F e fs) → hoare P (throw e) Q F X.
Proof. intros HF w Hw. by apply HF. Qed.
Lemma hoare_bind {A B : Type} (m : IO A) (k : A → IO B) (P : Assert) (Q : A → Assert) (R : B → Assert) (F : fs_error → Assert) (X : Assert) :
  hoare P m Q F X → (∀ a, hoare (Q a) (k a) R F X) → hoare P (m ≫= k) R F X.
Proof.
  intros Hm Hk w Hw. specialize (Hm w Hw). unfold mbind, io_bind. destruct (m w) as [[a|e|] w']; [|done..]. exact (Hk a w' Hm).
Qed.
Lemma hoare_refuse (b : bool) msg (P : Assert) (Q : unit → Assert) (F : fs_error → Assert) (X : Assert) :
  (b = false → ∀ fs, P fs → Q tt fs) → (b = true → ∀ fs, P fs → F (EFs msg) fs) → hoare P (refuse b msg) Q F X.
Proof. destruct b; intros HQ HF; [by apply hoare_throw, HF|by apply hoare_ret, HQ]. Qed.
Lemma hoare_lift {A : Type} (r : result string A) (P : Assert) (Q : A → Assert) (F : fs_error → Assert) (X : Assert) :
  (∀ a, r = Ok a → ∀ fs, P fs → Q a fs) → (∀ e, r = Err e → ∀ fs, P fs → F (EFs e) fs) → hoare P (lift r) Q F X.
Proof. destruct r as [a|e]; intros HQ HF; [by apply hoare_ret, HQ|by apply hoare_throw, HF]. Qed.
Lemma hoare_attempt {A : Type} (m : IO A) (P : Assert) (Q : A → Assert) (F F' : fs_error → Assert) (X : Assert) :
  hoare P m Q F X → hoare P (attempt m) (λ r fs, match r with Ok a => Q a fs | Err e => F e fs end) F' X.
Proof. intros Hm w Hw. specialize (Hm w Hw). unfold attempt. by destruct (m w) as [[a|e|] w']. Qed.
(** An error that is dropped. *)
Lemma hoare_ignore {A : Type} (m : IO A) (P Q : Assert) (F : fs_error → Assert) (X : Assert) :
  hoare P m (λ _, Q) (λ _, Q) X → hoare P (attempt m) (λ _, Q) F X.
Proof. intros Hm w Hw. specialize (Hm w Hw). unfold attempt. by destruct (m w) as [[a|e|] w']. Qed.
Lemma hoare_then {A B : Type} (m : IO A) (k : A → IO B) (P Q : Assert) (R : B → Assert) (F : fs_error → Assert) (X : Assert) :
  hoare P m (λ _, Q) F X → (∀ a, hoare Q (k a) R F X) → hoare P (m ≫= k) R F X.
Proof. intros Hm Hk. by eapply hoare_bind. Qed.
Lemma hoare_wrap {A : Type} msg (m : IO A) (P : Assert) (Q : A → Assert) (F : Assert) (X : Assert) :
  hoare P m Q (λ _, F) X → hoare P (wrap msg m) Q (λ _, F) X.
Proof. intros Hm w Hw. specialize (Hm w Hw). unfold wrap. by destruct (m w) as [[a|e|] w']. Qed.
Lemma hoare_on_failure {A : Type} (cleanup : IO unit) (m : IO A) (P : Assert) (Q : A → Assert) (F F' : fs_error → Assert) (X : Assert) :
  hoare P m Q F X → (∀ e, hoare (F e) cleanup (λ _, F' e) (λ _, F' e) X) → hoare P (on_failure cleanup m) Q F' X.
Proof.
  intros Hm Hc. unfold on_failure. eapply (hoare_bind _ _ _ _ _ F'); [by eapply (hoare_attempt _ _ _ _ F')|].
  intros [a|e]; [by apply hoare_ret|]. eapply (hoare_bind _ _ _ (λ _, F' e)); [|intros r; by apply hoare_throw].
  eapply hoare_weaken; [eapply (hoare_attempt _ _ _ _ F'), (Hc e)|done| |done..]. by intros [u|e'] fs.
Qed.
Lemma hoare_for_each {A S : Type} (body : S → A → IO S) (I : list A → S → Assert) (F : fs_error → Assert) (X : Assert) l s :
  (∀ don x rest s, l = don ++ x :: rest → hoare (I don s) (body s x) (λ s', I (don ++ [x]) s') F X) →
  hoare (I [] s) (for_each body s l) (λ s', I l s') F X.
Proof.
  intros Hb. assert (∀ rest don s, l = don ++ rest → hoare (I don s) (for_each body s rest) (λ s', I l s') F X) as Hgen.
  { induction rest as [|x rest IH]; intros don s' Hl; cbn [for_each].
    - apply hoare_ret. intros fs. by rewrite Hl, app_nil_r.
    - eapply hoare_bind; [by apply (Hb don x rest)|]. intros s''. apply IH. by rewrite <- app_assoc. }
  by apply Hgen.
Qed.
Lemma hoare_step {A : Type} kind (partial : nat → Fs → Fs) (run : Fs → result fs_error A * Fs)
    (P : Assert) (Q : A → Assert) (F : fs_error → Assert) (X : Assert) :
  (∀ fs, P fs → match run fs with (Ok a, fs') => Q a fs' | (Err e, fs') => F e fs' end) →
  (faulty → ∀ fs msg n, P fs → F (EFs msg) (partial n fs)) → (∀ fs n, P fs → X (partial n fs)) → hoare P (step kind partial run) Q F X.
Proof.
  intros Hrun HF HX w Hw. unfold step. pose proof (fault_faulty (w_tick w) kind) as Hf.
  destruct (faults (w_tick w) kind) as [|m n|n]; cbn.
  - specialize (Hrun _ Hw). by destruct (run (w_fs w)) as [[a|e] fs'].
  - apply HF; [by apply Hf|done].
  - split; [by apply HX|by apply Hf].
Qed.
Lemma hoare_at {A : Type} (m : World → IO A) (P : Assert) (Q : A → Assert) (F : fs_error → Assert) (X : Assert) :
  (∀ w0, hoare P (m w0) Q F X) → hoare P (λ w, m w w) Q F X.
Proof. intros Hm w Hw. exact (Hm w w Hw). Qed.

(** ** Trees *)
Context (scratch : list string → Prop).
Definition same (a b : Fs) : Prop := ∀ p, ¬ scratch p → a !! p = b !! p.
#[export] Instance same_equivalence : Equivalence same.
Proof.
  split; [by intros a p|intros a b Hab p Hp; symmetry; by apply Hab|].
  intros a b c Hab Hbc p Hp. by rewrite Hab, Hbc.
Qed.
#[export] Instance insert_same p e : Proper (same ==> same) (insert (M := Fs) p e).
Proof.
  intros a b Hab q Hq. destruct (decide (q = p)) as [->|Hne]; [by rewrite !lookup_insert_eq|].
  rewrite !lookup_insert_ne by done. by apply Hab.
Qed.
#[export] Instance delete_same p : Proper (same ==> same) (delete (M := Fs) p).
Proof.
  intros a b Hab q Hq. destruct (decide (q = p)) as [->|Hne]; [by rewrite !lookup_delete_eq|].
  rewrite !lookup_delete_ne by done. by apply Hab.
Qed.
Lemma same_insert_scratch T p e : scratch p → same (<[p := e]> T) T.
Proof. intros Hp q Hq. rewrite lookup_insert_ne; [done|]. by intros ->. Qed.
Lemma same_delete_scratch T p : scratch p → same (delete p T) T.
Proof. intros Hp q Hq. rewrite lookup_delete_ne; [done|]. by intros ->. Qed.

(** The tree is [T] but for scratch. *)
Definition is_tree (T : Fs) : Assert := λ fs, same fs T.
Lemma is_tree_at T fs p : is_tree T fs → ¬ scratch p → fs !! p = T !! p.
Proof. intros Hs. apply Hs. Qed.

(** Errors of a look: the thing is missing, or a fault. *)
Definition look_fails (T : Fs) (missing : Prop) (e : fs_error) (fs : Fs) : Prop :=
  is_tree T fs ∧ ((missing ∧ e = ENotExist) ∨ (faulty ∧ os_IsNotExist e = false)).

Lemma hoare_lstat T p : ¬ scratch p →
  hoare (is_tree T) (lstat p) (λ e fs, T !! p = Some e ∧ is_tree T fs) (look_fails T (T !! p = None)) (is_tree T).
Proof.
  intros Hp. apply hoare_step; [|unfold look_fails, nothing; by auto 6|done].
  intros fs HT. rewrite (is_tree_at _ _ _ HT Hp). unfold look_fails. destruct (T !! p); auto.
Qed.
Lemma hoare_read T p limit : ¬ scratch p →
  hoare (is_tree T) (read_limited p limit)
    (λ data fs, (∃ body, T !! p = Some (EFile body) ∧ data = take (Z.to_nat limit) body) ∧ is_tree T fs)
    (λ _ fs, is_tree T fs ∧ ((∀ body, T !! p ≠ Some (EFile body)) ∨ faulty)) (is_tree T).
Proof.
  intros Hp. apply hoare_step; [|unfold nothing; by auto|done].
  intros fs HT. rewrite (is_tree_at _ _ _ HT Hp). destruct (T !! p) as [[body| |]|]; eauto; by (split; [|left]).
Qed.
Lemma hoare_chmod T p : ¬ scratch p →
  hoare (is_tree T) (chmod p) (λ _, is_tree T) (λ _ fs, is_tree T fs ∧ (T !! p = None ∨ faulty)) (is_tree T).
Proof.
  intros Hp. apply hoare_step; [|unfold nothing; by auto|done].
  intros fs HT. rewrite (is_tree_at _ _ _ HT Hp). destruct (T !! p); auto.
Qed.
Lemma hoare_sync (P : Assert) p : hoare P (sync p) (λ _, P) (λ _ fs, P fs ∧ faulty) P.
Proof. apply hoare_step; unfold nothing; auto. Qed.
Lemma hoare_close (P : Assert) p : hoare P (close p) (λ _, P) (λ _ fs, P fs ∧ faulty) P.
Proof. apply hoare_step; unfold nothing; auto. Qed.

(** Making directories that are there. *)
Lemma make_dirs_id l (fs : Fs) : (∀ q, q ∈ l → is_Some (fs !! q)) → make_dirs l fs = fs.
Proof.
  unfold make_dirs. revert fs. induction l as [|q l IH]; intros fs Hl; cbn; [done|].
  destruct (Hl q ltac:(by left)) as [e He]. rewrite He. apply IH. intros q' Hq'. apply Hl. by right.
Qed.
Definition made (T : Fs) (p : list string) : Prop := ∀ q, q ∈ prefixes p → T !! q = Some EDir ∧ ¬ scratch q.
Lemma hoare_mkdir_all T p : made T p → hoare (is_tree T) (mkdir_all p) (λ _, is_tree T) (λ _ fs, faulty ∧ is_tree T fs) (is_tree T).
Proof.
  intros Hm. assert (∀ fs, is_tree T fs → ∀ q, q ∈ prefixes p → fs !! q = Some EDir) as Hall.
  { intros fs HT q Hq. destruct (Hm q Hq) as [<- ?]. by apply HT. }
  assert (∀ fs n, is_tree T fs → is_tree T (make_dirs (take n (prefixes p)) fs)) as Hpart.
  { intros fs n HT. rewrite make_dirs_id; [done|]. intros q Hq. rewrite (Hall fs HT); [eauto|].
    by apply subseteq_take in Hq. }
  apply hoare_step; [|auto..]. intros fs HT. rewrite make_dirs_id by (intros q Hq; rewrite (Hall fs HT q Hq); eauto).
  destruct (forallb _ _) eqn:E; [done|]. exfalso. rewrite <- not_true_iff_false in E. apply E.
  apply forallb_forall. intros q Hq%list_elem_of_In. by rewrite (Hall fs HT q Hq).
Qed.

(** *** Temporary files *)
Lemma hoare_create_temp T parent prefix :
  ¬ scratch parent → T !! parent = Some EDir → (∀ p, temp_of parent prefix p → scratch p) →
  hoare (is_tree T) (create_temp parent prefix)
    (λ p fs, temp_of parent prefix p ∧ is_tree T fs ∧ fs !! p = Some (EFile [])) (λ _ fs, faulty ∧ is_tree T fs) (is_tree T).
Proof.
  intros Hp Hd Ht. unfold create_temp. refine (hoare_at (λ w0, step OpCreateTemp nothing (λ fs, _)) _ _ _ _ _). intros w0.
  set (p := parent ++ _). assert (temp_of parent prefix p) as Htp by (eexists; split; [done|apply temp_name_prefix]).
  apply hoare_step; [|unfold nothing; auto..]. intros fs HT. rewrite (is_tree_at _ _ _ HT Hp), Hd. split_and!; [done| |apply lookup_insert_eq].
  unfold is_tree. rewrite same_insert_scratch; [done|by apply Ht].
Qed.
(** What a temporary file holds besides. *)
Definition with_temp (T : Fs) (p : list string) (body : list ascii) : Assert := λ fs, is_tree T fs ∧ fs !! p = Some (EFile body).
Lemma hoare_chmod_temp T p body : hoare (with_temp T p body) (chmod p) (λ _, with_temp T p body) (λ _ fs, faulty ∧ is_tree T fs) (is_tree T).
Proof. apply hoare_step; unfold nothing, with_temp; [|by intros ? ? ? ? [? ?]|by intros ? ? [? ?]]. intros fs [HT ->]. done. Qed.
Lemma hoare_write_temp T p old body : scratch p →
  hoare (with_temp T p old) (write p body) (λ _, with_temp T p body) (λ _ fs, faulty ∧ is_tree T fs) (is_tree T).
Proof.
  intros Hp. assert (∀ fs b, with_temp T p old fs → with_temp T p b (<[p := EFile b]> fs)) as Hw.
  { intros fs b [HT _]. split; [|apply lookup_insert_eq]. unfold is_tree. by rewrite same_insert_scratch. }
  apply hoare_step; [by intros; apply Hw|intros ? fs msg n Hfs; split; [done|by apply (Hw fs)]|intros fs n Hfs; by apply (Hw fs)].
Qed.
Lemma hoare_remove_scratch T p : scratch p → hoare (is_tree T) (remove p) (λ _, is_tree T) (λ _, is_tree T) (is_tree T).
Proof.
  intros Hp. assert (∀ fs, is_tree T fs → is_tree T (delete p fs)) as Hd.
  { intros fs HT. unfold is_tree. by rewrite same_delete_scratch. }
  apply hoare_step; [|done|done]. intros fs HT. destruct (fs !! p) as [[]|]; auto. case_bool_decide; auto.
Qed.
(** The temporary file takes its destination's place. *)
Lemma hoare_rename_temp T p dst body : scratch p → ¬ scratch dst →
  hoare (with_temp T p body) (rename p dst) (λ _, is_tree (<[dst := EFile body]> T))
    (λ _ fs, (faulty ∨ T !! dst = Some EDir) ∧ is_tree T fs) (is_tree T).
Proof.
  intros Hp Hdst. apply hoare_step; unfold nothing; [|by intros ? ? ? ? [? ?]; split; [left|]|by intros ? ? [? ?]].
  intros fs [HT Hfs]. rewrite Hfs, (is_tree_at _ _ _ HT Hdst).
  assert (is_tree (<[dst := EFile body]> T) (<[dst := EFile body]> (delete p fs))) as Hq.
  { unfold is_tree. apply insert_same. by rewrite same_delete_scratch. }
  destruct (T !! dst) as [[]|]; auto.
Qed.

(** *** Removing *)
Lemma hoare_remove T p : ¬ scratch p →
  hoare (is_tree T) (remove p) (λ _, is_tree (delete p T)) (λ e fs, is_tree T fs ∧ ((T !! p = None ∧ e = ENotExist) ∨ (os_IsNotExist e = false ∧ (T !! p = Some EDir ∨ faulty))))
    (is_tree T).
Proof.
  intros Hp. apply hoare_step; [|unfold nothing; by auto 8|done].
  intros fs HT. rewrite (is_tree_at _ _ _ HT Hp). assert (is_tree (delete p T) (delete p fs)) by by apply delete_same.
  destruct (T !! p) as [[]|]; auto. case_bool_decide; auto.
Qed.
Lemma hoare_remove_all_scratch T p : (∀ q, below p q = true → scratch q) →
  hoare (is_tree T) (remove_all p) (λ _, is_tree T) (λ _ fs, faulty ∧ is_tree T fs) (is_tree T).
Proof.
  intros Hp. assert (∀ l fs, (∀ q, q ∈ l → below p q = true) → is_tree T fs → is_tree T (drop_paths l fs)) as Hdrop.
  { intros l. unfold drop_paths. induction l as [|q l IH]; intros fs Hl HT; cbn; [done|]. apply IH; [set_solver|].
    unfold is_tree. rewrite same_delete_scratch; [done|]. apply Hp. set_solver. }
  assert (∀ fs q, q ∈ paths_below p fs → below p q = true) as Hb by (intros fs q Hq; by apply list_elem_of_filter in Hq as [? _]).
  assert (∀ fs n, is_tree T fs → is_tree T (drop_paths (take n (filter (λ q, q ≠ p) (paths_below p fs))) fs)) as Hpart.
  { intros fs n. apply Hdrop. intros q Hq. apply subseteq_take in Hq. apply list_elem_of_filter in Hq as [_ Hq]. by apply (Hb fs). }
  apply hoare_step; [|by auto..]. intros fs. apply Hdrop, Hb.
Qed.
End hoare.

(** One operation by its rule; the conclusions are adapted by the easy steps. *)
Ltac hoare_side :=
  first [ done | by auto | by intros; unfold with_temp in *; cbn beta in *; destruct_and?; auto
        | by intros; unfold with_temp in *; cbn beta in *; destruct_and?; destruct_or?; first [by auto | congruence] ].
Tactic Notation "follow" uconstr(rule) := eapply hoare_weaken; [eapply rule; try done|try hoare_side..].

(** ** Reasoning about methods

    [ends P m Q R X]: from a receiver and a tree in [P], the method returns in
    [Q], reports an error in [R], or dies leaving [X].  File operations enter
    through [hoare]. *)
Section ends.
Context `{GoOs} (faulty : Prop) {E S : Type}.
Local Abbreviation Assertion := (S → Fs → Prop) (only parsing).

Definition ends {A : Type} (P : S → Fs → Prop) (m : Op E S A) (Q : A → S → Fs → Prop) (R : E → S → Fs → Prop) (X : Fs → Prop) : Prop :=
  ∀ s w, P s (w_fs w) →
    match m s w with
    | (Done (Ok a, s'), w') => Q a s' (w_fs w')
    | (Done (Err e, s'), w') => R e s' (w_fs w')
    | (Failed _, _) => False
    | (Crashed, w') => X (w_fs w') ∧ faulty
    end.

Lemma ends_weaken {A : Type} (P P' : Assertion) (m : Op E S A) (Q Q' : A → Assertion) (R R' : E → Assertion) (X X' : Fs → Prop) :
  ends P' m Q' R' X' → (∀ s fs, P s fs → P' s fs) → (∀ a s fs, Q' a s fs → Q a s fs) → (∀ e s fs, R' e s fs → R e s fs) →
  (∀ fs, X' fs → X fs) → ends P m Q R X.
Proof.
  intros Hm HP HQ HR HX s w Hw. specialize (Hm s w (HP _ _ Hw)). destruct (m s w) as [[[[a|e] s']|e|] w']; auto. destruct Hm; auto.
Qed.
Lemma ends_pure {A : Type} (G : Prop) (P : Assertion) (m : Op E S A) (Q : A → Assertion) (R : E → Assertion) (X : Fs → Prop) :
  (G → ends P m Q R X) → ends (λ s fs, G ∧ P s fs) m Q R X.
Proof. intros Hm s w [HG HP]. by apply Hm. Qed.
Lemma ends_exists {A B : Type} (P : B → Assertion) (m : Op E S A) (Q : A → Assertion) (R : E → Assertion) (X : Fs → Prop) :
  (∀ b, ends (P b) m Q R X) → ends (λ s fs, ∃ b, P b s fs) m Q R X.
Proof. intros Hm s w [b HP]. by apply (Hm b). Qed.
Lemma ends_ret {A : Type} (a : A) (P : Assertion) (Q : A → Assertion) (R : E → Assertion) (X : Fs → Prop) :
  (∀ s fs, P s fs → Q a s fs) → ends P (mret a) Q R X.
Proof. intros HQ s w Hw. by apply HQ. Qed.
Lemma ends_raise {A : Type} e (P : Assertion) (Q : A → Assertion) (R : E → Assertion) (X : Fs → Prop) :
  (∀ s fs, P s fs → R e s fs) → ends P (raise e) Q R X.
Proof. intros HR s w Hw. by apply HR. Qed.
Lemma ends_bind {A B : Type} (m : Op E S A) (k : A → Op E S B) (P : Assertion) (Q : A → Assertion) (T : B → Assertion) (R : E → Assertion) (X : Fs → Prop) :
  ends P m Q R X → (∀ a, ends (Q a) (k a) T R X) → ends P (m ≫= k) T R X.
Proof.
  intros Hm Hk s w Hw. specialize (Hm s w Hw). unfold mbind, op_bind, mbind, io_bind.
  destruct (m s w) as [[[[a|e] s1]|e|] w1]; [|done..]. exact (Hk a s1 w1 Hm).
Qed.
Lemma ends_get (P : Assertion) (Q : S → Assertion) (R : E → Assertion) (X : Fs → Prop) :
  (∀ s fs, P s fs → Q s s fs) → ends P get_state Q R X.
Proof. intros HQ s w Hw. by apply HQ. Qed.
Lemma ends_put s' (P : Assertion) (Q : unit → Assertion) (R : E → Assertion) (X : Fs → Prop) :
  (∀ s fs, P s fs → Q tt s' fs) → ends P (put_state s') Q R X.
Proof. intros HQ s w Hw. by eapply HQ. Qed.
Lemma ends_attempt {A : Type} (m : Op E S A) (P : Assertion) (Q : A → Assertion) (R R' : E → Assertion) (X : Fs → Prop) :
  ends P m Q R X → ends P (attempt_op m) (λ r s fs, match r with Ok a => Q a s fs | Err e => R e s fs end) R' X.
Proof.
  intros Hm s w Hw. specialize (Hm s w Hw). unfold attempt_op, mbind, io_bind. destruct (m s w) as [[[[a|e] s1]|e|] w1]; done.
Qed.
(** The receiver is not touched by file operations. *)
Lemma ends_io {A : Type} (f : fs_error → E) (m : IO A) (P : Assertion) (Q : A → Assertion) (F : S → fs_error → Fs → Prop) (R : E → Assertion) (X : Fs → Prop) :
  (∀ s, hoare faulty (P s) m (λ a fs, Q a s fs) (F s) X) → (∀ e s fs, F s e fs → R (f e) s fs) → ends P (io_as f m) Q R X.
Proof.
  intros Hm HR s w Hw. specialize (Hm s w Hw). unfold io_as, attempt, mbind, io_bind, mret, io_ret.
  destruct (m w) as [[a|e|] w']; cbn; [done|by apply HR|done].
Qed.
(** A method whose start is known. *)
Lemma ends_from {A : Type} (P : Assertion) (m : Op E S A) (Q : A → Assertion) (R : E → Assertion) (X : Fs → Prop) :
  (∀ s, ends (λ s' fs, s' = s ∧ P s fs) m Q R X) → ends P m Q R X.
Proof. intros Hm s w Hw. by apply (Hm s s w). Qed.
Lemma ends_each {A T : Type} (body : T → A → Op E S T) (I : list A → T → Assertion) (R : E → Assertion) (X : Fs → Prop) l t :
  (∀ don x rest t, l = don ++ x :: rest → ends (I don t) (body t x) (λ t', I (don ++ [x]) t') R X) →
  ends (I [] t) (op_each body t l) (λ t', I l t') R X.
Proof.
  intros Hb. assert (∀ rest don t, l = don ++ rest → ends (I don t) (op_each body t rest) (λ t', I l t') R X) as Hgen.
  { induction rest as [|x rest IH]; intros don t' Hl; cbn [op_each].
    - apply ends_ret. intros s fs. by rewrite Hl, app_nil_r.
    - eapply ends_bind; [by apply (Hb don x rest)|]. intros t''. apply IH. by rewrite <- app_assoc. }
  by apply Hgen.
Qed.
(** What holds of every run holds of one. *)
Lemma ends_run {A : Type} (P : Assertion) (m : Op E S A) (Q : A → Assertion) (R : E → Assertion) (X : Fs → Prop) s w :
  ends P m Q R X → P s (w_fs w) → (¬ faulty) → (∀ e s' fs, ¬ R e s' fs) →
  ∃ a s' w', m s w = (Done (Ok a, s'), w') ∧ Q a s' (w_fs w').
Proof.
  intros Hm Hw Hf HR. specialize (Hm s w Hw). destruct (m s w) as [[[[a|e] s']|e|] w']; [eauto 10|by apply HR in Hm|done|by destruct Hm].
Qed.
End ends.
