(* ===== verification/SubscriptionFiles.v ===== *)
(** * The files of the subscription store

    Which paths are scratch, what the private file operations do to a tree, and
    when a tree is one that opens: [disk]. *)
From Stdlib Require Import Ascii.
From S2P Require Import Prelude GoTime GoStrings GoNet GoSort GoJson GoFs ConfigTypes ResourceStore ConfigWrite SubscriptionModel SubscriptionFacts SubscriptionStore FsLogic FsHoare.
Open Scope Z_scope.

(** ** config.Write *)
Section write.
Context `{GoOs} (faulty : Prop) (fault_faulty : ∀ t k, faults t k ≠ Fine → faulty) (scratch : list string → Prop).
Local Abbreviation hoare := (hoare faulty).
Local Abbreviation is_tree := (is_tree scratch).

(** A path whose writer works in its directory's scratch files. *)
Record writable (T : Fs) (path : list string) : Prop := {
  wr_made : made scratch T (dir_of path);
  wr_path : ¬ scratch path;
  wr_temp : ∀ p, temp_of (dir_of path) ("." +:+ base_of path +:+ ".") p → scratch p
}.
Lemma made_self T p : made scratch T p → T !! p = Some EDir ∧ ¬ scratch p.
Proof.
  intros Hm. apply Hm. unfold prefixes. apply list_elem_of_fmap. exists (length p). split; [by rewrite take_ge|].
  apply elem_of_seq. lia.
Qed.

Lemma hoare_Write T path data : writable T path →
  hoare (is_tree T) (Write path data) (λ _, is_tree (<[path := EFile data]> T))
    (λ _ fs, (faulty ∨ T !! path = Some EDir) ∧ is_tree T fs)
    (λ fs, is_tree T fs ∨ is_tree (<[path := EFile data]> T) fs).
Proof.
  intros [Hm Hp Ht]. destruct (made_self _ _ Hm) as [Hd Hds]. unfold Write. cbn zeta.
  eapply (hoare_then _ _ _ _ (is_tree T)); [follow (hoare_mkdir_all faulty fault_faulty scratch T)|intros []].
  eapply (hoare_then _ _ _ _ (is_tree T)); [follow (hoare_chmod faulty fault_faulty scratch T)|intros []].
  eapply (hoare_bind _ _ _ _ (λ p fs, temp_of (dir_of path) ("." +:+ base_of path +:+ ".") p ∧ with_temp scratch T p [] fs));
    [follow (hoare_create_temp faulty fault_faulty scratch T)|intros p].
  apply hoare_pure. intros Hpt%Ht.
  eapply (hoare_then _ _ _ _ (is_tree (<[path := EFile data]> T))).
  - eapply (hoare_on_failure _ _ _ _ _ (λ _ fs, (faulty ∨ T !! path = Some EDir) ∧ is_tree T fs)).
    + eapply (hoare_then _ _ _ _ (with_temp scratch T p [])); [follow (hoare_chmod_temp faulty fault_faulty scratch T)|intros []].
      eapply (hoare_then _ _ _ _ (with_temp scratch T p data)); [follow (hoare_write_temp faulty fault_faulty scratch T)|intros []].
      eapply (hoare_then _ _ _ _ (with_temp scratch T p data)); [follow (hoare_sync faulty fault_faulty (with_temp scratch T p data))|intros []].
      eapply (hoare_then _ _ _ _ (with_temp scratch T p data)); [follow (hoare_close faulty fault_faulty (with_temp scratch T p data))|intros []].
      follow (hoare_rename_temp faulty fault_faulty scratch T).
    + intros e. apply hoare_pure. intros Hfy. eapply (hoare_then _ _ _ _ (is_tree T)).
      * apply hoare_ignore. follow (hoare_close faulty fault_faulty (is_tree T)).
      * intros r. follow (hoare_remove_scratch faulty fault_faulty scratch T).
  - intros []. eapply (hoare_then _ _ _ _ (is_tree (<[path := EFile data]> T))); [|intros r; by apply hoare_ret].
    apply hoare_ignore. follow (hoare_sync faulty fault_faulty (is_tree (<[path := EFile data]> T))).
Qed.
End write.

(** ** Paths *)
(** The errors of reading: nothing like that is there, or a fault. *)
Definition holds (T : Fs) (path : list string) (limit : Z) (body : list ascii) : Prop :=
  T !! path = Some (EFile body) ∧ len body ≤ limit.

Section paths.
Context (dir : list string).

(** What opening, reading and selecting never looks at. *)
Definition scratch (p : list string) : Prop :=
  (∃ name rest, p = dir ++ name :: rest ∧ has_prefix name "." = true ∧ name ≠ activationPendingFile) ∨
  (∃ id name, p = dir ++ [id; name] ∧ has_prefix name "." = true).

Lemma prefix_ne q name rest : q ∈ prefixes dir → q ≠ dir ++ name :: rest.
Proof.
  unfold prefixes. intros (n & -> & _)%list_elem_of_fmap E. apply (f_equal length) in E. rewrite length_app, length_take in E. cbn in E. lia.
Qed.
Lemma app_dir_inj (k l : list string) : dir ++ k = dir ++ l → k = l.
Proof. apply app_inv_head. Qed.
Lemma prefix_not_scratch n : ¬ scratch (take n dir).
Proof.
  intros [(name & rest & E & _)|(id & name & E & _)]; apply (f_equal length) in E; rewrite length_app, length_take in E; cbn in E; lia.
Qed.
Lemma dir_not_scratch : ¬ scratch dir.
Proof. pose proof (prefix_not_scratch (length dir)) as Hd. by rewrite take_ge in Hd. Qed.
Lemma entry_not_scratch name : has_prefix name "." = false → ¬ scratch (dir ++ [name]).
Proof.
  intros Hn [(name' & rest & E%app_dir_inj & Hp & _)|(id & name' & E%app_dir_inj & _)]; simplify_eq. congruence.
Qed.
Lemma pending_not_scratch : ¬ scratch (dir ++ [activationPendingFile]).
Proof. intros [(name' & rest & E%app_dir_inj & Hp & ?)|(id & name' & E%app_dir_inj & _)]; simplify_eq. Qed.
Lemma file_not_scratch id name : has_prefix id "." = false → has_prefix name "." = false → ¬ scratch (dir ++ [id; name]).
Proof.
  intros Hi Hn [(name' & rest & E%app_dir_inj & Hp & _)|(id' & name' & E%app_dir_inj & Hp)]; simplify_eq; congruence.
Qed.
Lemma hidden_scratch name rest : has_prefix name "." = true → name ≠ activationPendingFile → scratch (dir ++ name :: rest).
Proof. left. eauto. Qed.

(** The temporary files of the store's writers. *)
Lemma has_prefix_app name a b : has_prefix name (a +:+ b) = true → has_prefix name a = true.
Proof. rewrite !has_prefix_spec. intros [r ->]. exists (b +:+ r). apply bytes_of_inj. by rewrite !bytes_of_app, app_assoc. Qed.
Lemma temp_in_record id name p : temp_of (dir ++ [id]) ("." +:+ name +:+ ".") p → scratch p.
Proof.
  intros (t & -> & Ht%has_prefix_app). right. exists id, t. by rewrite <- app_assoc.
Qed.
Lemma temp_in_dir name p : temp_of dir ("." +:+ name +:+ ".") p → has_prefix activationPendingFile ("." +:+ name +:+ ".") = false → scratch p.
Proof.
  intros (t & -> & Ht) Hp. apply hidden_scratch; [by eapply has_prefix_app|]. intros ->. congruence.
Qed.

Lemma validID_visible id : validID id = true → has_prefix id "." = false.
Proof.
  unfold validID, has_prefix. destruct (bytes_of id) as [|c l]; [done|]. intros [[_ Hc]%andb_true_iff _]%andb_true_iff.
  destruct c as [[] [] [] [] [] [] [] []]; by vm_compute in Hc |- *.
Qed.
Lemma hash_name_visible h : has_prefix (profileFilename h) "." = false ∧ ∀ c, has_prefix (candidateFilename h c) "." = false.
Proof. done. Qed.

Lemma made_below T q name : made scratch T q → T !! (q ++ [name]) = Some EDir → ¬ scratch (q ++ [name]) → made scratch T (q ++ [name]).
Proof.
  intros Hm He Hs p Hp. unfold prefixes in Hp. apply list_elem_of_fmap in Hp as (n & -> & Hn). apply elem_of_seq in Hn.
  rewrite length_app in Hn. cbn in Hn. destruct (decide (n = S (length q))) as [->|Hne].
  - rewrite take_ge by (rewrite length_app; cbn; lia). done.
  - rewrite take_app_le by lia. apply Hm. unfold prefixes. apply list_elem_of_fmap. exists n. split; [done|]. apply elem_of_seq. lia.
Qed.
Lemma dir_of_snoc (q : list string) name : dir_of (q ++ [name]) = q ∧ base_of (q ++ [name]) = name.
Proof.
  unfold dir_of, base_of. rewrite length_app, last_snoc. cbn. by rewrite Nat.add_sub, take_app_length.
Qed.
End paths.

(** ** Reading *)
Section reading.
Context `{GoOs} `{GoHash} `{GoNet} `{JsonCodec privateRecord} `{JsonCodec activePointer} `{JsonCodec pendingActivation}.
Context (faulty : Prop) (fault_faulty : ∀ t k, faults t k ≠ Fine → faulty) (dir : list string).
Local Abbreviation hoare := (hoare faulty).
Local Abbreviation is_tree := (is_tree (scratch dir)).
Local Abbreviation made := (made (scratch dir)).

Lemma hoare_ensurePrivateDir T d : made T d →
  hoare (is_tree T) (ensurePrivateDir d) (λ _, is_tree T) (λ _ fs, faulty ∧ is_tree T fs) (is_tree T).
Proof.
  intros Hm. destruct (made_self _ _ _ Hm) as [Hd Hs]. unfold ensurePrivateDir.
  eapply (hoare_then _ _ _ _ (is_tree T)); [follow (hoare_mkdir_all faulty fault_faulty (scratch dir) T)|intros []].
  eapply (hoare_bind _ _ _ _ (λ e fs, e = EDir ∧ is_tree T fs)).
  { eapply hoare_weaken; [by apply (hoare_lstat faulty fault_faulty (scratch dir) T)|done| | |done].
    - intros e fs [He HT]. split; [congruence|done].
    - intros e fs (HT & [[? _]|[? _]]); [congruence|done]. }
  intros e. apply hoare_pure. intros ->. follow (hoare_chmod faulty fault_faulty (scratch dir) T).
Qed.

Lemma hoare_readPrivateFile T p limit : ¬ scratch dir p → 0 ≤ limit →
  hoare (is_tree T) (readPrivateFile p limit) (λ data fs, holds T p limit data ∧ is_tree T fs)
    (λ _ fs, is_tree T fs ∧ (faulty ∨ ∀ data, ¬ holds T p limit data)) (is_tree T).
Proof.
  intros Hp Hl. unfold readPrivateFile.
  eapply (hoare_bind _ _ _ _ (λ e fs, T !! p = Some e ∧ is_tree T fs)).
  { eapply hoare_weaken; [by apply (hoare_lstat faulty fault_faulty (scratch dir) T)|done|done| |done].
    intros e fs (HT & [[Hn _]|[? _]]); (split; [done|]); [right|by left]. intros data [Hh _]. congruence. }
  intros e. apply hoare_pure. intros He. destruct e as [body| |]; [|apply hoare_throw; intros fs HT; (split; [done|]); right; intros data [Hh _]; congruence..].
  eapply (hoare_then _ _ _ _ (is_tree T)).
  { eapply hoare_weaken; [by apply (hoare_chmod faulty fault_faulty (scratch dir) T)|done|done| |done].
    intros e fs [HT [?|?]]; [congruence|]. auto. }
  intros []. eapply (hoare_bind _ _ _ _ (λ data fs, data = take (Z.to_nat (limit + 1)) body ∧ is_tree T fs)).
  { eapply hoare_weaken; [by apply (hoare_read faulty fault_faulty (scratch dir) T)|done| | |done].
    - intros data fs [(body' & Hb & ->) HT]. split; [congruence|done].
    - intros e fs [HT [Hn|?]]; [|by auto]. by destruct (Hn body). }
  intros data. apply hoare_pure. intros ->.
  assert (len (take (Z.to_nat (limit + 1)) body) = Z.min (limit + 1) (len body)) as Hlen by (unfold len; rewrite length_take; lia).
  eapply (hoare_then _ _ _ _ (λ fs, len body ≤ limit ∧ is_tree T fs)).
  - apply hoare_refuse; intros Hb fs HT; go_bool; (split; [|done]) || (split; [done|]).
    + lia.
    + right. intros data [Hh Hd]. assert (data = body) as -> by congruence. lia.
  - intros []. apply hoare_pure. intros Hb. apply hoare_ret. intros fs HT. split; [|done]. split; [|unfold len in *; lia].
    rewrite He. do 2 f_equal. rewrite take_ge; [done|]. unfold len in *. lia.
Qed.

(** The files of a generation. *)
Definition generation_files (T : Fs) (id profileHash candidateHash : string) (profile candidate : list ascii) : Prop :=
  holds T (dir ++ [id; profileFilename profileHash]) maxProfileBytes profile ∧
  holds T (dir ++ [id; candidateFilename profileHash candidateHash]) maxCandidateBytes candidate.
Definition generation (T : Fs) (id profileHash candidateHash : string) (profile candidate : list ascii) : Prop :=
  generation_files T id profileHash candidateHash profile candidate ∧ digest profile = profileHash ∧ digest candidate = candidateHash.
Definition has_generation (T : Fs) (id profileHash candidateHash : string) : Prop :=
  ∃ profile candidate, generation T id profileHash candidateHash profile candidate.

Lemma hoare_readGenerationFiles T id profileHash candidateHash : has_prefix id "." = false →
  hoare (is_tree T) (readGenerationFiles (dir ++ [id]) profileHash candidateHash)
    (λ files fs, generation_files T id profileHash candidateHash files.1 files.2 ∧ is_tree T fs)
    (λ _ fs, is_tree T fs ∧ (faulty ∨ ∀ p c, ¬ generation_files T id profileHash candidateHash p c)) (is_tree T).
Proof.
  intros Hid. unfold readGenerationFiles. rewrite <- !app_assoc. cbn [app].
  assert (∀ name limit, has_prefix name "." = false → 0 ≤ limit →
    hoare (is_tree T) (attempt (readPrivateFile (dir ++ [id; name]) limit))
      (λ r fs, match r with Ok data => holds T (dir ++ [id; name]) limit data | Err _ => faulty ∨ ∀ data, ¬ holds T (dir ++ [id; name]) limit data end ∧ is_tree T fs)
      (λ _ fs, is_tree T fs ∧ (faulty ∨ ∀ p c, ¬ generation_files T id profileHash candidateHash p c)) (is_tree T)) as Hread.
  { intros name limit Hn Hl. eapply hoare_weaken; [eapply (hoare_attempt _ _ _ _ _ (λ _ _, False)), hoare_readPrivateFile; [by apply file_not_scratch|done]|done| |done|done].
    intros [data|e] fs; [done|]. by intros [? ?]. }
  eapply hoare_bind; [by apply Hread|]. intros profile. apply hoare_pure. intros Hp.
  eapply hoare_bind; [by apply Hread|]. intros candidate. apply hoare_pure. intros Hc.
  destruct profile as [p|e], candidate as [c|e']; [apply hoare_ret; intros fs HT; split; [split|]; done|apply hoare_throw; intros fs HT; split; [done|]..];
    repeat match goal with Hx : _ ∨ _ |- _ => destruct Hx; [by left|] end; right; intros ? ? [? ?]; naive_solver.
Qed.

(** A method that reads leaves its receiver and the tree. *)
Definition sees {S A : Type} (s0 : S) (T : Fs) (m : Op sub_error S A) (Q : A → Prop) (R : sub_error → Prop) : Prop :=
  ends faulty (λ s fs, s = s0 ∧ is_tree T fs) m (λ a s fs, Q a ∧ s = s0 ∧ is_tree T fs) (λ e s fs, R e ∧ s = s0 ∧ is_tree T fs) (is_tree T).

Section sees.
Context {S : Type} (s0 : S) (T : Fs).
Lemma sees_ret {A : Type} (a : A) (Q : A → Prop) (R : sub_error → Prop) : Q a → sees s0 T (mret a) Q R.
Proof. intros HQ. by apply ends_ret. Qed.
Lemma sees_raise {A : Type} e (Q : A → Prop) (R : sub_error → Prop) : R e → sees s0 T (raise e) Q R.
Proof. intros HR. by apply ends_raise. Qed.
Lemma sees_bind {A B : Type} (m : Op sub_error S A) (k : A → Op sub_error S B) Q Q' R :
  sees s0 T m Q R → (∀ a, Q a → sees s0 T (k a) Q' R) → sees s0 T (m ≫= k) Q' R.
Proof. intros Hm Hk. eapply ends_bind; [exact Hm|]. intros a. apply ends_pure. intros HQ. by apply Hk. Qed.
Lemma sees_fail_when b e R : (b = true → R e) → sees s0 T (fail_when b e) (λ _, b = false) R.
Proof. destruct b; intros HR; [by apply sees_raise, HR|by apply sees_ret]. Qed.
Lemma sees_weaken {A : Type} (m : Op sub_error S A) (Q Q' : A → Prop) (R R' : sub_error → Prop) :
  sees s0 T m Q' R' → (∀ a, Q' a → Q a) → (∀ e, R' e → R e) → sees s0 T m Q R.
Proof. intros Hm HQ HR. eapply ends_weaken; [exact Hm|done|..|done]; intros ? ? ? [? ?]; auto. Qed.
Lemma sees_attempt {A : Type} (m : Op sub_error S A) Q R R' :
  sees s0 T m Q R → sees s0 T (attempt_op m) (λ r, match r with Ok a => Q a | Err e => R e end) R'.
Proof. intros Hm. eapply ends_weaken; [eapply (ends_attempt _ _ _ _ _ (λ _ _ _, False)), Hm|done| |done|done]. by intros [a|e] s fs. Qed.
Lemma sees_io {A : Type} f (m : IO A) (Q : A → Prop) (R : sub_error → Prop) (G : fs_error → Prop) :
  hoare (is_tree T) m (λ a fs, Q a ∧ is_tree T fs) (λ e fs, is_tree T fs ∧ G e) (is_tree T) → (∀ e, G e → R (f e)) →
  sees s0 T (io_as f m) Q R.
Proof.
  intros Hm HG. eapply (ends_io _ _ _ _ _ (λ s e fs, s = s0 ∧ is_tree T fs ∧ G e)).
  - intros s w [-> Hw]. specialize (Hm w Hw). destruct (m w) as [[a|e|] w']; tauto.
  - intros e s fs (-> & HT & He). auto.
Qed.
Lemma sees_lift {A : Type} (r : result string A) (R : sub_error → Prop) : (∀ e, r = Err e → R ErrStore) → sees s0 T (store_io (lift r)) (λ a, r = Ok a) R.
Proof.
  intros HR. apply (sees_io _ _ _ _ (λ _, ∃ e, r = Err e)); [|intros ? [e He]; by eapply HR].
  apply hoare_lift; [done|]. intros e He fs HT. eauto.
Qed.
End sees.

(** ** Generations and records *)
Lemma digest_optional p h : digest p = h → validOptionalHash h = true ∧ streq h "" = false.
Proof.
  intros <-. destruct (digest_hex p) as [Hl Hx]. assert (streq (digest p) "" = false) as Hne.
  { apply streq_false. intros E. rewrite E in Hl. by vm_compute in Hl. }
  split; [|done]. unfold validOptionalHash. by rewrite Hne, Hl, Hx.
Qed.

Lemma sees_readPairProfile {S : Type} (s0 : S) T id ph ch :
  validID id = true →
  sees s0 T (readPairProfile dir id ph ch) (λ p, ∃ c, generation T id ph ch p c) (λ _, faulty ∨ ¬ has_generation T id ph ch).
Proof.
  intros Hid. unfold readPairProfile, has_generation. eapply sees_bind.
  { apply sees_fail_when. intros Hb. right. intros (p & c & _ & Hp%digest_optional & Hc%digest_optional).
    destruct Hp as [Hp1 Hp2], Hc as [Hc1 Hc2]. by rewrite Hid, Hp1, Hp2, Hc1, Hc2 in Hb. }
  intros [] _. eapply sees_bind.
  { eapply (sees_io _ _ _ _ _ _ (λ _, faulty ∨ ∀ p c, ¬ generation_files T id ph ch p c)).
    - apply hoare_readGenerationFiles. by apply validID_visible.
    - intros e [?|Hn]; [by left|]. right. intros (p & c & Hg & _). by apply (Hn p c). }
  intros [p c] Hf. cbn in Hf. eapply sees_bind.
  { apply sees_fail_when. intros Hb. right. intros (p' & c' & [[Hp _] [Hc _]] & Hdp & Hdc). destruct Hf as [[Hp' _] [Hc' _]].
    assert (p' = p) as -> by congruence. assert (c' = c) as -> by congruence.
    unfold generationMatches in Hb. by rewrite Hdp, Hdc, !streq_refl in Hb. }
  intros [] Hb. apply negb_false_iff in Hb. unfold generationMatches in Hb.
  apply andb_true_iff in Hb as [Hdp%streq_true Hdc%streq_true]. apply sees_ret. by exists c.
Qed.
Lemma sees_verifyPair {S : Type} (s0 : S) T id ph ch :
  validID id = true →
  sees s0 T (verifyPair dir id ph ch) (λ _, has_generation T id ph ch) (λ _, faulty ∨ ¬ has_generation T id ph ch).
Proof.
  intros Hid. eapply sees_bind; [by apply sees_readPairProfile|]. intros p (c & Hg). apply sees_ret. by exists p, c.
Qed.
(** Asking whether it is there. *)
Lemma sees_verified {S : Type} (s0 : S) T id ph ch R :
  validID id = true →
  sees s0 T (attempt_op (verifyPair dir id ph ch))
    (λ r, if is_ok r then has_generation T id ph ch else faulty ∨ ¬ has_generation T id ph ch) R.
Proof.
  intros Hid. eapply sees_weaken; [eapply sees_attempt; by apply sees_verifyPair| |done]. by intros [[]|e].
Qed.
End reading.
