(* ===== verification/SubscriptionOpen.v ===== *)
(** * Opening the subscription store

    [disk T records active]: the tree holds exactly these records, each with its
    generation, and this selection.  [NewStore] succeeds exactly on such trees
    and returns what they hold. *)
From Stdlib Require Import Ascii.
From S2P Require Import Prelude GoTime GoStrings GoNet GoSort GoJson GoFs ConfigTypes ResourceStore ConfigWrite SubscriptionModel SubscriptionFacts SubscriptionStore FsLogic FsHoare SubscriptionFiles.
Open Scope Z_scope.

(** ** Listing a directory *)
Lemma elem_of_children p (fs : Fs) name b :
  (name, b) ∈ children p fs ↔ is_Some (fs !! (p ++ [name])) ∧ b = bool_decide (fs !! (p ++ [name]) = Some EDir).
Proof.
  unfold children. rewrite list_elem_of_fmap. setoid_rewrite elem_of_insertion_sort. setoid_rewrite list_elem_of_omap. split.
  - intros (n & [= -> ->] & q & Hq & Hn). split; [|done]. case_bool_decide as Hd; cbn in Hn; [|done].
    destruct (length q =? S (length p))%nat eqn:Hl; [|done]. injection Hn as <-. apply Nat.eqb_eq in Hl.
    apply list_elem_of_fmap in Hq as ([q' e] & -> & Hq). apply elem_of_map_to_list in Hq. cbn [fst] in *.
    assert (p ++ [base_of q'] = q') as ->; [|eauto]. destruct q' as [|x q'' _] using rev_ind; [done|].
    destruct (dir_of_snoc q'' x) as [E1 E2]. rewrite E1 in Hd. by rewrite E2, Hd.
  - intros [[e He] ->]. exists name. split; [done|]. exists (p ++ [name]). split.
    + apply list_elem_of_fmap. exists (p ++ [name], e). split; [done|]. by apply elem_of_map_to_list.
    + destruct (dir_of_snoc p name) as [-> ->]. rewrite bool_decide_true by done. rewrite length_app. cbn.
      by rewrite Nat.add_1_r, Nat.eqb_refl.
Qed.

Section listing.
Context `{GoOs} (faulty : Prop) (fault_faulty : ∀ t k, faults t k ≠ Fine → faulty) (scratch : list string → Prop).
(** What a listing says of everything that is not scratch. *)
Definition listed (T : Fs) (p : list string) (entries : list (string * bool)) : Prop :=
  ∀ name b, ¬ scratch (p ++ [name]) →
    (name, b) ∈ entries ↔ is_Some (T !! (p ++ [name])) ∧ b = bool_decide (T !! (p ++ [name]) = Some EDir).
Lemma hoare_read_dir T p : ¬ scratch p → T !! p = Some EDir →
  hoare faulty (is_tree scratch T) (read_dir p) (λ entries fs, listed T p entries ∧ is_tree scratch T fs)
    (λ _ fs, is_tree scratch T fs ∧ faulty) (is_tree scratch T).
Proof.
  intros Hp Hd. apply (hoare_step faulty fault_faulty); [|unfold nothing; auto..].
  intros fs HT. rewrite (is_tree_at _ _ _ _ HT Hp), Hd. split; [|done].
  intros name b Hn. rewrite elem_of_children. by rewrite (is_tree_at _ _ _ _ HT Hn).
Qed.
End listing.

Section disk.
Context `{GoOs} `{GoHash} `{GoNet} `{JsonCodec privateRecord} `{JsonCodec activePointer} `{JsonCodec pendingActivation}.
Context (dir : list string).
Local Abbreviation made := (made (scratch dir)).
Local Abbreviation has_generation := (has_generation dir).

Definition record_limit : Z := Z.shiftl 1 20.
Record loaded (T : Fs) (id : string) (r : privateRecord) : Prop := {
  ld_id : validID id = true;
  ld_dir : T !! (dir ++ [id]) = Some EDir;
  ld_file : ∃ body, holds T (dir ++ [id; recordFile]) record_limit body ∧ json_document body = Ok r;
  ld_valid : record_valid id r = true;
  ld_generation : if streq (pr_Hash r) "" then pr_CandidateHash r = ""
                  else pr_CandidateHash r ≠ "" ∧ has_generation T id (pr_Hash r) (pr_CandidateHash r)
}.

(** The generation that a selection file means, among the records. *)
Definition unnamed (a : activePointer) : Prop := ap_ProfileHash a = "" ∧ ap_CandidateHash a = "".
Definition meant (T : Fs) (r : privateRecord) (raw a : activePointer) : Prop :=
  let '(profileHash, candidateHash) := legacy_selection r in
  (¬ unnamed raw ∧ a = raw) ∨
  (unnamed raw ∧ has_generation T (ap_ID raw) profileHash candidateHash ∧ a = mkActive (ap_ID raw) profileHash candidateHash) ∨
  (unnamed raw ∧ ¬ has_generation T (ap_ID raw) profileHash candidateHash ∧ a = mkActive (ap_ID raw) (pr_Hash r) (pr_CandidateHash r)).
Definition resolved (T : Fs) (records : gmap string privateRecord) (raw a : activePointer) : Prop :=
  (ap_ID raw = "" ∧ unnamed raw ∧ a = raw) ∨
  (validID (ap_ID raw) = true ∧ ∃ r, records !! ap_ID raw = Some r ∧ meant T r raw a ∧
     has_generation T (ap_ID a) (ap_ProfileHash a) (ap_CandidateHash a)).
Definition selection (T : Fs) (records : gmap string privateRecord) (a : activePointer) : Prop :=
  (T !! (dir ++ [activeFile]) = None ∧ a = mkActive "" "" "") ∨
  (∃ body raw, holds T (dir ++ [activeFile]) record_limit body ∧ json_document body = Ok raw ∧ resolved T records raw a).

Record disk (T : Fs) (records : gmap string privateRecord) (a : activePointer) : Prop := {
  dk_made : made T dir;
  dk_listed : ∀ id, has_prefix id "." = false → T !! (dir ++ [id]) = Some EDir → is_Some (records !! id);
  dk_loaded : ∀ id r, records !! id = Some r → loaded T id r;
  dk_selection : selection T records a
}.
Definition opened (records : gmap string privateRecord) (a : activePointer) : Store :=
  mkStore (select records (ap_ID a) (ap_ProfileHash a) (ap_CandidateHash a)) (ap_ID a) (ap_ProfileHash a) (ap_CandidateHash a).

Section newstore.
Context (faulty : Prop) (fault_faulty : ∀ t k, faults t k ≠ Fine → faulty) {S : Type} (s0 : S) (T : Fs).
Local Abbreviation sees := (sees faulty dir s0 T).
Local Abbreviation is_tree := (is_tree (scratch dir)).

Lemma sees_load_record id : made T (dir ++ [id]) →
  sees (load_record dir id) (loaded T id) (λ _, faulty ∨ ∀ r, ¬ loaded T id r).
Proof.
  intros Hm. unfold load_record. eapply sees_bind.
  { apply sees_fail_when. intros Hb. right. intros r [Hv _ _ _ _]. by rewrite Hv in Hb. }
  intros [] Hid. apply negb_false_iff in Hid. pose proof (validID_visible _ Hid) as Hvis.
  eapply sees_bind.
  { eapply (sees_io _ _ _ _ _ _ (λ _, True) (λ _, faulty ∨ ∀ r, ¬ loaded T id r) (λ _, faulty)); [|by left].
    eapply hoare_weaken; [by apply (hoare_ensurePrivateDir faulty fault_faulty dir T)|done|done| |done]. by intros e fs [? ?]. }
  intros [] _. eapply sees_bind.
  { eapply (sees_io _ _ _ _ _ _ (holds T (dir ++ [id; recordFile]) record_limit)).
    - eapply hoare_readPrivateFile; [done|by apply file_not_scratch|done].
    - intros e [?|Hn]; [by left|]. right. intros r [_ _ (body & Hh & _) _ _]. by apply (Hn body). }
  intros body Hbody. eapply sees_bind.
  { apply sees_lift. intros e He. right. intros r [_ _ (body' & [Hb' _] & Hj) _ _]. destruct Hbody as [Hb _]. congruence. }
  intros r Hr. assert (∀ r', loaded T id r' → r' = r) as Hone.
  { intros r' [_ _ (body' & [Hb' _] & Hj) _ _]. destruct Hbody as [Hb _]. congruence. }
  eapply sees_bind.
  { apply sees_fail_when. intros Hb. right. intros r' Hl. rewrite <- (Hone r' Hl) in Hb. destruct Hl. by rewrite ld_valid0 in Hb. }
  intros [] Hv. apply negb_false_iff in Hv.
  eapply (sees_bind _ _ _ _ _ _ (λ _, if streq (pr_Hash r) "" then pr_CandidateHash r = ""
                  else pr_CandidateHash r ≠ "" ∧ has_generation T id (pr_Hash r) (pr_CandidateHash r))).
  - destruct (streq (pr_Hash r) "") eqn:Hh.
    + eapply sees_weaken; [apply (sees_fail_when _ _ _ _ _ _ (λ _, faulty ∨ ∀ r, ¬ loaded T id r))| |done].
      * intros Hb. right. intros r' Hl. rewrite (Hone r' Hl) in Hl. destruct Hl. rewrite Hh in ld_generation0. by rewrite ld_generation0 in Hb.
      * intros []. rewrite negb_false_iff. apply streq_true.
    + eapply sees_bind.
      { apply sees_fail_when. intros Hb%streq_true. right. intros r' Hl. rewrite (Hone r' Hl) in Hl. destruct Hl. rewrite Hh in ld_generation0. naive_solver. }
      intros [] Hc%streq_false. eapply sees_bind; [by apply (sees_verified faulty fault_faulty dir s0)|]. intros verified Hver. cbn beta in Hver.
      eapply sees_weaken; [apply (sees_fail_when _ _ _ _ _ _ (λ _, faulty ∨ ∀ r, ¬ loaded T id r))| |done].
      * intros Hb. apply negb_true_iff in Hb. rewrite Hb in Hver. destruct Hver as [?|Hver]; [by left|right].
        intros r' Hl. rewrite (Hone r' Hl) in Hl. destruct Hl. rewrite Hh in ld_generation0. by destruct ld_generation0.
      * intros [] Hb. apply negb_false_iff in Hb. by rewrite Hb in Hver.
  - intros [] Hg. apply sees_ret. destruct (made_self _ _ _ Hm) as [Hd _]. split; [done..| |done|done]. by exists body.
Qed.
(** *** All records *)
Definition all_loaded (don : list (string * bool)) (records : gmap string privateRecord) : Prop :=
  (∀ id r, records !! id = Some r → (id, true) ∈ don ∧ has_prefix id "." = false ∧ loaded T id r) ∧
  (∀ id, (id, true) ∈ don → has_prefix id "." = false → is_Some (records !! id)).

Lemma sees_load_entry don records name isDir :
  made T dir → (has_prefix name "." = false → isDir = true → T !! (dir ++ [name]) = Some EDir) → all_loaded don records →
  sees (load_entry dir records (name, isDir)) (all_loaded (don ++ [(name, isDir)]))
    (λ _, faulty ∨ (has_prefix name "." = false ∧ T !! (dir ++ [name]) = Some EDir ∧ ∀ r, ¬ loaded T name r)).
Proof.
  intros Hm Hd [Hin Hall]. unfold load_entry. destruct (negb isDir || has_prefix name ".") eqn:Hskip.
  - apply sees_ret. split.
    + intros id r Hr. destruct (Hin id r Hr) as (? & ? & ?). split_and!; [|done..]. apply elem_of_app. by left.
    + intros id [Hi|Hi%list_elem_of_singleton]%elem_of_app Hv; [by apply Hall|]. injection Hi as -> <-. by rewrite Hv in Hskip.
  - apply orb_false_iff in Hskip as [Hdir%negb_false_iff Hv]. subst isDir. specialize (Hd Hv eq_refl).
    eapply sees_bind.
    { eapply sees_weaken; [apply sees_load_record|done|].
      - apply made_below; [done..|by apply entry_not_scratch].
      - intros e [?|?]; auto. }
    intros r Hr. apply sees_ret. split.
    + intros id r' [[-> ->]|[Hne Hr']]%lookup_insert_Some; [split_and!; [|done..]; apply elem_of_app; right; by left|].
      destruct (Hin id r' Hr') as (? & ? & ?). split_and!; [|done..]. apply elem_of_app. by left.
    + intros id Hi Hvi. destruct (decide (id = name)) as [->|Hne]; [rewrite lookup_insert_eq; eauto|].
      rewrite lookup_insert_ne by done. apply Hall; [|done]. apply elem_of_app in Hi as [Hi|Hi%list_elem_of_singleton]; [done|].
      by injection Hi as ->.
Qed.

Definition records_listed (records : gmap string privateRecord) : Prop :=
  (∀ id, has_prefix id "." = false → T !! (dir ++ [id]) = Some EDir → is_Some (records !! id)) ∧
  (∀ id r, records !! id = Some r → loaded T id r).

Lemma sees_load_all entries : made T dir → listed (scratch dir) T dir entries →
  sees (op_each (load_entry dir) ∅ entries) records_listed (λ _, faulty ∨ ∀ records, ¬ records_listed records).
Proof.
  intros Hm Hl. assert (∀ name, has_prefix name "." = false → T !! (dir ++ [name]) = Some EDir ↔ (name, true) ∈ entries) as Hin.
  { intros name Hv. rewrite (Hl name true) by by apply entry_not_scratch. split.
    - intros He. rewrite He. by rewrite bool_decide_true.
    - intros [_ Hb]. symmetry in Hb. by apply bool_decide_eq_true in Hb. }
  unfold sees. eapply ends_weaken; [apply (ends_each faulty (load_entry dir) (λ don records s fs, all_loaded don records ∧ s = s0 ∧ is_tree T fs)
     (λ _ s fs, (faulty ∨ ∀ records, ¬ records_listed records) ∧ s = s0 ∧ is_tree T fs) (is_tree T) entries ∅)| | |done|done].
  - intros don [name isDir] rest records He. apply ends_pure. intros Hall.
    assert (has_prefix name "." = false → isDir = true → T !! (dir ++ [name]) = Some EDir) as Hd.
    { intros Hv ->. apply Hin; [done|]. rewrite He. apply elem_of_app. right. by left. }
    eapply sees_weaken; [by apply sees_load_entry|done|]. intros e [?|(Hv & Hdir & Hn)]; [by left|right].
    intros m [Hm1 Hm2]. destruct (Hm1 name Hv Hdir) as [r Hr]. by apply (Hn r), Hm2.
  - intros s fs [-> HT]. split; [|done]. split; [intros id r Hr; by rewrite lookup_empty in Hr|intros id Hi; by apply not_elem_of_nil in Hi].
  - intros records s fs [[Hl1 Hl2] ?]. split; [|done]. split.
    + intros id Hv He. apply Hl2; [by apply Hin|done].
    + intros id r Hr. by destruct (Hl1 id r Hr) as (? & ? & ?).
Qed.

(** *** The selection *)
(** A fault may hide a generation that an older selection names. *)
Definition selectable (records : gmap string privateRecord) (a : activePointer) : Prop :=
  (ap_ID a = "" ∧ unnamed a) ∨
  (is_Some (records !! ap_ID a) ∧ has_generation T (ap_ID a) (ap_ProfileHash a) (ap_CandidateHash a)).

Lemma sees_resolve_active records raw :
  sees (resolve_active dir records raw) (λ a, selectable records a ∧ (faulty ∨ resolved T records raw a))
    (λ _, faulty ∨ ∀ a, ¬ resolved T records raw a).
Proof.
  unfold resolve_active. destruct (streq (ap_ID raw) "") eqn:Hid.
  { apply streq_true in Hid. eapply sees_bind.
    - apply sees_fail_when. intros Hb. right. intros a [(_ & [Hp Hc] & _)|(Hv & _)]; [by rewrite Hp, Hc in Hb|by rewrite Hid in Hv].
    - intros [] Hb. apply orb_false_iff in Hb as [Hp%negb_false_iff%streq_true Hc%negb_false_iff%streq_true].
      apply sees_ret. split; [by left|]. right. by left. }
  apply streq_false in Hid. eapply sees_bind.
  { apply sees_fail_when. intros Hb. right. intros a [[? _]|(Hv & _)]; [done|by rewrite Hv in Hb]. }
  intros [] Hv. apply negb_false_iff in Hv. destruct (records !! ap_ID raw) as [r|] eqn:Hr;
    [|apply sees_raise; right; intros a [[? _]|(_ & r & ? & _)]; congruence].
  eapply (sees_bind _ _ _ _ _ _ (λ a, (faulty ∨ meant T r raw a) ∧ ap_ID a = ap_ID raw)).
  - unfold meant. destruct (streq (ap_ProfileHash raw) "" && streq (ap_CandidateHash raw) "") eqn:Hu.
    + apply andb_true_iff in Hu as [Hp%streq_true Hc%streq_true]. destruct (legacy_selection r) as [ph ch] eqn:Hleg.
      eapply sees_bind; [by apply (sees_verified faulty fault_faulty dir s0)|]. intros verified Hver. cbn beta in Hver. apply sees_ret.
      assert (unnamed raw) as Hun by done.
      destruct (is_ok verified); [|destruct Hver as [Hf|Hn]]; (split; [|done]);
        [right; right; left|by left|right; right; right]; by split_and!.
    + apply sees_ret. split; [|done]. right. destruct (legacy_selection r). left. split; [|done]. intros [Hp Hc]. by rewrite Hp, Hc in Hu.
  - intros a [Hmeant Ha]. eapply sees_bind; [apply (sees_verified faulty fault_faulty dir s0); by rewrite Ha|].
    intros verified Hver. cbn beta in Hver. eapply sees_bind.
    + apply sees_fail_when. intros Hb. apply negb_true_iff in Hb. rewrite Hb in Hver. destruct Hver as [?|Hn]; [by left|].
      destruct Hmeant as [?|Hmeant]; [by left|right]. intros a' [[? _]|(_ & r' & Hr' & Hmeant' & Hg)]; [done|].
      assert (r' = r) as -> by congruence. destruct Hn. assert (a = a') as ->; [|done]. unfold meant in *. destruct (legacy_selection r). naive_solver.
    + intros [] Hb. apply negb_false_iff in Hb. rewrite Hb in Hver. apply sees_ret. split; [right; split; [rewrite Ha; eauto|done]|].
      destruct Hmeant as [?|Hmeant]; [by left|right]. right. eauto.
Qed.

Lemma sees_load_active records :
  sees (load_active dir records) (λ a, selectable records a ∧ (faulty ∨ selection T records a))
    (λ _, faulty ∨ ∀ a, ¬ selection T records a).
Proof.
  unfold load_active. cbn zeta. pose proof (entry_not_scratch dir activeFile eq_refl) as Hns. eapply sees_bind.
  { eapply (sees_io _ _ _ _ _ _ (λ r, match r with Ok e => T !! (dir ++ [activeFile]) = Some e
        | Err e => (T !! (dir ++ [activeFile]) = None ∧ e = ENotExist) ∨ (faulty ∧ os_IsNotExist e = false) end) _ (λ _, False)); [|done].
    eapply hoare_weaken; [eapply (hoare_attempt _ _ _ _ _ (λ _ _, False)), (hoare_lstat faulty fault_faulty (scratch dir) T _ Hns)|done| |done|done].
    intros [e|e] fs; [done|]. by intros [? ?]. }
  intros [e|e] Hinfo; cbn beta iota in Hinfo.
  - assert (∀ a, selection T records a → ∃ body raw, holds T (dir ++ [activeFile]) record_limit body ∧ json_document body = Ok raw ∧ resolved T records raw a) as Hsel.
    { intros a [[? _]|?]; [congruence|done]. }
    eapply sees_bind.
    { eapply (sees_io _ _ _ _ _ _ (holds T (dir ++ [activeFile]) record_limit)).
      - by eapply hoare_readPrivateFile.
      - intros e' [?|Hn]; [by left|right]. intros a (body & raw & Hh & _)%Hsel. by apply (Hn body). }
    intros body [Hb Hlen]. assert (∀ a, selection T records a → ∃ raw, json_document body = Ok raw ∧ resolved T records raw a) as Hsel'.
    { intros a (body' & raw & [Hb' _] & Hj & Hres)%Hsel. assert (body' = body) as -> by congruence. eauto. }
    eapply sees_bind.
    { apply sees_lift. intros e' He'. right. intros a (raw & Hj & _)%Hsel'. congruence. }
    intros raw Hraw. eapply sees_weaken; [apply sees_resolve_active| |].
    + intros a [? [?|?]]; (split; [done|]); [by left|right]. right. exists body, raw. split_and!; [done..|by split|done|done].
    + intros e' [?|Hn]; [by left|right]. intros a (raw' & Hj & Hres)%Hsel'. assert (raw' = raw) as -> by congruence. by apply (Hn a).
  - destruct Hinfo as [[Hn ->]|[Hf He]]; cbn [os_IsNotExist].
    + apply sees_ret. split; [by left|]. right. by left.
    + rewrite He. apply sees_raise. by left.
Qed.
End newstore.

(** *** Quarantined directories *)
Lemma quarantine_scratch name q : has_prefix name deletePrefix = true → below (dir ++ [name]) q = true → scratch dir q.
Proof.
  intros Hn Hq. unfold below in Hq. apply bool_decide_eq_true in Hq. rewrite <- (take_drop (length (dir ++ [name])) q), Hq, <- app_assoc.
  apply hidden_scratch; [by apply (has_prefix_app name "." "delete-")|]. intros ->. by vm_compute in Hn.
Qed.

(** A tree opens in one way. *)
Lemma listed_unique T m m' : records_listed T m → records_listed T m' → m = m'.
Proof.
  intros [Hm1 Hm2] [Hr1 Hr2]. apply map_eq. intros id.
  assert (∀ r r', loaded T id r → loaded T id r' → r = r') as Huniq.
  { intros r r' [_ _ (b & [Hb _] & Hj) _ _] [_ _ (b' & [Hb' _] & Hj') _ _]. congruence. }
  destruct (m !! id) as [r|] eqn:E1, (m' !! id) as [r'|] eqn:E2; [f_equal; eauto|..|done].
  - destruct (Hm2 id r E1). destruct (Hr1 id) as [? ?]; [by apply validID_visible|done|congruence].
  - destruct (Hr2 id r' E2). destruct (Hm1 id) as [? ?]; [by apply validID_visible|done|congruence].
Qed.
Lemma disk_listed T m a : disk T m a → records_listed T m.
Proof. by intros []. Qed.

Section opening.
Context (faulty : Prop) (fault_faulty : ∀ t k, faults t k ≠ Fine → faulty).
Local Abbreviation is_tree := (is_tree (scratch dir)).

Lemma hoare_cleanupQuarantine T : T !! dir = Some EDir →
  FsHoare.hoare faulty (is_tree T) (cleanupQuarantine dir) (λ _, is_tree T) (λ _ fs, faulty ∧ is_tree T fs) (is_tree T).
Proof.
  intros Hd. unfold cleanupQuarantine. eapply (hoare_then _ _ _ _ (is_tree T)).
  { eapply hoare_weaken; [apply (hoare_read_dir faulty fault_faulty (scratch dir) T); [apply dir_not_scratch|done]|done|..|done].
    - by intros entries fs [? ?].
    - by intros e fs [? ?]. }
  intros entries. eapply (hoare_then _ _ _ _ (is_tree T)).
  - apply (hoare_for_each faulty _ (λ _ _, is_tree T)). intros don [name b] rest found _.
    destruct (has_prefix name deletePrefix) eqn:Hn; [|by apply hoare_ret].
    eapply (hoare_then _ _ _ _ (is_tree T)); [|intros []; by apply hoare_ret].
    apply (hoare_remove_all_scratch faulty fault_faulty). intros q. by apply quarantine_scratch.
  - intros [|]; [|by apply hoare_ret]. follow (hoare_sync faulty fault_faulty (is_tree T)).
Qed.

(** Opening: what a returned store is, and what an error means. *)
Lemma sees_NewStore {S : Type} (s0 : S) T : made T dir → dir ≠ [] →
  sees faulty dir s0 T (NewStore dir true)
    (λ st, ∃ records a, records_listed T records ∧ selectable T records a ∧ st = opened records a ∧ (faulty ∨ disk T records a))
    (λ _, faulty ∨ ∀ records a, ¬ disk T records a).
Proof.
  intros Hm Hne. destruct (made_self _ _ _ Hm) as [Hd _]. unfold NewStore. rewrite bool_decide_false by done. cbn [negb orb].
  eapply (sees_bind _ _ _ _ _ _ (λ _, True)); [by apply sees_ret|]. intros [] _.
  eapply (sees_bind _ _ _ _ _ _ (λ _, True)).
  { eapply (sees_io _ _ _ _ _ _ (λ _, True) _ (λ _, faulty)); [|by left].
    eapply hoare_weaken; [by apply (hoare_ensurePrivateDir faulty fault_faulty dir T)|done|done| |done]. by intros e fs [? ?]. }
  intros [] _. eapply (sees_bind _ _ _ _ _ _ (λ _, True)).
  { eapply (sees_io _ _ _ _ _ _ (λ _, True) _ (λ _, faulty)); [|by left].
    eapply hoare_weaken; [by apply hoare_cleanupQuarantine|done|done| |done]. by intros e fs [? ?]. }
  intros [] _. eapply (sees_bind _ _ _ _ _ _ (listed (scratch dir) T dir)).
  { eapply (sees_io _ _ _ _ _ _ _ _ (λ _, faulty)); [|by left].
    eapply hoare_weaken; [apply (hoare_read_dir faulty fault_faulty (scratch dir) T); [apply dir_not_scratch|done]|done..]. }
  intros entries Hl. eapply sees_bind.
  { eapply sees_weaken; [by apply (sees_load_all faulty fault_faulty s0)|done|]. intros e [?|Hn]; [by left|right].
    intros records a []. by apply (Hn records). }
  intros records Hrec. assert (∀ records' a, disk T records' a → records' = records) as Hone.
  { intros m a Hd'. by apply (listed_unique T); [apply (disk_listed T m a)|]. }
  eapply sees_bind.
  { eapply sees_weaken; [by apply (sees_load_active faulty fault_faulty s0)|done|]. intros e [?|Hn]; [by left|right].
    intros m a Hdisk. rewrite (Hone m a Hdisk) in Hdisk. destruct Hdisk. by apply (Hn a). }
  intros a [Hsel Ha]. apply sees_ret. exists records, a. split_and!; [done..|]. destruct Ha as [?|Ha]; [by left|right].
  destruct Hrec. by split.
Qed.
End opening.
End disk.
