(* ===== verification/SubscriptionKept.v ===== *)
(** * What a tree keeps for the store

    [kept] is [disk] with a selection that names its generation, and what the
    store leaves alone; it survives the store's single writes. *)
From Stdlib Require Import Ascii.
From S2P Require Import Prelude GoTime GoStrings GoNet GoSort GoJson GoFs ConfigTypes ResourceStore ConfigWrite SubscriptionModel SubscriptionFacts SubscriptionStore FsLogic FsHoare SubscriptionFiles SubscriptionOpen.
Open Scope Z_scope.

(** ** Names of generation files *)
Lemma bytes_app_inj_l a b c d : length (bytes_of a) = length (bytes_of b) → a +:+ c = b +:+ d → a = b ∧ c = d.
Proof.
  intros Hl E. apply (f_equal bytes_of) in E. rewrite !bytes_of_app in E. apply app_inj_1 in E as [E1 E2]; [|done].
  split; by apply bytes_of_inj.
Qed.
Lemma profileFilename_inj h k : profileFilename h = profileFilename k → h = k.
Proof.
  intros E. unfold profileFilename in E. apply (bytes_app_inj_l _ _ _ _ eq_refl) in E as [_ E].
  apply (f_equal bytes_of) in E. rewrite !bytes_of_app in E. apply app_inj_2 in E as [E _]; [|done]. by apply bytes_of_inj.
Qed.
Lemma candidateFilename_inj p c q d : length (bytes_of p) = length (bytes_of q) →
  candidateFilename p c = candidateFilename q d → p = q ∧ c = d.
Proof.
  intros Hl E. unfold candidateFilename in E. apply (bytes_app_inj_l _ _ _ _ eq_refl) in E as [_ E].
  apply bytes_app_inj_l in E as [-> E]; [|done]. split; [done|]. apply (bytes_app_inj_l _ _ _ _ eq_refl) in E as [_ E].
  apply (f_equal bytes_of) in E. rewrite !bytes_of_app in E. apply app_inj_2 in E as [E _]; [|done]. by apply bytes_of_inj.
Qed.
Lemma filenames_differ h p c : profileFilename h ≠ candidateFilename p c ∧ profileFilename h ≠ recordFile ∧ candidateFilename p c ≠ recordFile.
Proof. done. Qed.
Lemma digest_length `{GoHash} a b : length (bytes_of (digest a)) = length (bytes_of (digest b)).
Proof.
  destruct (digest_hex a) as [Ha _], (digest_hex b) as [Hb _]. rewrite slen_bytes in Ha, Hb. unfold len in *. lia.
Qed.

(** ** What the store's methods leave alone *)
(** The marker, and everything outside the directory. *)
Definition watched (dir : list string) (q : list string) : Prop := q = dir ++ [activationPendingFile] ∨ below dir q = false.
Record Frame (dir : list string) := mkFrame {
  fr_holds :> Fs → Prop;
  fr_local : ∀ T T', (∀ q, watched dir q → T' !! q = T !! q) → fr_holds T → fr_holds T'
}.
Arguments fr_holds {dir} f.
Arguments fr_local {dir} f.
Lemma watched_ne dir q rest : watched dir q → hd_error rest ≠ Some activationPendingFile ∨ length rest ≠ 1%nat → q ≠ dir ++ rest.
Proof.
  intros [-> |Hq] Hr E.
  - apply app_inv_head in E. subst rest. by destruct Hr.
  - subst q. by rewrite (proj2 (below_spec dir _)) in Hq by eauto.
Qed.

Section kept.
Context `{GoHash} `{GoNet} `{JsonCodec privateRecord} `{JsonCodec activePointer} (dir : list string) (mark : Frame dir).
Local Abbreviation made := (made (scratch dir)).
Local Abbreviation has_generation := (has_generation dir).

(** active.json as the store writes it. *)
Definition names_selection (T : Fs) (a : activePointer) : Prop :=
  (T !! (dir ++ [activeFile]) = None ∧ a = mkActive "" "" "") ∨
  (∃ body, holds T (dir ++ [activeFile]) record_limit body ∧ json_document body = Ok a).
Record kept (T : Fs) (records : gmap string privateRecord) (a : activePointer) : Prop := {
  kp_made : made T dir;
  kp_listed : ∀ id, has_prefix id "." = false → T !! (dir ++ [id]) = Some EDir → is_Some (records !! id);
  kp_loaded : ∀ id r, records !! id = Some r → loaded dir T id r;
  kp_file : names_selection T a;
  kp_mark : mark T;
  kp_applied : (ap_ID a = "" ∧ unnamed a) ∨
    (is_Some (records !! ap_ID a) ∧ has_generation T (ap_ID a) (ap_ProfileHash a) (ap_CandidateHash a))
}.

Lemma generation_named T id ph ch : has_generation T id ph ch → ph ≠ "" ∧ ch ≠ "".
Proof. intros (p & c & _ & [_ Hp%streq_false]%digest_optional & [_ Hc%streq_false]%digest_optional). done. Qed.

Lemma kept_disk T records a : kept T records a → disk dir T records a.
Proof.
  intros [Hm Hl Hr Hf Hk Ha]. split; [done..|]. destruct Hf as [?|(body & Hb & Hj)]; [by left|right].
  exists body, a. split_and!; [done..|]. destruct Ha as [[Hid Hun]|[[r Hrec] Hg]]; [left; done|right].
  split; [by destruct (Hr _ _ Hrec)|]. exists r. split_and!; [done| |done]. unfold meant. destruct (legacy_selection r). left.
  split; [|done]. intros [Hp _]. by apply generation_named in Hg as [? _].
Qed.

Lemma kept_unique T records a records' a' : kept T records a → disk dir T records' a' → records' = records ∧ a' = a.
Proof.
  intros Hk Hd. pose proof (kept_disk _ _ _ Hk) as Hd0. split; [by eapply (listed_unique dir T); eapply disk_listed|].
  destruct (dk_selection _ _ _ _ Hd) as [[Hn ->]|(b' & raw & [Hb' _] & Hj' & Hres)], (kp_file _ _ _ Hk) as [[Hn' ->]|(b & [Hb _] & Hj)];
    [done|congruence..|]. assert (raw = a) as -> by congruence. destruct Hres as [(_ & _ & ->)|(Hv & r & _ & Hm & _)]; [done|].
  unfold meant in Hm. destruct (legacy_selection r). destruct Hm as [[_ ->]|[[Hu _]|[Hu _]]]; [done|..];
    (destruct (kp_applied _ _ _ Hk) as [[E _]|[_ Hg]]; [by rewrite E in Hv|]; apply generation_named in Hg as [? _]; by destruct Hu).
Qed.

(** *** One more file of a generation *)
Lemma holds_insert_ne T path path' limit body e : path' ≠ path → holds T path limit body → holds (<[path' := e]> T) path limit body.
Proof. intros Hne [Hb Hl]. split; [|done]. by rewrite lookup_insert_ne. Qed.
Lemma holds_insert_eq T path limit body : len body ≤ limit → holds (<[path := EFile body]> T) path limit body.
Proof. split; [apply lookup_insert_eq|done]. Qed.

(** A path that [kept] only looks at as part of a generation. *)
Lemma kept_insert_file T records a id name body :
  kept T records a → has_prefix name "." = false → name ≠ recordFile →
  (∀ i ph ch, has_generation T i ph ch → has_generation (<[dir ++ [id; name] := EFile body]> T) i ph ch) →
  kept (<[dir ++ [id; name] := EFile body]> T) records a.
Proof.
  intros [Hm Hl Hr Hf Hk Ha] Hv Hne Hgen. assert (∀ i e, dir ++ [id; name] ≠ dir ++ [i] ∧ (dir ++ [id; name] = dir ++ [i; e] → name = e)) as Hpath.
  { intros i e. split; [intros E%app_dir_inj; done|intros E%app_dir_inj]. by simplify_eq. }
  split.
  - intros q Hq. destruct (Hm q Hq) as [HT Hs]. split; [|done]. rewrite lookup_insert_ne; [done|]. symmetry. by apply prefix_ne.
  - intros i Hi. rewrite lookup_insert_ne; [by apply Hl|]. by apply (Hpath i name).
  - intros i r Hi. destruct (Hr i r Hi) as [Hid Hd (b & Hh & Hj) Hval Hg]. split; [done| | |done|].
    + rewrite lookup_insert_ne; [done|]. by apply (Hpath i name).
    + exists b. split; [|done]. apply holds_insert_ne; [|done]. intros E. by apply Hne, (Hpath i recordFile).
    + destruct (streq (pr_Hash r) ""); [done|]. destruct Hg as [? Hg]. split; [done|]. by apply Hgen.
  - destruct Hf as [[Hn ->]|(b & Hh & Hj)]; [left|right; exists b].
    + split; [|done]. rewrite lookup_insert_ne; [done|]. by apply (Hpath activeFile name).
    + split; [|done]. apply holds_insert_ne; [|done]. by apply (Hpath activeFile name).
  - eapply fr_local; [|done]. intros q Hq. rewrite lookup_insert_ne; [done|]. apply not_eq_sym, watched_ne; [done|by right].
  - destruct Ha as [?|[? ?]]; [by left|right]. split; [done|]. by apply Hgen.
Qed.
Lemma file_path_inj id name id' name' : dir ++ [id; name] = dir ++ [id'; name'] → id = id' ∧ name = name'.
Proof. intros E%app_dir_inj. by simplify_eq. Qed.

Lemma generation_insert_profile T id p i ph ch : len p ≤ maxProfileBytes →
  has_generation T i ph ch → has_generation (<[dir ++ [id; profileFilename (digest p)] := EFile p]> T) i ph ch.
Proof.
  intros Hlen (q & c & [Hq Hc] & Hdq & Hdc).
  assert (holds (<[dir ++ [id; profileFilename (digest p)] := EFile p]> T) (dir ++ [i; candidateFilename ph ch]) maxCandidateBytes c) as Hc'.
  { apply holds_insert_ne; [|done]. intros [_ E]%file_path_inj. by apply (filenames_differ (digest p) ph ch). }
  destruct (decide (i = id ∧ ph = digest p)) as [[-> ->]|Hne].
  - exists p, c. split_and!; [split; [by apply holds_insert_eq|done]|done..].
  - exists q, c. split_and!; [split; [|done]|done..]. apply holds_insert_ne; [|done]. intros [-> E%profileFilename_inj]%file_path_inj. by destruct Hne.
Qed.
Lemma generation_insert_candidate T id p c i ph ch : len c ≤ maxCandidateBytes →
  has_generation T i ph ch → has_generation (<[dir ++ [id; candidateFilename (digest p) (digest c)] := EFile c]> T) i ph ch.
Proof.
  intros Hlen (q & d & [Hq Hd] & Hdq & Hdd).
  assert (holds (<[dir ++ [id; candidateFilename (digest p) (digest c)] := EFile c]> T) (dir ++ [i; profileFilename ph]) maxProfileBytes q) as Hq'.
  { apply holds_insert_ne; [|done]. intros [_ E]%file_path_inj. by apply (filenames_differ ph (digest p) (digest c)). }
  destruct (decide (i = id ∧ ph = digest p ∧ ch = digest c)) as [(-> & -> & ->)|Hne].
  - exists q, c. split_and!; [split; [done|by apply holds_insert_eq]|done..].
  - exists q, d. split_and!; [split; [done|]|done..]. apply holds_insert_ne; [|done].
    intros [-> E]%file_path_inj. apply candidateFilename_inj in E as [<- <-]; [by destruct Hne|]. rewrite <- Hdq. apply digest_length.
Qed.
Lemma new_generation T id p c : len p ≤ maxProfileBytes → len c ≤ maxCandidateBytes →
  has_generation (<[dir ++ [id; candidateFilename (digest p) (digest c)] := EFile c]>
    (<[dir ++ [id; profileFilename (digest p)] := EFile p]> T)) id (digest p) (digest c).
Proof.
  intros Hp Hc. exists p, c. split_and!; [split|done..]; [|by apply holds_insert_eq].
  apply holds_insert_ne; [|by apply holds_insert_eq]. intros [_ E]%file_path_inj. by apply (filenames_differ (digest p) (digest p) (digest c)).
Qed.

(** *** A new record *)
Definition record_body (r : privateRecord) (body : list ascii) : Prop := json_document body = Ok r ∧ len body ≤ record_limit.
Definition storable_record (T : Fs) (id : string) (r : privateRecord) : Prop :=
  record_valid id r = true ∧
  (if streq (pr_Hash r) "" then pr_CandidateHash r = "" else pr_CandidateHash r ≠ "" ∧ has_generation T id (pr_Hash r) (pr_CandidateHash r)).

Lemma generation_insert_record T id body i ph ch :
  has_generation T i ph ch → has_generation (<[dir ++ [id; recordFile] := EFile body]> T) i ph ch.
Proof.
  intros (p & c & [Hp Hc] & Hd). exists p, c. split; [|done]. split; (apply holds_insert_ne; [|done]); by intros [_ E]%file_path_inj.
Qed.
Lemma kept_insert_record T records a id r body :
  kept T records a → is_Some (records !! id) → storable_record T id r → record_body r body →
  kept (<[dir ++ [id; recordFile] := EFile body]> T) (<[id := r]> records) a.
Proof.
  intros [Hm Hl Hr Hf Hk Ha] [r0 Hid] [Hval Hgen] [Hj Hlen].
  assert (∀ i : string, dir ++ [id; recordFile] ≠ dir ++ [i]) as Hpath by (intros i E%app_dir_inj; done).
  split.
  - intros q Hq. destruct (Hm q Hq) as [HT Hs]. split; [|done]. rewrite lookup_insert_ne; [done|]. symmetry. by apply prefix_ne.
  - intros i Hi. rewrite lookup_insert_ne by done. intros He. destruct (decide (i = id)) as [->|Hne]; [rewrite lookup_insert_eq; eauto|].
    rewrite lookup_insert_ne by done. by apply Hl.
  - intros i r' [[<- <-]|[Hne Hi]]%lookup_insert_Some.
    + destruct (Hr id r0 Hid) as [Hv Hd _ _ _]. split; [done|by rewrite lookup_insert_ne|exists body; split; [by apply holds_insert_eq|done]|done|].
      destruct (streq (pr_Hash r) ""); [done|]. destruct Hgen as [? Hg]. split; [done|]. by apply generation_insert_record.
    + destruct (Hr i r' Hi) as [Hv Hd (b & Hh & Hjb) Hvalr Hg]. split; [done|by rewrite lookup_insert_ne| |done|].
      * exists b. split; [|done]. apply holds_insert_ne; [|done]. by intros [-> _]%file_path_inj.
      * destruct (streq (pr_Hash r') ""); [done|]. destruct Hg as [? Hg]. split; [done|]. by apply generation_insert_record.
  - destruct Hf as [[Hn ->]|(b & Hh & Hjb)]; [left; split; [by rewrite lookup_insert_ne|done]|right; exists b; split; [by apply holds_insert_ne|done]].
  - eapply fr_local; [|done]. intros q Hq. rewrite lookup_insert_ne; [done|]. apply not_eq_sym, watched_ne; [done|by right].
  - destruct Ha as [?|[Hsome Hg]]; [by left|right]. split; [|by apply generation_insert_record].
    destruct (decide (ap_ID a = id)) as [->|Hne]; [rewrite lookup_insert_eq; eauto|]. by rewrite lookup_insert_ne.
Qed.
End kept.
