(* ===== verification/SubscriptionSync.v ===== *)
(** * The store in memory and on disk

    Every method of the store keeps them [synced]: an error leaves both as they
    were, and a crash leaves the old or the new state on disk. *)
From Stdlib Require Import Ascii.
From S2P Require Import Prelude GoTime GoStrings GoNet GoSort GoJson GoFs ConfigTypes ResourceStore ConfigWrite SubscriptionModel SubscriptionFacts SubscriptionStore FsLogic FsHoare SubscriptionFiles SubscriptionOpen SubscriptionKept.
Open Scope Z_scope.

(** What of a record is never ahead in memory. *)
Definition same_core (r d : privateRecord) : Prop :=
  pr_Subscription r = pr_Subscription d ∧ pr_Hash r = pr_Hash d ∧ pr_CandidateHash r = pr_CandidateHash d ∧
  pr_DownloadedOnly r = pr_DownloadedOnly d.
Definition applied_of (a : activePointer) (id : string) : string * string :=
  if streq id (ap_ID a) then (ap_ProfileHash a, ap_CandidateHash a) else ("", "").
Definition agree (a : activePointer) (id : string) (r d : privateRecord) : Prop :=
  same_core r d ∧ validFailure (pr_LastFailure r) = true ∧
  (pr_AppliedProfileHash r, pr_AppliedCandidateHash r) = applied_of a id.

Section sync.
Context `{GoOs} `{GoHash} `{GoNet} `{JsonCodec privateRecord} `{JsonCodec activePointer} `{JsonCodec pendingActivation}.
Context (dir : list string) (mark : Frame dir).
Local Abbreviation is_tree := (is_tree (scratch dir)).
Local Abbreviation kept := (kept dir mark).
Local Abbreviation has_generation := (has_generation dir).

Record synced (T : Fs) (records : gmap string privateRecord) (a : activePointer) (s : Store) : Prop := {
  sy_kept : kept T records a;
  sy_active : (so_activeID s, so_activeProfileHash s, so_activeCandidateHash s) = (ap_ID a, ap_ProfileHash a, ap_CandidateHash a);
  sy_records : ∀ id, option_Forall2 (agree a id) (so_records s !! id) (records !! id)
}.
(** Around a method, with the tree left open. *)
Definition in_sync (records : gmap string privateRecord) (a : activePointer) (s : Store) (fs : Fs) : Prop :=
  ∃ T, is_tree T fs ∧ synced T records a s.
Definition on_disk (records : gmap string privateRecord) (a : activePointer) (fs : Fs) : Prop :=
  ∃ T, is_tree T fs ∧ kept T records a.

Lemma synced_record T records a s id r : synced T records a s → so_records s !! id = Some r →
  ∃ d, records !! id = Some d ∧ agree a id r d ∧ loaded dir T id d.
Proof.
  intros [Hk _ Hr] Hid. specialize (Hr id). rewrite Hid in Hr. apply option_Forall2_Some in Hr as (d & Hd & Ha) || (inversion Hr as [? d Ha E1 E2|]; subst).
  all: exists d; split_and!; [done|done|]; by apply (kp_loaded _ _ _ _ _ Hk).
Qed.

(** A store just opened is in sync. *)
Lemma opened_synced T records a : kept T records a → synced T records a (opened records a).
Proof.
  intros Hk. split; [done|done|]. intros id. cbn. unfold select. rewrite map_lookup_imap.
  destruct (records !! id) as [d|] eqn:Hd; cbn; [|constructor]. constructor.
  destruct (kp_loaded _ _ _ _ _ Hk id d Hd) as [_ _ _ Hval _]. unfold record_valid in Hval. go_bool.
  unfold agree, same_core, applied_of. by destruct (streq id (ap_ID a)).
Qed.

(** ** Writing a record *)
(** The record fits the limit that reading has, and survives its encoding. *)
Definition fits (r : privateRecord) : Prop :=
  ∀ body, json_marshal (durable r) = Ok body → len body ≤ record_limit ∧ json_plain (durable r) = true.

Section writing.
Context (faulty : Prop) (fault_faulty : ∀ t k, faults t k ≠ Fine → faulty).
Local Abbreviation hoare := (hoare faulty).

Lemma record_dir_made T id : FsHoare.made (scratch dir) T dir → has_prefix id "." = false → T !! (dir ++ [id]) = Some EDir →
  FsHoare.made (scratch dir) T (dir ++ [id]).
Proof. intros Hm Hv Hd. apply made_below; [done..|by apply entry_not_scratch]. Qed.
Lemma record_writable T id name : FsHoare.made (scratch dir) T dir → has_prefix id "." = false → T !! (dir ++ [id]) = Some EDir →
  has_prefix name "." = false → writable (scratch dir) T (dir ++ [id; name]).
Proof.
  intros Hm Hv Hd Hn. change [id; name] with ([id] ++ [name]) in *. rewrite app_assoc in *.
  destruct (dir_of_snoc (dir ++ [id]) name) as [Hdir Hbase]. split.
  - rewrite Hdir. by apply record_dir_made.
  - rewrite <- app_assoc. by apply file_not_scratch.
  - rewrite Hdir, Hbase. intros p. apply temp_in_record.
Qed.

Lemma hoare_writeRecord T id r :
  FsHoare.made (scratch dir) T dir → validID id = true → T !! (dir ++ [id]) = Some EDir → fits r →
  hoare (is_tree T) (writeRecord (dir ++ [id]) r)
    (λ _ fs, ∃ body, record_body (durable r) body ∧ is_tree (<[dir ++ [id; recordFile] := EFile body]> T) fs)
    (λ _ fs, is_tree T fs)
    (λ fs, is_tree T fs ∨ ∃ body, record_body (durable r) body ∧ is_tree (<[dir ++ [id; recordFile] := EFile body]> T) fs).
Proof.
  intros Hm Hid%validID_visible Hd Hfit. unfold writeRecord.
  eapply (hoare_bind _ _ _ _ (λ body fs, json_marshal (durable r) = Ok body ∧ is_tree T fs)).
  { apply hoare_lift; [by intros; split|done]. }
  intros body. apply hoare_pure. intros Hbody. destruct (Hfit body Hbody) as [Hlen Hplain].
  destruct (json_round_trip (durable r) body Hplain Hbody) as (rest & Hdec & Hnext).
  assert (record_body (durable r) body) as Hrb by (split; [unfold json_document; by rewrite Hdec, Hnext|done]).
  eapply (hoare_then _ _ _ _ (is_tree T)).
  { eapply hoare_weaken; [apply (hoare_ensurePrivateDir faulty fault_faulty dir T), record_dir_made; done|done|done| |by left]. by intros e fs [? ?]. }
  intros []. rewrite <- app_assoc. eapply hoare_weaken; [apply (hoare_Write faulty fault_faulty (scratch dir) T), record_writable; done|done| | |].
  - intros [] fs HT. eauto.
  - by intros e fs [? ?].
  - intros fs [?|?]; eauto.
Qed.

(** ** The store's records *)
Lemma ends_the_record (G : Fs → Prop) s id :
  ends faulty (λ s' fs, s' = s ∧ G fs) (the_record id) (λ r s' fs, so_records s !! id = Some r ∧ s' = s ∧ G fs)
    (λ e s' fs, e = ErrNotFound ∧ so_records s !! id = None ∧ s' = s ∧ G fs) G.
Proof.
  unfold the_record. eapply ends_bind; [apply (ends_get _ _ (λ s0 s' fs, s0 = s ∧ s' = s ∧ G fs)); by intros ? ? [-> ?]|].
  intros s0. apply ends_pure. intros ->. destruct (so_records s !! id); [by apply ends_ret|by apply ends_raise].
Qed.
Lemma ends_save (P : Store → Fs → Prop) s id r (Q : Store → Fs → Prop) (R : sub_error → Store → Fs → Prop) (X : Fs → Prop) :
  (∀ s' fs, P s' fs → s' = s ∧ Q (put_record s id r) fs) → ends faulty P (save id r) (λ _, Q) R X.
Proof. intros HQ s' w Hw. by destruct (HQ _ _ Hw) as [-> ?]. Qed.
Lemma ends_writes {A : Type} (P : Store → Fs → Prop) (s : Store) f (m : IO A) (G : Fs → Prop) (Q : A → Fs → Prop) (F X : Fs → Prop)
    (R : sub_error → Store → Fs → Prop) :
  hoare G m Q (λ _, F) X → (∀ s' fs, P s' fs → s' = s ∧ G fs) → (∀ e fs, F fs → R (f e) s fs) →
  ends faulty P (io_as f m) (λ a s' fs, s' = s ∧ Q a fs) R X.
Proof.
  intros Hm HP HR. eapply (ends_io _ _ _ _ _ (λ s' e fs, s' = s ∧ F fs)).
  - intros s' w Hw. destruct (HP _ _ Hw) as [-> HG]. specialize (Hm w HG). destruct (m w) as [[a|e|] w']; [done..|done].
  - intros e s' fs [-> HF]. by apply HR.
Qed.
Lemma ends_succeeds {A : Type} (P : Store → Fs → Prop) (s : Store) (m : IO A) (G : Fs → Prop) (Q F X : Fs → Prop) R :
  hoare G m (λ _, Q) (λ _, F) X → (∀ s' fs, P s' fs → s' = s ∧ G fs) →
  ends faulty P (succeeds m) (λ (b : bool) s' fs, s' = s ∧ if b then Q fs else F fs) R X.
Proof.
  intros Hm HP. unfold succeeds.
  eapply (ends_bind _ _ _ _ (λ r s' fs, s' = s ∧ if is_ok r then Q fs else F fs)); [|by intros [a|e]; apply ends_ret].
  eapply (ends_writes _ _ _ _ _ (λ r fs, if is_ok r then Q fs else F fs) (λ _, False)); [|exact HP|done].
  eapply hoare_weaken; [eapply (hoare_attempt _ _ _ _ _ (λ _ _, False)), Hm|done| |done|done]. by intros [a|e] fs.
Qed.

(** The record that memory and disk get together. *)
Lemma storable_update T records a s id r r' :
  synced T records a s → so_records s !! id = Some r → same_core r' r → validFailure (pr_LastFailure r') = true →
  storable_record dir T id (durable r').
Proof.
  intros Hs Hid (HS & Hh & Hc & Ho) Hf. destruct (synced_record _ _ _ _ _ _ Hs Hid) as (d & Hd & [(HS' & Hh' & Hc' & Ho') _] & [Hv _ _ Hval Hg]).
  unfold storable_record, record_valid, durable, with_applied in *. cbn. rewrite HS, Hh, Hc, Ho, HS', Hh', Hc', Ho'. split; [|done].
  repeat (apply andb_true_iff in Hval as [Hval ?]). rewrite Hf. by repeat (apply andb_true_iff; split).
Qed.
Lemma synced_put T T' records a s id r' d : synced T records a s → kept T' (<[id := d]> records) a → agree a id r' d →
  synced T' (<[id := d]> records) a (put_record s id r').
Proof.
  intros [_ Ha Hr] Hk Hag. split; [done|done|]. intros i. cbn. destruct (decide (i = id)) as [->|Hne].
  - rewrite !lookup_insert_eq. by constructor.
  - rewrite !lookup_insert_ne by done. apply Hr.
Qed.
Lemma agree_durable a id r : validFailure (pr_LastFailure r) = true → (pr_AppliedProfileHash r, pr_AppliedCandidateHash r) = applied_of a id → agree a id r (durable r).
Proof. done. Qed.

(** Persisting a record that keeps the subscription's generation. *)
Lemma hoare_write_update T records a s id r r' :
  synced T records a s → so_records s !! id = Some r → storable_record dir T id (durable r') → fits r' →
  hoare (is_tree T) (writeRecord (dir ++ [id]) r') (λ _, on_disk (<[id := durable r']> records) a) (λ _, is_tree T)
    (λ fs, on_disk records a fs ∨ on_disk (<[id := durable r']> records) a fs).
Proof.
  intros Hs Hid Hst Hfit. destruct (synced_record _ _ _ _ _ _ Hs Hid) as (d & Hd & _ & Hl).
  pose proof Hs as [Hk _ _]. destruct Hl as [Hv Hdir (b & [Hb _] & _) _ _].
  assert (∀ fs body, record_body (durable r') body → is_tree (<[dir ++ [id; recordFile] := EFile body]> T) fs → on_disk (<[id := durable r']> records) a fs) as Hnew.
  { intros fs body Hbody HT. exists (<[dir ++ [id; recordFile] := EFile body]> T). split; [done|]. by eapply kept_insert_record. }
  eapply hoare_weaken; [apply (hoare_writeRecord T id r'); try done; by apply kp_made in Hk|done| |done|].
  - intros [] fs (body & ? & ?). by eapply Hnew.
  - intros fs [HT|(body & ? & ?)]; [left; by exists T|right; by eapply Hnew].
Qed.
(** ** Methods that persist one record *)
Local Abbreviation at_start s T := (λ s' fs, s' = s ∧ is_tree T fs) (only parsing).
Local Abbreviation unchanged s T := (λ (_ : sub_error) s' fs, s' = s ∧ is_tree T fs) (only parsing).
(** On disk as before or with the new record. *)
Local Abbreviation old_or_new records a id r := (λ fs, on_disk records a fs ∨ on_disk (<[id := durable r]> records) a fs) (only parsing).

(** [r'] may take [r]'s place: its generation is there and its selection is the same. *)
Record successor (T : Fs) (id : string) (r r' : privateRecord) : Prop := {
  su_storable : storable_record dir T id (durable r');
  su_fits : fits r';
  su_failure : validFailure (pr_LastFailure r') = true;
  su_applied : (pr_AppliedProfileHash r', pr_AppliedCandidateHash r') = (pr_AppliedProfileHash r, pr_AppliedCandidateHash r)
}.
Lemma synced_agree T records a s id r r' : synced T records a s → so_records s !! id = Some r → successor T id r r' → agree a id r' (durable r').
Proof. intros Hs Hid []. destruct (synced_record _ _ _ _ _ _ Hs Hid) as (d & _ & (_ & _ & Hd) & _). apply agree_durable; [done|congruence]. Qed.
Lemma start_on_disk T records a s fs : synced T records a s → is_tree T fs → on_disk records a fs.
Proof. intros [Hk _ _] HT. by exists T. Qed.

Lemma ends_written T records a s id r r' : synced T records a s → so_records s !! id = Some r → successor T id r r' →
  ends faulty (at_start s T) (store_io (writeRecord (directory_of dir id) r'))
    (λ _ s' fs, s' = s ∧ on_disk (<[id := durable r']> records) a fs) (unchanged s T) (old_or_new records a id r').
Proof.
  intros Hs Hid []. eapply (ends_writes _ s _ _ (is_tree T)); [by eapply hoare_write_update|done|done].
Qed.
Lemma ends_saved T records a s id r r' R X : synced T records a s → so_records s !! id = Some r → successor T id r r' →
  ends faulty (λ s' fs, s' = s ∧ on_disk (<[id := durable r']> records) a fs) (save id r')
    (λ _ s' fs, s' = put_record s id r' ∧ in_sync (<[id := durable r']> records) a s' fs) R X.
Proof.
  intros Hs Hid Hsu. apply ends_save with (s := s). intros s' fs [-> (T' & HT & Hk)]. split; [done|]. split; [done|].
  exists T'. split; [done|]. eapply synced_put; [done|done|]. by eapply synced_agree.
Qed.
(** Methods start by finding their record. *)
Lemma ends_found {A : Type} T records a s id r (k : privateRecord → Op sub_error Store A) Q R (X : Fs → Prop) :
  synced T records a s → so_records s !! id = Some r → (∀ fs, is_tree T fs → X fs) →
  ends faulty (at_start s T) (k r) Q R X → ends faulty (at_start s T) (the_record id ≫= k) Q R X.
Proof.
  intros Hs Hid HX Hk. eapply ends_bind.
  - eapply ends_weaken; [apply (ends_the_record (is_tree T) s id)|done|done| |done].
    intros e s' fs (_ & Hn & _). congruence.
  - intros r1. apply ends_pure. intros Hr1. by assert (r1 = r) as -> by congruence.
Qed.

Lemma ends_replace T records a s r r0 :
  let id := sb_ID (pr_Subscription r) in
  synced T records a s → so_records s !! id = Some r0 → successor T id r0 r →
  ends faulty (at_start s T) (replace dir r)
    (λ _ s' fs, s' = put_record s id r ∧ in_sync (<[id := durable r]> records) a s' fs) (unchanged s T) (old_or_new records a id r).
Proof.
  intros id Hs Hid Hsu. unfold replace. fold id. eapply ends_found; [done..|intros fs HT; left; by eapply start_on_disk|].
  eapply ends_bind; [by eapply ends_written|]. intros []. by eapply ends_saved.
Qed.

Lemma ends_touchSuccess T records a s id r checkedAt etag lastModified usage :
  let r' := checked_ok r checkedAt etag lastModified usage in
  synced T records a s → so_records s !! id = Some r → fits r' →
  ends faulty (at_start s T) (touchSuccess dir id checkedAt etag lastModified usage)
    (λ recovered s' fs, recovered = negb (streq (pr_LastFailure r) "") ∧ s' = put_record s id r' ∧
       in_sync (if recovered then <[id := durable r']> records else records) a s' fs)
    (unchanged s T) (old_or_new records a id r').
Proof.
  intros r' Hs Hid Hfit. unfold touchSuccess. assert (successor T id r r') as Hsu.
  { split; [eapply storable_update; [done..|by split_and!|done]|done..]. }
  eapply ends_found; [done..|intros fs HT; left; by eapply start_on_disk|]. cbn zeta. fold r'.
  destruct (negb (streq (pr_LastFailure r) "")).
  - eapply ends_bind; [by eapply ends_written|]. intros []. eapply ends_bind; [by eapply ends_saved|]. intros []. by apply ends_ret.
  - eapply ends_bind; [by apply (ends_ret _ tt _ (λ _, at_start s T))|]. intros [].
    eapply (ends_bind _ _ _ _ (λ _ s' fs, s' = put_record s id r' ∧ in_sync records a s' fs)); [|intros []; by apply ends_ret].
    apply ends_save with (s := s). intros s' fs [-> HT]. split; [done|]. split; [done|]. exists T. split; [done|].
    destruct (synced_record _ _ _ _ _ _ Hs Hid) as (d & Hd & (Hcore & _ & Hap) & _).
    rewrite <- (insert_id records id d) by done. eapply synced_put; [done|rewrite insert_id by done; by destruct Hs|].
    split_and!; [exact Hcore|done|exact Hap].
Qed.

Lemma ends_touchFailure T records a s id r checkedAt failure :
  let r' := checked_failed r checkedAt failure in
  synced T records a s → so_records s !! id = Some r → fits r' → validFailure failure = true → failure ≠ "" →
  ends faulty (at_start s T) (touchFailure dir id checkedAt failure)
    (λ persisted s' fs, s' = put_record s id r' ∧
       in_sync (if persisted : bool then <[id := durable r']> records else records) a s' fs)
    (λ _ _ _, False) (old_or_new records a id r').
Proof.
  intros r' Hs Hid Hfit Hf Hne. unfold touchFailure. rewrite Hf, (proj2 (streq_false _ _) Hne). cbn [negb orb].
  assert (successor T id r r') as Hsu by (split; [eapply storable_update; [done..|by split_and!|done]|done..]).
  destruct (synced_record _ _ _ _ _ _ Hs Hid) as (d & Hd & (Hcore & _ & Hap) & _).
  eapply ends_bind; [apply (ends_get _ _ (λ s0 s' fs, s0 = s ∧ at_start s T s' fs)); by intros ? ? [-> ?]|].
  intros s0. apply ends_pure. intros ->. rewrite Hid. cbn zeta. fold r'.
  eapply ends_bind.
  { eapply (ends_succeeds _ s _ (is_tree T) (on_disk (<[id := durable r']> records) a) (is_tree T)); [|done]. destruct Hsu. by eapply hoare_write_update. }
  intros persisted. eapply (ends_bind _ _ _ _ (λ _ s' fs, s' = put_record s id r' ∧ in_sync (if persisted then _ else records) a s' fs)); [|intros []; by apply ends_ret].
  apply ends_save with (s := s). intros s' fs [-> HT]. split; [done|]. split; [done|]. destruct persisted.
  - destruct HT as (T' & HT & Hk). exists T'. split; [done|]. eapply synced_put; [done|done|]. by eapply synced_agree.
  - exists T. split; [done|]. rewrite <- (insert_id records id d) by done. eapply synced_put; [done|rewrite insert_id by done; by destruct Hs|].
    split_and!; [exact Hcore|done|exact Hap].
Qed.

(** ** Promotion *)
Lemma hoare_promote_files T records a s id r r' profile candidate :
  synced T records a s → so_records s !! id = Some r → len profile ≤ maxProfileBytes → len candidate ≤ maxCandidateBytes →
  pr_Hash r' = digest profile → pr_CandidateHash r' = digest candidate → record_valid id (durable r') = true → fits r' →
  hoare (is_tree T) (promote_files dir id r' profile candidate) (λ _, on_disk (<[id := durable r']> records) a)
    (λ _, on_disk records a) (old_or_new records a id r').
Proof.
  intros Hs Hid Hp Hc Hh Hch Hval Hfit. destruct (synced_record _ _ _ _ _ _ Hs Hid) as (d & Hd & _ & Hl).
  pose proof Hs as [Hk _ _]. pose proof (ld_id _ _ _ _ Hl) as Hv. pose proof (validID_visible _ Hv) as Hvis.
  unfold promote_files. cbn zeta. unfold directory_of. rewrite <- !app_assoc. cbn [app].
  set (T1 := <[dir ++ [id; profileFilename (digest profile)] := EFile profile]> T).
  set (T2 := <[dir ++ [id; candidateFilename (digest profile) (digest candidate)] := EFile candidate]> T1).
  assert (kept T1 records a) as Hk1 by (apply kept_insert_file; [done..|]; intros i ph ch; by apply generation_insert_profile).
  assert (kept T2 records a) as Hk2 by (apply kept_insert_file; [done..|]; intros i ph ch; by apply generation_insert_candidate).
  assert (∀ T', kept T' records a → T' !! (dir ++ [id]) = Some EDir ∧ FsHoare.made (scratch dir) T' dir) as Hdirs.
  { intros T' Hk'. split; [by destruct (kp_loaded _ _ _ _ _ Hk' id d Hd)|by destruct Hk']. }
  assert (∀ T' fs, kept T' records a → is_tree T' fs → on_disk records a fs) as Hold by (intros T' fs ? ?; by exists T').
  destruct (Hdirs T Hk) as [Hd0 Hm0], (Hdirs T1 Hk1) as [Hd1 Hm1], (Hdirs T2 Hk2) as [Hd2 Hm2].
  eapply (hoare_then _ _ _ _ (is_tree T)).
  { eapply hoare_weaken; [apply (hoare_ensurePrivateDir faulty fault_faulty dir T), record_dir_made; done|done|done|..]; [intros e fs [_ HT]|intros fs HT; left]; by apply (Hold T). }
  intros []. eapply (hoare_then _ _ _ _ (is_tree T1)).
  { eapply hoare_weaken; [by apply (hoare_Write faulty fault_faulty (scratch dir) T), record_writable|done|done|..];
      [intros e fs [_ HT]; by apply (Hold T)|intros fs [HT|HT]; left; [by apply (Hold T)|by apply (Hold T1)]]. }
  intros []. eapply (hoare_then _ _ _ _ (is_tree T2)).
  { eapply hoare_weaken; [by apply (hoare_Write faulty fault_faulty (scratch dir) T1), record_writable|done|done|..];
      [intros e fs [_ HT]; by apply (Hold T1)|intros fs [HT|HT]; left; [by apply (Hold T1)|by apply (Hold T2)]]. }
  intros []. destruct (ld_file _ _ _ _ (kp_loaded _ _ _ _ _ Hk2 id d Hd)) as (b & [Hb _] & _).
  assert (storable_record dir T2 id (durable r')) as Hst.
  { split; [done|]. change (pr_Hash (durable r')) with (pr_Hash r'). change (pr_CandidateHash (durable r')) with (pr_CandidateHash r').
    rewrite Hh, Hch. pose proof (new_generation dir T id profile candidate Hp Hc) as Hg. fold T1 T2 in Hg.
    destruct (generation_named _ _ _ _ _ Hg) as [Hn ?]. by rewrite (proj2 (streq_false _ _) Hn). }
  assert (∀ fs body, record_body (durable r') body → is_tree (<[dir ++ [id; recordFile] := EFile body]> T2) fs →
    on_disk (<[id := durable r']> records) a fs) as Hnew.
  { intros fs body Hbody HT. exists (<[dir ++ [id; recordFile] := EFile body]> T2). split; [done|]. eapply kept_insert_record; [done|by exists d|done..]. }
  eapply hoare_weaken; [by apply (hoare_writeRecord T2 id r')|done|..].
  - intros [] fs (body & ? & ?). by eapply Hnew.
  - intros e fs HT. by apply (Hold T2).
  - intros fs [HT|(body & ? & ?)]; [left; by apply (Hold T2)|right; by eapply Hnew].
Qed.

Lemma ends_promote T records a s id r profile candidate checkedAt etag lastModified usage downloadedOnly :
  let r' := with_generation r (digest profile) (digest candidate) downloadedOnly checkedAt etag lastModified usage in
  synced T records a s → so_records s !! id = Some r → len profile ≤ maxProfileBytes → len candidate ≤ maxCandidateBytes →
  (downloadedOnly = true → candidate = profile) → fits r' →
  ends faulty (at_start s T) (promote dir id profile candidate checkedAt etag lastModified usage downloadedOnly)
    (λ previous s' fs, previous = r ∧ s' = put_record s id r' ∧ in_sync (<[id := durable r']> records) a s' fs)
    (λ e s' fs, e = ErrStore ∧ s' = s ∧ in_sync records a s fs) (old_or_new records a id r').
Proof.
  intros r' Hs Hid Hp Hc Hdown Hfit. unfold promote.
  eapply ends_found; [done..|intros fs HT; left; by eapply start_on_disk|]. cbn zeta. fold r'.
  assert (record_valid id (durable r') = true) as Hval.
  { destruct (synced_record _ _ _ _ _ _ Hs Hid) as (d & Hd & ((HS & _) & _) & [_ _ _ Hv _]).
    unfold record_valid, durable, with_applied in *. cbn. rewrite HS. repeat (apply andb_true_iff in Hv as [Hv ?]).
    destruct (digest_optional profile _ eq_refl) as [Hp1 Hp2], (digest_optional candidate _ eq_refl) as [Hc1 Hc2].
    repeat (apply andb_true_iff; split); try done. destruct downloadedOnly; [|done]. rewrite (Hdown eq_refl), Hp2, streq_refl. done. }
  eapply ends_bind.
  { eapply (ends_writes _ s _ _ (is_tree T)); [by eapply hoare_promote_files|done|].
    intros e fs (T' & HT & Hk). split_and!; [done..|]. exists T'. split; [done|]. by destruct Hs. }
  intros []. eapply (ends_bind _ _ _ _ (λ _ s' fs, s' = put_record s id r' ∧ in_sync (<[id := durable r']> records) a s' fs)); [|intros []; by apply ends_ret].
  apply ends_save with (s := s). intros s' fs [-> (T' & HT & Hk)]. split; [done|]. split; [done|]. exists T'. split; [done|].
  eapply synced_put; [done|done|]. destruct (synced_record _ _ _ _ _ _ Hs Hid) as (d & _ & (_ & _ & Hap) & _).
  by apply agree_durable.
Qed.
End writing.
End sync.
