(* ===== verification/SubscriptionSelect.v ===== *)
(** * What is applied: active.json, the activation marker, and cleanup

    [setApplied] and [restoreApplied] move from one selection to another in one
    rename; the marker of an activation in progress decides at start which of
    the two stays; cleanup removes only what neither pointer names. *)
From Stdlib Require Import Ascii.
From S2P Require Import Prelude GoTime GoStrings GoNet GoSort GoJson GoFs ConfigTypes ResourceStore ConfigWrite SubscriptionModel SubscriptionFacts SubscriptionStore FsLogic FsHoare SubscriptionFiles SubscriptionOpen SubscriptionKept SubscriptionSync.
Open Scope Z_scope.

Section select.
Context `{GoOs} `{GoHash} `{GoNet} `{JsonCodec privateRecord} `{JsonCodec activePointer} `{JsonCodec pendingActivation}.
Context (dir : list string) (mark : Frame dir).
Local Abbreviation is_tree := (is_tree (scratch dir)).
Local Abbreviation kept := (kept dir mark).
Local Abbreviation synced := (synced dir mark).
Local Abbreviation in_sync := (in_sync dir mark).
Local Abbreviation on_disk := (on_disk dir mark).
Local Abbreviation has_generation := (has_generation dir).

(** ** One file of the store's own directory *)
Definition but_for (p : list string) (T T' : Fs) : Prop := ∀ q, q ≠ p → T' !! q = T !! q.
Lemma but_for_insert T p e : but_for p T (<[p := e]> T).
Proof. intros q Hq. by rewrite lookup_insert_ne. Qed.
Lemma but_for_delete T p : but_for p T (delete p T).
Proof. intros q Hq. by rewrite lookup_delete_ne. Qed.
Lemma top_path_ne (name id x : string) : dir ++ [id; x] ≠ dir ++ [name].
Proof. by intros E%app_dir_inj. Qed.
Lemma but_for_generation name T T' id ph ch : but_for (dir ++ [name]) T T' → has_generation T id ph ch → has_generation T' id ph ch.
Proof.
  intros Hb (p & c & [[Hp ?] [Hc ?]] & ?). exists p, c. split; [|done]. unfold generation_files, holds.
  by rewrite !(Hb _ (top_path_ne name id _)).
Qed.

Lemma kept_top name T T' records a a' :
  kept T records a → but_for (dir ++ [name]) T T' → records !! name = None → (has_prefix name "." = false → T' !! (dir ++ [name]) ≠ Some EDir) → name ≠ activationPendingFile →
  names_selection dir T' a' → selectable dir T records a' → kept T' records a'.
Proof.
  intros [Hm Hl Hr _ Hk _] Hb Hname Hnd Hpend Hf Ha. split; [| | |done| |].
  - intros q Hq. destruct (Hm q Hq) as [HT Hs]. split; [|done]. rewrite Hb; [done|]. by apply prefix_ne.
  - intros id Hv Hd. destruct (decide (id = name)) as [->|Hne]; [by apply Hnd in Hv|]. apply Hl; [done|]. rewrite <- Hb; [done|].
    intros E%app_dir_inj. by simplify_eq.
  - intros id r Hid. destruct (Hr id r Hid) as [Hv Hd (b & [Hb1 Hb2] & Hj) Hval Hg]. split; [done| | |done|].
    + rewrite Hb; [done|]. intros E%app_dir_inj. simplify_eq.
    + exists b. split; [|done]. split; [|done]. by rewrite (Hb _ (top_path_ne name id _)).
    + destruct (streq (pr_Hash r) ""); [done|]. destruct Hg as [? Hg]. split; [done|]. by eapply but_for_generation.
  - eapply fr_local; [|done]. intros q Hq. apply Hb, watched_ne; [done|left]. intros E. by injection E.
  - destruct Ha as [?|[? ?]]; [by left|right]. split; [done|]. by eapply but_for_generation.
Qed.
Lemma kept_selectable T records a : kept T records a → selectable dir T records a.
Proof. intros [_ _ _ _ _ [?|?]]; [by left|by right]. Qed.
Lemma kept_active_file T records a : kept T records a → records !! activeFile = None ∧ T !! (dir ++ [activeFile]) ≠ Some EDir.
Proof.
  intros [_ _ Hr [[Hn _]|(b & [Hb _] & _)] _ _]; (split; [|congruence]); destruct (records !! activeFile) as [r|] eqn:Hid; try done;
    destruct (Hr _ _ Hid); congruence.
Qed.

(** The selection survives its encoding. *)
Definition fits_pointer (a : activePointer) : Prop :=
  ∀ body, json_marshal a = Ok body → len body ≤ record_limit ∧ json_plain a = true.
Lemma pointer_reads a body : fits_pointer a → json_marshal a = Ok body → json_document body = Ok a ∧ len body ≤ record_limit.
Proof.
  intros Hf Hb. destruct (Hf body Hb) as [Hl Hp]. destruct (json_round_trip a body Hp Hb) as (rest & Hd & Hn).
  split; [|done]. unfold json_document. by rewrite Hd, Hn.
Qed.
Lemma kept_select T records a a' body : kept T records a → selectable dir T records a' → fits_pointer a' → json_marshal a' = Ok body →
  kept (<[dir ++ [activeFile] := EFile body]> T) records a'.
Proof.
  intros Hk Hsel Hf Hb. destruct (kept_active_file _ _ _ Hk), (pointer_reads _ _ Hf Hb).
  eapply (kept_top activeFile); [done|apply but_for_insert|done|by rewrite lookup_insert_eq|done| |done].
  right. exists body. split; [by apply holds_insert_eq|done].
Qed.
Lemma kept_unselect T records a : kept T records a → kept (delete (dir ++ [activeFile]) T) records (mkActive "" "" "").
Proof.
  intros Hk. destruct (kept_active_file _ _ _ Hk). eapply (kept_top activeFile); [done|apply but_for_delete|done| |done|left|by left].
  - intros _. by rewrite lookup_delete_eq.
  - split; [apply lookup_delete_eq|done].
Qed.

(** Memory and disk under a new selection. *)
Definition selected (s : Store) (a : activePointer) : Store :=
  mkStore (select (so_records s) (ap_ID a) (ap_ProfileHash a) (ap_CandidateHash a)) (ap_ID a) (ap_ProfileHash a) (ap_CandidateHash a).
Lemma synced_select T T' records a a' s : synced T records a s → kept T' records a' → synced T' records a' (selected s a').
Proof.
  intros [_ _ Hr] Hk. split; [done..|]. intros id. specialize (Hr id). cbn. unfold select. rewrite map_lookup_imap.
  destruct Hr as [r d (Hcore & Hf & _)|]; cbn; constructor. unfold agree, applied_of. by destruct (streq id (ap_ID a')).
Qed.

Section methods.
Context (faulty : Prop) (fault_faulty : ∀ t k, faults t k ≠ Fine → faulty).
Local Abbreviation hoare := (hoare faulty).
Local Abbreviation at_start s T := (λ s' fs, s' = s ∧ is_tree T fs) (only parsing).

Lemma top_writable T name : FsHoare.made (scratch dir) T dir → ¬ scratch dir (dir ++ [name]) →
  has_prefix activationPendingFile ("." +:+ name +:+ ".") = false → writable (scratch dir) T (dir ++ [name]).
Proof.
  intros Hm Hn Hp. destruct (dir_of_snoc dir name) as [Hd Hb]. split; rewrite ?Hd, ?Hb; [done..|]. intros p Ht. by eapply temp_in_dir.
Qed.

Lemma ends_the_record_at T s id :
  ends faulty (at_start s T) (the_record id) (λ r s' fs, so_records s !! id = Some r ∧ s' = s ∧ is_tree T fs)
    (λ e s' fs, (e = ErrNotFound ∧ so_records s !! id = None) ∧ s' = s ∧ is_tree T fs) (is_tree T).
Proof.
  eapply ends_weaken; [apply (ends_the_record faulty (is_tree T) s id)|done|done| |done].
  by intros e s' fs (-> & Hn & -> & HT).
Qed.

(** ** setApplied *)
Definition select_error (T : Fs) (s : Store) (id ph ch : string) (e : sub_error) : Prop :=
  (e = ErrNotFound ∧ so_records s !! id = None) ∨ (e = ErrNoSnapshot ∧ (faulty ∨ ¬ has_generation T id ph ch)) ∨
  (e = ErrStore ∧ (faulty ∨ ∃ m, json_marshal (mkActive id ph ch) = Err m)).
Lemma hoare_write_pointer T records a a' : kept T records a → selectable dir T records a' → fits_pointer a' →
  hoare (is_tree T) (lift (json_marshal a') ≫= λ marker, Write (dir ++ [activeFile]) marker)
    (λ _ fs, on_disk records a' fs) (λ _ fs, (faulty ∨ ∃ m, json_marshal a' = Err m) ∧ is_tree T fs) (λ fs, on_disk records a fs ∨ on_disk records a' fs).
Proof.
  intros Hk Hsel Hfit. assert (∀ fs, is_tree T fs → on_disk records a fs) as Hold by (intros fs HT; by exists T).
  eapply (hoare_bind _ _ _ _ (λ body fs, json_marshal a' = Ok body ∧ is_tree T fs)); [by apply hoare_lift; eauto|].
  intros body. apply hoare_pure. intros Hb. assert (∀ fs, is_tree (<[dir ++ [activeFile] := EFile body]> T) fs → on_disk records a' fs) as Hnew.
  { intros fs HT. exists (<[dir ++ [activeFile] := EFile body]> T). split; [done|]. by eapply kept_select. }
  eapply hoare_weaken; [apply (hoare_Write faulty fault_faulty (scratch dir) T), top_writable; [by apply kp_made in Hk|by apply entry_not_scratch|done]|done|..].
  - intros [] fs. apply Hnew.
  - intros e fs [[?|Hd] ?]; [by auto|]. by destruct (kept_active_file _ _ _ Hk).
  - intros fs [HT|HT]; auto.
Qed.
Lemma ends_setApplied T records a s id ph ch :
  synced T records a s → fits_pointer (mkActive id ph ch) →
  ends faulty (at_start s T) (setApplied dir id ph ch)
    (λ _ s' fs, has_generation T id ph ch ∧ s' = selected s (mkActive id ph ch) ∧ in_sync records (mkActive id ph ch) s' fs)
    (λ e s' fs, select_error T s id ph ch e ∧ s' = s ∧ is_tree T fs)
    (λ fs, on_disk records a fs ∨ on_disk records (mkActive id ph ch) fs).
Proof.
  intros Hs Hfit. pose proof Hs as [Hk _ _]. assert (∀ fs, is_tree T fs → on_disk records a fs) as Hold by (intros fs HT; by exists T).
  unfold setApplied. eapply ends_bind.
  { eapply ends_weaken; [apply (ends_the_record_at T s)|done|done| |by auto]. intros e s' fs [? ?]. split; [by left|done]. }
  intros r. apply ends_pure. intros Hr. destruct (synced_record dir mark _ _ _ _ _ _ Hs Hr) as (d & Hd & _ & Hl). pose proof (ld_id _ _ _ _ Hl) as Hid.
  eapply ends_bind.
  { eapply ends_weaken; [by apply (sees_verified faulty fault_faulty dir s T id ph ch (λ _, False))|done|done| |by auto]. intros e s' fs [Hf _]. destruct Hf. }
  intros verified. cbn beta. apply ends_pure. intros Hver.
  eapply (ends_bind faulty _ _ _ (λ _ s' fs, has_generation T id ph ch ∧ s' = s ∧ is_tree T fs)).
  { destruct (is_ok verified); cbn; [by apply ends_ret|]. apply ends_raise. intros s' fs [-> HT]. split; [by right; left|done]. }
  intros []. apply ends_pure. intros Hg.
  assert (selectable dir T records (mkActive id ph ch)) as Hsel by (right; split; [by exists d|done]).
  eapply ends_bind.
  { eapply (ends_writes faulty _ s _ _ (is_tree T)); [by apply hoare_write_pointer with (a := a)|done|]. intros e fs [He HT]. split; [right; right; done|done]. }
  intros []. eapply ends_bind; [apply (ends_get faulty _ (λ s0 s' fs, s0 = s ∧ on_disk records (mkActive id ph ch) fs)); by intros ? ? [-> ?]|].
  intros s0. apply ends_pure. intros ->. apply ends_put. intros s' fs (T' & HT & Hk'). split_and!; [done..|]. exists T'. split; [done|]. by eapply synced_select.
Qed.

(** ** restoreApplied *)
Lemma hoare_remove_if_there T path : ¬ scratch dir path → T !! path ≠ Some EDir →
  hoare (is_tree T) (remove_if_there path) (λ _, is_tree (delete path T)) (λ _ fs, faulty ∧ is_tree T fs) (is_tree T).
Proof.
  intros Hp Hd. unfold remove_if_there. eapply (hoare_bind _ _ _ _ (λ r fs, match r with Ok _ => is_tree (delete path T) fs
      | Err e => if os_IsNotExist e then is_tree (delete path T) fs else faulty ∧ is_tree T fs end)).
  - eapply hoare_weaken; [eapply (hoare_attempt _ _ _ _ _ (λ _ _, False)), (hoare_remove faulty fault_faulty (scratch dir) T); done|done| |done|done].
    intros [[]|e] fs; [done|]. intros [HT [[Hn ->]|[-> [?|?]]]]; [|done..]. cbn. by rewrite delete_id.
  - intros [[]|e]; [by apply hoare_ret|]. destruct (os_IsNotExist e); [by apply hoare_ret|by apply hoare_throw].
Qed.
Lemma ends_unselect T records a s :
  synced T records a s →
  ends faulty (at_start s T) (restoreApplied dir "" "" "")
    (λ _ s' fs, s' = selected s (mkActive "" "" "") ∧ in_sync records (mkActive "" "" "") s' fs)
    (λ e s' fs, e = ErrStore ∧ faulty ∧ s' = s ∧ is_tree T fs) (is_tree T).
Proof.
  intros Hs. pose proof Hs as [Hk _ _]. destruct (kept_active_file _ _ _ Hk) as [_ Hnd]. unfold restoreApplied. cbn [negb streq].
  change (streq "" "") with true. cbn [negb]. eapply ends_bind.
  { eapply (ends_writes faulty _ s _ _ (is_tree T)); [apply hoare_remove_if_there; [by apply entry_not_scratch|done]|done|]. by intros e fs [? ?]. }
  intros []. eapply ends_bind; [apply (ends_get faulty _ (λ s0 s' fs, s0 = s ∧ is_tree (delete (dir ++ [activeFile]) T) fs)); by intros ? ? [-> ?]|].
  intros s0. apply ends_pure. intros ->. apply ends_put. intros s' fs HT. split; [done|]. exists (delete (dir ++ [activeFile]) T). split; [done|].
  eapply (synced_select _ _ _ _ (mkActive "" "" "")); [done|by eapply kept_unselect].
Qed.

(** ** Cleanup *)
(** A generation that some pointer names. *)
Definition in_use (records : gmap string privateRecord) (a : activePointer) (id ph ch : string) : Prop :=
  ph ≠ "" ∧ ch ≠ "" ∧
  ((∃ d, records !! id = Some d ∧ pr_Hash d = ph ∧ pr_CandidateHash d = ch) ∨
   (ap_ID a = id ∧ ap_ProfileHash a = ph ∧ ap_CandidateHash a = ch)).
Lemma kept_remove_file T records a id name :
  kept T records a → name ≠ recordFile → (∀ ph ch, in_use records a id ph ch → has_generation T id ph ch → name ≠ profileFilename ph ∧ name ≠ candidateFilename ph ch) →
  kept (delete (dir ++ [id; name]) T) records a.
Proof.
  intros [Hm Hl Hr Hf Hk Ha] Hne Hname.
  assert (∀ q, q ≠ dir ++ [id; name] → delete (dir ++ [id; name]) T !! q = T !! q) as Hq by (intros q Hq; by rewrite lookup_delete_ne).
  assert (∀ i ph ch, (ph ≠ "" → ch ≠ "" → in_use records a i ph ch) → has_generation T i ph ch → has_generation (delete (dir ++ [id; name]) T) i ph ch) as Hgen.
  { intros i ph ch Hu Hg. destruct (generation_named _ _ _ _ _ Hg) as [Hnp Hnc]. specialize (Hu Hnp Hnc). pose proof Hg as (p & c & [[Hp ?] [Hc ?]] & ?). exists p, c. split; [|done]. unfold generation_files, holds.
    rewrite !Hq; [done|..]; intros [-> E]%file_path_inj; by destruct (Hname ph ch Hu Hg). }
  split.
  - intros q Hin. destruct (Hm q Hin) as [HT Hs]. split; [|done]. rewrite Hq; [done|]. by apply prefix_ne.
  - intros i Hv. rewrite Hq; [by apply Hl|]. by intros E%app_dir_inj.
  - intros i r Hi. destruct (Hr i r Hi) as [Hv Hd (b & [Hb ?] & ?) Hval Hg]. split; [done| | |done|].
    + rewrite Hq; [done|]. by intros E%app_dir_inj.
    + exists b. split; [|done]. split; [|done]. rewrite Hq; [done|]. intros [_ E]%file_path_inj. by apply Hne.
    + destruct (streq (pr_Hash r) ""); [done|]. destruct Hg as [? Hg]. split; [done|]. apply Hgen; [|done]. intros ? ?. split_and!; [done..|left; by exists r].
  - destruct Hf as [[Hn ->]|(b & [Hb ?] & ?)]; [left|right; exists b]; (split; [|done]).
    + rewrite Hq; [done|]. by intros E%app_dir_inj.
    + split; [|done]. rewrite Hq; [done|]. by intros E%app_dir_inj.
  - eapply fr_local; [|done]. intros q Hw. apply Hq, watched_ne; [done|by right].
  - destruct Ha as [?|[? Hg]]; [by left|right]. split; [done|]. apply Hgen; [|done]. intros ? ?. split_and!; [done..|by right].
Qed.

Lemma hoare_open {A : Type} records a (m : IO A) Q F X :
  (∀ T, kept T records a → hoare (is_tree T) m Q F X) → hoare (on_disk records a) m Q F X.
Proof. intros Hm w (T & HT & Hk). by apply (Hm T Hk). Qed.
Lemma hoare_remove_ignored records a T id name : kept T records a → has_prefix id "." = false → has_prefix name "." = false → name ≠ recordFile →
  (∀ ph ch, in_use records a id ph ch → has_generation T id ph ch → name ≠ profileFilename ph ∧ name ≠ candidateFilename ph ch) →
  hoare (is_tree T) (attempt (remove (dir ++ [id; name])) ≫= λ _, mret tt) (λ _ fs, on_disk records a fs) (λ _ _, False) (on_disk records a).
Proof.
  intros Hk Hid Hv Hne Hu. assert (∀ fs, is_tree T fs → on_disk records a fs) as Hold by (intros fs HT; by exists T).
  eapply (hoare_then _ _ _ _ (on_disk records a)); [|intros r; by apply hoare_ret]. apply (hoare_ignore _ _ _ _ (λ _ _, False)).
  eapply hoare_weaken; [by apply (hoare_remove faulty fault_faulty (scratch dir) T), file_not_scratch|done|..].
  - intros [] fs HT. exists (delete (dir ++ [id; name]) T). split; [done|]. by apply kept_remove_file.
  - intros e fs [HT _]. by apply Hold.
  - done.
Qed.

Lemma stale_spec keep name : stale keep name = true →
  has_prefix name "." = false ∧ name ≠ recordFile ∧ name ∉ keep.
Proof.
  unfold stale. intros [Hp Hn]%andb_true_iff. split_and!.
  - apply orb_true_iff in Hp as [[r ->]%has_prefix_spec|[r ->]%has_prefix_spec]; done.
  - intros ->. by vm_compute in Hp.
  - intros Hin. apply negb_true_iff in Hn. by apply bool_decide_eq_false in Hn.
Qed.

Lemma hoare_cleanupGenerations records a id cp cc ap ac : is_Some (records !! id) →
  (∀ ph ch, in_use records a id ph ch → (ph = cp ∧ ch = cc) ∨ (ph = ap ∧ ch = ac)) →
  hoare (on_disk records a) (cleanupGenerations (dir ++ [id]) cp cc ap ac) (λ _, on_disk records a) (λ _ _, False) (on_disk records a).
Proof.
  intros [d Hd] Hu. unfold cleanupGenerations. cbn zeta. set (keep := generation_names cp cc ++ _).
  assert (∀ ph ch, in_use records a id ph ch → profileFilename ph ∈ keep ∧ candidateFilename ph ch ∈ keep) as Hkeep.
  { intros ph ch Hin. pose proof Hin as (Hp%streq_false & Hc%streq_false & _). unfold keep, generation_names.
    destruct (Hu ph ch Hin) as [[<- <-] | [<- <-]]; rewrite Hp, Hc; cbn [negb andb]; set_solver. }
  eapply (hoare_then _ _ _ _ (on_disk records a)).
  { apply (hoare_ignore _ _ _ _ (λ _ _, False)). apply (hoare_step faulty fault_faulty); [|unfold nothing; by auto..].
    intros fs Hfs. by destruct (fs !! _) as [[]|]. }
  intros [entries|e]; [|by apply hoare_ret].
  apply (hoare_for_each faulty _ (λ _ _, on_disk records a)); intros don [name b] rest [] _.
  destruct (stale keep name) eqn:Hst; [|by apply hoare_ret]. apply stale_spec in Hst as (Hv & Hne & Hn).
  rewrite <- app_assoc. apply hoare_open. intros T Hk. apply hoare_remove_ignored; [done|by apply validID_visible, (ld_id _ _ _ _ (kp_loaded _ _ _ _ _ Hk id d Hd))|done..|].
  intros ph ch Hin _. destruct (Hkeep ph ch Hin). split; by intros ->.
Qed.
Lemma in_use_record records a s T id r ph ch : synced T records a s → so_records s !! id = Some r → in_use records a id ph ch →
  (ph = pr_Hash r ∧ ch = pr_CandidateHash r) ∨ (ph = pr_AppliedProfileHash r ∧ ch = pr_AppliedCandidateHash r).
Proof.
  intros Hs Hr (_ & _ & [(d' & Hd' & <- & <-)|(Hid & <- & <-)]); destruct (synced_record dir mark _ _ _ _ _ _ Hs Hr) as (d & Hd & ((_ & -> & -> & _) & _ & Hap) & _).
  - left. assert (d' = d) as -> by congruence. done.
  - right. unfold applied_of in Hap. rewrite <- Hid, streq_refl in Hap. by injection Hap as -> ->.
Qed.
Lemma hoare_cleanup_record records a s T id r : synced T records a s → so_records s !! id = Some r →
  hoare (on_disk records a) (cleanup_record dir id r) (λ _, on_disk records a) (λ _ _, False) (on_disk records a).
Proof.
  intros Hs Hr. destruct (synced_record dir mark _ _ _ _ _ _ Hs Hr) as (d & Hd & _).
  apply hoare_cleanupGenerations; [eauto|]. intros ph ch. by apply (in_use_record _ _ _ _ _ _ _ _ Hs Hr).
Qed.
Lemma hoare_cleanupUnused records a s T : synced T records a s →
  hoare (on_disk records a) (cleanupUnusedGenerations dir s) (λ _, on_disk records a) (λ _ _, False) (on_disk records a).
Proof.
  intros Hs. unfold cleanupUnusedGenerations. apply (hoare_for_each faulty _ (λ _ _, on_disk records a)). intros don [id r] rest [] Hl.
  apply (hoare_cleanup_record _ _ _ _ _ _ Hs). apply elem_of_map_to_list. rewrite Hl. set_solver.
Qed.
(** The receiver stays with any such tree. *)
Lemma sync_on_disk records a s fs : in_sync records a s fs → on_disk records a fs.
Proof. intros (T & HT & [Hk _ _]). by exists T. Qed.
Lemma on_disk_sync T records a s fs : synced T records a s → on_disk records a fs → in_sync records a s fs.
Proof. intros [_ Ha Hr] (T' & HT & Hk). exists T'. by split. Qed.
Lemma ends_cleaned records a s (m : IO unit) : (∀ fs, on_disk records a fs → in_sync records a s fs) →
  hoare (on_disk records a) m (λ _, on_disk records a) (λ _ _, False) (on_disk records a) →
  ends faulty (λ s' fs, s' = s ∧ in_sync records a s fs) (store_io m) (λ _ s' fs, s' = s ∧ in_sync records a s fs) (λ _ _ _, False) (on_disk records a).
Proof.
  intros Hs Hm. eapply (ends_io faulty _ _ _ _ (λ _ _ _, False)); [|done]. intros s' w [-> Hw]. specialize (Hm w (sync_on_disk _ _ _ _ Hw)).
  destruct (m w) as [[u|e|] w']; [|done..]. split; [done|]. by apply Hs.
Qed.
(** Methods start by looking at their receiver. *)
Lemma ends_receiver {A : Type} s (G : Fs → Prop) (k : Store → Method A) Q R X :
  ends faulty (λ s' fs, s' = s ∧ G fs) (k s) Q R X → ends faulty (λ s' fs, s' = s ∧ G fs) (get_state ≫= k) Q R X.
Proof.
  intros Hk. eapply ends_bind; [apply (ends_get faulty _ (λ s0 s' fs, s0 = s ∧ s' = s ∧ G fs)); by intros ? ? [-> ?]|].
  intros s0. apply ends_pure. by intros ->.
Qed.
Lemma ends_cleanupApplied T records a s : synced T records a s →
  ends faulty (λ s' fs, s' = s ∧ in_sync records a s fs) (cleanupApplied dir) (λ _ s' fs, s' = s ∧ in_sync records a s fs) (λ _ _ _, False) (on_disk records a).
Proof. intros Hs. apply ends_receiver. apply ends_cleaned; [intros fs; by eapply on_disk_sync|]. by apply (hoare_cleanupUnused _ _ _ _ Hs). Qed.
Lemma ends_finalizePromotion T records a s id : synced T records a s →
  ends faulty (λ s' fs, s' = s ∧ in_sync records a s fs) (finalizePromotion dir id) (λ _ s' fs, s' = s ∧ in_sync records a s fs) (λ _ _ _, False) (on_disk records a).
Proof.
  intros Hs. apply ends_receiver. destruct (so_records s !! id) as [r|] eqn:Hr; [|by apply ends_ret].
  apply ends_cleaned; [intros fs; by eapply on_disk_sync|]. by apply (hoare_cleanup_record _ _ _ _ _ _ Hs).
Qed.

(** ** rollbackPromotion *)
Lemma hoare_rollback_removals records a id previous profile candidate :
  let ph := digest profile in let ch := digest candidate in
  records !! id = Some (durable previous) → (pr_AppliedProfileHash previous, pr_AppliedCandidateHash previous) = applied_of a id →
  hoare (on_disk records a) (rollback_removals dir id previous ph ch) (λ _, on_disk records a) (λ _ _, False) (on_disk records a).
Proof.
  intros ph ch Hd Hap. unfold rollback_removals, directory_of. rewrite <- !app_assoc. cbn [app].
  assert (∀ T, kept T records a → has_prefix id "." = false) as Hid.
  { intros T Hk. by apply validID_visible, (ld_id _ _ _ _ (kp_loaded _ _ _ _ _ Hk id _ Hd)). }
  assert (∀ ph' ch', in_use records a id ph' ch' → (ph' = pr_Hash previous ∧ ch' = pr_CandidateHash previous) ∨
      (ph' = pr_AppliedProfileHash previous ∧ ch' = pr_AppliedCandidateHash previous)) as Hu.
  { intros ph' ch' (_ & _ & [(d & Hd' & <- & <-)|(Hai & <- & <-)]).
    - rewrite Hd in Hd'. injection Hd' as <-. by left.
    - right. unfold applied_of in Hap. rewrite <- Hai, streq_refl in Hap. by injection Hap as -> ->. }
  eapply (hoare_then _ _ _ _ (on_disk records a)); [|intros []].
  - destruct (negb _) eqn:Hr; [|by apply hoare_ret]. apply negb_true_iff, orb_false_iff in Hr as [Hr1 Hr2].
    apply hoare_open. intros T Hk. apply hoare_remove_ignored; [done|by eapply Hid|done..|]. intros ph' ch' Hin (p & c & _ & Hp & _). split; [done|].
    intros E. apply candidateFilename_inj in E as [<- <-]; [|rewrite <- Hp; apply digest_length].
    destruct (Hu ph ch Hin) as [[E1 E2] | [E1 E2]]; rewrite E1, E2, !streq_refl in *; done.
  - destruct (negb _ && negb _) eqn:Hr; [|by apply hoare_ret]. apply andb_true_iff in Hr as [Hr1%negb_true_iff%streq_false Hr2%negb_true_iff%streq_false].
    apply hoare_open. intros T Hk. apply hoare_remove_ignored; [done|by eapply Hid|done..|]. intros ph' ch' Hin _. split; [|done].
    intros E%profileFilename_inj. subst ph'. by destruct (Hu ph ch' Hin) as [[? _] | [? _]].
Qed.
Lemma ends_rollbackPromotion T records a s id r previous profile candidate :
  let records' := <[id := durable previous]> records in
  synced T records a s → so_records s !! id = Some r → successor dir T id r previous →
  ends faulty (at_start s T) (rollbackPromotion dir id previous (digest profile) (digest candidate))
    (λ _ s' fs, s' = put_record s id previous ∧ in_sync records' a s' fs)
    (λ e s' fs, e = ErrStore ∧ s' = put_record s id previous ∧ is_tree T fs)
    (λ fs, on_disk records a fs ∨ on_disk records' a fs).
Proof.
  intros records' Hs Hr Hsu. pose proof (synced_agree dir mark _ _ _ _ _ _ _ Hs Hr Hsu) as Hag.
  unfold rollbackPromotion. eapply (ends_found dir mark faulty); [done..|intros fs HT; left; by eapply start_on_disk|].
  eapply ends_bind.
  { eapply (ends_succeeds faulty _ s _ (is_tree T) (on_disk records' a) (is_tree T)); [|done]. destruct Hsu. by eapply (hoare_write_update dir mark faulty). }
  intros written. eapply (ends_bind faulty _ _ _ (λ _ s' fs, s' = put_record s id previous ∧ if written then on_disk records' a fs else is_tree T fs)).
  { apply (ends_save faulty _ s). by intros s' fs [-> ?]. }
  intros []. destruct written; cbn [negb fail_when].
  - assert (∀ fs, on_disk records' a fs → in_sync records' a (put_record s id previous) fs) as Hsync.
    { intros fs (T' & HT & Hk). exists T'. split; [done|]. by eapply synced_put. }
    eapply (ends_bind faulty _ _ _ (λ _ s' fs, s' = put_record s id previous ∧ in_sync records' a (put_record s id previous) fs)).
    { apply ends_ret. intros s' fs [-> ?]. auto. }
    intros []. eapply ends_weaken; [apply (ends_cleaned records' a (put_record s id previous) _ Hsync)|done| |done|by right].
    + apply hoare_rollback_removals; [apply lookup_insert_eq|by destruct Hag as (_ & _ & ?)].
    + by intros [] s' fs [-> ?].
  - eapply (ends_bind faulty _ _ _ (λ _ _ _, False)); [|by intros [] s' w []]. apply ends_raise. by intros s' fs [-> ?].
Qed.
End methods.
End select.
