(* ===== verification/SubscriptionRecover.v ===== *)
(** * The marker of an activation in progress

    The marker holds the selection to go back to and the resource commit that
    was current when it was written.  [settled] is the selection recovery ends
    with; every step of it, finished or not, keeps what it will end with. *)
From Stdlib Require Import Ascii.
From S2P Require Import Prelude GoTime GoStrings GoNet GoSort GoJson GoFs ConfigTypes ResourceStore ConfigWrite SubscriptionModel SubscriptionFacts SubscriptionStore FsLogic FsHoare SubscriptionFiles SubscriptionOpen SubscriptionKept SubscriptionSync SubscriptionSelect.
Open Scope Z_scope.

(** The commit the application's resource registry settles on at start; it is
    kept elsewhere. *)
Class RegistryCommit (dir : list string) := {
  registry_commit : Fs → string;
  registry_outside : ∀ T T', (∀ q, below dir q = false → T' !! q = T !! q) → registry_commit T' = registry_commit T
}.

Section recover.
Context `{GoOs} `{GoHash} `{GoNet} `{JsonCodec privateRecord} `{JsonCodec activePointer} `{JsonCodec pendingActivation}.
Context (dir : list string) `{RegistryCommit dir}.
Local Abbreviation is_tree := (is_tree (scratch dir)).
Local Abbreviation kept := (kept dir).
Local Abbreviation synced := (synced dir).
Local Abbreviation pending := (dir ++ [activationPendingFile]).

(** What the marker's file says. *)
Definition says (mark : option entry) (mp : option pendingActivation) : Prop :=
  match mp with
  | None => mark = None
  | Some p => ∃ body, mark = Some (EFile body) ∧ len body ≤ record_limit ∧ json_document body = Ok p ∧ pending_valid p = true
  end.
Definition pending_pointer (p : pendingActivation) : activePointer := mkActive (pa_ID p) (pa_ProfileHash p) (pa_CandidateHash p).
(** The activation did not commit: the registry still holds the commit it started from. *)
Definition goes_back (p : pendingActivation) (commit : string) : bool := negb (pa_Accepted p) && negb (streq (pa_ResourceCommitID p) commit).
Definition settled (a : activePointer) (mp : option pendingActivation) (commit : string) : activePointer :=
  match mp with Some p => if goes_back p commit then pending_pointer p else a | None => a end.
#[refine] Definition at_mark (mp : option pendingActivation) (commit : string) : Frame dir := {|
  fr_holds T := says (T !! pending) mp ∧ registry_commit T = commit
|}.
Proof.
  intros T T' Hw [Hs Hc]. rewrite Hw by by left. split; [done|]. rewrite <- Hc. apply registry_outside. intros q Hq. apply Hw. by right.
Defined.
Definition marked (mp : option pendingActivation) (commit : string) (records : gmap string privateRecord) (a : activePointer) (fs : Fs) : Prop :=
  on_disk dir (at_mark mp commit) records a fs.

Lemma pending_below q : below dir q = false → q ≠ pending.
Proof. intros Hq ->. by rewrite (proj2 (below_spec dir _)) in Hq by eauto. Qed.
Lemma kept_remark mp mp' commit T T' records a :
  kept (at_mark mp commit) T records a → but_for pending T T' → says (T' !! pending) mp' → kept (at_mark mp' commit) T' records a.
Proof.
  intros Hk Hb Hm. assert (records !! activationPendingFile = None) as Hn.
  { destruct (records !! activationPendingFile) as [r|] eqn:Hr; [|done]. by destruct (kp_loaded _ _ _ _ _ Hk _ _ Hr). }
  destruct Hk as [Hmd Hl Hr Hf [_ Hc] Ha]. split; [| | | |split; [done|]|].
  - intros q Hq. destruct (Hmd q Hq) as [HT Hs]. split; [|done]. rewrite Hb; [done|]. by apply prefix_ne.
  - intros id Hv. rewrite Hb; [by apply Hl|]. intros E%app_dir_inj. by simplify_eq.
  - intros id r Hid. destruct (Hr id r Hid) as [Hv Hd (b & [Hb1 Hb2] & Hj) Hval Hg]. split; [done| | |done|].
    + rewrite Hb; [done|]. intros E%app_dir_inj. simplify_eq.
    + exists b. split; [|done]. split; [|done]. by rewrite (Hb _ (top_path_ne dir activationPendingFile id _)).
    + destruct (streq (pr_Hash r) ""); [done|]. destruct Hg as [? Hg]. split; [done|]. by eapply but_for_generation.
  - assert (T' !! (dir ++ [activeFile]) = T !! (dir ++ [activeFile])) as Ea by (apply Hb; by intros E%app_dir_inj).
    unfold names_selection, holds in *. by rewrite Ea.
  - rewrite <- Hc. apply registry_outside. intros q Hq. by apply Hb, pending_below.
  - destruct Ha as [?|[? ?]]; [by left|right]. split; [done|]. by eapply but_for_generation.
Qed.

Section methods.
Context (faulty : Prop) (fault_faulty : ∀ t k, faults t k ≠ Fine → faulty).
Local Abbreviation hoare := (hoare faulty).
Local Abbreviation at_start s T := (λ s' fs, s' = s ∧ is_tree T fs) (only parsing).

(** ** Reading and removing it *)
Lemma sees_loadPending mp commit T records a s : kept (at_mark mp commit) T records a →
  sees faulty dir s T (loadPendingActivation dir) (λ r, r = mp) (λ _, faulty).
Proof.
  intros [_ _ _ _ [Hsays _] _]. remember (T !! pending) as mark eqn:Hm. symmetry in Hm. unfold loadPendingActivation, pending_path. pose proof (pending_not_scratch dir) as Hns. eapply sees_bind.
  { eapply (sees_io _ _ _ _ _ _ (λ r, match r with Ok _ => mark ≠ None | Err e => (mark = None ∧ e = ENotExist) ∨ (faulty ∧ os_IsNotExist e = false) end) _ (λ _, False)); [|done].
    eapply hoare_weaken; [eapply (hoare_attempt _ _ _ _ _ (λ _ _, False)), (hoare_lstat faulty fault_faulty (scratch dir) T); done|done| |done|done].
    rewrite Hm. intros [e|e] fs; [intros [-> ?]; done|]. intros [HT [[-> ->] | [? ?]]]; auto. }
  intros info Hinfo. cbn beta in Hinfo. destruct info as [e|e].
  - destruct mp as [p|]; [|done]. destruct Hsays as (body & Hb & Hlen & Hj & Hv). eapply (sees_bind _ _ _ _ _ _ (λ data, data = body)).
    { eapply (sees_io _ _ _ _ _ _ _ _ (λ _, faulty)); [|done]. eapply hoare_weaken; [by apply (hoare_readPrivateFile faulty fault_faulty dir T)|done|..|done].
      - intros data fs [[Hd _] HT]. split; [congruence|done].
      - intros e' fs [HT [?|Hn]]; [done|]. destruct (Hn body). split; [congruence|done]. }
    intros data ->. eapply sees_bind; [apply sees_lift; intros e' He; congruence|]. intros p' Hp'.
    assert (p' = p) as -> by congruence. rewrite Hv. eapply sees_bind; [by apply (sees_fail_when _ _ _ _ false)|]. intros [] _. by apply sees_ret.
  - destruct Hinfo as [[-> ->] | [Hf ->]]; [|by apply sees_raise]. apply sees_ret. destruct mp; [|done]. by destruct Hsays as (? & ? & _).
Qed.
Lemma hoare_clear mp commit T records a : kept (at_mark mp commit) T records a →
  hoare (is_tree T) (remove_if_there pending) (λ _, marked None commit records a) (λ _ fs, faulty ∧ is_tree T fs) (is_tree T).
Proof.
  intros Hk. destruct (kp_mark _ _ _ _ _ Hk) as [Hsays _]. eapply hoare_weaken; [apply (hoare_remove_if_there dir faulty fault_faulty T pending)|done| |done|done].
  - apply pending_not_scratch.
  - destruct mp as [p|]; [destruct Hsays as (? & -> & _)|cbn in Hsays; rewrite Hsays]; done.
  - intros [] fs HT. exists (delete pending T). split; [done|].
    eapply kept_remark; [done|apply but_for_delete|apply lookup_delete_eq].
Qed.

(** ** Going back *)
(** What going back needs of the tree. *)
Definition available (T : Fs) (records : gmap string privateRecord) (a : activePointer) : Prop :=
  selectable dir T records a ∧ ∃ body, json_marshal a = Ok body.
Lemma ends_restoreApplied (mark : Frame dir) T records a s id ph ch :
  let a' := mkActive id ph ch in
  synced mark T records a s → fits_pointer a' → (id = "" → ph = "" ∧ ch = "") →
  ends faulty (at_start s T) (restoreApplied dir id ph ch)
    (λ _ s' fs, s' = selected s a' ∧ in_sync dir mark records a' s' fs)
    (λ _ s' fs, (faulty ∨ ¬ available T records a') ∧ s' = s ∧ is_tree T fs)
    (λ fs, on_disk dir mark records a fs ∨ on_disk dir mark records a' fs).
Proof.
  intros a' Hs Hfit Hid. destruct (streq id "") eqn:E.
  - apply streq_true in E. subst a'. subst id. destruct (Hid eq_refl) as [-> ->].
    eapply ends_weaken; [by apply (ends_unselect dir mark faulty fault_faulty T records a)|done|done|..].
    + intros e s' fs (_ & ? & ?). auto.
    + intros fs HT. left. exists T. by destruct Hs.
  - unfold restoreApplied. rewrite E. cbn [negb].
    eapply ends_weaken; [by apply (ends_setApplied dir mark faulty fault_faulty T records a)|done|by intros _ s' fs (_ & ? & ?)| |done].
    intros e s' fs [He ?]. split; [|done]. unfold available, a'. apply streq_false in E.
    destruct He as [[_ Hn] | [[_ [?|Hg]] | [_ [?|[m Hm]]]]]; [right|by left|right|by left|right]; intros [[[? _]|[[r Hr] Hg']] [body Hb]]; try done; cbn in *.
    + destruct Hs as [_ _ Hrec]. specialize (Hrec id). rewrite Hn, Hr in Hrec. by inversion Hrec.
    + congruence.
Qed.

(** ** Recovery *)
Lemma ends_in_sync {A : Type} (mark : Frame dir) records a (m : Method A) Q R X :
  (∀ T s, synced mark T records a s → ends faulty (at_start s T) m Q R X) → ends faulty (in_sync dir mark records a) m Q R X.
Proof. intros Hm s w (T & HT & Hs). by apply (Hm T s Hs s w). Qed.
(** Every tree it can leave is one it would settle the same way. *)
Definition settles (records : gmap string privateRecord) (commit : string) (a' : activePointer) (fs : Fs) : Prop :=
  ∃ mp a, marked mp commit records a fs ∧ settled a mp commit = a'.
Lemma ends_clearPending mp commit T records a s : synced (at_mark mp commit) T records a s →
  ends faulty (at_start s T) (clearActivationPending dir)
    (λ _ s' fs, s' = s ∧ in_sync dir (at_mark None commit) records a s fs) (λ _ s' fs, faulty ∧ s' = s ∧ is_tree T fs) (is_tree T).
Proof.
  intros [Hk Ha Hr]. unfold clearActivationPending, pending_path. eapply ends_weaken;
    [apply (ends_writes faulty (at_start s T) s _ _ (is_tree T) (λ _, marked None commit records a) (λ fs, faulty ∧ is_tree T fs) (is_tree T) (λ _ s' fs, s' = s ∧ faulty ∧ is_tree T fs))|done|..|done].
  - eapply hoare_weaken; [by apply (hoare_clear mp commit T records a)|done..].
  - done.
  - done.
  - intros [] s' fs [-> (T' & HT & Hk')]. split; [done|]. exists T'. by split.
  - by intros e s' fs (-> & ? & ?).
Qed.
(** The marker goes, and with it the choice. *)
Lemma ends_settle p commit T records a s : let a' := settled a (Some p) commit in a' = a → synced (at_mark (Some p) commit) T records a s →
  ends faulty (at_start s T) (clearActivationPending dir) (λ _ s' fs, in_sync dir (at_mark None commit) records a s' fs)
    (λ _ s' fs, faulty ∧ settles records commit a fs) (settles records commit a).
Proof.
  intros a' Ha Hs. assert (∀ fs, is_tree T fs → settles records commit a fs) as Hold.
  { intros fs HT. exists (Some p), a. split; [|done]. exists T. by destruct Hs. }
  eapply ends_weaken; [by apply (ends_clearPending (Some p) commit T records a s)|done|by intros [] s' fs [-> ?]| |done].
  intros e s' fs (? & -> & ?). auto.
Qed.
Lemma pending_pointer_empty p : pending_valid p = true → pa_ID p = "" → pa_ProfileHash p = "" ∧ pa_CandidateHash p = "".
Proof.
  intros Hv E. unfold pending_valid in Hv. rewrite E in Hv. apply andb_true_iff in Hv as [_ Hv]. apply negb_true_iff in Hv.
  change (streq "" "") with true in Hv. cbn [andb] in Hv. apply orb_false_iff in Hv as [Hp Hc].
  by apply negb_false_iff, streq_true in Hp; apply negb_false_iff, streq_true in Hc.
Qed.

Lemma ends_RecoverPendingActivation T records a s mp commit :
  let a' := settled a mp commit in
  synced (at_mark mp commit) T records a s → (∀ p, mp = Some p → fits_pointer (pending_pointer p)) →
  ends faulty (at_start s T) (RecoverPendingActivation dir commit)
    (λ _ s' fs, in_sync dir (at_mark None commit) records a' s' fs)
    (λ _ s' fs, (faulty ∨ ¬ available T records a') ∧ settles records commit a' fs)
    (settles records commit a').
Proof.
  intros a' Hs Hfit. pose proof Hs as [Hk _ _].
  assert (∀ fs, is_tree T fs → settles records commit a' fs) as Hold.
  { intros fs HT. exists mp, a. split; [by exists T|done]. }
  unfold RecoverPendingActivation. eapply ends_bind.
  { eapply ends_weaken; [by apply (sees_loadPending mp commit T records a s)|done|done| |done].
    intros e s' fs (Hf & -> & HT). auto. }
  intros r. cbn beta. apply ends_pure. intros ->.
  eapply (ends_bind faulty _ _ _ (λ _ s' fs, in_sync dir (at_mark None commit) records a' s' fs)).
  2: { intros []. apply ends_in_sync. intros T1 s1 Hs1. eapply ends_weaken; [apply (ends_cleanupApplied dir (at_mark None commit) faulty fault_faulty T1 records a' s1 Hs1)| | |done|].
       - intros s' fs [-> HT]. split; [done|by exists T1].
       - by intros _ s' fs [-> ?].
       - intros fs Hd. by exists None, a'. }
  destruct mp as [p|]; [|apply ends_ret; intros s' fs [-> HT]; by exists T].
  destruct (kp_mark _ _ _ _ _ Hk) as [(body & _ & _ & _ & Hv) _].
  assert (∀ a1, settled a1 (Some p) commit = if goes_back p commit then pending_pointer p else a1) as Hset by done.
  fold (goes_back p commit). subst a'. rewrite Hset in *. destruct (goes_back p commit) eqn:Hback.
  - eapply (ends_bind faulty _ _ _ (λ _ s' fs, s' = selected s (pending_pointer p) ∧ in_sync dir (at_mark (Some p) commit) records (pending_pointer p) s' fs)).
    + eapply ends_weaken; [apply (ends_restoreApplied (at_mark (Some p) commit) T records a s); [done|by apply (Hfit p)|by apply pending_pointer_empty]|done|done|..].
      * intros e s' fs (He & -> & HT). auto.
      * intros fs [Hd|Hd]; exists (Some p); [exists a|exists (pending_pointer p)]; (split; [done|]); by rewrite Hset.
    + intros []. enough (ends faulty (in_sync dir (at_mark (Some p) commit) records (pending_pointer p)) (clearActivationPending dir)
        (λ _, in_sync dir (at_mark None commit) records (pending_pointer p)) (λ _ _ fs, (faulty ∨ ¬ available T records (pending_pointer p)) ∧ settles records commit (pending_pointer p) fs)
        (settles records commit (pending_pointer p))) as Hc by (intros s1 w [_ Hi]; exact (Hc s1 w Hi)).
      apply ends_in_sync. intros T1 s1 Hs1. eapply ends_weaken; [apply (ends_settle p commit T1 records (pending_pointer p) s1); [by rewrite Hset|done]|done|done| |done].
      intros e s' fs [? ?]. auto.
  - eapply (ends_bind faulty _ _ _ (λ _, at_start s T)); [by apply ends_ret|]. intros [].
    eapply ends_weaken; [by apply (ends_settle p commit T records a s); [rewrite Hset|]|done|done| |done]. intros e s' fs [? ?]. auto.
Qed.

(** ** Writing it *)
Definition fits_pending (p : pendingActivation) : Prop :=
  ∀ body, json_marshal p = Ok body → len body ≤ record_limit ∧ json_plain p = true.
Lemma hoare_write_pending mp p commit T records a :
  kept (at_mark mp commit) T records a → pending_valid p = true → fits_pending p →
  hoare (is_tree T) (write_pending dir p) (λ _, marked (Some p) commit records a) (λ _, is_tree T)
    (λ fs, marked mp commit records a fs ∨ marked (Some p) commit records a fs).
Proof.
  intros Hk Hv Hfit. unfold write_pending, pending_path.
  assert (∀ fs, is_tree T fs → marked mp commit records a fs) as Hold by (intros fs HT; by exists T).
  eapply (hoare_bind _ _ _ _ (λ body fs, json_marshal p = Ok body ∧ is_tree T fs)); [by apply hoare_lift|].
  intros body. apply hoare_pure. intros Hb. destruct (Hfit body Hb) as [Hlen Hplain]. destruct (json_round_trip p body Hplain Hb) as (rest & Hd & Hn).
  assert (∀ fs, is_tree (<[pending := EFile body]> T) fs → marked (Some p) commit records a fs) as Hnew.
  { intros fs HT. exists (<[pending := EFile body]> T). split; [done|]. eapply kept_remark; [done|apply but_for_insert|].
    rewrite lookup_insert_eq. exists body. split_and!; [done|done| |done]. unfold json_document. by rewrite Hd, Hn. }
  eapply hoare_weaken; [apply (hoare_Write faulty fault_faulty (scratch dir) T), top_writable; [by apply kp_made in Hk|apply pending_not_scratch|done]|done|..].
  - intros [] fs. apply Hnew.
  - by intros e fs [_ ?].
  - intros fs [?|?]; auto.
Qed.
Lemma ends_write_pending mp p commit T records a s :
  synced (at_mark mp commit) T records a s → pending_valid p = true → fits_pending p →
  ends faulty (at_start s T) (store_io (write_pending dir p))
    (λ _ s' fs, s' = s ∧ in_sync dir (at_mark (Some p) commit) records a s fs) (λ e s' fs, e = ErrStore ∧ s' = s ∧ is_tree T fs)
    (λ fs, marked mp commit records a fs ∨ marked (Some p) commit records a fs).
Proof.
  intros [Hk Ha Hr] Hv Hfit. eapply ends_weaken; [apply (ends_writes faulty (at_start s T) s (λ _, ErrStore) _ (is_tree T) (λ _, marked (Some p) commit records a) (is_tree T)
    (λ fs, marked mp commit records a fs ∨ marked (Some p) commit records a fs) (λ e s' fs, e = ErrStore ∧ s' = s ∧ is_tree T fs))|done| |done|done].
  - by apply hoare_write_pending.
  - done.
  - done.
  - intros [] s' fs [-> (T' & HT & Hk')]. split; [done|]. exists T'. by split.
Qed.
(** The current selection can be named in a marker. *)
Lemma previous_valid mark T records a commit : kept mark T records a → validResourceCommitID commit = true →
  pending_valid (mkPending (ap_ID a) (ap_ProfileHash a) (ap_CandidateHash a) commit false) = true.
Proof.
  intros [_ _ Hr _ _ Ha] Hc. unfold pending_valid. cbn. rewrite Hc. destruct Ha as [[-> [-> ->]] | [[r Hid] (p & c & _ & Hp & Hcd)]]; [done|].
  destruct (digest_optional p _ Hp) as [-> _], (digest_optional c _ Hcd) as [-> _]. pose proof (ld_id _ _ _ _ (Hr _ _ Hid)) as Hv. rewrite Hv.
  destruct (streq (ap_ID a) "") eqn:E; [|done]. apply streq_true in E. by rewrite E in Hv.
Qed.
Lemma ends_markPending commit T records a s x :
  let p := mkPending (ap_ID a) (ap_ProfileHash a) (ap_CandidateHash a) x false in
  synced (at_mark None commit) T records a s → fits_pending p →
  ends faulty (at_start s T) (markActivationPending dir (ap_ID a) (ap_ProfileHash a) (ap_CandidateHash a) x)
    (λ _ s' fs, s' = s ∧ in_sync dir (at_mark (Some p) commit) records a s fs) (λ e s' fs, s' = s ∧ is_tree T fs)
    (λ fs, marked None commit records a fs ∨ marked (Some p) commit records a fs).
Proof.
  intros p Hs Hfit. pose proof Hs as [Hk _ _]. destruct (kp_mark _ _ _ _ _ Hk) as [Hnone _]. cbn in Hnone.
  assert (∀ fs, is_tree T fs → marked None commit records a fs) as Hold by (intros fs HT; by exists T).
  unfold markActivationPending, pending_path. eapply (ends_bind faulty _ _ _ (λ _ s' fs, validResourceCommitID x = true ∧ s' = s ∧ is_tree T fs)).
  { destruct (validResourceCommitID x); cbn; [by apply ends_ret|]. apply ends_raise. by intros s' fs [-> ?]. }
  intros []. apply ends_pure. intros Hx. eapply (ends_bind faulty _ _ _ (λ r s' fs, (∃ e, r = Err e ∧ (e = ENotExist ∨ os_IsNotExist e = false)) ∧ s' = s ∧ is_tree T fs)).
  { eapply ends_weaken; [apply (ends_writes faulty (at_start s T) s (λ _, ErrStore) _ (is_tree T) (λ r fs, (∃ e, r = Err e ∧ (e = ENotExist ∨ os_IsNotExist e = false)) ∧ is_tree T fs)
      (λ _, False) (is_tree T) (λ _ _ _, False))|done|..].
    - eapply hoare_weaken; [eapply (hoare_attempt _ _ _ _ _ (λ _ _, False)), (hoare_lstat faulty fault_faulty (scratch dir) T); apply pending_not_scratch|done| |done|done].
      intros [e|e] fs; [by intros [He _]; rewrite Hnone in He|]. intros [HT [[_ ->] | [_ ?]]]; eauto.
    - done.
    - done.
    - by intros r s' fs (-> & ? & ?).
    - done.
    - by auto. }
  intros info. apply ends_pure. intros (e & -> & He). eapply (ends_bind faulty _ _ _ (λ _, at_start s T)).
  { destruct He as [-> | He]; cbn; [by apply ends_ret|]. rewrite He. apply ends_raise. by intros s' fs [-> ?]. }
  intros []. eapply ends_weaken; [apply (ends_write_pending None p commit T records a s); [done|by eapply previous_valid|done]|done|done| |done].
  by intros e' s' fs (_ & ? & ?).
Qed.
Lemma ends_markAccepted p commit T records a s :
  synced (at_mark (Some p) commit) T records a s → fits_pending (accepted_marker p) →
  ends faulty (at_start s T) (markActivationAccepted dir)
    (λ _ s' fs, s' = s ∧ in_sync dir (at_mark (Some (accepted_marker p)) commit) records a s fs) (λ e s' fs, s' = s ∧ is_tree T fs)
    (λ fs, marked (Some p) commit records a fs ∨ marked (Some (accepted_marker p)) commit records a fs).
Proof.
  intros Hs Hfit. pose proof Hs as [Hk _ _]. unfold markActivationAccepted. destruct (kp_mark _ _ _ _ _ Hk) as [(body & _ & _ & _ & Hv) _].
  eapply (ends_bind faulty _ _ _ (λ r s' fs, (r = Ok (Some p) ∨ ∃ e, r = Err e) ∧ s' = s ∧ is_tree T fs)).
  { eapply ends_weaken; [eapply (sees_attempt faulty dir s T _ _ _ (λ _, False)); by apply (sees_loadPending (Some p) commit T records a s)|done|..].
    - intros [r|e] s' fs [Hr ?]; (split; [|done]); [left; congruence|right; eauto].
    - intros e s' fs [Hf _]. destruct Hf.
    - intros fs HT. left. by exists T. }
  intros r. apply ends_pure. intros [-> | [e ->]]; [|apply ends_raise; by intros s' fs [-> ?]].
  eapply ends_weaken; [apply (ends_write_pending (Some p) (accepted_marker p) commit T records a s); [done|exact Hv|done]|done|done| |done].
  by intros e' s' fs (_ & ? & ?).
Qed.
Lemma ends_retryAccepted mp commit T records a s : synced (at_mark mp commit) T records a s →
  ends faulty (at_start s T) (retryAcceptedActivationCleanup dir)
    (λ _ s' fs, s' = s ∧ in_sync dir (at_mark None commit) records a s fs) (λ e s' fs, s' = s ∧ is_tree T fs) (is_tree T).
Proof.
  intros Hs. pose proof Hs as [Hk _ _]. unfold retryAcceptedActivationCleanup. eapply ends_bind.
  { eapply ends_weaken; [by apply (sees_loadPending mp commit T records a s)|done|done| |done]. by intros e s' fs (_ & -> & ?). }
  intros r. cbn beta. apply ends_pure. intros ->. destruct mp as [p|]; [|apply ends_ret; intros s' fs [-> HT]; split; [done|by exists T]].
  eapply (ends_bind faulty _ _ _ (λ _, at_start s T)).
  { destruct (negb (pa_Accepted p)); [apply ends_raise; by intros s' fs [-> ?]|by apply ends_ret]. }
  intros []. eapply ends_weaken; [by apply (ends_clearPending (Some p) commit T records a s)|done|done| |done]. by intros e s' fs (_ & -> & ?).
Qed.
End methods.
End recover.
