(* ===== verification/SubscriptionEntries.v ===== *)
(** * Subscriptions that come and go

    [add] makes the directory and then its record, [delete_record] moves the
    directory out of sight in one rename; the trees in between. *)
From Stdlib Require Import Ascii.
From S2P Require Import Prelude GoTime GoStrings GoNet GoSort GoJson GoFs ConfigTypes ResourceStore ConfigWrite SubscriptionModel SubscriptionFacts SubscriptionStore FsLogic FsHoare SubscriptionFiles SubscriptionOpen SubscriptionKept SubscriptionSync SubscriptionSelect.
Open Scope Z_scope.

(** ** Whole directories *)
Definition drop_below (p : list string) (T : Fs) : Fs := filter (λ entry : list string * entry, below p entry.1 = false) T.
Lemma lookup_drop_below p T q : drop_below p T !! q = if below p q then None else T !! q.
Proof.
  unfold drop_below. destruct (below p q) eqn:Hb.
  - apply map_lookup_filter_None. right. intros e _. cbn. by rewrite Hb.
  - destruct (T !! q) as [e|] eqn:He; [by apply map_lookup_filter_Some|]. apply map_lookup_filter_None. by left.
Qed.
Lemma move_tree_outside src dst (fs : Fs) q : below dst q = false → move_tree src dst fs !! q = if below src q then None else fs !! q.
Proof.
  intros Hdst. unfold move_tree. set (f := λ entry : list string * entry, _).
  assert (∀ e, (q, e) ∈ f <$> map_to_list fs ↔ below src q = false ∧ fs !! q = Some e) as Hin.
  { intros e. rewrite list_elem_of_fmap. split.
    - intros ([k e'] & E & Hk%elem_of_map_to_list). unfold f in E. cbn in E. destruct (below src k) eqn:Hs; [|by simplify_eq].
      injection E as -> ->. by rewrite (proj2 (below_spec dst _)) in Hdst by eauto.
    - intros [Hs Hq]. exists (q, e). unfold f. cbn. rewrite Hs. split; [done|]. by apply elem_of_map_to_list. }
  destruct (below src q) eqn:Hs; [|destruct (fs !! q) as [e|] eqn:Hq].
  - apply not_elem_of_list_to_map_1. intros Hk. apply list_elem_of_fmap in Hk as ([k e] & E & Hk). cbn in E. subst k. by apply Hin in Hk as [? _].
  - apply elem_of_list_to_map_1'; [|by apply Hin]. intros e' He'. apply Hin in He' as [_ He']. congruence.
  - apply not_elem_of_list_to_map_1. intros Hk. apply list_elem_of_fmap in Hk as ([k e] & E & Hk). cbn in E. subst k. apply Hin in Hk as [_ ?]. congruence.
Qed.

Section trees.
Context `{GoOs} (faulty : Prop) (fault_faulty : ∀ t k, faults t k ≠ Fine → faulty) (scratch : list string → Prop).
Local Abbreviation hoare := (hoare faulty).
Local Abbreviation is_tree := (is_tree scratch).

Lemma hoare_mkdir T p : ¬ scratch p → ¬ scratch (dir_of p) → T !! dir_of p = Some EDir →
  hoare (is_tree T) (mkdir p) (λ _ fs, T !! p = None ∧ is_tree (<[p := EDir]> T) fs)
    (λ e fs, is_tree T fs ∧ ((is_Some (T !! p) ∧ os_IsExist e = true) ∨ faulty)) (is_tree T).
Proof.
  intros Hp Hd HT. apply (hoare_step faulty fault_faulty); [|unfold nothing; auto..]. intros fs Hfs.
  rewrite (is_tree_at _ _ _ _ Hfs Hp), (is_tree_at _ _ _ _ Hfs Hd), HT. destruct (T !! p) as [e|]; [split; [done|left; eauto]|].
  split; [done|]. by apply insert_same.
Qed.
Lemma hoare_mkdir_temp T parent prefix : ¬ scratch parent → T !! parent = Some EDir → (∀ p, temp_of parent prefix p → scratch p) →
  hoare (is_tree T) (mkdir_temp parent prefix) (λ p fs, temp_of parent prefix p ∧ is_tree T fs) (λ _, is_tree T) (is_tree T).
Proof.
  intros Hp Hd Ht. unfold mkdir_temp. refine (hoare_at faulty (λ w0, step OpMkdir nothing (λ fs, _)) _ _ _ _ _). intros w0.
  set (p := parent ++ _). assert (temp_of parent prefix p) as Htp by (eexists; split; [done|apply temp_name_prefix]).
  apply (hoare_step faulty fault_faulty); [|unfold nothing; auto..]. intros fs HT. rewrite (is_tree_at _ _ _ _ HT Hp), Hd.
  destruct (fs !! p); [done|]. split; [done|]. unfold FsHoare.is_tree. rewrite same_insert_scratch; [done|by apply Ht].
Qed.
(** A rename into a scratch directory takes everything along. *)
Lemma hoare_rename_away T src dst : ¬ scratch src → (∀ q, below dst q = true → scratch q) →
  hoare (is_tree T) (rename_dir src dst) (λ _, is_tree (drop_below src T)) (λ _, is_tree T) (is_tree T).
Proof.
  intros Hs Hdst. apply (hoare_step faulty fault_faulty); [|unfold nothing; auto..]. intros fs HT.
  destruct (fs !! src) as [[]|]; [done| |done..]. destruct (fs !! dst); [done|]. destruct (fs !! dir_of dst) as [[]|]; [done| |done..].
  intros q Hq. rewrite move_tree_outside, lookup_drop_below.
  - destruct (below src q); [done|by apply HT].
  - destruct (below dst q) eqn:Hb; [|done]. by apply Hdst in Hb.
Qed.
(** A removal that may stop half-way. *)
Definition trimmed (p : list string) (T : Fs) (fs : Fs) : Prop := ∃ T', is_tree T' fs ∧ ∀ q, below p q = false → T' !! q = T !! q.
Lemma hoare_remove_all T p :
  hoare (is_tree T) (remove_all p) (λ _, is_tree (drop_below p T)) (λ _, trimmed p T) (trimmed p T).
Proof.
  assert (∀ fs q, q ∈ paths_below p fs ↔ below p q = true ∧ is_Some (fs !! q)) as Hb.
  { intros fs q. unfold paths_below. rewrite list_elem_of_filter, list_elem_of_fmap. split.
    - intros [? ([k e] & -> & Hk%elem_of_map_to_list)]. eauto.
    - intros [? [e He]]. split; [done|]. exists (q, e). split; [done|]. by apply elem_of_map_to_list. }
  assert (∀ fs n, is_tree T fs → trimmed p T (drop_paths (take n (filter (λ q, q ≠ p) (paths_below p fs))) fs)) as Hpart.
  { intros fs n HT. set (l := take n _). exists (drop_paths l T). split.
    - intros q Hq. rewrite !drop_paths_lookup. case_bool_decide; [done|by apply HT].
    - intros q Hq. rewrite drop_paths_lookup, bool_decide_false; [done|]. intros Hin%subseteq_take.
      apply list_elem_of_filter in Hin as [_ [Hin _]%Hb]. congruence. }
  apply (hoare_step faulty fault_faulty); [|auto..]. intros fs HT q Hq. rewrite drop_paths_lookup, lookup_drop_below.
  destruct (below p q) eqn:E; case_bool_decide as Hin; try done.
  - destruct (fs !! q) eqn:Hfs; [|done]. exfalso. apply Hin, Hb. eauto.
  - apply Hb in Hin as [? _]. congruence.
  - by apply HT.
Qed.
End trees.

Section entries.
Context `{GoOs} `{GoHash} `{GoNet} `{JsonCodec privateRecord} `{JsonCodec activePointer} `{JsonCodec pendingActivation}.
Context (dir : list string) (mark : Frame dir).
Local Abbreviation is_tree := (is_tree (scratch dir)).
Local Abbreviation kept := (kept dir mark).
Local Abbreviation synced := (synced dir mark).
Local Abbreviation in_sync := (in_sync dir mark).
Local Abbreviation on_disk := (on_disk dir mark).
Local Abbreviation has_generation := (has_generation dir).
Context (faulty : Prop) (fault_faulty : ∀ t k, faults t k ≠ Fine → faulty).
Local Abbreviation hoare := (hoare faulty).
Local Abbreviation at_start s T := (λ s' fs, s' = s ∧ is_tree T fs) (only parsing).

Lemma below_id id q : below (dir ++ [id]) q = true ↔ ∃ rest, q = dir ++ id :: rest.
Proof. rewrite below_spec. by setoid_rewrite <- app_assoc. Qed.
Lemma not_below_entry id x rest : x ≠ id → below (dir ++ [id]) (dir ++ x :: rest) = false.
Proof.
  intros Hne. destruct (below _ _) eqn:Hb; [|done]. apply below_id in Hb as (r & E%app_dir_inj). by simplify_eq.
Qed.
Lemma not_below_prefix id q : q ∈ prefixes dir → below (dir ++ [id]) q = false.
Proof. intros Hq. destruct (below _ _) eqn:Hb; [|done]. apply below_id in Hb as (r & ->). by apply (prefix_ne dir _ id r) in Hq. Qed.

(** ** delete_record *)
(** The trees of the other subscriptions. *)
Lemma kept_elsewhere T T' records a id :
  kept T records a → validID id = true → id ≠ activeFile → ap_ID a ≠ id → (∀ q, below (dir ++ [id]) q = false → T' !! q = T !! q) →
  made (scratch dir) T' dir ∧ names_selection dir T' a ∧ mark T' ∧
  ((ap_ID a = "" ∧ unnamed a) ∨ (is_Some (delete id records !! ap_ID a) ∧ has_generation T' (ap_ID a) (ap_ProfileHash a) (ap_CandidateHash a))) ∧
  (∀ i r, i ≠ id → records !! i = Some r → loaded dir T' i r) ∧
  (∀ i, i ≠ id → has_prefix i "." = false → T' !! (dir ++ [i]) = Some EDir → is_Some (records !! i)).
Proof.
  intros [Hm Hl Hr Hf Hk Ha] Hid Hna Hact Hout.
  assert (∀ i ph ch, i ≠ id → has_generation T i ph ch → has_generation T' i ph ch) as Hgen.
  { intros i ph ch Hne (p & c & [[Hp ?] [Hc ?]] & ?). exists p, c. split; [|done]. unfold generation_files, holds.
    by rewrite !(Hout _ (not_below_entry id i _ Hne)). }
  split_and!.
  - intros q Hq. destruct (Hm q Hq). split; [|done]. by rewrite Hout by by apply not_below_prefix.
  - unfold names_selection, holds in *. by rewrite (Hout _ (not_below_entry id activeFile [] (not_eq_sym Hna))).
  - eapply fr_local; [|done]. intros q [-> |Hq]; apply Hout; [apply not_below_entry; intros <-; by vm_compute in Hid|].
    destruct (below (dir ++ [id]) q) eqn:Hb; [|done]. apply below_id in Hb as [rest ->]. by rewrite (proj2 (below_spec dir _)) in Hq by eauto.
  - destruct Ha as [?|[? ?]]; [by left|right]. rewrite lookup_delete_ne by done. split; [done|]. by apply Hgen.
  - intros i r Hne Hi. destruct (Hr i r Hi) as [Hv Hd (b & [Hb ?] & ?) Hval Hg]. split; [done| | |done|].
    + by rewrite Hout by by apply not_below_entry.
    + exists b. split; [|done]. split; [|done]. by rewrite Hout by by apply not_below_entry.
    + destruct (streq (pr_Hash r) ""); [done|]. destruct Hg. split; [done|]. by apply Hgen.
  - intros i Hne Hv. rewrite Hout by by apply not_below_entry. by apply Hl.
Qed.
Lemma kept_drop T records a id r : kept T records a → records !! id = Some r → ap_ID a ≠ id →
  kept (drop_below (dir ++ [id]) T) (delete id records) a.
Proof.
  intros Hk Hr Hact. destruct (kp_loaded _ _ _ _ _ Hk id r Hr) as [Hid _ _ _ _].
  assert (id ≠ activeFile) as Hna by (intros ->; destruct (kept_active_file _ _ _ _ _ Hk); congruence).
  destruct (kept_elsewhere T (drop_below (dir ++ [id]) T) records a id) as (Hm & Hf & Hp & Ha & Hl & Hs); try done.
  { intros q Hq. by rewrite lookup_drop_below, Hq. }
  split; [done| | |done..].
  - intros i Hv Hd. destruct (decide (i = id)) as [->|Hne].
    + rewrite lookup_drop_below in Hd. by rewrite (proj2 (below_id id (dir ++ [id]))) in Hd by by exists [].
    + rewrite lookup_delete_ne by done. by apply Hs.
  - intros i r' [Hne Hi]%lookup_delete_Some. by apply Hl.
Qed.
Lemma synced_delete T records a s id T' : synced T records a s → kept T' (delete id records) a →
  synced T' (delete id records) a (with_records s (delete id (so_records s))).
Proof.
  intros [_ Ha Hr] Hk. split; [done|done|]. intros i. cbn. destruct (decide (i = id)) as [->|Hne].
  - rewrite !lookup_delete_eq. constructor.
  - rewrite !lookup_delete_ne by done. apply Hr.
Qed.

Lemma quarantine_temp id p : temp_of dir (deletePrefix +:+ id +:+ "-") p → scratch dir p ∧ ∀ q, below (p ++ ["record"]) q = true ∨ below p q = true → scratch dir q.
Proof.
  intros (t & -> & Ht%has_prefix_app). split.
  - apply (quarantine_scratch dir t); [done|]. apply below_id. by exists [].
  - intros q Hq. apply (quarantine_scratch dir t); [done|]. destruct Hq as [Hq|Hq]; [|done].
    apply below_spec in Hq as [rest ->]. apply below_id. exists ("record" :: rest). by rewrite <- !app_assoc.
Qed.

Lemma ends_delete_record T records a s id r :
  let s1 := with_records s (delete id (so_records s)) in
  synced T records a s → so_records s !! id = Some r → ap_ID a ≠ id →
  ends faulty (at_start s T) (delete_record dir id)
    (λ _ s' fs, s' = s1 ∧ in_sync (delete id records) a s' fs)
    (λ e s' fs, (e = ErrStore ∧ s' = s ∧ is_tree T fs) ∨ (e = ErrCleanupPending ∧ faulty ∧ s' = s1 ∧ in_sync (delete id records) a s' fs))
    (λ fs, on_disk records a fs ∨ on_disk (delete id records) a fs).
Proof.
  intros s1 Hs Hr Hact. pose proof Hs as [Hk Hsa _]. destruct (synced_record dir mark _ _ _ _ _ _ Hs Hr) as (d & Hd & _ & Hl).
  destruct (made_self _ _ _ (kp_made _ _ _ _ _ Hk)) as [Hdir _]. pose proof (validID_visible _ (ld_id _ _ _ _ Hl)) as Hvis.
  assert (∀ fs, is_tree T fs → on_disk records a fs) as Hold by (intros fs HT; by exists T).
  set (T1 := drop_below (dir ++ [id]) T). assert (kept T1 (delete id records) a) as Hk1 by by eapply kept_drop.
  assert (∀ fs, is_tree T1 fs → on_disk (delete id records) a fs ∧ in_sync (delete id records) a s1 fs) as Hnew.
  { intros fs HT. split; exists T1; (split; [done|]); [done|by eapply synced_delete]. }
  unfold delete_record. eapply (ends_found dir mark faulty); [done..|by auto|]. apply ends_receiver.
  assert (isActive s id = false) as -> by (unfold isActive; injection Hsa as -> _ _; by apply streq_false).
  eapply (ends_bind faulty _ _ _ (λ _, at_start s T)); [by apply ends_ret|]. intros [].
  eapply (ends_bind faulty _ _ _ (λ q s' fs, temp_of dir (deletePrefix +:+ id +:+ "-") q ∧ s' = s ∧ is_tree T fs)).
  { eapply ends_weaken; [apply (ends_writes faulty (at_start s T) s _ _ (is_tree T) (λ q fs, temp_of dir (deletePrefix +:+ id +:+ "-") q ∧ is_tree T fs) (is_tree T) (is_tree T) (λ e s' fs, e = ErrStore ∧ s' = s ∧ is_tree T fs))|done|..].
    - apply (hoare_mkdir_temp faulty fault_faulty (scratch dir) T dir (deletePrefix +:+ id +:+ "-")); [apply dir_not_scratch|done|].
      intros p Hp. by destruct (quarantine_temp id p Hp).
    - done.
    - done.
    - by intros q s' fs (-> & ? & ?).
    - by auto.
    - by auto. }
  intros quarantine. apply ends_pure. intros Hq.
  destruct (quarantine_temp id quarantine Hq) as [Hqs Hqb]. eapply ends_bind.
  { eapply (ends_writes faulty _ s _ _ (is_tree T) _ (is_tree T)); [eapply (hoare_on_failure faulty _ _ _ _ (λ _, is_tree T))|done|by auto].
    - eapply hoare_weaken; [apply (hoare_rename_away faulty fault_faulty (scratch dir) T)|done..|by auto]; [by apply entry_not_scratch|by auto].
    - intros e. eapply hoare_weaken; [by apply (hoare_remove_scratch faulty fault_faulty (scratch dir) T)|done..|by auto]. }
  intros []. eapply (ends_bind faulty _ _ _ (λ _ s' fs, s' = s1 ∧ is_tree T1 fs)).
  { apply ends_receiver. apply ends_put. by intros s' fs [-> ?]. }
  intros []. eapply ends_weaken; [apply (ends_writes faulty (λ s' fs, s' = s1 ∧ is_tree T1 fs) s1 _ _ (is_tree T1) (λ _, is_tree T1) (λ fs, faulty ∧ is_tree T1 fs) (is_tree T1) (λ e s' fs, e = ErrCleanupPending ∧ s' = s1 ∧ faulty ∧ is_tree T1 fs))|done|..].
  - eapply (hoare_then _ _ _ _ (is_tree T1)); [follow (hoare_sync faulty fault_faulty (is_tree T1))|intros []].
    eapply (hoare_then _ _ _ _ (is_tree T1)); [follow (hoare_sync faulty fault_faulty (is_tree T1))|intros []].
    eapply (hoare_then _ _ _ _ (is_tree T1)); [apply (hoare_remove_all_scratch faulty fault_faulty); by auto|intros []].
    follow (hoare_sync faulty fault_faulty (is_tree T1)).
  - done.
  - done.
  - intros [] s' fs [-> HT]. split; [done|]. by apply Hnew.
  - intros e s' fs (-> & -> & Hf & HT). right. split_and!; [done..|]. by apply Hnew.
  - intros fs HT. right. by apply Hnew.
Qed.

(** ** add *)
Lemma new_record_storable T sub : normalizeSubscription None sub = Ok sub → storable_record dir T (sb_ID sub) (durable (new_record sub)).
Proof.
  intros Hn. split; [|done]. unfold record_valid, durable, with_applied, new_record. cbn. rewrite Hn, streq_refl.
  by rewrite bool_decide_true.
Qed.
Lemma kept_new T T' records a sub body :
  let id := sb_ID sub in
  kept T records a → validID id = true → id ≠ activeFile → ap_ID a ≠ id → normalizeSubscription None sub = Ok sub →
  (∀ q, below (dir ++ [id]) q = false → T' !! q = T !! q) → T' !! (dir ++ [id]) = Some EDir →
  T' !! (dir ++ [id; recordFile]) = Some (EFile body) → record_body (durable (new_record sub)) body →
  kept T' (<[id := durable (new_record sub)]> records) a.
Proof.
  intros id Hk Hid Hna Hact Hn Hout Hd Hf [Hj Hlen]. destruct (kept_elsewhere T T' records a id) as (Hm & Hsel & Hp & Ha & Hl & Hs); try done.
  split; [done| | |done|done|].
  - intros i Hv Hi. destruct (decide (i = id)) as [->|Hne]; [rewrite lookup_insert_eq; eauto|]. rewrite lookup_insert_ne by done. by apply Hs.
  - intros i r [[<- <-]|[Hne Hi]]%lookup_insert_Some; [|by apply Hl].
    destruct (new_record_storable T' sub Hn). split; [done|done|by exists body|done|done].
  - rewrite lookup_insert_ne by done. by rewrite lookup_delete_ne in Ha by done.
Qed.

(** The directory with its record. *)
Definition wrote (T : Fs) (r : privateRecord) (fs : Fs) : Prop :=
  ∃ body, record_body (durable r) body ∧
    is_tree (<[dir ++ [sb_ID (pr_Subscription r); recordFile] := EFile body]> (<[dir ++ [sb_ID (pr_Subscription r)] := EDir]> T)) fs.
Lemma below_self id rest : below (dir ++ [id]) (dir ++ id :: rest) = true.
Proof. apply below_id. eauto. Qed.
Lemma ends_add_files T s sub :
  let id := sb_ID sub in let r := new_record sub in
  made (scratch dir) T dir → so_records s !! id = None → validID id = true → fits r →
  ends faulty (at_start s T) (add dir r)
    (λ _ s' fs, s' = put_record s id r ∧ wrote T r fs)
    (λ e s' fs, s' = s ∧ ((e = ErrAlreadyExists ∧ is_tree T fs) ∨ (e = ErrStore ∧ trimmed (scratch dir) (dir ++ [id]) T fs)))
    (λ fs, trimmed (scratch dir) (dir ++ [id]) T fs ∨ wrote T r fs).
Proof.
  intros id r Hm Hnone Hid Hfit. pose proof (validID_visible _ Hid) as Hvis. destruct (made_self _ _ _ Hm) as [Hdir Hdns].
  set (T1 := <[dir ++ [id] := EDir]> T).
  assert (∀ fs, is_tree T fs → trimmed (scratch dir) (dir ++ [id]) T fs) as Hold by (intros fs HT; by exists T).
  assert (∀ T' fs, is_tree T' fs → (∀ q, below (dir ++ [id]) q = false → T' !! q = T1 !! q) → trimmed (scratch dir) (dir ++ [id]) T fs) as Htrim.
  { intros T' fs HT Hq. exists T'. split; [done|]. intros q Hb. rewrite Hq by done. unfold T1. rewrite lookup_insert_ne; [done|].
    intros <-. by rewrite below_self in Hb. }
  assert (∀ fs, trimmed (scratch dir) (dir ++ [id]) T1 fs → trimmed (scratch dir) (dir ++ [id]) T fs) as Htrim1.
  { intros fs (T' & HT & Hq). by apply (Htrim T'). }
  unfold add, r. cbn [pr_Subscription new_record]. fold id. apply ends_receiver. rewrite Hnone, bool_decide_false by by intros [].
  eapply (ends_bind faulty _ _ _ (λ _, at_start s T)); [by apply ends_ret|]. intros [].
  eapply (ends_bind faulty _ _ _ (λ _ s' fs, s' = s ∧ is_tree T1 fs)).
  { eapply ends_weaken; [apply (ends_writes faulty (at_start s T) s (λ e, if os_IsExist e then ErrAlreadyExists else ErrStore) _ (is_tree T)
      (λ _, is_tree T1) (is_tree T) (is_tree T) (λ e s' fs, (e = ErrAlreadyExists ∨ e = ErrStore) ∧ s' = s ∧ is_tree T fs))|done|done|..].
    - unfold directory_of. destruct (dir_of_snoc dir id) as [Hdo _].
      eapply hoare_weaken; [apply (hoare_mkdir faulty fault_faulty (scratch dir) T)|done|..]; rewrite ?Hdo; [by apply entry_not_scratch|done|done|..].
      + by intros [] fs [_ ?].
      + by intros e fs [? _].
      + done.
    - done.
    - intros e fs HT. split; [|done]. destruct (os_IsExist e); auto.
    - intros e s' fs ([-> | ->] & -> & HT); auto.
    - by auto. }
  intros []. eapply (ends_bind faulty _ _ _ (λ _ s' fs, s' = s ∧ wrote T (new_record sub) fs)).
  2: { intros []. apply (ends_save faulty _ s). by intros s' fs [-> ?]. }
  eapply ends_weaken; [apply (ends_writes faulty (λ s' fs, s' = s ∧ is_tree T1 fs) s (λ _, ErrStore) _ (is_tree T1) (λ _, wrote T r)
    (trimmed (scratch dir) (dir ++ [id]) T) (λ fs, trimmed (scratch dir) (dir ++ [id]) T fs ∨ wrote T r fs)
    (λ e s' fs, e = ErrStore ∧ s' = s ∧ trimmed (scratch dir) (dir ++ [id]) T fs))|done|done| |done].
  - apply (hoare_on_failure faulty _ _ _ _ (λ _, is_tree T1)).
    + assert (T1 !! (dir ++ [id]) = Some EDir) as Hd1 by apply lookup_insert_eq.
      eapply (hoare_then _ _ _ _ (is_tree T1)).
      * eapply hoare_weaken; [apply (hoare_chmod faulty fault_faulty (scratch dir) T1); by apply entry_not_scratch|done|done|by intros e fs [? _]|].
        intros fs HT. left. by apply (Htrim T1).
      * intros []. eapply hoare_weaken; [apply (hoare_writeRecord dir faulty fault_faulty T1 id r)|done|..]; try done.
        -- intros q Hq. destruct (Hm q Hq). split; [|done]. unfold T1. rewrite lookup_insert_ne; [done|]. symmetry. by apply prefix_ne.
        -- intros fs [HT|Hw]; [left; by apply (Htrim T1)|by right].
    + intros e. eapply hoare_weaken; [apply (hoare_remove_all faulty fault_faulty (scratch dir) T1)|done|..].
      * intros [] fs HT. apply (Htrim (drop_below (dir ++ [id]) T1)); [done|]. intros q Hq. by rewrite lookup_drop_below, Hq.
      * intros e' fs. apply Htrim1.
      * intros fs. left. by apply Htrim1.
  - done.
  - by auto.
  - intros e s' fs (-> & -> & HT). auto.
Qed.
Lemma ends_add T records a s sub :
  let id := sb_ID sub in let r := new_record sub in let records' := <[id := durable r]> records in
  synced T records a s → so_records s !! id = None → id ≠ activeFile → normalizeSubscription None sub = Ok sub → fits r →
  ends faulty (at_start s T) (add dir r)
    (λ _ s' fs, s' = put_record s id r ∧ in_sync records' a s' fs)
    (λ e s' fs, s' = s ∧ ((e = ErrAlreadyExists ∧ is_tree T fs) ∨ (e = ErrStore ∧ trimmed (scratch dir) (dir ++ [id]) T fs)))
    (λ fs, trimmed (scratch dir) (dir ++ [id]) T fs ∨ on_disk records' a fs).
Proof.
  intros id r records' Hs Hnone Hna Hn Hfit. pose proof Hs as [Hk Hsa Hrec]. pose proof (normalize_id _ _ _ Hn) as Hid. fold id in Hid.
  assert (ap_ID a ≠ id) as Hact.
  { intros E. destruct (kp_applied _ _ _ _ _ Hk) as [[Hai _]|[[d Hd] _]]; [rewrite Hai in E; by rewrite <- E in Hid|].
    specialize (Hrec id). rewrite Hnone, <- E, Hd in Hrec. by inversion Hrec. }
  assert (∀ fs, wrote T r fs → on_disk records' a fs) as Hnew.
  { intros fs (body & Hb & HT). eexists. split; [exact HT|]. eapply (kept_new T); [done..| | | |done]; cbn; fold id.
    - intros q Hq. rewrite !lookup_insert_ne; [done|intros <-..]; by rewrite below_self in Hq.
    - rewrite lookup_insert_ne by (by intros E%app_dir_inj). apply lookup_insert_eq.
    - apply lookup_insert_eq. }
  eapply ends_weaken; [apply (ends_add_files T s sub); [by apply kp_made in Hk|done..]|done| |done|].
  - intros [] s' fs [-> Hw]. split; [done|]. destruct (Hnew fs Hw) as (T' & HT & Hk'). exists T'. split; [done|].
    split; [done|done|]. intros i. cbn. unfold records'. destruct (decide (i = id)) as [->|Hne]; [|rewrite !lookup_insert_ne by done; apply Hrec].
    rewrite !lookup_insert_eq. constructor. split; [done|]. split; [done|]. unfold applied_of. cbn. by rewrite (proj2 (streq_false id (ap_ID a)) (not_eq_sym Hact)).
  - intros fs [?|?]; auto.
Qed.

(** ** Trees that do not open *)
Lemma bare_directory_closed T id : has_prefix id "." = false → T !! (dir ++ [id]) = Some EDir → T !! (dir ++ [id; recordFile]) = None →
  ∀ m b, ¬ disk dir T m b.
Proof.
  intros Hv Hd Hn m b [_ Hl Hr _]. destruct (Hl id Hv Hd) as [r Hid]. destruct (Hr id r Hid) as [_ _ (body & [Hb _] & _) _ _]. congruence.
Qed.
Lemma active_directory_closed T : T !! (dir ++ [activeFile]) = Some EDir → ∀ m b, ¬ disk dir T m b.
Proof. intros Hd m b [_ _ _ [[Hn _]|(body & raw & [Hb _] & _)]]; congruence. Qed.
End entries.
