(* ===== verification/SubscriptionActivation.v ===== *)
(** * Activation: one decision over two stores

    [Activate] selects a generation while the application's registry commits the
    resources the profile uses.  Whatever fails, or wherever the process dies,
    the selection that [RecoverPendingActivation] settles on is the new one
    exactly when the registry's commit is the new one. *)
From Stdlib Require Import Ascii.
From S2P Require Import Prelude GoTime GoStrings GoNet GoSort GoJson GoFs ConfigTypes ResourceStore Download CoreSnapshot ConfigWrite SubscriptionModel SubscriptionFacts SubscriptionStore SubscriptionService FsLogic FsHoare SubscriptionFiles SubscriptionOpen SubscriptionKept SubscriptionSync SubscriptionSelect SubscriptionRecover.
Open Scope Z_scope.

Lemma active_eta a : mkActive (ap_ID a) (ap_ProfileHash a) (ap_CandidateHash a) = a.
Proof. by destruct a. Qed.

(** ** What the service relies on *)
(** A callback may change anything but the store's directory; the registry's
    commit is [commit] afterwards. *)
Definition leaves (dir : list string) `{RegistryCommit dir} (T : Fs) (commit : string) (fs : Fs) : Prop :=
  ∃ T', is_tree (scratch dir) T' fs ∧ (∀ q, below dir q = true → T' !! q = T !! q) ∧ made (scratch dir) T' dir ∧ registry_commit T' = commit.
(** The registry's commit once what is staged is accepted; nothing staged is the empty id. *)
Definition accepted_commit (staged commit : string) : string := if streq staged "" then commit else staged.
Class Host `{GoOs} (dir : list string) `{RegistryCommit dir} (R : Type) `{App R} (faulty : Prop) := {
  staged : R → string;
  host_pending : ∀ pending r x r', app_pending_commit = Some pending → pending r = (x, r') → x = staged r ∧ staged r' = staged r;
  host_unstaged : app_pending_commit = None ∨ app_finalize = None → ∀ r, staged r = "";
  host_apply : ∀ profile r T, made (scratch dir) T dir →
    hoare faulty (is_tree (scratch dir) T) (app_apply profile r) (λ _, leaves dir T (registry_commit T)) (λ _ _, False) (leaves dir T (registry_commit T));
  host_restore : ∀ profile r T, made (scratch dir) T dir →
    hoare faulty (is_tree (scratch dir) T) (app_restore profile r) (λ _, leaves dir T (registry_commit T)) (λ _ _, False) (leaves dir T (registry_commit T));
  host_finalize : ∀ finalize r T, app_finalize = Some finalize → made (scratch dir) T dir →
    hoare faulty (is_tree (scratch dir) T) (finalize r)
      (λ ok fs, leaves dir T (if ok.1 : bool then accepted_commit (staged r) (registry_commit T) else registry_commit T) fs) (λ _ _, False)
      (λ fs, leaves dir T (registry_commit T) fs ∨ leaves dir T (accepted_commit (staged r) (registry_commit T)) fs)
}.

Section activation.
Context `{GoOs} `{GoHash} `{GoNet} `{JsonCodec privateRecord} `{JsonCodec activePointer} `{JsonCodec pendingActivation}.
Context (dir : list string) `{RegistryCommit dir} {R : Type} `{App R}.
Context (faulty : Prop) (fault_faulty : ∀ t k, faults t k ≠ Fine → faulty) `{!Host dir R faulty}.
Local Abbreviation is_tree := (is_tree (scratch dir)).
Local Abbreviation kept := (kept dir).
Local Abbreviation synced := (synced dir).
Local Abbreviation in_sync := (in_sync dir).
Local Abbreviation at_mark := (at_mark dir).
Local Abbreviation at_start s T := (λ s' fs, s' = s ∧ is_tree T fs) (only parsing).

(** ** Callbacks and the store *)
Lemma kept_inside mp c c' T T' records a : kept (at_mark mp c) T records a →
  (∀ q, below dir q = true → T' !! q = T !! q) → made (scratch dir) T' dir → registry_commit T' = c' → kept (at_mark mp c') T' records a.
Proof.
  intros [_ Hl Hr Hf [Hm _] Ha] Hin Hmade Hc. assert (∀ rest, T' !! (dir ++ rest) = T !! (dir ++ rest)) as Hq.
  { intros rest. apply Hin, below_spec. eauto. }
  assert (∀ i ph ch, has_generation dir T i ph ch → has_generation dir T' i ph ch) as Hgen.
  { intros i ph ch (p & q & Hg & ?). exists p, q. split; [|done]. unfold generation_files, holds in *. by rewrite !Hq. }
  split; [done| | | | |].
  - intros i Hv. rewrite Hq. by apply Hl.
  - intros i r Hi. destruct (Hr i r Hi) as [Hv Hd (b & Hb & Hj) Hval Hg]. split; [done|by rewrite Hq| |done|].
    + exists b. unfold holds in *. by rewrite Hq.
    + destruct (streq (pr_Hash r) ""); [done|]. destruct Hg. split; [done|]. by apply Hgen.
  - unfold names_selection, holds in *. by rewrite Hq.
  - split; [by rewrite Hq|done].
  - destruct Ha as [?|[? ?]]; [by left|right]. split; [done|]. by apply Hgen.
Qed.
Lemma leaves_in_sync mp c c' T records a s fs : synced (at_mark mp c) T records a s → leaves dir T c' fs → in_sync (at_mark mp c') records a s fs.
Proof. intros [Hk Ha Hr] (T' & HT & Hin & Hm & Hc). exists T'. split; [done|]. split; [by eapply kept_inside|done..]. Qed.

(** *** Calls *)
(** The store's state with what memory and disk hold; [Z] of the application. *)
Definition stage (mark : Frame dir) (records : gmap string privateRecord) (a : activePointer) (Z : Store → R → Prop) : Service R → Fs → Prop :=
  λ v fs, Z (sv_store v) (sv_app v) ∧ in_sync mark records a (sv_store v) fs.
Definition at_ (s : Store) (r : R) (T : Fs) : Service R → Fs → Prop := λ v fs, sv_store v = s ∧ sv_app v = r ∧ is_tree T fs.
Lemma ends_stage {A : Type} mark records a Z (m : Call A) Q F X :
  (∀ T s r, Z s r → synced mark T records a s → ends faulty (at_ s r T) m Q F X) → ends faulty (stage mark records a Z) m Q F X.
Proof. intros Hm v w (HZ & T & HT & Hs). by apply (Hm T _ _ HZ Hs v w). Qed.
Lemma ends_on_store {A : Type} s r T (m : Method A) Q F X :
  ends faulty (at_start s T) m Q F X →
  ends faulty (at_ s r T) (on_store m) (λ a v fs, sv_app v = r ∧ Q a (sv_store v) fs) (λ e v fs, sv_app v = r ∧ F e (sv_store v) fs) X.
Proof.
  intros Hm v w (Hs & Hr & HT). specialize (Hm (sv_store v) w (conj Hs HT)). unfold on_store, mbind, io_bind.
  destruct (m (sv_store v) w) as [[[[a|e] s']|e|] w']; done.
Qed.
Lemma ends_on_app {A : Type} s r T (act : Act R A) (Q : A → R → Fs → Prop) F X :
  FsHoare.hoare faulty (is_tree T) (act r) (λ ar, Q ar.1 ar.2) (λ _ _, False) X →
  ends faulty (at_ s r T) (on_app act) (λ a v fs, sv_store v = s ∧ Q a (sv_app v) fs) F X.
Proof.
  intros Ha v w (Hs & Hr & HT). specialize (Ha w HT). unfold on_app, mbind, io_bind. rewrite Hr.
  by destruct (act r w) as [[[a r']|e|] w'].
Qed.
Lemma ends_asks {A : Type} s r T (f : R → A * R) (F : sub_error → Service R → Fs → Prop) X :
  ends faulty (at_ s r T) (asks f) (λ a v fs, a = (f r).1 ∧ at_ s (f r).2 T v fs) F X.
Proof. intros v w (Hs & Hr & HT). unfold asks, on_app, mbind, io_bind, mret, io_ret, at_. rewrite Hr. by destruct (f r). Qed.

(** ** The decision *)
Section decision.
Context (records : gmap string privateRecord) (a : activePointer) (c id : string) (r : privateRecord).
Local Abbreviation new := (mkActive id (pr_Hash r) (pr_CandidateHash r)).
Local Abbreviation marked mp commit b fs := (marked dir mp commit records b fs) (only parsing).
Local Abbreviation settles commit b fs := (settles dir records commit b fs) (only parsing).
Local Abbreviation stage mark b Z := (stage mark records b Z) (only parsing).
(** The marker for a commit, none if nothing is staged. *)
Definition note_of (x : string) : pendingActivation := mkPending (ap_ID a) (ap_ProfileHash a) (ap_CandidateHash a) x false.
Definition note (x : string) : option pendingActivation := if streq x "" then None else Some (note_of x).
(** Recovery goes back with the registry's old commit, and forward with a new one. *)
Definition decided (fs : Fs) : Prop :=
  settles c a fs ∨ ∃ q : R, settles (accepted_commit (staged q) c) new fs.
Context (fresh : ∀ q : R, staged q ≠ "" → staged q ≠ c).

Lemma settles_plain commit b fs : marked None commit b fs → settles commit b fs.
Proof. intros Hm. by exists None, b. Qed.
Lemma in_sync_marked mp commit b s fs : in_sync (at_mark mp commit) records b s fs → marked mp commit b fs.
Proof. intros (T & HT & [Hk _ _]). by exists T. Qed.
Lemma decided_before x b (q : R) fs : x = staged q → b = a ∨ b = new → marked (note x) c b fs → decided fs.
Proof.
  intros Hx Hb Hm. unfold note in Hm. destruct (streq x "") eqn:E.
  - destruct Hb as [-> | ->]; [left; by apply settles_plain|right; exists q]. unfold accepted_commit. rewrite <- Hx, E. by apply settles_plain.
  - apply streq_false in E. left. exists (Some (note_of x)), b. split; [done|]. unfold settled, goes_back. cbn.
    rewrite (proj2 (streq_false x c)); [exact (active_eta a)|]. rewrite Hx in *. by apply fresh.
Qed.
Lemma decided_after x (q : R) fs : x = staged q → marked (note x) (accepted_commit x c) new fs → decided fs.
Proof.
  intros -> Hm. right. exists q. unfold note, accepted_commit in *. destruct (streq (staged q) "") eqn:E; [by apply settles_plain|].
  exists (Some (note_of (staged q))), new. split; [done|]. unfold settled, goes_back. cbn. by rewrite streq_refl.
Qed.
Lemma decided_accepted x (q : R) fs : x = staged q → x ≠ "" → marked (Some (accepted_marker (note_of x))) (accepted_commit x c) new fs → decided fs.
Proof. intros -> Hx Hm. right. exists q. by exists (Some (accepted_marker (note_of (staged q)))), new. Qed.
Lemma decided_plain x (q : R) fs : x = staged q → marked None (accepted_commit x c) new fs → decided fs.
Proof. intros -> Hm. right. exists q. by apply settles_plain. Qed.

(** ** Steps *)
Local Abbreviation stops P m Q := (ends faulty P m Q (λ _ _, decided) decided) (only parsing).
Lemma ends_restore mp b Z prof (F : sub_error → Service R → Fs → Prop) :
  ends faulty (stage (at_mark mp c) b Z) (on_app (app_restore prof)) (λ _, stage (at_mark mp c) b (λ _ _, True)) F (λ fs, marked mp c b fs).
Proof.
  apply ends_stage. intros T s q _ Hs. pose proof Hs as [Hk _ _]. destruct (kp_mark _ _ _ _ _ Hk) as [_ Hc].
  eapply ends_weaken; [apply (ends_on_app s q T _ (λ _ _ fs, leaves dir T c fs) F (leaves dir T c))|done| |done|].
  - rewrite <- Hc. apply host_restore. by destruct Hk.
  - intros ok v fs [<- Hl]. split; [done|]. by eapply leaves_in_sync.
  - intros fs Hl. eapply in_sync_marked, leaves_in_sync; [exact Hs|done].
Qed.
(** The end of a failure: nothing more happens to memory and disk. *)
Lemma ends_gives_up {A : Type} mp b e x (q : R) Z Q : x = staged q → mp = note x ∨ mp = None ∧ b = a → b = a ∨ b = new →
  stops (stage (at_mark mp c) b Z) (raise e : Call A) Q.
Proof.
  intros Hx Hmp Hb. apply ends_raise. intros v fs [_ Hi%in_sync_marked]. destruct Hmp as [-> | [-> ->]]; [by eapply decided_before|left; by apply settles_plain].
Qed.
Lemma at_stage mark b s q T (Z : Store → R → Prop) v fs : synced mark T records b s → Z s q → at_ s q T v fs → stage mark b Z v fs.
Proof. intros Hs HZ (<- & <- & HT). split; [done|by exists T]. Qed.
Lemma ends_clears b Z x (q : R) Q (k : result sub_error unit → Call unit) : x = staged q → b = a →
  (∀ r mp, mp = note x ∨ mp = None → stops (stage (at_mark mp c) b (λ _ _, True)) (k r) Q) →
  stops (stage (at_mark (note x) c) b Z) (attempt_op (on_store (clearActivationPending dir)) ≫= k) Q.
Proof.
  intros Hx -> Hk. apply ends_stage. intros T s q' _ Hs.
  eapply (ends_bind faulty _ _ _ (λ _ v fs, ∃ mp, (mp = note x ∨ mp = None) ∧ stage (at_mark mp c) a (λ _ _, True) v fs)).
  - eapply ends_weaken; [eapply (ends_attempt faulty _ _ _ _ (λ _ _ _, False)), ends_on_store, (ends_clearPending dir faulty fault_faulty (note x) c T records a s Hs)|done| |done|].
    + intros [[]|e] v fs.
      * intros (_ & <- & Hi). exists None. split; [by right|]. by split.
      * intros (_ & _ & <- & HT). exists (note x). split; [by left|]. split; [done|by exists T].
    + intros fs HT. eapply (decided_before x a q); [done|by left|]. exists T. by destruct Hs.
  - intros res v w (mp & Hmp & Hv). by apply (Hk res mp Hmp v w).
Qed.

Lemma ends_select_applied s1 x (q : R) prof :
  x = staged q → fits_pointer new → fits_pending (note_of x) →
  stops (stage (at_mark None c) a (λ s q, s = s1 ∧ staged q = x)) (select_applied dir id r (ap_ID a, ap_ProfileHash a, ap_CandidateHash a) prof x)
    (λ _, stage (at_mark (note x) c) new (λ _ q, staged q = x)).
Proof.
  intros Hx Hfit Hfitp. unfold select_applied. eapply (ends_bind faulty _ _ _ (λ _, stage (at_mark (note x) c) a (λ _ q, staged q = x))).
  { unfold note. destruct (streq x "") eqn:E.
    - apply ends_ret. intros v fs [[_ ?] ?]. by split.
    - apply ends_stage. intros T s q' [-> Hq] Hs. eapply ends_bind.
      + eapply ends_weaken; [eapply (ends_attempt faulty _ _ _ _ (λ _ _ _, False)), ends_on_store, (ends_markPending dir faulty fault_faulty c T records a s1 x Hs Hfitp)|done| |done|].
        * intros res v fs Hres. exact Hres.
        * intros fs [Hm|Hm]; [left; by apply settles_plain|]. eapply (decided_before x a q); [done|by left|]. unfold note. by rewrite E.
      + intros [[]|e]; cbn [is_ok].
        * apply ends_ret. intros v fs (Hv & Hst & Hi). split; [by rewrite Hv|by rewrite Hst].
        * eapply (ends_bind faulty _ _ _ (λ _, stage (at_mark None c) a (λ _ _, True))); [eapply ends_weaken; [apply (ends_restore None a (λ _ _, True) prof (λ _ _, decided))| |done|done|]|].
          -- intros v fs (_ & Hst & HT). split; [done|exists T; by rewrite Hst].
          -- intros fs. left. by apply settles_plain.
          -- intros restored. eapply (ends_gives_up None a _ x q); [done|by right|by left]. }
  intros []. apply ends_stage. intros T s q' Hq Hs. eapply ends_bind.
  { eapply ends_weaken; [eapply (ends_attempt faulty _ _ _ _ (λ _ _ _, False)), ends_on_store, (ends_setApplied dir (at_mark (note x) c) faulty fault_faulty T records a s id (pr_Hash r) (pr_CandidateHash r) Hs Hfit)|done| |done|].
    - intros res v fs Hres. exact Hres.
    - intros fs [Hm|Hm]; [apply (decided_before x a q)|apply (decided_before x new q)]; auto. }
  intros [[]|e]; cbn [is_ok].
  { apply ends_ret. intros v fs (Hv & _ & Hst & Hi). split; [by rewrite Hv|done]. }
  eapply (ends_bind faulty _ _ _ (λ _, stage (at_mark (note x) c) a (λ _ _, True))).
  { eapply ends_weaken; [apply (ends_restore (note x) a (λ _ _, True) prof (λ _ _, decided))| |done|done|].
    - intros v fs (_ & _ & Hst & HT). split; [done|exists T; by rewrite Hst].
    - intros fs Hm. eapply (decided_before x a q); [done|by left|done]. }
  intros restored. eapply (ends_bind faulty _ _ _ (λ _, stage (at_mark (note x) c) a (λ _ _, True))).
  { destruct restored; cbn; [by apply ends_ret|]. eapply (ends_gives_up (note x) a _ x q); [done|by left|by left]. }
  intros []. eapply (ends_bind faulty _ _ _ (λ _ v fs, ∃ mp, (mp = note x ∨ mp = None) ∧ stage (at_mark mp c) a (λ _ _, True) v fs)).
  { destruct (streq x "") eqn:E; [apply ends_ret; intros v fs ?; eexists; by split; [left|]|].
    apply (ends_clears a _ x q); [done..|]. intros [[]|e'] mp Hmp; [apply ends_ret; intros v fs ?; by exists mp|].
    destruct Hmp as [-> | ->]; eapply (ends_gives_up _ a _ x q); naive_solver. }
  intros []. apply ends_raise. intros v fs (mp & Hmp & [_ Hi%in_sync_marked]).
  destruct Hmp as [-> | ->]; [by apply (decided_before x a q); [|left|]|left; by apply settles_plain].
Qed.

Lemma ends_undo_applied x (q : R) prof Z : x = staged q → fits_pointer a → (ap_ID a = "" → ap_ProfileHash a = "" ∧ ap_CandidateHash a = "") →
  stops (stage (at_mark (note x) c) new Z) (undo_applied dir (ap_ID a, ap_ProfileHash a, ap_CandidateHash a) prof false x) (λ _ _ _, False).
Proof.
  intros Hx Hfit Hempty. assert (∀ b fs, b = a ∨ b = new → marked (note x) c b fs → decided fs) as Hdec by (intros b fs; by apply (decided_before x b q)).
  unfold undo_applied. eapply (ends_bind faulty _ _ _ (λ _, stage (at_mark (note x) c) new (λ _ _, True))).
  { eapply ends_weaken; [apply (ends_restore (note x) new (λ _ _, True) prof (λ _ _, decided))|by intros v fs [_ ?]|done|done|].
    intros fs. apply Hdec. by right. }
  intros restored. eapply (ends_bind faulty _ _ _ (λ _, stage (at_mark (note x) c) new (λ _ _, True))).
  { destruct restored; cbn; [by apply ends_ret|]. eapply (ends_gives_up (note x) new _ x q); [done|by left|by right]. }
  intros []. eapply (ends_bind faulty _ _ _ (λ _ v fs, ∃ mp, (mp = note x ∨ mp = None) ∧ stage (at_mark mp c) a (λ _ _, True) v fs)).
  2: { intros []. apply ends_raise. intros v fs (mp & Hmp & [_ Hi%in_sync_marked]).
       destruct Hmp as [-> | ->]; [by apply (Hdec a); [left|]|left; by apply settles_plain]. }
  apply ends_stage. intros T s q' _ Hs. eapply ends_bind.
  { eapply ends_weaken; [eapply (ends_attempt faulty _ _ _ _ (λ _ _ _, False)), ends_on_store,
      (ends_restoreApplied dir faulty fault_faulty (at_mark (note x) c) T records new s _ _ _ Hs)|done| |done|].
    - by rewrite active_eta.
    - done.
    - intros res v fs Hres. exact Hres.
    - rewrite active_eta. intros fs [Hm|Hm]; [apply (Hdec new)|apply (Hdec a)]; auto. }
  rewrite active_eta. intros [[]|e]; cbn [is_ok negb fail_when].
  2: { eapply (ends_bind faulty _ _ _ (λ _ _ _, False)); [|by intros ? ? ? []]. apply ends_raise. intros v fs (_ & _ & Hst & HT). apply (Hdec new); [by right|]. exists T. by destruct Hs. }
  eapply (ends_bind faulty _ _ _ (λ _, stage (at_mark (note x) c) a (λ _ _, True))).
  { apply ends_ret. intros v fs (_ & Hst & Hi). by split. }
  intros []. destruct (streq x "") eqn:E; [apply ends_ret; intros v fs ?; eexists; by split; [left|]|].
  apply (ends_clears a _ x q); [done..|]. intros [[]|e'] mp Hmp; cbn; [apply ends_ret; intros v fs ?; by exists mp|].
  destruct Hmp as [-> | ->]; eapply (ends_gives_up _ a _ x q); naive_solver.
Qed.
Lemma ends_finalize mp b Z fin x (F : sub_error → Service R → Fs → Prop) : app_finalize = Some fin → (∀ s q, Z s q → staged q = x) →
  ends faulty (stage (at_mark mp c) b Z) (on_app fin)
    (λ ok, stage (at_mark mp (if ok : bool then accepted_commit x c else c)) b (λ _ _, True)) F
    (λ fs, marked mp c b fs ∨ marked mp (accepted_commit x c) b fs).
Proof.
  intros Hfin HZ. apply ends_stage. intros T s q Hq Hs. pose proof Hs as [Hk _ _]. destruct (kp_mark _ _ _ _ _ Hk) as [_ Hc].
  eapply ends_weaken; [apply (ends_on_app s q T fin (λ ok _ fs, leaves dir T (if ok then accepted_commit x c else c) fs) F
    (λ fs, leaves dir T c fs ∨ leaves dir T (accepted_commit x c) fs))|done| |done|].
  - rewrite <- Hc, <- (HZ s q Hq). apply host_finalize; [done|]. by destruct Hk.
  - intros ok v fs [<- Hl]. split; [done|]. by eapply leaves_in_sync.
  - intros fs [Hl|Hl]; [left|right]; (eapply in_sync_marked, leaves_in_sync; [exact Hs|done]).
Qed.
(** The marker's way out after the resources are accepted. *)
Lemma ends_accept x (q : R) Z : x = staged q → fits_pending (accepted_marker (note_of x)) →
  stops (stage (at_mark (note x) (accepted_commit x c)) new Z)
    (if streq x "" then mret tt else cleanup_pending (markActivationAccepted dir) ≫= λ _, cleanup_pending (clearActivationPending dir))
    (λ _, stage (at_mark None (accepted_commit x c)) new (λ _ _, True)).
Proof.
  intros Hx Hfit. unfold note. destruct (streq x "") eqn:E; [apply ends_ret; intros v fs [_ ?]; by split|].
  assert (x ≠ "") as Hne by by apply streq_false. assert (note x = Some (note_of x)) as Hnote by (unfold note; by rewrite E).
  assert (∀ fs, marked (Some (note_of x)) (accepted_commit x c) new fs → decided fs) as Hnoted.
  { intros fs Hm. apply (decided_after x q); [done|]. by rewrite Hnote. }
  assert (∀ fs, marked (Some (accepted_marker (note_of x))) (accepted_commit x c) new fs → decided fs) as Hacc by (intros fs; by apply (decided_accepted x q)).
  eapply (ends_bind faulty _ _ _ (λ _, stage (at_mark (Some (accepted_marker (note_of x))) (accepted_commit x c)) new (λ _ _, True))).
  - apply ends_stage. intros T s q' _ Hs. unfold cleanup_pending. eapply ends_bind.
    + eapply ends_weaken; [eapply (ends_attempt faulty _ _ _ _ (λ _ _ _, False)), ends_on_store, (ends_markAccepted dir faulty fault_faulty _ _ T records new s Hs Hfit)|done| |done|].
      * intros res v fs Hres. exact Hres.
      * intros fs [?|?]; auto.
    + intros [[]|e]; [apply ends_ret; intros v fs (_ & Hst & Hi); split; [done|by rewrite Hst]|].
      apply ends_raise. intros v fs (_ & _ & HT). apply Hnoted. exists T. by destruct Hs.
  - intros []. apply ends_stage. intros T s q' _ Hs. unfold cleanup_pending. eapply ends_bind.
    + eapply ends_weaken; [eapply (ends_attempt faulty _ _ _ _ (λ _ _ _, False)), ends_on_store, (ends_clearPending dir faulty fault_faulty _ _ T records new s Hs)|done| |done|].
      * intros res v fs Hres. exact Hres.
      * intros fs HT. apply Hacc. exists T. by destruct Hs.
    + intros [[]|e]; [apply ends_ret; intros v fs (_ & Hst & Hi); split; [done|by rewrite Hst]|].
      apply ends_raise. intros v fs (_ & _ & _ & HT). apply Hacc. exists T. by destruct Hs.
Qed.

(** ** Reading *)
Lemma sees_the_record s T : sees faulty dir s T (the_record id) (λ r', so_records s !! id = Some r') (λ _, True).
Proof.
  eapply ends_weaken; [apply (ends_the_record_at dir faulty T s id)|done|done| |done]. by intros e s' fs [_ ?].
Qed.
Lemma sees_recordSnapshot s T : validID id = true →
  sees faulty dir s T (recordSnapshot dir id) (λ found, so_records s !! id = Some found.1.1) (λ _, True).
Proof.
  intros Hid. unfold recordSnapshot. eapply sees_bind; [apply sees_the_record|]. intros r' Hr.
  eapply sees_bind; [by apply sees_fail_when|]. intros [] _. eapply sees_bind.
  { eapply (sees_io _ _ _ _ _ _ (λ _, True) _ (λ _, True)); [|done]. eapply hoare_weaken; [by apply (hoare_readGenerationFiles faulty fault_faulty dir T id), validID_visible|done|..|done].
    - by intros files fs [_ ?].
    - by intros e fs [? _]. }
  intros [profile candidate] _. eapply sees_bind; [by apply sees_fail_when|]. intros [] _. by apply sees_ret.
Qed.
Lemma sees_ActiveProfile mp T s : synced (at_mark mp c) T records a s → sees faulty dir s T (ActiveProfile dir) (λ _, True) (λ _, True).
Proof.
  intros [Hk Hsa _]. injection Hsa as Hsid Hsp Hsc. unfold ActiveProfile. apply ends_receiver.
  destruct (streq (so_activeID s) "") eqn:E; [by apply sees_raise|]. apply streq_false in E.
  eapply (sees_bind _ _ _ _ _ _ (λ _, True)); [|intros p _; by apply sees_ret].
  eapply sees_weaken; [apply (sees_readPairProfile faulty fault_faulty)|done|done].
  destruct (kept_selectable _ _ _ _ _ Hk) as [[Hn _]|[[r' Hr'] _]]; [congruence|]. rewrite Hsid. by destruct (kp_loaded _ _ _ _ _ Hk _ _ Hr').
Qed.

(** ** Activate *)
Section activate.
Context (s0 : Store) (Hr : so_records s0 !! id = Some r).
Local Abbreviation before := (stage (at_mark None c) a (λ s _, s = s0)) (only parsing).
Lemma before_decided v fs : before v fs → decided fs.
Proof. intros [_ Hi%in_sync_marked]. left. by apply settles_plain. Qed.
Lemma ends_stops {A : Type} e Q : stops before (raise e : Call A) Q.
Proof. apply ends_raise. intros v fs. apply before_decided. Qed.
Lemma ends_reads {A : Type} (m : Method A) (Q : A → Prop) :
  (∀ T, synced (at_mark None c) T records a s0 → sees faulty dir s0 T m Q (λ _, True)) →
  ends faulty before (on_store m) (λ x v fs, Q x ∧ before v fs) (λ _, before) decided.
Proof.
  intros Hm. apply ends_stage. intros T s q -> Hs. eapply ends_weaken; [apply ends_on_store, (Hm T Hs)|done|..].
  - intros x v fs (_ & HQ & Hst & HT). split; [done|]. split; [done|exists T; by rewrite Hst].
  - intros e v fs (_ & _ & Hst & HT). split; [done|exists T; by rewrite Hst].
  - intros fs HT. left. apply settles_plain. exists T. by destruct Hs.
Qed.
Lemma ends_the_store {A : Type} (k : Store → Call A) Q : stops before (k s0) Q → stops before (the_store ≫= k) Q.
Proof.
  intros Hk v w Hv. assert (sv_store v = s0) as Hst by by destruct Hv. unfold the_store, mbind, op_bind, mbind, io_bind, mret, io_ret. cbn.
  rewrite Hst. by apply (Hk v w Hv).
Qed.
Lemma ends_unless_over (c' : ctx) : stops before (unless_over c') (λ _, before).
Proof.
  unfold unless_over. eapply (ends_bind faulty _ _ _ (λ _, before)).
  - apply ends_stage. intros T s q -> Hs. eapply ends_weaken; [apply (ends_asks s0 q T _ (λ _ _, decided) decided)|done| |done|done].
    intros e v fs [_ (<- & _ & HT)]. split; [done|by exists T].
  - intros [e|]; [apply ends_stops|by apply ends_ret].
Qed.
Lemma ends_apply prof : stops before (on_app (app_apply prof)) (λ _, before).
Proof.
  apply ends_stage. intros T s q -> Hs. pose proof Hs as [Hk _ _]. destruct (kp_mark _ _ _ _ _ Hk) as [_ Hc].
  eapply ends_weaken; [apply (ends_on_app s0 q T _ (λ _ _ fs, leaves dir T c fs) (λ _ _, decided) (leaves dir T c))|done| |done|].
  - rewrite <- Hc. apply host_apply. by destruct Hk.
  - intros ok v fs [Hst Hl]. split; [done|]. rewrite Hst. by eapply leaves_in_sync.
  - intros fs Hl. left. eapply settles_plain, in_sync_marked, leaves_in_sync; [exact Hs|done].
Qed.
Lemma same_applied_new mp T : validID id = true → synced (at_mark mp c) T records a s0 → same_applied s0 id r = true → a = new.
Proof.
  intros Hid Hs. pose proof Hs as [_ Hsa _]. injection Hsa as Hsid Hsp Hsc. unfold same_applied, isActive.
  intros [[Hact%streq_true Hp%streq_true]%andb_true_iff Hcd%streq_true]%andb_true_iff.
  destruct (synced_record dir _ _ _ _ _ _ _ Hs Hr) as (d & _ & (_ & _ & Hap) & _). unfold applied_of in Hap.
  rewrite <- Hsid, Hact, streq_refl in Hap. injection Hap as Hap1 Hap2. rewrite <- (active_eta a). congruence.
Qed.
Lemma ends_undo_kept prof Q : stops (stage (at_mark None c) a (λ _ _, True)) (undo_applied dir (ap_ID a, ap_ProfileHash a, ap_CandidateHash a) prof true "") Q.
Proof.
  assert (∀ v fs, stage (at_mark None c) a (λ _ _, True) v fs → decided fs) as Hdec by (intros v fs [_ Hi%in_sync_marked]; left; by apply settles_plain).
  unfold undo_applied. eapply (ends_bind faulty _ _ _ (λ _, stage (at_mark None c) a (λ _ _, True))).
  { eapply ends_weaken; [apply (ends_restore None a (λ _ _, True) prof (λ _ _, decided))|done|done|done|]. intros fs. left. by apply settles_plain. }
  intros restored. eapply (ends_bind faulty _ _ _ (λ _, stage (at_mark None c) a (λ _ _, True))).
  { destruct restored; cbn; [by apply ends_ret|]. by apply ends_raise. }
  intros []. eapply (ends_bind faulty _ _ _ (λ _, stage (at_mark None c) a (λ _ _, True))); [by apply ends_ret|].
  intros []. by apply ends_raise.
Qed.

(** *** From the applied profile on *)
Definition chosen : Service R → Fs → Prop := λ v fs, ∃ q : R, in_sync (at_mark None (accepted_commit (staged q) c)) records new (sv_store v) fs.
Definition finalized (previous : string * string * string) (prof : list ascii) (already : bool) (x : string) : Call unit :=
  match app_finalize with
  | None => mret tt
  | Some finalize =>
      finalized ← on_app finalize;
      if finalized : bool then mret tt else undo_applied dir previous prof already x
  end.
Lemma ends_finalized_same prof : a = new →
  stops before (finalized (ap_ID a, ap_ProfileHash a, ap_CandidateHash a) prof true "") (λ _, chosen).
Proof.
  intros Ha. unfold finalized. destruct app_finalize as [fin|] eqn:Hfin.
  - apply ends_stage. intros T s q -> Hs. eapply (ends_bind faulty _ _ _ (λ ok : bool, stage (at_mark None (if ok then accepted_commit (staged q) c else c)) a (λ _ _, True))).
    + eapply ends_weaken; [apply (ends_finalize None a (λ _ q', q' = q) fin (staged q) (λ _ _, decided) Hfin); by intros ? ? ->|..|done|].
      * intros v fs (Hst & Hq & HT). split; [done|exists T; by rewrite Hst].
      * done.
      * intros fs [Hm|Hm]; [left; by apply settles_plain|]. rewrite Ha in Hm. by apply (decided_plain (staged q) q).
    + intros [|]; [|apply ends_undo_kept]. apply ends_ret. intros v fs [_ Hi]. exists q. by rewrite Ha in Hi.
  - apply ends_ret. intros v fs [_ Hi]. exists (sv_app v). rewrite (host_unstaged (or_intror Hfin)). unfold accepted_commit.
    rewrite streq_refl. by rewrite Ha in Hi.
Qed.
Lemma ends_finalized_new x (q : R) prof : x = staged q → fits_pointer a → (ap_ID a = "" → ap_ProfileHash a = "" ∧ ap_CandidateHash a = "") →
  stops (stage (at_mark (note x) c) new (λ _ q', staged q' = x)) (finalized (ap_ID a, ap_ProfileHash a, ap_CandidateHash a) prof false x)
    (λ _, stage (at_mark (note x) (accepted_commit x c)) new (λ _ _, True)).
Proof.
  intros Hx Hfit Hempty. unfold finalized. destruct app_finalize as [fin|] eqn:Hfin.
  - eapply (ends_bind faulty _ _ _ (λ ok : bool, stage (at_mark (note x) (if ok then accepted_commit x c else c)) new (λ _ _, True))).
    + eapply ends_weaken; [apply (ends_finalize (note x) new (λ _ q', staged q' = x) fin x (λ _ _, decided) Hfin); done|done|done|done|].
      intros fs [Hm|Hm]; [apply (decided_before x new q); auto|by apply (decided_after x q)].
    + intros [|]; [by apply ends_ret|]. eapply ends_weaken; [by apply (ends_undo_applied x q prof (λ _ _, True))|done|done|done|done].
  - apply ends_ret. intros v fs [_ Hi]. split; [done|]. rewrite Hx, (host_unstaged (or_intror Hfin)) in Hi |- *. unfold accepted_commit. by rewrite streq_refl.
Qed.
(** The commit that will be accepted with the selection. *)
Lemma ends_commit : 
  stops before (match app_pending_commit with Some pending => asks pending | None => mret "" end)
    (λ x v fs, ∃ q : R, x = staged q ∧ stage (at_mark None c) a (λ s q', s = s0 ∧ staged q' = x) v fs).
Proof.
  destruct app_pending_commit as [pending|] eqn:Hp.
  - apply ends_stage. intros T s q -> Hs. eapply ends_weaken; [apply (ends_asks s0 q T pending (λ _ _, decided) decided)|done| |done|done].
    intros x v fs [-> (Hst & Hq & HT)]. destruct (pending q) as [x r'] eqn:E. destruct (host_pending pending q x r' Hp E) as [-> Hr'].
    exists q. split; [done|]. split; [|exists T; by rewrite Hst]. by rewrite Hq.
  - apply ends_ret. intros v fs [Hst Hi]. pose proof (host_unstaged (or_introl Hp)) as Hu. exists (sv_app v). split; [by rewrite Hu|]. by split.
Qed.
Lemma ends_rest prof :
  validID id = true → fits_pointer a → fits_pointer new → (∀ x b, fits_pending (mkPending (ap_ID a) (ap_ProfileHash a) (ap_CandidateHash a) x b)) →
  (ap_ID a = "" → ap_ProfileHash a = "" ∧ ap_CandidateHash a = "") →
  let already := same_applied s0 id r in
  stops before
    (commit ← match app_pending_commit with Some pending => if already then mret "" else asks pending | None => mret "" end;
     (if already then mret tt else select_applied dir id r (ap_ID a, ap_ProfileHash a, ap_CandidateHash a) prof commit) ≫= λ _,
     finalized (ap_ID a, ap_ProfileHash a, ap_CandidateHash a) prof already commit ≫= λ _,
     (if streq commit "" then mret tt else
        cleanup_pending (markActivationAccepted dir) ≫= λ _, cleanup_pending (clearActivationPending dir)) ≫= λ _,
     if already then mret tt else on_store (cleanupApplied dir))
    (λ _, chosen).
Proof.
  intros Hid Hfa Hfn Hfp Hempty already. destruct already eqn:Ha.
  - eapply (ends_bind faulty _ _ _ (λ x v fs, x = "" ∧ before v fs)).
    { destruct app_pending_commit; by apply ends_ret. }
    intros x. apply ends_pure. intros ->. eapply (ends_bind faulty _ _ _ (λ _, before)); [by apply ends_ret|]. intros [].
    eapply (ends_bind faulty _ _ _ (λ _, chosen)).
    { intros v w Hv. pose proof Hv as [_ (T & _ & Hs)]. apply (ends_finalized_same prof); [|done].
      assert (sv_store v = s0) as Hst by by destruct Hv. rewrite Hst in Hs. by eapply same_applied_new. }
    intros []. eapply (ends_bind faulty _ _ _ (λ _, chosen)); [by apply ends_ret|]. intros []. by apply ends_ret.
  - eapply (ends_bind faulty _ _ _ (λ x v fs, ∃ q : R, x = staged q ∧ stage (at_mark None c) a (λ s q', s = s0 ∧ staged q' = x) v fs)).
    { exact ends_commit. }
    intros x. apply ends_exists. intros q. apply ends_pure. intros Hx.
    eapply (ends_bind faulty _ _ _ (λ _, stage (at_mark (note x) c) new (λ _ q, staged q = x))).
    { apply (ends_select_applied s0 x q); [done..|apply Hfp]. }
    intros []. eapply (ends_bind faulty _ _ _ (λ _, stage (at_mark (note x) (accepted_commit x c)) new (λ _ _, True))).
    { by apply (ends_finalized_new x q). }
    intros []. eapply (ends_bind faulty _ _ _ (λ _, stage (at_mark None (accepted_commit x c)) new (λ _ _, True))).
    { apply (ends_accept x q); [done|]. apply Hfp. }
    intros []. apply ends_stage. intros T s q' _ Hs. eapply ends_weaken; [apply ends_on_store|done|..].
    + eapply ends_weaken; [apply (ends_cleanupApplied dir (at_mark None (accepted_commit x c)) faulty fault_faulty T records new s Hs)| |done|done|done].
      intros s' fs [-> HT]. split; [done|by exists T].
    + intros [] v fs (_ & Hst & Hi). exists q. rewrite Hst, <- Hx. done.
    + by intros e v fs [_ []].
    + intros fs Hd. by apply (decided_plain x q).
Qed.
Lemma ends_Activate mp0 T :
  settled a mp0 c = a → synced (at_mark mp0 c) T records a s0 →
  fits_pointer a → fits_pointer new → (∀ x b, fits_pending (mkPending (ap_ID a) (ap_ProfileHash a) (ap_CandidateHash a) x b)) →
  ends faulty (λ v fs, sv_store v = s0 ∧ is_tree T fs) (Activate dir id) (λ _, chosen) (λ _ _, decided) decided.
Proof.
  intros Hset Hs Hfa Hfn Hfp. pose proof Hs as [Hk Hsa _].
  assert (∀ fs, is_tree T fs → decided fs) as Hstart by (intros fs HT; left; exists mp0, a; split; [by exists T|done]).
  assert (appliedIdentity s0 = (ap_ID a, ap_ProfileHash a, ap_CandidateHash a)) as Hprev by done.
  assert (ap_ID a = "" → ap_ProfileHash a = "" ∧ ap_CandidateHash a = "") as Hempty.
  { intros E. destruct (kept_selectable _ _ _ _ _ Hk) as [[_ ?]|[[r' Hr'] _]]; [done|].
    pose proof (ld_id _ _ _ _ (kp_loaded _ _ _ _ _ Hk _ _ Hr')) as Hv. by rewrite E in Hv. }
  unfold Activate. eapply (ends_bind faulty _ _ _ (λ _ v fs, validID id = true ∧ sv_store v = s0 ∧ is_tree T fs)).
  { destruct (validID id); cbn; [by apply ends_ret|]. apply ends_raise. intros v fs [_ HT]. by apply Hstart. }
  intros []. apply ends_pure. intros Hid. eapply (ends_bind faulty _ _ _ (λ _, before)).
  { intros v w [Hst HT]. assert (at_ s0 (sv_app v) T v (w_fs w)) as Hv by done. revert Hv. generalize (sv_app v). intros q Hv. revert v w Hst HT Hv.
    enough (stops (at_ s0 q T) (cleanup_pending (retryAcceptedActivationCleanup dir)) (λ _, before)) as Hc by (intros v w _ _ Hv; exact (Hc v w Hv)).
    unfold cleanup_pending. eapply ends_bind.
    - eapply ends_weaken; [eapply (ends_attempt faulty _ _ _ _ (λ _ _ _, False)), ends_on_store, (ends_retryAccepted dir faulty fault_faulty mp0 c T records a s0 Hs)|done| |done|done].
      intros res v fs Hres. exact Hres.
    - intros [[]|e]; [apply ends_ret; intros v fs (_ & Hst & Hi); split; [done|by rewrite Hst]|].
      apply ends_raise. intros v fs (_ & _ & HT). by apply Hstart. }
  intros []. eapply (ends_bind faulty _ _ _ (λ found v fs, so_records s0 !! id = Some found.1.1 ∧ before v fs)).
  { eapply ends_weaken; [apply (ends_reads _ (λ found, so_records s0 !! id = Some found.1.1))|done|done| |done].
    - intros T' _. by apply sees_recordSnapshot.
    - intros e v fs. apply before_decided. }
  intros [[r' prof] cand]. cbn [fst]. apply ends_pure. intros Hr'. assert (r' = r) as -> by congruence.
  eapply (ends_bind faulty _ _ _ (λ _, before)).
  { destruct (negb (streq (digest cand) (pr_CandidateHash r))); [apply ends_stops|by apply ends_ret]. }
  intros []. apply ends_the_store. cbn zeta. rewrite Hprev. eapply (ends_bind faulty _ _ _ (λ _, before)).
  { eapply ends_weaken; [eapply (ends_attempt faulty _ _ _ _ (λ _ _ _, False)), (ends_reads _ (λ _, True))|done| |done|done].
    - intros T' Hs'. by eapply sees_ActiveProfile.
    - by intros [x|e] v fs; [intros [_ ?]|]. }
  intros active. eapply (ends_bind faulty _ _ _ (λ _, before)).
  { destruct active as [[aid body]|[]]; first [by apply ends_ret|apply ends_stops]. }
  intros previousProfile. eapply (ends_bind faulty _ _ _ (λ _, before)); [apply ends_unless_over|]. intros [].
  eapply (ends_bind faulty _ _ _ (λ _, before)); [apply ends_apply|]. intros applied.
  eapply (ends_bind faulty _ _ _ (λ _, before)).
  { destruct applied as [[]|public]; [by apply ends_ret|]. eapply (ends_bind faulty _ _ _ (λ _, before)); [apply ends_unless_over|]. intros [].
    apply ends_stops. }
  intros []. apply ends_the_store. by apply (ends_rest previousProfile).
Qed.
End activate.
End decision.
End activation.
