(* ===== verification/SubscriptionExample.v ===== *)
(** * A store with one subscription

    The tree, codecs and environment on which the promises are exercised: one
    subscription whose only generation is applied, next to a registry that
    keeps its commit in a file. *)
From Stdlib Require Import Ascii.
From S2P Require Import Prelude GoTime GoStrings GoNet GoSort GoJson GoFs ConfigTypes ResourceStore ResourceAtomicity Download CoreSnapshot ConfigWrite SubscriptionModel SubscriptionFacts SubscriptionStore SubscriptionService FsLogic FsHoare SubscriptionFiles SubscriptionOpen SubscriptionKept SubscriptionSync SubscriptionSelect SubscriptionRecover SubscriptionEntries SubscriptionActivation.
Open Scope Z_scope.

Module Example.
Definition dir : list string := ["subs"].
#[export] Instance urls : GoNet := table_net [("https://example.org/sub", https_url "example.org" "/sub")] [] [].
#[export] Instance hash : GoHash := example_hash.
#[export] Instance os : GoOs := example_os (dies_at []).

Definition sub : Subscription := mkSubscription "one" "One" "https://example.org/sub" "" true (12 * Hour) (30 * Second) "auto" false false.
Definition profile : list ascii := bytes_of "old".
Definition candidate_body : list ascii := bytes_of "old!".
Definition newer : list ascii := bytes_of "newer".
Definition newer_candidate : list ascii := bytes_of "newer!".
Definition promoted (r : privateRecord) (p c : list ascii) : privateRecord := with_generation r (digest p) (digest c) false 7 "" "" None.
Definition record : privateRecord := durable (promoted (new_record sub) profile candidate_body).
Definition newer_record : privateRecord := durable (promoted (new_record sub) newer newer_candidate).
Definition other : Subscription := mkSubscription "two" "Two" "https://example.org/sub" "" true (12 * Hour) (30 * Second) "auto" false false.
Definition hiding : Subscription := mkSubscription activeFile "Three" "https://example.org/sub" "" true (12 * Hour) (30 * Second) "auto" false false.
Definition active : activePointer := mkActive "one" (digest profile) (digest candidate_body).
Definition newer_active : activePointer := mkActive "one" (digest newer) (digest newer_candidate).
Definition old_commit : string := hex_zeros 32.
Definition new_commit : string := of_bytes (replicate 32 "1"%char).
Definition marker (accepted : bool) : pendingActivation := mkPending "one" (digest profile) (digest candidate_body) new_commit accepted.

#[export] Instance records_codec : JsonCodec privateRecord := table_codec [record; newer_record; new_record other; new_record hiding].
#[export] Instance active_codec : JsonCodec activePointer := table_codec [active; newer_active].
#[export] Instance pending_codec : JsonCodec pendingActivation := table_codec [marker false; marker true].

Definition commit_path : list string := ["resources"; "commit"].
#[export, refine] Instance registry : RegistryCommit dir := {|
  registry_commit fs := match fs !! commit_path with Some (EFile body) => of_bytes body | _ => "" end
|}.
Proof. intros T T' Hq. by rewrite Hq. Defined.

Definition in_record (name : string) : list string := dir ++ ["one"; name].
Definition tree : Fs :=
  <[[] := EDir]> (<[dir := EDir]> (<[dir ++ ["one"] := EDir]> (<[in_record recordFile := EFile (bytes_of "x")]>
  (<[in_record (profileFilename (digest profile)) := EFile profile]>
  (<[in_record (candidateFilename (digest profile) (digest candidate_body)) := EFile candidate_body]>
  (<[dir ++ [activeFile] := EFile (bytes_of "x")]> {[commit_path := EFile (bytes_of old_commit)]})))))).
Definition records : gmap string privateRecord := {["one" := record]}.
Definition store : Store := opened records active.

Lemma generation_there : has_generation dir tree "one" (digest profile) (digest candidate_body).
Proof. exists profile, candidate_body. split_and!; [split; (split; [by vm_compute|done])|done..]. Qed.
Lemma tree_kept : kept dir (at_mark dir None old_commit) tree records active.
Proof.
  split.
  - intros q Hq. split; [|intros [(name & rest & E & _)|(id & name & E & _)]; unfold prefixes, dir in Hq; cbn in Hq; set_solver].
    unfold prefixes, dir in Hq. cbn in Hq. by repeat (apply elem_of_cons in Hq as [-> | Hq]; [by vm_compute|]); apply not_elem_of_nil in Hq.
  - intros id Hv Hd. unfold tree in Hd.
    repeat (apply lookup_insert_Some in Hd as [[E He]|[_ Hd]]; [unfold in_record in E; cbn in E; simplify_eq; try (by exists record)|]).
    apply lookup_singleton_Some in Hd as [E _]. done.
  - unfold records. intros id r [<- <-]%lookup_singleton_Some. split; [done|by vm_compute| |by vm_compute|].
    + exists (bytes_of "x"). split; [split; [by vm_compute|done]|by vm_compute].
    + split; [done|apply generation_there].
  - right. exists (bytes_of "x"). split; [split; [by vm_compute|done]|by vm_compute].
  - split; by vm_compute.
  - right. split; [by exists record|apply generation_there].
Qed.
Lemma tree_synced : synced dir (at_mark dir None old_commit) tree records active store.
Proof. apply opened_synced, tree_kept. Qed.

(** Every document these codecs know is short. *)
Lemma table_short {A} `{EqDecision A} (l : list A) v body : table_marshal l v = Ok body → len body ≤ len l.
Proof.
  unfold table_marshal. destruct (list_find _ l) as [[i x]|] eqn:E; [|done]. intros [= <-].
  apply list_find_Some in E as (Hi & _). apply lookup_lt_Some in Hi. unfold len. cbn. rewrite length_replicate. lia.
Qed.
Lemma record_fits r : fits r.
Proof. intros body Hb%table_short. split; [|done]. etransitivity; [exact Hb|by vm_compute]. Qed.
Lemma pointer_fits a : fits_pointer a.
Proof. intros body Hb%table_short. split; [|done]. etransitivity; [exact Hb|by vm_compute]. Qed.
Lemma pending_fits p : fits_pending p.
Proof. intros body Hb%table_short. split; [|done]. etransitivity; [exact Hb|by vm_compute]. Qed.

(** *** An application that stages one commit *)
Definition no_error (c : ctx) (r : unit) : option sub_error * unit := (None, r).
(** The registry's commit file, replaced in one step. *)
Definition commit_resources : Act unit bool := λ _,
  step OpRename nothing (λ fs, (Ok (true, ()), <[commit_path := EFile (bytes_of new_commit)]> fs)).
Definition finalize_resources : Act unit bool := λ r,
  attempt (commit_resources r) ≫= λ done, mret (is_ok done, ()).
#[export] Instance app : App unit := {|
  app_context := no_error;
  app_now r := (7, r);
  app_random r := (None, r);
  app_yaml body := None;
  app_fetch insecure request r := (Err FetchCancelled, r);
  app_current := None;
  app_render body r := mret (None, r);
  app_validate body r := mret (false, r);
  app_apply body r := mret (Ok (), r);
  app_restore body r := mret (true, r);
  app_finalize := Some finalize_resources;
  app_pending_commit := Some (λ r, (new_commit, r));
  app_max_bytes := 1000;
  app_capture := false
|}.
Lemma commit_outside q : q = commit_path → below dir q = false.
Proof. intros ->. by vm_compute. Qed.
Lemma leaves_same T : made (scratch dir) T dir → ∀ fs, is_tree (scratch dir) T fs → leaves dir T (registry_commit T) fs.
Proof. intros Hm fs HT. by exists T. Qed.
Lemma leaves_committed T : made (scratch dir) T dir → ∀ fs, is_tree (scratch dir) T fs →
  leaves dir T new_commit (<[commit_path := EFile (bytes_of new_commit)]> fs).
Proof.
  intros Hm fs HT. exists (<[commit_path := EFile (bytes_of new_commit)]> T). split_and!.
  - by apply insert_same.
  - intros q Hq. rewrite lookup_insert_ne; [done|]. intros <-. by rewrite commit_outside in Hq.
  - intros q Hq. destruct (Hm q Hq). split; [|done]. rewrite lookup_insert_ne; [done|]. intros <-. unfold prefixes, dir in Hq. cbn in Hq. set_solver.
  - cbn. rewrite lookup_insert_eq. by vm_compute.
Qed.
#[export, refine] Instance host faulty (fault_faulty : ∀ t k, faults t k ≠ Fine → faulty) : Host dir unit faulty := {| staged r := new_commit |}.
Proof.
  - intros pending r x r' [= <-] [= <- <-]. done.
  - intros [?|?]; done.
  - intros body r T Hm. apply hoare_ret. by apply leaves_same.
  - intros body r T Hm. apply hoare_ret. by apply leaves_same.
  - intros finalize r T [= <-] Hm. unfold finalize_resources.
    eapply (hoare_bind faulty _ _ _ (λ res, leaves dir T (if is_ok res then new_commit else registry_commit T))).
    + eapply hoare_weaken; [eapply (hoare_attempt faulty _ _ _ _ (λ _ _, False)), (hoare_step faulty fault_faulty OpRename nothing _ (is_tree (scratch dir) T)
        (λ _, leaves dir T new_commit) (λ _, leaves dir T (registry_commit T)) (leaves dir T (registry_commit T)))|done|by intros [[]|e]|done|by left].
      * intros fs HT. by apply leaves_committed.
      * intros _ fs msg n HT. by apply leaves_same.
      * intros fs n HT. by apply leaves_same.
    + intros res. apply hoare_ret. by destruct (is_ok res).
Defined.

(** *** Later trees *)
(** A newer generation, promoted but not applied. *)
Definition tree_newer : Fs :=
  <[in_record recordFile := EFile (bytes_of "xx")]>
  (<[in_record (candidateFilename (digest newer) (digest newer_candidate)) := EFile newer_candidate]>
  (<[in_record (profileFilename (digest newer)) := EFile newer]> tree)).
Definition records_newer : gmap string privateRecord := <["one" := newer_record]> records.
Lemma newer_there : has_generation dir tree_newer "one" (digest newer) (digest newer_candidate).
Proof. exists newer, newer_candidate. split_and!; [split; (split; [by vm_compute|done])|done..]. Qed.
Lemma tree_newer_kept : kept dir (at_mark dir None old_commit) tree_newer records_newer active.
Proof.
  unfold tree_newer, in_record. eapply kept_insert_record; [|by exists record| |by split; vm_compute].
  - apply kept_insert_file; [apply kept_insert_file; [apply tree_kept|done..|]|done..|].
    + intros i ph ch. by apply generation_insert_profile.
    + intros i ph ch. by apply generation_insert_candidate.
  - split; [by vm_compute|]. split; [done|]. apply (new_generation dir tree "one" newer newer_candidate); done.
Qed.
(** A process that died between selecting it and accepting its resources. *)
Definition tree_between : Fs :=
  <[dir ++ [activationPendingFile] := EFile (bytes_of "x")]> (<[dir ++ [activeFile] := EFile (bytes_of "xx")]> tree_newer).
Lemma tree_between_kept : kept dir (at_mark dir (Some (marker false)) old_commit) tree_between records_newer newer_active.
Proof.
  eapply kept_remark; [|apply but_for_insert|].
  - eapply kept_select; [apply tree_newer_kept| |apply pointer_fits|by vm_compute]. right. split; [by exists newer_record|apply newer_there].
  - unfold tree_between. rewrite lookup_insert_eq. exists (bytes_of "x"). split_and!; [done|by vm_compute..].
Qed.
(** Nothing selected. *)
Definition tree_idle : Fs := delete (dir ++ [activeFile]) tree.
Definition store_idle : Store := opened records (mkActive "" "" "").
Lemma tree_idle_kept : kept dir (at_mark dir None old_commit) tree_idle records (mkActive "" "" "").
Proof. eapply kept_unselect, tree_kept. Qed.
End Example.
