(* ===== verification/SubscriptionContracts.v ===== *)
(** * What the subscription store promises

    Its operations with errors and crashes, stated over trees that open; then a
    store with one subscription on which each promise is exercised. *)
From Stdlib Require Import Ascii.
From S2P Require Import Prelude GoTime GoStrings GoNet GoSort GoJson GoFs ConfigTypes ResourceStore ResourceAtomicity Download CoreSnapshot ConfigWrite SubscriptionModel SubscriptionFacts SubscriptionStore SubscriptionService FsLogic FsHoare SubscriptionFiles SubscriptionOpen SubscriptionKept SubscriptionSync SubscriptionSelect SubscriptionRecover SubscriptionEntries SubscriptionActivation SubscriptionExample.
Open Scope Z_scope.

(** Some operation fails or kills the process. *)
Definition troubled `{GoOs} : Prop := ∃ t k, faults t k ≠ Fine.
Lemma fault_troubles `{GoOs} t k : faults t k ≠ Fine → troubled.
Proof. intros Hf. by exists t, k. Qed.
Lemma fine_untroubled `{GoOs} : (∀ t k, faults t k = Fine) → ¬ troubled.
Proof. intros Hf (t & k & Hn). by destruct Hn. Qed.

Section contracts.
Context `{GoOs} `{GoHash} `{GoNet} `{JsonCodec privateRecord} `{JsonCodec activePointer} `{JsonCodec pendingActivation}.
Context (dir : list string).
Local Abbreviation is_tree := (is_tree (scratch dir)).
(** The tree opens as these records with this selection. *)
Definition opens_as (records : gmap string privateRecord) (a : activePointer) (fs : Fs) : Prop := ∃ T, is_tree T fs ∧ disk dir T records a.
Lemma on_disk_opens mark records a fs : on_disk dir mark records a fs → opens_as records a fs.
Proof. intros (T & HT & Hk). exists T. split; [done|by eapply kept_disk]. Qed.

(** C12: without faults, [NewStore] opens exactly the directories that hold whole
    records and a selection with its generation, as what they hold; it reports an
    error for every other one.  Either way it changes nothing but scratch files. *)
Theorem NewStore_exact {S : Type} (s0 : S) T w :
  (∀ t k, faults t k = Fine) → made (scratch dir) T dir → dir ≠ [] → is_tree T (w_fs w) →
  ∃ r w', NewStore dir true s0 w = (Done (r, s0), w') ∧ is_tree T (w_fs w') ∧
    match r with
    | Ok s => ∃ records a, disk dir T records a ∧ s = opened records a
    | Err _ => ∀ records a, ¬ disk dir T records a
    end.
Proof.
  intros Hfine%fine_untroubled Hm Hne HT. pose proof (sees_NewStore dir troubled fault_troubles s0 T Hm Hne s0 w (conj eq_refl HT)) as Hs.
  destruct (NewStore dir true s0 w) as [[[[s|e] s']|e|] w'].
  - destruct Hs as ((records & a & _ & _ & -> & [?|Hd]) & -> & HT'); [done|]. eexists _, w'. split_and!; [done..|]. by exists records, a.
  - destruct Hs as ([?|Hn] & -> & HT'); [done|]. by eexists _, w'.
  - done.
  - by destruct Hs.
Qed.

(** C11: a generation is promoted in one step: an error leaves memory and disk as
    they were, and a crash leaves a directory that opens with the old record or
    with the new one, never with a record without its files. *)
Theorem promote_atomic (mark : Frame dir) T records a s id r profile candidate checkedAt etag lastModified usage downloadedOnly :
  let r' := with_generation r (digest profile) (digest candidate) downloadedOnly checkedAt etag lastModified usage in
  synced dir mark T records a s → so_records s !! id = Some r → len profile ≤ maxProfileBytes → len candidate ≤ maxCandidateBytes →
  (downloadedOnly = true → candidate = profile) → fits r' →
  ends troubled (λ s' fs, s' = s ∧ is_tree T fs) (promote dir id profile candidate checkedAt etag lastModified usage downloadedOnly)
    (λ previous s' fs, previous = r ∧ s' = put_record s id r' ∧ in_sync dir mark (<[id := durable r']> records) a s' fs)
    (λ e s' fs, e = ErrStore ∧ s' = s ∧ in_sync dir mark records a s fs)
    (λ fs, opens_as records a fs ∨ opens_as (<[id := durable r']> records) a fs).
Proof.
  intros r' Hs Hr Hp Hc Hd Hf. eapply ends_weaken; [by eapply (ends_promote dir mark troubled fault_troubles T records a s id r)|done|done|done|].
  intros fs [Hk|Hk]; [left|right]; by eapply on_disk_opens.
Qed.

(** Undoing a promotion restores the record it returned, in memory and on
    disk, and removes files of the undone generation that nothing names; if the
    record cannot be written back the error says so. *)
Theorem rollbackPromotion_restores (mark : Frame dir) T records a s id r previous profile candidate :
  synced dir mark T records a s → so_records s !! id = Some r → successor dir T id r previous →
  ends troubled (λ s' fs, s' = s ∧ is_tree T fs) (rollbackPromotion dir id previous (digest profile) (digest candidate))
    (λ _ s' fs, s' = put_record s id previous ∧ in_sync dir mark (<[id := durable previous]> records) a s' fs)
    (λ e s' fs, e = ErrStore ∧ s' = put_record s id previous ∧ is_tree T fs)
    (λ fs, opens_as records a fs ∨ opens_as (<[id := durable previous]> records) a fs).
Proof.
  intros Hs Hr Hsu. eapply ends_weaken; [by apply (ends_rollbackPromotion dir mark troubled fault_troubles T records a s id r)|done|done|done|].
  intros fs [Hk|Hk]; [left|right]; by eapply on_disk_opens.
Qed.

(** C13: cleaning up, after any promotion or activation, removes no generation
    that a record or the selection names: the store stays in sync, and whenever
    the process dies the directory opens as before. *)
Theorem cleanup_keeps (mark : Frame dir) T records a s :
  synced dir mark T records a s →
  ends troubled (λ s' fs, s' = s ∧ in_sync dir mark records a s fs) (cleanupApplied dir)
    (λ _ s' fs, s' = s ∧ in_sync dir mark records a s fs) (λ _ _ _, False) (opens_as records a).
Proof.
  intros Hs. eapply ends_weaken; [by eapply (ends_cleanupApplied dir mark troubled fault_troubles T)|done..|].
  intros fs. apply on_disk_opens.
Qed.

(** Deleting a subscription commits with one rename: before it an error
    changes nothing, after it memory and disk agree that the subscription is
    gone, whatever becomes of the quarantined files. *)
Theorem delete_atomic (mark : Frame dir) T records a s id r :
  let s1 := with_records s (delete id (so_records s)) in
  synced dir mark T records a s → so_records s !! id = Some r → ap_ID a ≠ id →
  ends troubled (λ s' fs, s' = s ∧ is_tree T fs) (delete_record dir id)
    (λ _ s' fs, s' = s1 ∧ in_sync dir mark (delete id records) a s' fs)
    (λ e s' fs, (e = ErrStore ∧ s' = s ∧ is_tree T fs) ∨ (e = ErrCleanupPending ∧ troubled ∧ s' = s1 ∧ in_sync dir mark (delete id records) a s' fs))
    (λ fs, opens_as records a fs ∨ opens_as (delete id records) a fs).
Proof.
  intros s1 Hs Hr Ha. eapply ends_weaken; [by apply (ends_delete_record dir mark troubled fault_troubles T records a s id r)|done|done|done|].
  intros fs [Hk|Hk]; [left|right]; by eapply on_disk_opens.
Qed.



(** A process that dies in [add] between making the directory and writing
    its record leaves a directory that never opens again. *)
Theorem add_interrupted_closes mark T records a s w sub n :
  synced dir mark T records a s → so_records s !! sb_ID sub = None → validID (sb_ID sub) = true →
  T !! (dir ++ [sb_ID sub]) = None → T !! (dir ++ [sb_ID sub; recordFile]) = None → is_tree T (w_fs w) →
  faults (w_tick w) OpMkdir = Fine → faults (S (w_tick w)) OpChmod = Crashes n →
  ∃ w' T', add dir (new_record sub) s w = (Crashed, w') ∧ is_tree T' (w_fs w') ∧ ∀ m b, ¬ disk dir T' m b.
Proof.
  intros [Hk _ _] Hnone Hid Hd Hr HT Hf1 Hf2. pose proof (validID_visible _ Hid) as Hv. destruct (made_self _ _ _ (kp_made _ _ _ _ _ Hk)) as [Hdir Hdns].
  set (fs1 := <[dir ++ [sb_ID sub] := EDir]> (w_fs w)).
  assert (add dir (new_record sub) s w = (Crashed, mkWorld (S (S (w_tick w))) fs1)) as Hrun.
  { unfold add, store_io, io_as, attempt, on_failure, mkdir, chmod, step, get_state, directory_of, mbind, op_bind, mbind, io_bind, mret, io_ret. cbn.
    rewrite Hnone. cbn. rewrite Hf1. rewrite (is_tree_at _ _ _ _ HT (entry_not_scratch _ _ Hv)), Hd. destruct (dir_of_snoc dir (sb_ID sub)) as [-> _].
    rewrite (is_tree_at _ _ _ _ HT Hdns), Hdir. cbn. unfold attempt. cbn. by rewrite Hf2. }
  eexists _, (<[dir ++ [sb_ID sub] := EDir]> T). split_and!; [exact Hrun|by apply insert_same|].
  apply bare_directory_closed with (id := sb_ID sub); [done|apply lookup_insert_eq|]. rewrite lookup_insert_ne; [done|]. by intros E%app_dir_inj.
Qed.

(** Active.json passes for the id of a subscription; adding one with that id
    succeeds and takes the place of the selection's file, so that the directory
    never opens again. *)
Theorem add_active_json_closes mark T records a s sub :
  synced dir mark T records a s → so_records s !! activeFile = None → sb_ID sub = activeFile → normalizeSubscription None sub = Ok sub →
  fits (new_record sub) →
  ends troubled (λ s' fs, s' = s ∧ is_tree T fs) (add dir (new_record sub))
    (λ _ _ fs, ∃ T', is_tree T' fs ∧ ∀ m b, ¬ disk dir T' m b) (λ _ _ _, True) (λ _, True).
Proof.
  intros [Hk _ _] Hnone Hid Hn Hfit. pose proof (ends_add_files dir troubled fault_troubles T s sub (kp_made _ _ _ _ _ Hk)) as Hadd.
  rewrite Hid in Hadd. eapply ends_weaken; [by apply Hadd|done| |done|done].
  intros [] s' fs [_ (body & _ & HT)]. eexists. split; [exact HT|]. apply active_directory_closed. cbn. rewrite Hid.
  rewrite lookup_insert_ne by (by intros E%app_dir_inj). apply lookup_insert_eq.
Qed.
End contracts.

(** ** On the example *)
Section witnesses.
Import Example.
Local Abbreviation frame := (at_mark Example.dir None old_commit).

Lemma calm t k : faults t k = Fine.
Proof. done. Qed.
Lemma tree_made : made (scratch Example.dir) tree Example.dir.
Proof. apply (kp_made _ _ _ _ _ tree_kept). Qed.

Lemma NewStore_exact_witness : ∃ r w', NewStore Example.dir true tt (mkWorld 0 tree) = (Done (r, tt), w') ∧ is_tree (scratch Example.dir) tree (w_fs w') ∧
  match r with Ok s => ∃ records a, disk Example.dir tree records a ∧ s = opened records a | Err _ => ∀ records a, ¬ disk Example.dir tree records a end.
Proof. exact (NewStore_exact Example.dir tt tree (mkWorld 0 tree) calm tree_made (λ H, nil_cons (eq_sym H)) ltac:(by intros p Hp)). Defined.

Lemma promote_atomic_witness :
  ends troubled (λ s' fs, s' = store ∧ is_tree (scratch Example.dir) tree fs)
    (promote Example.dir "one" newer newer_candidate 7 "" "" None false)
    (λ previous s' fs, pr_Hash previous = digest profile ∧ (pr_Hash <$> so_records s' !! "one") = Some (digest newer) ∧
       in_sync Example.dir frame {["one" := newer_record]} active s' fs)
    (λ e s' fs, e = ErrStore ∧ s' = store ∧ in_sync Example.dir frame Example.records active store fs)
    (λ fs, opens_as Example.dir Example.records active fs ∨ opens_as Example.dir {["one" := newer_record]} active fs).
Proof.
  destruct (so_records store !! "one") as [r|] eqn:Hr; [|by vm_compute in Hr].
  eapply ends_weaken; [apply (promote_atomic Example.dir frame tree Example.records active store "one" r newer newer_candidate 7 "" "" None false
    tree_synced Hr ltac:(done) ltac:(done) ltac:(done) (record_fits _))|done|..].
  all: vm_compute in Hr; injection Hr as <-.
  - intros previous s' fs (-> & -> & Hi). split_and!; [by vm_compute..|]. exact Hi.
  - done.
  - done.
Defined.

(** The newer generation is undone: the record names the applied one again. *)
Lemma rollbackPromotion_restores_witness :
  ends troubled (λ s' fs, s' = opened records_newer active ∧ is_tree (scratch Example.dir) tree_newer fs)
    (rollbackPromotion Example.dir "one" (with_applied record true (digest profile) (digest candidate_body)) (digest newer) (digest newer_candidate))
    (λ _ s' fs, (pr_Hash <$> so_records s' !! "one") = Some (digest profile) ∧ in_sync Example.dir frame Example.records active s' fs)
    (λ e _ fs, e = ErrStore ∧ is_tree (scratch Example.dir) tree_newer fs)
    (λ fs, opens_as Example.dir records_newer active fs ∨ opens_as Example.dir Example.records active fs).
Proof.
  destruct (so_records (opened records_newer active) !! "one") as [r|] eqn:Hr; [|by vm_compute in Hr].
  assert (<["one" := durable (with_applied record true (digest profile) (digest candidate_body))]> records_newer = Example.records) as Hrec by by vm_compute.
  pose proof (rollbackPromotion_restores Example.dir frame tree_newer records_newer active (opened records_newer active) "one" r
    (with_applied record true (digest profile) (digest candidate_body)) newer newer_candidate (opened_synced _ _ _ _ _ tree_newer_kept) Hr) as Hthm.
  cbn zeta in Hthm. rewrite Hrec in Hthm. vm_compute in Hr. injection Hr as <-.
  eapply ends_weaken; [apply Hthm|done|..].
  - split; [|apply record_fits|by vm_compute|by vm_compute]. split; [by vm_compute|]. split; [done|].
    exists profile, candidate_body. split_and!; [split; (split; [by vm_compute|done])|done..].
  - intros [] s' fs [-> Hi]. split; [by vm_compute|done].
  - by intros e s' fs (? & _ & ?).
  - done.
Defined.

Lemma cleanup_keeps_witness :
  ends troubled (λ s' fs, s' = opened records_newer active ∧ in_sync Example.dir frame records_newer active s' fs) (cleanupApplied Example.dir)
    (λ _ s' fs, in_sync Example.dir frame records_newer active s' fs) (λ _ _ _, False) (opens_as Example.dir records_newer active).
Proof.
  eapply ends_weaken; [apply (cleanup_keeps Example.dir frame tree_newer records_newer active _ (opened_synced _ _ _ _ _ tree_newer_kept))|..|done|done].
  - by intros s' fs [-> ?].
  - by intros [] s' fs [-> ?].
Defined.

Lemma delete_atomic_witness :
  ends troubled (λ s' fs, s' = store_idle ∧ is_tree (scratch Example.dir) tree_idle fs) (delete_record Example.dir "one")
    (λ _ s' fs, so_records s' = ∅ ∧ in_sync Example.dir frame ∅ (mkActive "" "" "") s' fs)
    (λ e _ fs, is_tree (scratch Example.dir) tree_idle fs ∨ e = ErrCleanupPending)
    (λ fs, opens_as Example.dir Example.records (mkActive "" "" "") fs ∨ opens_as Example.dir ∅ (mkActive "" "" "") fs).
Proof.
  destruct (so_records store_idle !! "one") as [r|] eqn:Hr; [|by vm_compute in Hr].
  assert (delete "one" Example.records = ∅) as Hd by by vm_compute.
  pose proof (delete_atomic Example.dir frame tree_idle Example.records (mkActive "" "" "") store_idle "one" r (opened_synced _ _ _ _ _ tree_idle_kept) Hr ltac:(done)) as Hthm.
  cbn zeta in Hthm. rewrite Hd in Hthm. eapply ends_weaken; [exact Hthm|done|..|done].
  - intros [] s' fs [-> Hi]. split; [by vm_compute|done].
  - intros e s' fs [(_ & _ & ?) | (? & _)]; auto.
Defined.



Definition dying : GoOs := example_os (dies_at [1]%nat).
Lemma add_interrupted_closes_witness : ∃ w' T', add (H := dying) Example.dir (new_record other) store (mkWorld 0 tree) = (Crashed, w') ∧
  is_tree (scratch Example.dir) T' (w_fs w') ∧ ∀ m b, ¬ disk Example.dir T' m b.
Proof.
  apply (add_interrupted_closes (H := dying) Example.dir frame tree Example.records active store (mkWorld 0 tree) other 0 tree_synced);
    first [done|by vm_compute|by intros p Hp].
Defined.
Lemma add_active_json_closes_witness :
  ends troubled (λ s' fs, s' = store_idle ∧ is_tree (scratch Example.dir) tree_idle fs) (add Example.dir (new_record hiding))
    (λ _ _ fs, ∃ T', is_tree (scratch Example.dir) T' fs ∧ ∀ m b, ¬ disk Example.dir T' m b) (λ _ _ _, True) (λ _, True) ∧
  match add Example.dir (new_record hiding) store_idle (mkWorld 0 tree_idle) with (Done (Ok _, _), _) => True | _ => False end.
Proof.
  split; [|by vm_compute].
  apply (add_active_json_closes Example.dir frame tree_idle Example.records (mkActive "" "" "") store_idle hiding (opened_synced _ _ _ _ _ tree_idle_kept));
    [by vm_compute..|apply record_fits].
Defined.

(** *** A record that cannot be written back *)
Definition full_disk : GoOs := example_os (λ t k, if decide (k = OpWrite) then Fails "no space left on device" 0 else Fine).
Definition previous_record : privateRecord := with_applied record true (digest profile) (digest candidate_body).
(** The promotion is undone in memory only; what happens up to the next start. *)
Definition unwritten_rollback : option (sub_error * sub_error) :=
  match rollbackPromotion (H := full_disk) Example.dir "one" previous_record (digest newer) (digest newer_candidate)
      (opened records_newer active) (mkWorld 0 tree_newer) with
  | (Done (Err e, s), w) =>
      match cleanupApplied (H := full_disk) Example.dir s w with
      | (Done (Ok _, s), w) =>
          match NewStore Example.dir true tt w with (Done (Err e', _), _) => Some (e, e') | _ => None end
      | _ => None
      end
  | _ => None
  end.
End witnesses.
