(* ===== verification/SubscriptionScheduler.v ===== *)
(** * subscriptions/scheduler.go: one timer and a bounded set of workers

    [exec] performs one labelled step: a call of an exported method, one
    statement of the loop of [run] or of a worker.  A step is what happens between
    two points where another goroutine may act: every channel operation is a step
    of its own.  What a job does ([Refresh], the enqueue callback) is the
    environment's; a job is finished whenever [LFinish] says so. *)
From S2P Require Import Prelude GoTime GoStrings GoSort ConfigTypes SubscriptionModel.
Open Scope Z_scope.
Open Scope go_scope.

Definition MaxRefreshWorkers : Z := 8.

(** A [schedulerJob], and the [schedulerCompletion] that answers it. *)
Inductive Job := JSubscription (id : string) | JResource.
#[export] Instance job_eq_dec : EqDecision Job.
Proof. solve_decision. Defined.

Inductive Worker := WIdle | WRun (j : Job) | WReport (j : Job) | WGone.
#[export] Instance worker_eq_dec : EqDecision Worker.
Proof. solve_decision. Defined.

(** Where the loop of [run] is: its head; sending what is due, with the ids left,
    the resources' due time and whether a send was refused; arming the timer;
    the two selects; after [close(jobs)]. *)
Inductive control :=
| PcTop
| PcSend (now : time) (due : list string) (external : time) (blocked : bool)
| PcArm
| PcBlocked
| PcWait
| PcClosing.

(** The variables of one [run]. *)
Record Run := mkRun {
  rn_cancelled : bool;
  rn_jobs : list Job;
  rn_completed : list Job;
  rn_workers : list Worker;
  rn_pending : gset string;
  rn_resourcePending : bool;
  rn_timer : option time;
  rn_control : control
}.

(** [sc_hasNext], [sc_hasEnqueue]: the callbacks are not nil; [sc_wake]: the
    service's wake channel; [sc_run]: [done] is not nil. *)
Record Scheduler := mkScheduler {
  sc_workers : nat;
  sc_hasNext : bool;
  sc_hasEnqueue : bool;
  sc_resourceWake : bool;
  sc_wake : bool;
  sc_run : option Run
}.

Definition NewScheduler (workers : Z) : Scheduler :=
  let workers := if workers <=? 0 then 1 else workers in
  let workers := if MaxRefreshWorkers <? workers then MaxRefreshWorkers else workers in
  mkScheduler (Z.to_nat workers) false false false false None.

Definition with_run (s : Scheduler) (r : option Run) : Scheduler :=
  mkScheduler (sc_workers s) (sc_hasNext s) (sc_hasEnqueue s) (sc_resourceWake s) (sc_wake s) r.
Definition with_wakes (s : Scheduler) (resource service : bool) : Scheduler :=
  mkScheduler (sc_workers s) (sc_hasNext s) (sc_hasEnqueue s) resource service (sc_run s).

Definition ConfigureResources (hasNext hasEnqueue : bool) (s : Scheduler) : Scheduler :=
  mkScheduler (sc_workers s) hasNext hasEnqueue true (sc_wake s) (sc_run s).
Definition WakeResources (s : Scheduler) : Scheduler := with_wakes s true (sc_wake s).
Definition start_run (workers : nat) : Run := mkRun false [] [] (replicate workers WIdle) ∅ false None PcTop.
(** A start while [done] is set is [ErrSchedulerRunning]. *)
Definition Start (s : Scheduler) : result string Scheduler :=
  match sc_run s with
  | Some _ => Err "subscriptions: scheduler already running"
  | None => Ok (with_run s (Some (start_run (sc_workers s))))
  end.
Definition cancel (r : Run) : Run :=
  mkRun true (rn_jobs r) (rn_completed r) (rn_workers r) (rn_pending r) (rn_resourcePending r) (rn_timer r) (rn_control r).
(** [Stop] up to the wait for [done], and a parent context that ends. *)
Definition Cancel (s : Scheduler) : Scheduler := with_run s (match sc_run s with Some r => Some (cancel r) | None => None end).

(** ** The loop *)
Definition at_ (r : Run) (c : control) : Run :=
  mkRun (rn_cancelled r) (rn_jobs r) (rn_completed r) (rn_workers r) (rn_pending r) (rn_resourcePending r) (rn_timer r) c.
Definition with_timer (r : Run) (t : option time) : Run :=
  mkRun (rn_cancelled r) (rn_jobs r) (rn_completed r) (rn_workers r) (rn_pending r) (rn_resourcePending r) t (rn_control r).
(** The resources' next due time as the loop asks for it: [external] is the
    callback's answer. *)
Definition external_next (s : Scheduler) (r : Run) (external : time) : time :=
  if rn_resourcePending r || negb (sc_hasNext s) || negb (sc_hasEnqueue s) then zero_time else external.

Definition look (s : Scheduler) (r : Run) (now : time) (entries : list (string * privateRecord)) (external : time) : Run :=
  if rn_cancelled r then with_timer (at_ r PcClosing) None
  else at_ r (PcSend now (dueIDs entries now (rn_pending r)).1 (external_next s r external) false).

(** A send on [jobs] in a select with a default; [workers] is its capacity. *)
Definition room (s : Scheduler) (r : Run) : bool := (length (rn_jobs r) <? sc_workers s)%nat.
Definition send_id (r : Run) (id : string) : Run :=
  mkRun (rn_cancelled r) (rn_jobs r ++ [JSubscription id]) (rn_completed r) (rn_workers r) ({[id]} ∪ rn_pending r)
    (rn_resourcePending r) (rn_timer r) (rn_control r).
Definition send_resource (r : Run) : Run :=
  mkRun (rn_cancelled r) (rn_jobs r ++ [JResource]) (rn_completed r) (rn_workers r) (rn_pending r) true (rn_timer r) (rn_control r).
Definition resource_due (r : Run) (now external : time) : bool :=
  negb (rn_resourcePending r) && negb (time_is_zero external) && negb (time_after external now).
(** A refused send leaves the timer stopped and waits for a completion. *)
Definition sent (r : Run) (blocked : bool) : Run := if blocked then with_timer (at_ r PcBlocked) None else at_ r PcArm.
Definition send (s : Scheduler) (r : Run) : option Run :=
  match rn_control r with
  | PcSend now (id :: due) external blocked =>
      Some (if room s r then at_ (send_id r id) (PcSend now due external blocked) else at_ r (PcSend now due external true))
  | PcSend now [] external blocked =>
      Some (if resource_due r now external
            then if room s r then sent (send_resource r) blocked else sent r true
            else sent r blocked)
  | _ => None
  end.

(** The earlier of two deadlines that may be absent. *)
Definition combined_next (subscription external : time) : time :=
  if negb (time_is_zero external) && (time_is_zero subscription || time_before external subscription) then external else subscription.
(** The timer fires at once for a deadline that has passed by [at_now]. *)
Definition arm (s : Scheduler) (r : Run) (now : time) (entries : list (string * privateRecord)) (external at_now : time) : Run :=
  let next := combined_next (nextDue entries now (rn_pending r)) (external_next s r external) in
  with_timer (at_ r PcWait) (if time_is_zero next then None else Some (Z.max at_now next)).

Definition complete (r : Run) (j : Job) (rest : list Job) : Run :=
  mkRun (rn_cancelled r) (rn_jobs r) rest (rn_workers r)
    (match j with JSubscription id => rn_pending r ∖ {[id]} | JResource => rn_pending r end)
    (match j with JSubscription _ => rn_resourcePending r | JResource => false end) (rn_timer r) PcTop.
Definition selecting (r : Run) : bool := match rn_control r with PcBlocked | PcWait => true | _ => false end.

(** ** The workers *)
Definition with_worker (r : Run) (i : nat) (w : Worker) : Run :=
  mkRun (rn_cancelled r) (rn_jobs r) (rn_completed r) (<[i := w]> (rn_workers r)) (rn_pending r) (rn_resourcePending r) (rn_timer r) (rn_control r).
Definition with_jobs (r : Run) (l : list Job) : Run :=
  mkRun (rn_cancelled r) l (rn_completed r) (rn_workers r) (rn_pending r) (rn_resourcePending r) (rn_timer r) (rn_control r).
Definition with_completed (r : Run) (l : list Job) : Run :=
  mkRun (rn_cancelled r) (rn_jobs r) l (rn_workers r) (rn_pending r) (rn_resourcePending r) (rn_timer r) (rn_control r).

(** A worker that receives a job after the cancellation drops it and returns. *)
Definition take (r : Run) (i : nat) : option Run :=
  match rn_workers r !! i, rn_jobs r with
  | Some WIdle, j :: rest => Some (with_worker (with_jobs r rest) i (if rn_cancelled r then WGone else WRun j))
  | _, _ => None
  end.
Definition finish (r : Run) (i : nat) : option Run :=
  match rn_workers r !! i with Some (WRun j) => Some (with_worker r i (WReport j)) | _ => None end.
Definition report (s : Scheduler) (r : Run) (i : nat) : option Run :=
  match rn_workers r !! i with
  | Some (WReport j) =>
      only_if (length (rn_completed r) <? sc_workers s)%nat; Some (with_worker (with_completed r (rn_completed r ++ [j])) i WIdle)
  | _ => None
  end.
(** The [ctx.Done] cases of a worker's selects. *)
Definition quit (r : Run) (i : nat) : option Run :=
  match rn_workers r !! i with
  | Some WIdle | Some (WReport _) => only_if rn_cancelled r; Some (with_worker r i WGone)
  | _ => None
  end.

(** ** Steps *)
Inductive label :=
| LConfigure (hasNext hasEnqueue : bool)
| LWakeResources
| LSignal
| LStart
| LCancel
| LLook (now : time) (entries : list (string * privateRecord)) (external : time)
| LSend
| LArm (now : time) (entries : list (string * privateRecord)) (external at_now : time)
| LTimer (now : time)
| LReceive
| LWoken
| LResourceWoken
| LDone
| LTake (i : nat)
| LFinish (i : nat)
| LReport (i : nat)
| LQuit (i : nat)
| LClosed.

Definition on_run (s : Scheduler) (f : Run → option Run) : option Scheduler :=
  match sc_run s with
  | Some r => match f r with Some r' => Some (with_run s (Some r')) | None => None end
  | None => None
  end.
(** The records a store lists have distinct ids. *)
Definition listed (entries : list (string * privateRecord)) : bool := bool_decide (NoDup entries.*1).

Definition exec (s : Scheduler) (l : label) : option Scheduler :=
  match l with
  | LConfigure hasNext hasEnqueue => Some (ConfigureResources hasNext hasEnqueue s)
  | LWakeResources => Some (WakeResources s)
  | LSignal => Some (with_wakes s (sc_resourceWake s) true)
  | LStart => match Start s with Ok s' => Some s' | Err _ => Some s end
  | LCancel => Some (Cancel s)
  | LLook now entries external =>
      on_run s (λ r, match rn_control r with PcTop => only_if listed entries; Some (look s r now entries external) | _ => None end)
  | LSend => on_run s (send s)
  | LArm now entries external at_now =>
      on_run s (λ r, match rn_control r with PcArm => only_if listed entries; Some (arm s r now entries external at_now) | _ => None end)
  | LTimer now =>
      on_run s (λ r, match rn_control r, rn_timer r with
                     | PcWait, Some t => only_if (t <=? now); Some (with_timer (at_ r PcTop) None)
                     | _, _ => None end)
  | LReceive =>
      on_run s (λ r, match rn_completed r with j :: rest => only_if selecting r; Some (complete r j rest) | [] => None end)
  | LWoken => only_if sc_wake s; on_run (with_wakes s (sc_resourceWake s) false) (λ r, only_if selecting r; Some (at_ r PcTop))
  | LResourceWoken => only_if sc_resourceWake s; on_run (with_wakes s false (sc_wake s)) (λ r, only_if selecting r; Some (at_ r PcTop))
  | LDone => on_run s (λ r, only_if selecting r && rn_cancelled r; Some (at_ r PcTop))
  | LTake i => on_run s (λ r, take r i)
  | LFinish i => on_run s (λ r, finish r i)
  | LReport i => on_run s (λ r, report s r i)
  | LQuit i => on_run s (λ r, quit r i)
  | LClosed =>
      match sc_run s with
      | Some r => match rn_control r with
                  | PcClosing => only_if bool_decide (Forall (λ w, w = WGone) (rn_workers r)); Some (with_run s None)
                  | _ => None end
      | None => None
      end
  end.

Inductive reachable (s0 : Scheduler) : Scheduler → Prop :=
| reach_start : reachable s0 s0
| reach_step s l s' : reachable s0 s → exec s l = Some s' → reachable s0 s'.
