(* ===== verification/SubscriptionSchedulerFacts.v ===== *)
(** * Runs of the subscription scheduler

    One inductive invariant ties what is pending to the jobs in flight; two
    measures show that workers hand their jobs back and that a cancelled run
    ends. *)
From S2P Require Import Prelude GoTime GoStrings GoSort ConfigTypes SubscriptionModel SubscriptionFacts SubscriptionScheduler.
Open Scope Z_scope.

(** ** Jobs in flight *)
Definition worker_jobs (w : Worker) : list Job := match w with WRun j | WReport j => [j] | _ => [] end.
Definition in_flight (r : Run) : list Job := rn_jobs r ++ (rn_workers r ≫= worker_jobs) ++ rn_completed r.

Lemma bind_length_le {A B} (f : A → list B) l n : (∀ x, length (f x) ≤ n)%nat → (length (l ≫= f) ≤ n * length l)%nat.
Proof. intros Hf. induction l as [|x l IH]; [cbn; lia|]. rewrite bind_cons, length_app. specialize (Hf x). cbn [length]. lia. Qed.

(** A worker that changes hands. *)
Lemma workers_at ws i w w' : ws !! i = Some w →
  ∃ rest, (ws ≫= worker_jobs) ≡ₚ worker_jobs w ++ rest ∧ (<[i := w']> ws ≫= worker_jobs) ≡ₚ worker_jobs w' ++ rest.
Proof.
  intros Hi. exists (delete i ws ≫= worker_jobs). split.
  - etrans; [apply bind_Permutation, (delete_Permutation ws i w Hi)|]. by rewrite bind_cons.
  - rewrite insert_take_drop by by eapply lookup_lt_Some. rewrite delete_take_drop, !bind_app, bind_cons. apply Permutation_app_swap_app.
Qed.

(** Who is waited for cannot be missing: either a job is in flight or the run ends. *)
Definition engaged (r : Run) : Prop := in_flight r ≠ [] ∨ rn_cancelled r = true.
Record invariant (s : Scheduler) (r : Run) : Prop := {
  iv_unique : NoDup (in_flight r);
  iv_pending : ∀ id, JSubscription id ∈ in_flight r → id ∈ rn_pending r;
  iv_resource : JResource ∈ in_flight r → rn_resourcePending r = true;
  iv_exact : rn_cancelled r = false →
    (∀ id, id ∈ rn_pending r → JSubscription id ∈ in_flight r) ∧ (rn_resourcePending r = true → JResource ∈ in_flight r);
  iv_alive : rn_cancelled r = false → Forall (λ w, w ≠ WGone) (rn_workers r);
  iv_workers : length (rn_workers r) = sc_workers s;
  iv_jobs : (length (rn_jobs r) ≤ sc_workers s)%nat;
  iv_completed : (length (rn_completed r) ≤ sc_workers s)%nat;
  iv_control : match rn_control r with
    | PcSend _ due _ blocked => NoDup due ∧ (∀ id, id ∈ due → id ∉ rn_pending r) ∧ (blocked = true → engaged r)
    | PcBlocked => engaged r
    | PcClosing => rn_cancelled r = true
    | _ => True
    end
}.
Definition sound (s : Scheduler) : Prop :=
  (1 ≤ sc_workers s ≤ Z.to_nat MaxRefreshWorkers)%nat ∧ match sc_run s with Some r => invariant s r | None => True end.

Lemma NewScheduler_sound workers : sound (NewScheduler workers).
Proof.
  unfold sound, NewScheduler, MaxRefreshWorkers. cbn [sc_workers sc_run]. split; [|done].
  destruct (workers <=? 0) eqn:E0; go_bool; [cbn; lia|]. destruct (8 <? workers) eqn:E8; go_bool; [cbn; lia|]. apply Z.leb_gt in E0. apply Z.ltb_ge in E8. lia.
Qed.

(** Only the number of workers of a scheduler matters to its run. *)
Lemma invariant_same s s' r : sc_workers s' = sc_workers s → invariant s r → invariant s' r.
Proof. intros E []. split; rewrite ?E; done. Qed.
(** The control state and the timer are free where nothing is said of them. *)
Lemma invariant_moved s r r' :
  rn_cancelled r' = rn_cancelled r → rn_jobs r' = rn_jobs r → rn_completed r' = rn_completed r → rn_workers r' = rn_workers r →
  rn_pending r' = rn_pending r → rn_resourcePending r' = rn_resourcePending r →
  match rn_control r' with
  | PcSend _ due _ blocked => NoDup due ∧ (∀ id, id ∈ due → id ∉ rn_pending r) ∧ (blocked = true → engaged r)
  | PcBlocked => engaged r | PcClosing => rn_cancelled r = true | _ => True end →
  invariant s r → invariant s r'.
Proof.
  intros E1 E2 E3 E4 E5 E6 Hc []. assert (in_flight r' = in_flight r) as Ef by (unfold in_flight; by rewrite E2, E3, E4).
  split; rewrite ?Ef, ?E1, ?E2, ?E3, ?E4, ?E5, ?E6; try done. unfold engaged in *. rewrite Ef, E1. done.
Qed.

(** ** The steps of the loop *)
Lemma start_invariant s : invariant s (start_run (sc_workers s)).
Proof.
  assert (∀ n, replicate n WIdle ≫= worker_jobs = []) as Hr by (intros n; induction n; [done|by cbn]).
  split; unfold in_flight; cbn; rewrite ?Hr; try done; try set_solver; try lia.
  - constructor.
  - intros _. by apply Forall_replicate.
  - apply length_replicate.
Qed.
Lemma cancel_invariant s r : invariant s r → invariant s (cancel r).
Proof.
  intros []. split; try done. cbn. destruct (rn_control r); try done.
  - destruct iv_control0 as (? & ? & _). split_and!; [done..|]. intros _. by right.
  - by right.
Qed.

(** The ids the store says are due. *)
Lemma dueIDs_fresh entries now excluded : NoDup entries.*1 →
  NoDup (dueIDs entries now excluded).1 ∧ ∀ id, id ∈ (dueIDs entries now excluded).1 → id ∉ excluded.
Proof.
  intros Hn. unfold dueIDs. pose proof (scan_due_ids now excluded entries [] zero_time) as Hids.
  destruct (foldl _ _ entries) as [ids next]. cbn in Hids |- *. subst ids. split.
  - rewrite insertion_sort_perm. apply (sublist_NoDup _ entries.*1); [done|apply fmap_sublist, sublist_filter].
  - intros id. rewrite elem_of_insertion_sort. intros ([id' r] & -> & [[[_ ?] _] _]%list_elem_of_filter)%list_elem_of_fmap. done.
Qed.
Lemma look_invariant s r now entries external :
  listed entries = true → rn_control r = PcTop → invariant s r → invariant s (look s r now entries external).
Proof.
  intros Hl%bool_decide_eq_true Hc Hi. unfold look. destruct (rn_cancelled r) eqn:Ec; apply (invariant_moved s r); try done; cbn.
  destruct (dueIDs_fresh entries now (rn_pending r) Hl). done.
Qed.

(** Adding a fresh job to the queue. *)
Lemma queued_invariant s r j pending resourcePending c :
  j ∉ in_flight r → (length (rn_jobs r) < sc_workers s)%nat →
  (∀ id, id ∈ pending ↔ id ∈ rn_pending r ∨ j = JSubscription id) →
  (resourcePending = true ↔ rn_resourcePending r = true ∨ j = JResource) →
  match c with
  | PcSend _ due _ blocked => NoDup due ∧ (∀ id, id ∈ due → id ∉ pending) ∧ (blocked = true → engaged r)
  | PcClosing => rn_cancelled r = true | _ => True end →
  invariant s r →
  invariant s (mkRun (rn_cancelled r) (rn_jobs r ++ [j]) (rn_completed r) (rn_workers r) pending resourcePending (rn_timer r) c).
Proof.
  intros Hj Hroom Hp Hr Hc []. set (r' := mkRun _ _ _ _ _ _ _ c).
  assert (in_flight r' ≡ₚ j :: in_flight r) as Ef.
  { unfold in_flight, r'. cbn. rewrite <- app_assoc. cbn. by rewrite <- Permutation_middle. }
  assert (∀ x, x ∈ in_flight r' ↔ x = j ∨ x ∈ in_flight r) as Hin by (intros x; by rewrite Ef, elem_of_cons).
  split; cbn [r' rn_cancelled rn_pending rn_resourcePending rn_workers rn_jobs rn_completed rn_control]; try done.
  - rewrite Ef. by constructor.
  - intros id. rewrite Hin, Hp. intros [<-|?]; [by right|left; auto].
  - rewrite Hin, Hr. intros [<-|?]; [by right|left; auto].
  - intros Ec. destruct (iv_exact0 Ec) as [He1 He2]. split.
    + intros id. rewrite Hin, Hp. intros [?| ->]; [right; auto|by left].
    + rewrite Hin, Hr. intros [?| <-]; [right; auto|by left].
  - rewrite length_app. cbn. lia.
  - destruct c; try done.
    + destruct Hc as (? & ? & Hb). split_and!; [done..|]. intros E. destruct (Hb E) as [?|?]; [left|by right]. intros E'. rewrite E' in Ef. by apply Permutation_nil_cons in Ef.
    + left. intros E'. rewrite E' in Ef. by apply Permutation_nil_cons in Ef.
Qed.

(** A full queue engages a worker. *)
Lemma full_engaged s r : (1 ≤ sc_workers s)%nat → room s r = false → engaged r.
Proof.
  intros Hw Hr. unfold room in Hr. apply Nat.ltb_ge in Hr. left. unfold in_flight. destruct (rn_jobs r); [cbn in Hr; lia|done].
Qed.
Lemma sent_invariant s r blocked : (blocked = true → engaged r) → invariant s r → invariant s (sent r blocked).
Proof. intros Hb Hi. unfold sent. destruct blocked; apply (invariant_moved s r); try done; cbn; auto. Qed.
Lemma engaged_kept r j pending resourcePending c blocked :
  (blocked = true → engaged r) →
  blocked = true → engaged (mkRun (rn_cancelled r) (rn_jobs r ++ [j]) (rn_completed r) (rn_workers r) pending resourcePending (rn_timer r) c).
Proof. intros _ _. left. unfold in_flight. cbn. by destruct (rn_jobs r). Qed.

Lemma send_invariant s r r' : (1 ≤ sc_workers s)%nat → invariant s r → send s r = Some r' → invariant s r'.
Proof.
  intros Hw Hi Hs. unfold send in Hs. destruct (rn_control r) as [|now due external blocked| | | |] eqn:Ec; try done.
  pose proof (iv_control _ _ Hi) as Hc. rewrite Ec in Hc. destruct Hc as (Hn & Hfresh & Hb). destruct due as [|id due].
  - injection Hs as <-. destruct (resource_due r now external) eqn:Hd; [|by apply sent_invariant].
    unfold resource_due in Hd. apply andb_true_iff in Hd as [[Hrp%negb_true_iff _]%andb_true_iff _].
    destruct (room s r) eqn:Hroom; [|apply (sent_invariant s r true); [intros _; by eapply full_engaged|done]].
    apply Nat.ltb_lt in Hroom. apply sent_invariant.
    + intros E. by eapply engaged_kept.
    + apply queued_invariant; try done.
      * intros Hin%(iv_resource _ _ Hi). congruence.
      * intros id. split; [by left|by intros [?|?]].
      * split; [by right|done].
      * cbn. rewrite Ec. done.
  - apply NoDup_cons in Hn as [Hid Hn]. injection Hs as <-. destruct (room s r) eqn:Hroom.
    + apply Nat.ltb_lt in Hroom. unfold at_, send_id. cbn. apply queued_invariant; try done.
      * intros Hin%(iv_pending _ _ Hi). by apply (Hfresh id); [left|].
      * intros id'. rewrite elem_of_union, elem_of_singleton. split; [intros [->|?]; auto|intros [?| [= ->]]; auto].
      * split; [by left|by intros [?|?]].
      * split_and!; [done| |done]. intros id' Hin. rewrite not_elem_of_union, not_elem_of_singleton. split; [by intros ->|apply Hfresh; by right].
    + apply (invariant_moved s r); try done. cbn. split_and!; [done| |intros _; by eapply full_engaged]. intros id' Hin. apply Hfresh. by right.
Qed.

Lemma complete_invariant s r j rest : rn_completed r = j :: rest → invariant s r → invariant s (complete r j rest).
Proof.
  intros Ej []. set (r' := complete r j rest).
  assert (in_flight r ≡ₚ j :: in_flight r') as Ef.
  { unfold in_flight, r'. cbn. rewrite Ej. rewrite !(app_assoc (rn_jobs r)). by rewrite <- Permutation_middle. }
  rewrite Ef in iv_unique0. apply NoDup_cons in iv_unique0 as [Hj Hnd].
  assert (∀ x, x ∈ in_flight r ↔ x = j ∨ x ∈ in_flight r') as Hin by (intros x; by rewrite Ef, elem_of_cons).
  split; try done.
  - intros id Hid. assert (id ∈ rn_pending r) as Hp by (apply iv_pending0, Hin; by right). cbn. destruct j as [id'|]; [|done].
    apply elem_of_difference. split; [done|]. intros ->%elem_of_singleton. done.
  - intros Hres. cbn. destruct j; [apply iv_resource0, Hin; by right|done].
  - intros Ec. destruct (iv_exact0 Ec) as [He1 He2]. split.
    + intros id Hid. cbn in Hid. destruct j as [id'|].
      * apply elem_of_difference in Hid as [Hid Hne]. apply He1, Hin in Hid as [[= ->]|?]; [set_solver|done].
      * by apply He1, Hin in Hid as [?|?].
    + intros Hrp. cbn in Hrp. destruct j as [id'|]; [|done]. by apply He2, Hin in Hrp as [?|?].
  - cbn. rewrite Ej in iv_completed0. cbn in iv_completed0. lia.
Qed.

(** ** The steps of the workers *)
(** A step of a worker keeps the jobs in flight, or drops some once cancelled. *)
Lemma worker_invariant s r r' :
  rn_cancelled r' = rn_cancelled r → rn_pending r' = rn_pending r → rn_resourcePending r' = rn_resourcePending r →
  rn_control r' = rn_control r → length (rn_workers r') = length (rn_workers r) →
  (length (rn_jobs r') ≤ sc_workers s)%nat → (length (rn_completed r') ≤ sc_workers s)%nat →
  (in_flight r' ≡ₚ in_flight r ∨ rn_cancelled r = true ∧ ∃ j, in_flight r ≡ₚ j :: in_flight r') →
  (rn_cancelled r = false → Forall (λ w, w ≠ WGone) (rn_workers r')) →
  invariant s r → invariant s r'.
Proof.
  intros E1 E2 E3 E4 Ew Hj Hcm Ef Ha [].
  assert (∀ x, x ∈ in_flight r' → x ∈ in_flight r) as Hin.
  { intros x Hx. destruct Ef as [Ef|(_ & j & Ef)]; [by rewrite <- Ef|rewrite Ef; by right]. }
  assert (engaged r → engaged r') as Heng.
  { intros [Hne|?]; [|right; congruence]. destruct Ef as [Ef|(? & _)]; [left|right; congruence]. intros E. rewrite E in Ef. by apply Permutation_nil_l in Ef. }
  split; rewrite ?E1, ?E2, ?E3, ?Ew; try done.
  - destruct Ef as [Ef|(_ & j & Ef)]; [by rewrite Ef|]. rewrite Ef in iv_unique0. by apply NoDup_cons in iv_unique0 as [_ ?].
  - intros id Hid. auto.
  - intros Hr. auto.
  - intros Ec. destruct Ef as [Ef|(? & _)]; [|congruence]. destruct (iv_exact0 Ec). split; intros; rewrite Ef; auto.
  - rewrite E4. destruct (rn_control r); try done; try auto. destruct iv_control0 as (? & ? & ?). auto.
Qed.
Lemma gone_insert ws i w w' : ws !! i = Some w → w' ≠ WGone → Forall (λ w, w ≠ WGone) ws → Forall (λ w, w ≠ WGone) (<[i := w']> ws).
Proof. intros Hi Hw Hf. by apply Forall_insert. Qed.

Lemma take_invariant s r i r' : invariant s r → take r i = Some r' → invariant s r'.
Proof.
  intros Hi Ht. unfold take in Ht. destruct (rn_workers r !! i) as [[| | |]|] eqn:Ei; try done. destruct (rn_jobs r) as [|j rest] eqn:Ej; [done|].
  injection Ht as <-. pose proof (iv_jobs _ _ Hi) as Hjobs. rewrite Ej in Hjobs. cbn in Hjobs.
  apply (worker_invariant s r); try done; try apply length_insert; cbn -[in_flight].
  - lia.
  - apply (iv_completed _ _ Hi).
  - destruct (workers_at (rn_workers r) i WIdle (if rn_cancelled r then WGone else WRun j) Ei) as (others & E1 & E2).
    unfold in_flight. cbn [rn_jobs rn_completed rn_workers with_worker with_jobs with_completed].
    destruct (rn_cancelled r); [right; split; [done|]; exists j|left]; rewrite E1, E2, Ej; cbn; [done|by rewrite <- Permutation_middle].
  - intros Ec. rewrite Ec. eapply gone_insert; [done..|]. by apply (iv_alive _ _ Hi).
Qed.
Lemma finish_invariant s r i r' : invariant s r → finish r i = Some r' → invariant s r'.
Proof.
  intros Hi Ht. unfold finish in Ht. destruct (rn_workers r !! i) as [[|j| |]|] eqn:Ei; try done. injection Ht as <-.
  apply (worker_invariant s r); try done; try apply length_insert; cbn -[in_flight].
  - apply (iv_jobs _ _ Hi).
  - apply (iv_completed _ _ Hi).
  - left. destruct (workers_at (rn_workers r) i (WRun j) (WReport j) Ei) as (others & E1 & E2). unfold in_flight. cbn [rn_jobs rn_completed rn_workers with_worker with_jobs with_completed]. by rewrite E1, E2.
  - intros Ec. eapply gone_insert; [done..|]. by apply (iv_alive _ _ Hi).
Qed.
Lemma report_invariant s r i r' : invariant s r → report s r i = Some r' → invariant s r'.
Proof.
  intros Hi Ht. unfold report in Ht. destruct (rn_workers r !! i) as [[| |j|]|] eqn:Ei; try done.
  destruct (_ <? _)%nat eqn:Hr; [|done]. apply Nat.ltb_lt in Hr. injection Ht as <-. apply (worker_invariant s r); try done; try apply length_insert; cbn -[in_flight].
  - apply (iv_jobs _ _ Hi).
  - rewrite length_app. cbn. lia.
  - left. destruct (workers_at (rn_workers r) i (WReport j) WIdle Ei) as (others & E1 & E2). unfold in_flight. cbn [rn_jobs rn_completed rn_workers with_worker with_jobs with_completed]. rewrite E1, E2. cbn.
    apply Permutation_app_head. rewrite app_assoc. symmetry. apply Permutation_cons_append.
  - intros Ec. eapply gone_insert; [done..|]. by apply (iv_alive _ _ Hi).
Qed.
Lemma quit_invariant s r i r' : invariant s r → quit r i = Some r' → invariant s r'.
Proof.
  intros Hi Ht. unfold quit in Ht.
  assert (∃ w, rn_workers r !! i = Some w ∧ rn_cancelled r = true ∧ r' = with_worker r i WGone ∧ (length (worker_jobs w) ≤ 1)%nat) as (w & Ei & Ec & -> & Hw).
  { destruct (rn_workers r !! i) as [[| | |]|] eqn:Ei; try done; destruct (rn_cancelled r) eqn:Ec; try done; injection Ht as <-;
      eexists; (split_and!; [done..|cbn; lia]). }
  apply (worker_invariant s r); try done; try apply length_insert; cbn -[in_flight].
  - apply (iv_jobs _ _ Hi).
  - apply (iv_completed _ _ Hi).
  - destruct (workers_at (rn_workers r) i w WGone Ei) as (others & E1 & E2). unfold in_flight.
    cbn [rn_jobs rn_completed rn_workers with_worker with_jobs with_completed].
    destruct (worker_jobs w) as [|j [|]]; cbn in Hw; [left|right; split; [done|]; exists j|lia]; rewrite E1, E2; cbn; [done|by rewrite <- Permutation_middle].
  - congruence.
Qed.

(** ** Every reachable state is sound *)
Lemma on_run_Some s f s' : on_run s f = Some s' → ∃ r r', sc_run s = Some r ∧ f r = Some r' ∧ s' = with_run s (Some r').
Proof. unfold on_run. destruct (sc_run s) as [r|]; [|done]. destruct (f r) as [r'|] eqn:E; [|done]. intros [= <-]. eauto. Qed.

(** A step of the run preserves soundness when it preserves the invariant. *)
Lemma on_run_sound s0 s f s' :
  sound s0 → sc_workers s = sc_workers s0 → sc_run s = sc_run s0 → on_run s f = Some s' →
  (∀ r r', invariant s0 r → f r = Some r' → invariant s0 r') → sound s'.
Proof.
  intros [Hw Hi] Ew Er (r & r' & Hr & Hf & ->)%on_run_Some Hpres. split; [cbn; lia|]. cbn. rewrite Er in Hr. rewrite Hr in Hi.
  eapply (invariant_same s0); [done|by eapply Hpres].
Qed.
Lemma selecting_moved s r : invariant s r → invariant s (at_ r PcTop).
Proof. intros Hi. by apply (invariant_moved s r). Qed.

Ltac in_run Hs He := eapply (on_run_sound _ _ _ _ Hs); [| |exact He|]; [done|done|]; cbn; intros r r' Hi Hf.
Lemma exec_sound s l s' : sound s → exec s l = Some s' → sound s'.
Proof.
  intros Hs He. destruct l; cbn [exec] in He.
  - injection He as <-. destruct Hs as [? Hi]. split; [done|]. cbn. destruct (sc_run s); [|done]. by apply (invariant_same s).
  - injection He as <-. destruct Hs as [? Hi]. split; [done|]. cbn. destruct (sc_run s); [|done]. by apply (invariant_same s).
  - injection He as <-. destruct Hs as [? Hi]. split; [done|]. cbn. destruct (sc_run s); [|done]. by apply (invariant_same s).
  - unfold Start in He. destruct (sc_run s) eqn:Er; injection He as <-; [done|]. destruct Hs as [? _]. split; [done|].
    cbn. by apply (invariant_same s), start_invariant.
  - injection He as <-. destruct Hs as [? Hi]. split; [done|]. cbn. destruct (sc_run s); [|done]. by apply (invariant_same s), cancel_invariant.
  - in_run Hs He. destruct (rn_control r) eqn:Ec; try done. destruct (listed entries) eqn:El; [|done]. injection Hf as <-. by apply look_invariant.
  - in_run Hs He. eapply send_invariant; [|done..]. apply Hs.
  - in_run Hs He. destruct (rn_control r) eqn:Ec; try done. destruct (listed entries) eqn:El; [|done]. injection Hf as <-. by apply (invariant_moved s r).
  - in_run Hs He. destruct (rn_control r) eqn:Ec; try done. destruct (rn_timer r); [|done]. destruct (_ <=? _); [|done]. injection Hf as <-. by apply (invariant_moved s r).
  - in_run Hs He. destruct (rn_completed r) as [|j rest] eqn:Ej; [done|]. destruct (selecting r); [|done]. injection Hf as <-. by apply complete_invariant.
  - destruct (sc_wake s); [|done]. in_run Hs He. destruct (selecting r); [|done]. injection Hf as <-. by apply selecting_moved.
  - destruct (sc_resourceWake s); [|done]. in_run Hs He. destruct (selecting r); [|done]. injection Hf as <-. by apply selecting_moved.
  - in_run Hs He. destruct (_ && _); [|done]. injection Hf as <-. by apply selecting_moved.
  - in_run Hs He. by eapply take_invariant.
  - in_run Hs He. by eapply finish_invariant.
  - in_run Hs He. by eapply report_invariant.
  - in_run Hs He. by eapply quit_invariant.
  - destruct Hs as [? Hi]. destruct (sc_run s) as [r|]; [|done]. destruct (rn_control r); try done. destruct (bool_decide _); [|done]. by injection He as <-.
Qed.
Lemma reachable_sound workers s : reachable (NewScheduler workers) s → sound s.
Proof. induction 1; [apply NewScheduler_sound|by eapply exec_sound]. Qed.
