(* ===== verification/SubscriptionSchedulerRun.v ===== *)
(** * What the runs of the subscription scheduler promise

    No subscription is refreshed twice at once, no deadline is slept through, a
    full queue empties, and a cancelled run ends. *)
From S2P Require Import Prelude GoTime GoStrings GoSort ConfigTypes SubscriptionModel SubscriptionFacts SubscriptionScheduler SubscriptionSchedulerFacts.
Open Scope Z_scope.

Fixpoint exec_all (s : Scheduler) (ls : list label) : option Scheduler :=
  match ls with
  | [] => Some s
  | l :: ls => match exec s l with Some s' => exec_all s' ls | None => None end
  end.
Lemma exec_all_sound s ls s' : sound s → exec_all s ls = Some s' → sound s'.
Proof.
  revert s. induction ls as [|l ls IH]; intros s Hs; cbn; [by intros [= <-]|].
  destruct (exec s l) as [s1|] eqn:E; [|done]. apply IH. by eapply exec_sound.
Qed.
(** A measure that some labels decrease bounds their sequences. *)
Lemma exec_all_bounded (P : label → Prop) (I : Scheduler → Prop) (measure : Scheduler → nat) :
  (∀ s l s', I s → P l → exec s l = Some s' → I s' ∧ (measure s' < measure s)%nat) →
  ∀ ls s s', I s → Forall P ls → exec_all s ls = Some s' → I s' ∧ (length ls + measure s' ≤ measure s)%nat.
Proof.
  intros Hstep ls. induction ls as [|l ls IH]; intros s s' Hi HP; cbn; [by intros [= <-]|].
  apply Forall_cons in HP as [Hl HP]. destruct (exec s l) as [s1|] eqn:E; [|done].
  destruct (Hstep s l s1 Hi Hl E) as [Hi1 Hm]. intros Hr. destruct (IH s1 s' Hi1 HP Hr). split; [done|lia].
Qed.

(** C37: in every run of a scheduler there are between one and eight workers, no
    subscription and no resource refresh is in flight twice, at most three jobs
    per worker are in flight, and until the run is cancelled what is pending is
    exactly what is in flight. *)
Theorem scheduler_exclusive workers s r :
  reachable (NewScheduler workers) s → sc_run s = Some r →
  (1 ≤ sc_workers s ≤ 8)%nat ∧ NoDup (in_flight r) ∧ (length (in_flight r) ≤ 3 * sc_workers s)%nat ∧
  (rn_cancelled r = false →
    (∀ id, id ∈ rn_pending r ↔ JSubscription id ∈ in_flight r) ∧ (rn_resourcePending r = true ↔ JResource ∈ in_flight r)).
Proof.
  intros [Hw Hi]%reachable_sound Hr. rewrite Hr in Hi. destruct Hi.
  split_and!; [apply Hw|apply Hw|done| |].
  - assert (length (rn_workers r ≫= worker_jobs) ≤ 1 * length (rn_workers r))%nat as Hl by (apply bind_length_le; intros []; cbn; lia).
    unfold in_flight. rewrite !length_app. lia.
  - intros Ec. destruct (iv_exact Ec). split; [split|split]; auto.
Qed.

(** ** Deadlines *)
Lemma combined_next_spec a b : a ≠ 0 ∨ b ≠ 0 → combined_next a b ≠ 0 ∧ (a ≠ 0 → combined_next a b ≤ a) ∧ (b ≠ 0 → combined_next a b ≤ b).
Proof.
  unfold combined_next, time_is_zero, time_before, zero_time. intros Hab.
  destruct (b =? 0) eqn:Eb; destruct (a =? 0) eqn:Ea; destruct (b <? a) eqn:El; cbn; go_bool; lia.
Qed.
(** The resources have a deadline to wait for. *)
Definition resources_scheduled (s : Scheduler) (r : Run) (external : time) : Prop :=
  sc_hasNext s = true ∧ sc_hasEnqueue s = true ∧ rn_resourcePending r = false ∧ external ≠ 0.
Lemma external_next_spec s r external :
  (resources_scheduled s r external → external_next s r external = external ∧ external ≠ 0) ∧
  (¬ resources_scheduled s r external → external_next s r external = 0).
Proof.
  unfold resources_scheduled, external_next, zero_time.
  destruct (rn_resourcePending r), (sc_hasNext s), (sc_hasEnqueue s); cbn; split; try (intros (? & ? & ? & ?); done); try done.
  destruct (decide (external = 0)) as [->|Hne]; [done|]. intros Hn. by destruct Hn.
Qed.
(** C38: when the loop goes to sleep its timer covers everything scheduled: it fires
    no later than the deadline of any enabled subscription that is not in flight,
    and of the resources when they are configured, or at once where the deadline
    has passed; with nothing scheduled there is no timer. *)
Theorem scheduler_arms s now entries external at_now s' r' :
  exec s (LArm now entries external at_now) = Some s' → sc_run s' = Some r' →
  (∀ id e, (id, e) ∈ entries → scheduled (rn_pending r') id e → due_time now e ≠ 0) →
  rn_control r' = PcWait ∧
  (∀ id e, (id, e) ∈ entries → scheduled (rn_pending r') id e → ∃ t, rn_timer r' = Some t ∧ t ≤ Z.max at_now (due_time now e)) ∧
  (resources_scheduled s' r' external → ∃ t, rn_timer r' = Some t ∧ t ≤ Z.max at_now external) ∧
  ((∀ id e, (id, e) ∈ entries → ¬ scheduled (rn_pending r') id e) → ¬ resources_scheduled s' r' external → rn_timer r' = None).
Proof.
  cbn [exec]. intros (r & r1 & Hr & Ha & ->)%on_run_Some [= ->] Hnz. destruct (rn_control r); try done. destruct (listed entries); [|done].
  injection Ha as <-. set (n := nextDue entries now (rn_pending r)). set (x := external_next s r external).
  change (resources_scheduled _ (arm s r now entries external at_now) external) with (resources_scheduled s r external).
  destruct (external_next_spec s r external) as [Hset Hunset]. fold x in Hset, Hunset. cbn [arm with_timer at_ rn_pending rn_timer rn_control] in *. fold n x.
  assert ((n = 0 ∧ ∀ e, e ∈ entries → ¬ scheduled (rn_pending r) e.1 e.2) ∨ n ≠ 0 ∧ ∀ e, e ∈ entries → scheduled (rn_pending r) e.1 e.2 → n ≤ due_time now e.2) as Hn.
  { unfold n, nextDue, dueIDs. destruct (scan_due_next now (rn_pending r) entries [] zero_time) as (Hcase & Hmin & _).
    - intros [id e] Hin. by apply (Hnz id e).
    - destruct (foldl _ _ entries) as [ids next]. cbn in *. destruct Hcase as [[-> Hnone]|[Hne _]]; [left|right; done].
      split; [done|]. intros e He. by apply Hnone. }
  unfold time_is_zero, zero_time. split_and!; [done| | |].
  - intros id e Hin Hs. destruct Hn as [[_ Hn]|[Hne Hmin]]; [by destruct (Hn (id, e) Hin)|].
    destruct (combined_next_spec n x (or_introl Hne)) as (Hc & Hle & _). rewrite (proj2 (Z.eqb_neq _ _) Hc).
    eexists. split; [done|]. specialize (Hmin (id, e) Hin Hs). cbn in Hmin. specialize (Hle Hne). lia.
  - intros [Hxe Hne]%Hset. assert (x ≠ 0) as Hx by by rewrite Hxe. destruct (combined_next_spec n x (or_intror Hx)) as (Hc & _ & Hle). rewrite (proj2 (Z.eqb_neq _ _) Hc).
    eexists. split; [done|]. specialize (Hle Hx). lia.
  - intros Hnone Hx%Hunset. assert (n = 0) as ->.
    { destruct Hn as [[? _]|[Hne _]]; [done|]. destruct Hne. unfold n, nextDue, dueIDs.
      destruct (scan_due_next now (rn_pending r) entries [] zero_time) as (Hcase & _ & _); [intros [id e] Hin; by apply (Hnz id e)|].
      destruct (foldl _ _ entries) as [ids next]. cbn in *. destruct Hcase as [[-> _]|(_ & [id e] & Hin & Hsc & _)]; [done|].
      by destruct (Hnone id e Hin). }
    rewrite Hx. done.
Qed.

(** ** Workers hand their jobs back *)
Definition worker_label (l : label) : Prop := match l with LTake _ | LFinish _ | LReport _ => True | _ => False end.
Definition worker_rank (busy reporting idle gone : nat) (w : Worker) : nat :=
  match w with WRun _ => busy | WReport _ => reporting | WIdle => idle | WGone => gone end.
Definition ranks (f : Worker → nat) (ws : list Worker) : nat := sum_list_with f ws.
Lemma ranks_insert f ws i w w' : ws !! i = Some w → (ranks f (<[i := w']> ws) + f w = ranks f ws + f w')%nat.
Proof.
  unfold ranks. revert i. induction ws as [|x ws IH]; intros [|i]; [done..| |].
  - intros [= <-]. cbn. lia.
  - intros Hi. specialize (IH i Hi). change (<[S i := w']> (x :: ws)) with (x :: <[i := w']> ws). cbn [sum_list_with]. lia.
Qed.
(** Steps until all jobs are reported. *)
Definition work (r : Run) : nat := (3 * length (rn_jobs r) + ranks (worker_rank 2 1 0 0) (rn_workers r))%nat.
Definition work_of (s : Scheduler) : nat := match sc_run s with Some r => work r | None => 0 end.

(** A loop that waits with a job in flight, not cancelled. *)
Definition waiting (s : Scheduler) : Prop :=
  sound s ∧ ∃ r, sc_run s = Some r ∧ rn_cancelled r = false ∧ selecting r = true ∧ in_flight r ≠ [].

(** A step of a worker of a run that is not cancelled. *)
Lemma worker_step s r l s' : sc_run s = Some r → rn_cancelled r = false → worker_label l → exec s l = Some s' →
  ∃ r', s' = with_run s (Some r') ∧ rn_cancelled r' = false ∧ rn_control r' = rn_control r ∧ (work r' < work r)%nat ∧ (in_flight r = [] ↔ in_flight r' = []).
Proof.
  intros Hr Hc Hl He. assert (∀ a b : list Job, a ≡ₚ b → (a = [] ↔ b = [])) as Hnil.
  { intros a b Hab. split; intros ->; [by apply Permutation_nil_l in Hab|by apply Permutation_nil_r in Hab]. }
  destruct l; try done; cbn [exec] in He; apply on_run_Some in He as (r0 & r' & Hr0 & Hf & ->); rewrite Hr in Hr0; injection Hr0 as <-;
    exists r'; (split; [done|]); unfold work, in_flight.
  - unfold take in Hf. destruct (rn_workers r !! i) as [[| | |]|] eqn:Ei; try done. destruct (rn_jobs r) as [|j rest] eqn:Ej; [done|].
    rewrite Hc in Hf. injection Hf as <-. cbn [rn_jobs rn_completed rn_workers rn_cancelled rn_control with_worker with_jobs].
    pose proof (ranks_insert (worker_rank 2 1 0 0) _ i _ (WRun j) Ei) as Hrk. cbn [worker_rank] in Hrk. split_and!; [done..|cbn [length]; lia|].
    apply Hnil. destruct (workers_at _ i _ (WRun j) Ei) as (others & E1 & E2). rewrite E1, E2. cbn. by rewrite <- Permutation_middle.
  - unfold finish in Hf. destruct (rn_workers r !! i) as [[|j| |]|] eqn:Ei; try done. injection Hf as <-.
    cbn [rn_jobs rn_completed rn_workers rn_cancelled rn_control with_worker].
    pose proof (ranks_insert (worker_rank 2 1 0 0) _ i _ (WReport j) Ei) as Hrk. cbn [worker_rank] in Hrk. split_and!; [done..|lia|].
    apply Hnil. destruct (workers_at _ i _ (WReport j) Ei) as (others & E1 & E2). by rewrite E1, E2.
  - unfold report in Hf. destruct (rn_workers r !! i) as [[| |j|]|] eqn:Ei; try done. destruct (_ <? _)%nat; [|done]. injection Hf as <-.
    cbn [rn_jobs rn_completed rn_workers rn_cancelled rn_control with_worker with_completed].
    pose proof (ranks_insert (worker_rank 2 1 0 0) _ i _ WIdle Ei) as Hrk. cbn [worker_rank] in Hrk. split_and!; [done..|lia|].
    apply Hnil. destruct (workers_at _ i _ WIdle Ei) as (others & E1 & E2). rewrite E1, E2. cbn.
    apply Permutation_app_head. rewrite app_assoc. apply Permutation_cons_append.
Qed.
Lemma worker_step_waiting s l s' : waiting s → worker_label l → exec s l = Some s' → waiting s' ∧ (work_of s' < work_of s)%nat.
Proof.
  intros (Hs & r & Hr & Hc & Hsel & Hne) Hl He. destruct (worker_step s r l s' Hr Hc Hl He) as (r' & -> & Hc' & Hctl & Hw & Hnil).
  split; [split; [by eapply exec_sound|]|unfold work_of; by rewrite Hr]. exists r'. split_and!; [done|done| |by rewrite <- Hnil].
  unfold selecting in *. by rewrite Hctl.
Qed.
(** Where no worker can move, a completion waits. *)
Lemma stuck_received s : waiting s → (∀ l, worker_label l → exec s l = None) → is_Some (exec s LReceive).
Proof.
  intros ([Hw Hi] & r & Hr & Hc & Hsel & Hne) Hstuck. rewrite Hr in Hi. unfold exec, on_run. rewrite Hr, Hsel.
  destruct (rn_completed r) as [|j rest] eqn:Ecm; [exfalso|by eexists]. destruct Hi.
  assert (∀ i w, rn_workers r !! i = Some w → w = WIdle) as Hidle.
  { intros i w Hi. destruct w as [|j|j|]; [done| | |].
    - specialize (Hstuck (LFinish i) I). cbn [exec] in Hstuck. unfold on_run in Hstuck. rewrite Hr in Hstuck. unfold finish in Hstuck. by rewrite Hi in Hstuck.
    - specialize (Hstuck (LReport i) I). cbn [exec] in Hstuck. unfold on_run in Hstuck. rewrite Hr in Hstuck. unfold report in Hstuck.
      rewrite Hi, Ecm in Hstuck. cbn [length] in Hstuck. by rewrite (proj2 (Nat.ltb_lt 0 _)) in Hstuck by lia.
    - specialize (iv_alive Hc). rewrite Forall_lookup in iv_alive. by destruct (iv_alive i WGone Hi). }
  assert (rn_workers r ≫= worker_jobs = []) as Hnone.
  { clear -Hidle. induction (rn_workers r) as [|w ws IH]; [done|]. rewrite bind_cons, (Hidle 0%nat w eq_refl). apply IH. intros i. apply (Hidle (S i)). }
  unfold in_flight in Hne. rewrite Hnone, Ecm, app_nil_r in Hne. destruct (rn_jobs r) as [|j rest] eqn:Ej; [done|].
  destruct (lookup_lt_is_Some_2 (rn_workers r) 0) as [w Hw0]; [lia|]. pose proof (Hidle _ _ Hw0) as ->.
  specialize (Hstuck (LTake 0) I). cbn [exec] in Hstuck. unfold on_run in Hstuck. rewrite Hr in Hstuck. unfold take in Hstuck. by rewrite Hw0, Ej in Hstuck.
Qed.

(** C39: a loop that waits because the queue was full is released: however the
    workers run, after at most [work] of their steps they have handed back a job,
    and the loop can receive it. *)
Theorem blocked_released workers s r :
  reachable (NewScheduler workers) s → sc_run s = Some r → rn_control r = PcBlocked → rn_cancelled r = false →
  ∀ ls s', Forall worker_label ls → exec_all s ls = Some s' →
    (length ls ≤ work r)%nat ∧ ((∀ l, worker_label l → exec s' l = None) → is_Some (exec s' LReceive)).
Proof.
  intros Hs%reachable_sound Hr Hctl Hc ls s' Hls He.
  assert (waiting s) as Hwait.
  { split; [done|]. exists r. split_and!; [done|done|unfold selecting; by rewrite Hctl|].
    destruct Hs as [_ Hi]. rewrite Hr in Hi. pose proof (iv_control _ _ Hi) as Heng. rewrite Hctl in Heng. destruct Heng; [done|congruence]. }
  destruct (exec_all_bounded worker_label waiting work_of worker_step_waiting ls s s' Hwait Hls He) as [Hw' Hb].
  unfold work_of at 2 in Hb. rewrite Hr in Hb. split; [lia|]. by apply stuck_received.
Qed.

(** ** A cancelled run ends *)
(** Everything but calls from outside. *)
Definition internal (l : label) : Prop := match l with LConfigure _ _ | LWakeResources | LSignal | LStart | LCancel => False | _ => True end.
Definition control_rank (c : control) : nat :=
  match c with PcClosing => 0 | PcTop => 1 | PcBlocked | PcWait => 2 | PcArm => 3 | PcSend _ due _ _ => 4 + length due end.
Definition rest (s : Scheduler) : nat :=
  match sc_run s with
  | Some r => S (control_rank (rn_control r) + ranks (worker_rank 3 2 1 0) (rn_workers r))
  | None => 0
  end.
Definition ending (s : Scheduler) : Prop := match sc_run s with Some r => rn_cancelled r = true | None => True end.

Lemma send_rank s r r' : send s r = Some r' → rn_cancelled r' = rn_cancelled r ∧ rn_workers r' = rn_workers r ∧ (control_rank (rn_control r') < control_rank (rn_control r))%nat.
Proof.
  unfold send. destruct (rn_control r) as [|now [|id due] external blocked| | | |]; try done; intros [= <-].
  - unfold sent. destruct (resource_due _ _ _), (room s r), blocked; cbn; split_and!; try done; lia.
  - destruct (room s r); cbn; split_and!; try done; lia.
Qed.
Lemma selecting_rank r : selecting r = true → control_rank (rn_control r) = 2%nat.
Proof. unfold selecting. by destruct (rn_control r). Qed.
Lemma internal_step s l s' : ending s → internal l → exec s l = Some s' → ending s' ∧ (rest s' < rest s)%nat.
Proof.
  unfold ending, rest. intros Hc Hl He.
  assert (∀ s1 f, sc_run s1 = sc_run s → on_run s1 f = Some s' →
    (∀ r r', rn_cancelled r = true → f r = Some r' → rn_cancelled r' = true ∧
      (control_rank (rn_control r') + ranks (worker_rank 3 2 1 0) (rn_workers r') < control_rank (rn_control r) + ranks (worker_rank 3 2 1 0) (rn_workers r))%nat) →
    match sc_run s' with Some r => rn_cancelled r = true | None => True end ∧
    (match sc_run s' with Some r => S (control_rank (rn_control r) + ranks (worker_rank 3 2 1 0) (rn_workers r)) | None => 0 end <
     match sc_run s with Some r => S (control_rank (rn_control r) + ranks (worker_rank 3 2 1 0) (rn_workers r)) | None => 0 end)%nat) as Hrun.
  { intros s1 f E1 (r & r' & Hr & Hf & ->)%on_run_Some Hstep. rewrite E1 in Hr. rewrite Hr in Hc |- *. destruct (Hstep r r' Hc Hf). cbn -[ranks]. split; [done|lia]. }
  destruct l; try done; cbn [exec] in He.
  - apply (Hrun _ _ eq_refl He). intros r r' Ec Hf. destruct (rn_control r) eqn:Ectl; try done. destruct (listed entries); [|done]. injection Hf as <-.
    unfold look. rewrite Ec. cbn -[ranks]. split; [done|lia].
  - apply (Hrun _ _ eq_refl He). intros r r' Ec (Ec' & -> & Hlt)%send_rank. split; [congruence|lia].
  - apply (Hrun _ _ eq_refl He). intros r r' Ec Hf. destruct (rn_control r) eqn:Ectl; try done. destruct (listed entries); [|done]. injection Hf as <-. cbn -[ranks]. split; [done|lia].
  - apply (Hrun _ _ eq_refl He). intros r r' Ec Hf. destruct (rn_control r) eqn:Ectl; try done. destruct (rn_timer r); [|done]. destruct (_ <=? _); [|done].
    injection Hf as <-. cbn -[ranks]. split; [done|lia].
  - apply (Hrun _ _ eq_refl He). intros r r' Ec Hf. destruct (rn_completed r); [done|]. destruct (selecting r) eqn:Es; [|done]. injection Hf as <-.
    rewrite (selecting_rank _ Es). cbn -[ranks]. split; [done|lia].
  - destruct (sc_wake s); [|done]. apply (Hrun (with_wakes s (sc_resourceWake s) false) _ eq_refl He). intros r r' Ec Hf. destruct (selecting r) eqn:Es; [|done]. injection Hf as <-. rewrite (selecting_rank _ Es). cbn -[ranks]. split; [done|lia].
  - destruct (sc_resourceWake s); [|done]. apply (Hrun (with_wakes s false (sc_wake s)) _ eq_refl He). intros r r' Ec Hf. destruct (selecting r) eqn:Es; [|done]. injection Hf as <-. rewrite (selecting_rank _ Es). cbn -[ranks]. split; [done|lia].
  - apply (Hrun _ _ eq_refl He). intros r r' Ec Hf. destruct (selecting r) eqn:Es; [|done]. cbn [andb] in Hf. rewrite Ec in Hf. injection Hf as <-.
    rewrite (selecting_rank _ Es). cbn -[ranks]. split; [done|lia].
  - apply (Hrun _ _ eq_refl He). intros r r' Ec Hf. unfold take in Hf. destruct (rn_workers r !! i) as [[| | |]|] eqn:Ei; try done. destruct (rn_jobs r); [done|].
    rewrite Ec in Hf. injection Hf as <-. pose proof (ranks_insert (worker_rank 3 2 1 0) _ i _ WGone Ei) as Hrk.
    cbn [worker_rank] in Hrk. cbn [with_worker with_jobs with_completed rn_control rn_workers rn_cancelled]. split; [done|lia].
  - apply (Hrun _ _ eq_refl He). intros r r' Ec Hf. unfold finish in Hf. destruct (rn_workers r !! i) as [[|j| |]|] eqn:Ei; try done. injection Hf as <-.
    pose proof (ranks_insert (worker_rank 3 2 1 0) _ i _ (WReport j) Ei) as Hrk.
    cbn [worker_rank] in Hrk. cbn [with_worker with_jobs with_completed rn_control rn_workers rn_cancelled]. split; [done|lia].
  - apply (Hrun _ _ eq_refl He). intros r r' Ec Hf. unfold report in Hf. destruct (rn_workers r !! i) as [[| |j|]|] eqn:Ei; try done. destruct (_ <? _)%nat; [|done].
    injection Hf as <-. pose proof (ranks_insert (worker_rank 3 2 1 0) _ i _ WIdle Ei) as Hrk.
    cbn [worker_rank] in Hrk. cbn [with_worker with_jobs with_completed rn_control rn_workers rn_cancelled]. split; [done|lia].
  - apply (Hrun _ _ eq_refl He). intros r r' Ec Hf. unfold quit in Hf. rewrite Ec in Hf.
    destruct (rn_workers r !! i) as [[| |j|]|] eqn:Ei; try done; injection Hf as <-;
      pose proof (ranks_insert (worker_rank 3 2 1 0) _ i _ WGone Ei) as Hrk;
      cbn [worker_rank] in Hrk; cbn [with_worker rn_control rn_workers rn_cancelled]; (split; [done|lia]).
  - destruct (sc_run s) as [r|]; [|done]. destruct (rn_control r); try done. destruct (bool_decide _); [|done]. injection He as <-. cbn -[ranks]. split; [done|lia].
Qed.

(** Where a cancelled run cannot move, it has ended. *)
Lemma stuck_ended s : ending s → (∀ l, internal l → exec s l = None) → sc_run s = None.
Proof.
  unfold ending. intros Hc Hstuck. destruct (sc_run s) as [r|] eqn:Hr; [exfalso|done].
  destruct (rn_control r) as [|now due external blocked| | | |] eqn:Ectl.
  - specialize (Hstuck (LLook 0 [] 0) I). cbn [exec] in Hstuck. unfold on_run in Hstuck. by rewrite Hr, Ectl in Hstuck.
  - specialize (Hstuck LSend I). cbn [exec] in Hstuck. unfold on_run, send in Hstuck. rewrite Hr, Ectl in Hstuck. by destruct due.
  - specialize (Hstuck (LArm 0 [] 0 0) I). cbn [exec] in Hstuck. unfold on_run in Hstuck. by rewrite Hr, Ectl in Hstuck.
  - specialize (Hstuck LDone I). cbn [exec] in Hstuck. unfold on_run, selecting in Hstuck. by rewrite Hr, Ectl, Hc in Hstuck.
  - specialize (Hstuck LDone I). cbn [exec] in Hstuck. unfold on_run, selecting in Hstuck. by rewrite Hr, Ectl, Hc in Hstuck.
  - assert (Forall (λ w, w = WGone) (rn_workers r)) as Hgone.
    { rewrite Forall_lookup. intros i w Hi. destruct w as [|j|j|]; [| | |done].
      - specialize (Hstuck (LQuit i) I). cbn [exec] in Hstuck. unfold on_run, quit in Hstuck. by rewrite Hr, Hi, Hc in Hstuck.
      - specialize (Hstuck (LFinish i) I). cbn [exec] in Hstuck. unfold on_run, finish in Hstuck. by rewrite Hr, Hi in Hstuck.
      - specialize (Hstuck (LQuit i) I). cbn [exec] in Hstuck. unfold on_run, quit in Hstuck. by rewrite Hr, Hi, Hc in Hstuck. }
    specialize (Hstuck LClosed I). cbn [exec] in Hstuck. rewrite Hr, Ectl, bool_decide_true in Hstuck by done. done.
Qed.

(** C40: [Stop] returns: once cancelled, a run makes boundedly many steps whatever
    their order, and when none is left it has closed [done], so that the
    scheduler can be started again. *)
Theorem Stop_returns s r ls s' :
  sc_run s = Some r → Forall internal ls → exec_all (Cancel s) ls = Some s' →
  (length ls ≤ S (control_rank (rn_control r) + 3 * length (rn_workers r)))%nat ∧
  ((∀ l, internal l → exec s' l = None) → sc_run s' = None ∧ is_ok (Start s') = true).
Proof.
  intros Hr Hls He. assert (ending (Cancel s)) as Hend by (unfold ending, Cancel; rewrite Hr; done).
  destruct (exec_all_bounded internal ending rest internal_step ls (Cancel s) s' Hend Hls He) as [Hend' Hb].
  split.
  - unfold rest at 2 in Hb. unfold Cancel in Hb. rewrite Hr in Hb. cbn -[ranks] in Hb.
    assert (ranks (worker_rank 3 2 1 0) (rn_workers r) ≤ 3 * length (rn_workers r))%nat.
    { clear. induction (rn_workers r) as [|w ws IH]; unfold ranks in *; cbn [length sum_list_with]; [lia|]. destruct w; cbn [worker_rank]; lia. }
    lia.
  - intros Hstuck. pose proof (stuck_ended s' Hend' Hstuck) as Hnone. split; [done|]. unfold Start. by rewrite Hnone.
Qed.

(** ** A run *)
Lemma exec_all_reachable s0 s ls s' : reachable s0 s → exec_all s ls = Some s' → reachable s0 s'.
Proof.
  revert s. induction ls as [|l ls IH]; intros s Hs; cbn; [by intros [= <-]|].
  destruct (exec s l) as [s1|] eqn:E; [|done]. apply IH. by eapply reach_step.
Qed.

Module Trace.
Definition subscription (id : string) : Subscription := mkSubscription id id "https://example.org/sub" "" true (12 * Hour) (30 * Second) "auto" false false.
Definition never (id : string) : string * privateRecord := (id, new_record (subscription id)).
(** One that was checked at 3. *)
Definition checked (id : string) : string * privateRecord := (id, checked_ok (new_record (subscription id)) 3 "" "" None).
Definition entries : list (string * privateRecord) := [never "b"; checked "c"; never "a"].
Definition begin : list label := [LStart; LLook 5 entries 0; LSend; LSend; LSend].
Definition after (workers : Z) (ls : list label) : Scheduler := default (NewScheduler workers) (exec_all (NewScheduler workers) ls).
(** Two workers take both jobs; one is too few, so the loop waits. *)
Definition idle : Scheduler := after 2 begin.
Definition armed : Scheduler := after 2 (begin ++ [LArm 5 entries 0 6]).
Definition blocked : Scheduler := after 1 begin.
Definition run_of (s : Scheduler) : Run := default (start_run 0) (sc_run s).
Definition handed : list label := [LTake 0; LFinish 0; LReport 0].
Definition closing : list label := [LDone; LLook 7 entries 0; LTake 0; LClosed].
End Trace.
Import Trace.

Lemma scheduler_exclusive_witness :
  in_flight (run_of idle) = [JSubscription "a"; JSubscription "b"] ∧ NoDup (in_flight (run_of idle)).
Proof.
  split; [by vm_compute|].
  assert (reachable (NewScheduler 2) idle) as Hr by (eapply (exec_all_reachable _ _ begin); [apply reach_start|by vm_compute]).
  by destruct (scheduler_exclusive 2 idle (run_of idle) Hr eq_refl) as (_ & ? & _).
Defined.
Lemma scheduler_arms_witness : rn_timer (run_of armed) = Some (3 + 12 * Hour).
Proof.
  destruct (scheduler_arms idle 5 entries 0 6 armed (run_of armed)) as (_ & Hcover & _); [by vm_compute|by vm_compute| |].
  - intros id e Hin _. unfold entries in Hin. repeat (apply elem_of_cons in Hin as [[= -> ->]|Hin]; [by vm_compute|]). by apply not_elem_of_nil in Hin.
  - destruct (Hcover "c" (checked "c").2) as (t & Ht & _).
    + right. by left.
    + split; [done|]. by vm_compute.
    + rewrite Ht. vm_compute in Ht. by injection Ht as <-.
Defined.
Lemma blocked_released_witness : rn_control (run_of blocked) = PcBlocked ∧ is_Some (exec (after 1 (begin ++ handed)) LReceive).
Proof.
  split; [by vm_compute|].
  assert (reachable (NewScheduler 1) blocked) as Hr by (eapply (exec_all_reachable _ _ begin); [apply reach_start|by vm_compute]).
  destruct (blocked_released 1 blocked (run_of blocked) Hr eq_refl eq_refl eq_refl handed (after 1 (begin ++ handed))) as [_ Hend].
  - by repeat constructor.
  - by vm_compute.
  - apply Hend. intros [| | | | | | | | | | | | | [|i]|[|i]|[|i]| |]; done.
Defined.
Lemma Stop_returns_witness :
  ∃ s', exec_all (Cancel blocked) closing = Some s' ∧ sc_run s' = None ∧ is_ok (Start s') = true.
Proof.
  eexists. split; [by vm_compute|]. eapply (Stop_returns blocked (run_of blocked) closing); [by vm_compute|by repeat constructor|by vm_compute|].
  intros []; done.
Defined.
